(* ===== verification/_CoqProject ===== *)
-Q . S2P
Prelude.v
Utf8.v
PyStr.v
Models.v
OperationGate.v
Paths.v
PatchFormat.v
Database.v
Json.v
JsonInjective.v
Envelope.v
Tunnel.v
TunnelMoves.v
TunnelHistory.v
TunnelReplay.v
Relay.v
RelayDispatch.v
Gateway.v
RelayWorld.v
RelayRows.v
RelayMoves.v
RelayHistory.v
RelayGuarantees.v
Approvals.v
ShellOutput.v
Shell.v
ShellJobs.v
ReadText.v
ReadTools.v
PatchService.v
PatchRecovery.v
PatchProgress.v
PatchApply.v
DevicePaths.v
ScopedReads.v
DeviceReads.v
Handler.v
HandlerCalls.v
HandlerGuarantees.v
HandlerSamples.v
HandlerTasks.v
DevServers.v
Frontend.v
FrontendMoves.v
FrontendInvariant.v
FrontendSteps.v
FrontendHistory.v
FrontendGuarantees.v
FrontendSamples.v
DevServerPool.v
DevServerInvariant.v
