(* ===== verification/Prelude.v ===== *)
(** * Codito: a verification development (root file)

    Codito lets a remote model work on the projects of a Windows computer.  An MCP
    client calls a tool of the relay (src/relay); the relay authenticates the
    grant, journals the operation and sends it through a WebSocket tunnel to the
    agent on the device (src/agent); the agent checks the message, journals it,
    asks the local user where the mode of the project requires it, runs it and
    sends the result back.  Both sides share the wire contracts of
    src/packages/protocol.  The development models the decisions of this path:
    what is accepted, what is remembered, what is changed on disk, what is never
    done twice.

    ** Conventions

    A Python [str] is a list of code points ([str]), [bytes] a list of bytes, an
    object read as JSON is [Models.json], a dict used as a table is a [gmap].
    Exceptions are values ([exn]); pure code that raises returns [res]; code with
    state lives in the monad [ST] below, which keeps the changes made before an
    exception.  Coroutines are cut at their awaits: each segment is a computation
    of [ST], and a history is any sequence of segments, of crashes and of calls of
    the rest of the program.  What comes from outside (clocks, fresh identifiers,
    answers of the file system, of the user, of a process or of the network) is an
    argument of a segment, so the theorems hold for all of it; SHA-256, the schemas
    of tool inputs and results, signatures, URL parsing, regular expressions and case
    folding are parameters.

    ** Files

    - Prelude: this file; values, exceptions, the monad, its Hoare triples, the
      relation [along] of a computation to a preorder, shared tactics and hints.
    - Utf8, PyStr: UTF-8 with Python's error handlers; the string methods used.
    - Models: models.py, errors.py, wire_errors.py, access_policy.py.  What a
      mode of a project requires; local errors as wire errors, with the redaction
      of paths in their details ([safe_details_redacted]).
    - OperationGate: operation_gate.py, the exclusive lock of a workspace
      ([gate_mutual_exclusion]).
    - Paths: paths.py and the path types of the protocol.  Which relative paths
      are valid ([validate_relative_path_iff]), that agent and protocol agree
      ([protocol_agent_paths]), and that the resolver never leaves the project,
      reparse points and races included ([resolve_confined],
      [revalidate_same_objects]).
    - PatchFormat: the patch grammar of patching.py and codito_protocol/patch.py
      and the text of files: [parse_render], [text_file_roundtrip],
      [parse_well_formed], [apply_hunks_aligned], [preconditions_cover_sections].
    - Database: db.py, the journal and its tables as finite maps.  Its histories
      keep it well formed ([journal_well_formed]), terminal states final
      ([terminal_state_is_final]), receipts unique ([received_at_most_once]),
      idempotency keys and epochs bound ([idempotency_key_is_bound],
      [connection_epochs_increase]), credentials out ([activity_value_redacted]).
    - Json, JsonInjective: canonical JSON and the action digest, which determines
      the action up to the order of keys ([canonical_action_bytes_injective]).
    - Envelope: codito_protocol/envelope.py, the messages of the tunnel with their
      validators, and the JSON of failures.
    - Tunnel, TunnelMoves, TunnelHistory, TunnelReplay: websocket_client.py.
      Tunnel has the segments of the receive loop and of the tasks; TunnelMoves
      shows that each of them is one of a dozen moves; TunnelHistory and
      TunnelReplay are inductions over moves: [native_action_once],
      [handler_calls_are_bound], [queue_is_bounded], [replay_sends_every_result].
    - Approvals: approvals.py, the prompts, grants and saved permissions of the
      local user: [consent_is_current], [session_grant_provenance],
      [stale_prompt_refused], [project_consent], [saved_permission_is_bound].
    - ShellOutput, Shell, ShellJobs: shell.py.  ShellOutput bounds and pages the
      output of a job ([output_is_longest_prefix], [polling_is_complete],
      [durable_result_is_first_page]); Shell has the segments of a job's task, of
      start, poll, cancel and disconnect; ShellJobs the theorems about all their
      interleavings ([running_jobs_do_not_share], [one_job_per_key],
      [process_is_authorised]).
    - ReadText, ReadTools: read_tools.py, cursors with their round trips, encoding
      detection, globs, and the pages of read_file, list_directory and
      search_text: following the continuations of a read or of a search gives
      everything and ends ([reading_is_complete], [search_is_complete]).
    - PatchService, PatchRecovery, PatchProgress, PatchApply: patching.py, the
      service that applies a patch, over a disk that may fail at every step and a
      process that may die at every step.  PatchRecovery has the Hoare triples of
      commit, rollback and recovery, PatchProgress what happens when nothing
      fails, PatchApply the two theorems: a patch is applied entirely or not at all
      ([apply_is_atomic]) and a dry run tells the truth ([dry_run_predicts]).
    - DevicePaths, ScopedReads: device_paths.py and scoped_read_tools.py, reads
      below a directory the user consented to.  What Windows answers is a function
      of everything asked so far, and the log of it is part of the state, so that a
      statement about the log is one about every moment.  DevicePaths keeps that
      whatever is read or listed is pinned and validated ([ok], [safe_log]) and
      that reading ends; ScopedReads keeps it for the walk and the three
      operations and shows that paging is complete ([scoped_reading_is_complete]).
    - DeviceReads, Handler, HandlerCalls: device_read.py, file_targets.py,
      protocol_adapter.py and project_management.py, from a validated tool call to
      its answer.  HandlerGuarantees: in every run data is read, and a patch handed
      over, only after the consent the mode of the project needs, under a check
      that has just passed ([file_data_needs_consent],
      [device_data_needs_consent]); HandlerSamples has a machine to run them on.
      HandlerTasks: the read slots and the drained worker as step machines
      ([read_slots_are_bounded], [worker_is_drained]).
    - DevServers, DevServerPool, DevServerInvariant: dev_servers.py.  DevServers
      finds the launch configuration of a project and the origin it is bound to;
      DevServerPool has acquire, release, close and the stops of servers as tasks
      that share a lock and two tables; DevServerInvariant shows that no history
      loses a process ([processes_are_tracked]).
    - Frontend: frontend_sessions.py, the starts, operations and closings of the
      managed browser as tasks cut at their awaits, over the tables and locks of
      the manager.  FrontendMoves has the moves a segment consists of,
      FrontendSteps shows that every event is a sequence of them, FrontendInvariant
      what every move keeps (reservations, who closes a page, who holds its lock),
      FrontendHistory what a move may change and what an entry of the log of
      effects says.  FrontendGuarantees: one page per project
      ([pages_are_exclusive]), one call on a page at a time and none after its end
      ([page_calls_are_serialised]), a page only with the consent and the policy
      of the project as it is ([start_is_authorised]), operations only for the
      grant, link and connection that started the session
      ([session_calls_are_bound]), an action not repeated on a snapshot unless it
      was certainly not done ([snapshot_acts_once]).  FrontendSamples runs a
      history on which they are instantiated.

    - Relay, RelayDispatch, Gateway: the relay's side, core/models.py, authz.py,
      dispatch.py and websocket.py.  Relay has the tables, tickets, revocation and
      authentication; RelayDispatch the validation of results, scopes, routes,
      project lists and admission; Gateway what the relay does with the messages
      of a device and how it prepares a dispatch.  Each database function is one
      transaction.
    - RelayWorld: those functions interleaved, the coroutines of tool calls and
      device connections over one database and the streams of Redis.  RelayRows
      has the order in which an operation may change and that every function keeps
      to it ([device_message_is_bound]); RelayMoves shows that every event is one
      of eight moves; RelayHistory is the invariant; RelayGuarantees the theorems
      about every history from the first operation on
      ([native_operation_sent_once], [operation_is_authorised],
      [answers_are_final], [operations_sent_are_live], [device_queue_is_bounded])
      and, on a concrete history, the defects it shows.

    ** How the parts meet

    Tunnel is the client of Database (receipts, states, terminals, epochs) and of
    Json (digests); the operation handler it calls is an input, whose answers are
    those of the services.  PatchService, Shell and Approvals use the idempotency
    rows, projects and permissions of the same Database; Shell uses the gate of
    OperationGate.  The histories of Tunnel and of Shell contain arbitrary calls of
    the rest of the agent to the journal.  The handler is a client of all of them:
    Handler runs PatchService, ReadTools and ScopedReads on a target, Approvals for
    the consent and Database for the policy, over one state ([DeviceReads.agent])
    that other tasks may change at every event ([interfere]).  Frontend asks
    Approvals for the consent to a start, reads the projects of Database and the
    policy of Models again before it opens a page, and acquires and releases the
    servers of DevServerPool; in its histories these may answer anything.  Relay and agent meet in Envelope: what
    the relay sends passes the validation the agent applies
    ([operations_sent_are_live]), both call the same actions unrepeatable
    ([replay_unsafe_agrees]), and each end by itself repeats none of them, the
    relay whatever Redis repeats, the agent whatever the relay redelivers.

    ** Bounds and fuel

    Sizes and limits are those of the sources.  Where a loop is not structural the
    definition takes fuel and a theorem shows how much is enough: the lines of a
    page and the pages of a file ([reading_is_complete], with a bound in the
    length of the text), the matches of a search ([search_is_complete]), the polls
    of a job ([polling_is_complete], one per chunk).  The loops of DevicePaths,
    ScopedReads and DeviceReads run [2 ^ n] turns ([loop]), where [n] covers the
    limit of the source: [READ_TURNS] for the bytes of a file ([reading_stops]),
    [WALK_TURNS] for the entries of a walk ([walk_stops]), [LISTING_TURNS] for a
    listing ([listing_stops]).  The fuel of [watch], the time an analysis is watched, is an
    argument, and the deadline bounds it ([watch_ends]).  Times are microseconds; the
    floating-point representation of clocks is not modelled.

    ** Not modelled

    The desktop window, tray and notifications (desktop_ui.py, ui.py,
    notifications.py, startup.py), the drivers of browser, screen and input
    (frontend_playwright.py, desktop_*.py, screen_capture.py), the language-server client (code_intelligence), OAuth
    pages and login (oidc.py, account.py, the relay's views.py, oauth.py, signals.py
    and forms.py but for the revocation of devices), the MCP server
    (mcp_server.py), credentials kept by the operating system, updates,
    diagnostics, IPC and the Windows sandbox broker: these are input and output of
    libraries, services and the operating system.  Redis is the log of what was
    added to it, of which a reader may be given anything; the isolation of the
    database is taken as it is declared (transactions and row locks).  In the
    handler the screenshot, desktop, shell and frontend services and the analysis
    are parameters (Frontend models the frontend service by itself), and the summaries of answers and the metadata_changed callback
    are left out.  In Frontend the rendered results, the styles and rectangles of
    elements and the shutdown of the browser process are left out, in DevServerPool
    the environment of a new process and the probe of its port.  The schemas of tool inputs and results
    (codito_protocol facade, read, shell, manage, code, frontend, ...) are data
    declarations of pydantic; they are a parameter of Envelope.  Message texts of
    errors and log lines are left out where nothing depends on them. *)

From stdpp Require Export base gmap sets list strings fin_maps.
From Stdlib Require Export NArith ZArith Lia ZifyBool ZifyN ZifyNat.
From Stdlib Require Ascii String.

#[global] Set Default Proof Using "Type".

(** ** Python values

    A Python [str] is the list of its code points, a Python [bytes] the list of
    its byte values.  The element types differ on purpose ([N] against [Z]), so
    that a text is never used where its encoding is meant. *)

Definition str := list N.
Definition bytes := list Z.

#[global] Instance str_eq_dec : EqDecision str := _.
#[global] Instance str_countable : Countable str := _.
#[global] Instance bytes_eq_dec : EqDecision bytes := _.
#[global] Instance bytes_countable : Countable bytes := _.

(** A source literal: [lit "abc"] is the Python string with these characters. *)
Definition lit (s : string) : str :=
  map Ascii.N_of_ascii (String.list_ascii_of_string s).

Declare Scope codito_scope.
Delimit Scope codito_scope with codito.
#[global] Open Scope codito_scope.

Arguments lit s%_string.

(** ** Exceptions

    One constructor per exception class of the sources.  [AgentError] keeps the
    code, the retry flag and the conflict list of its details; message texts are
    not modelled.  [CancelledError] is a [BaseException], which [except
    Exception] does not catch; [Crash] is the death of the process: nothing of
    Python catches it and no [finally] runs after it. *)

Inductive exn : Type :=
| AgentError (code : string) (retryable : bool) (details : list (str * string))
| ToolDispatchError (code : string) (retryable : bool)
| AuthorizationFailure (code : string) (status : Z)
| DeviceAuthenticationError (what : string)
| ValueError (what : string)
| OSError (what : string)
| TimeoutError
| IntegrityError
| DoesNotExist
| MultipleObjectsReturned
| ValidationError                                   (* django.core.exceptions *)
| CancelledError
| Crash.

#[global] Instance exn_eq_dec : EqDecision exn.
Proof. solve_decision. Defined.

Inductive res (A : Type) : Type :=
| Ok (a : A)
| Err (e : exn).
Arguments Ok {A} a.
Arguments Err {A} e.

#[global] Instance res_eq_dec {A} `{EqDecision A} : EqDecision (res A).
Proof. solve_decision. Defined.

(** [raise AgentError(code, ...)], not retryable and without conflict details. *)
Definition agent_error {A} (code : string) : res A := Err (AgentError code false []).
Definition dispatch_error {A} (code : string) : res A := Err (ToolDispatchError code false).

Definition rbind {A B} (m : res A) (k : A -> res B) : res B :=
  match m with Ok a => k a | Err e => Err e end.

Notation "x <-? m ;; k" := (rbind m (fun x => k))
  (at level 100, m at next level, k at level 200, right associativity) : codito_scope.
Notation "m ;;? k" := (rbind m (fun _ => k))
  (at level 100, k at level 200, right associativity) : codito_scope.

(** [if c: raise e] *)
Definition guard_ (c : bool) (e : exn) : res unit := if c then Err e else Ok tt.

Definition is_ok {A} (r : res A) : bool := match r with Ok _ => true | Err _ => false end.

(** ** The state and exception monad

    [ST S A] runs in a state [S] and returns a value or an exception; the
    changes made before an exception stay made, as in Python. *)

Definition ST (S A : Type) : Type := S -> res A * S.

Section ST.
  Context {S : Type}.

Definition ret {A} (a : A) : ST S A := fun s => (Ok a, s).
Definition raise {A} (e : exn) : ST S A := fun s => (Err e, s).
Definition bind {A B} (m : ST S A) (k : A -> ST S B) : ST S B :=
  fun s => match m s with
           | (Ok a, s') => k a s'
           | (Err e, s') => (Err e, s')
           end.
Definition lift {A} (r : res A) : ST S A := fun s => (r, s).
Definition gets {A} (f : S -> A) : ST S A := fun s => (Ok (f s), s).
Definition modify (f : S -> S) : ST S unit := fun s => (Ok tt, f s).
Definition raise_if (c : bool) (e : exn) : ST S unit := if c then raise e else ret tt.
Definition when (c : bool) (m : ST S unit) : ST S unit := if c then m else ret tt.

(** [except Exception]: everything but [BaseException]s and the crash. *)
Definition caught (e : exn) : bool :=
  match e with CancelledError | Crash => false | _ => true end.

Definition try_except {A} (m : ST S A) (h : exn -> ST S A) : ST S A :=
  fun s => match m s with
           | (Err e, s') => if caught e then h e s' else (Err e, s')
           | r => r
           end.

(** [try: m finally: f]: [f] runs on every way out but a crash; an exception
    of [f] replaces the one of [m]. *)
Definition try_finally {A} (m : ST S A) (f : ST S unit) : ST S A :=
  fun s => match m s with
           | (Err Crash, s') => (Err Crash, s')
           | (r, s') => match f s' with
                        | (Ok _, s'') => (r, s'')
                        | (Err e, s'') => (Err e, s'')
                        end
           end.

(** [BEGIN ... COMMIT]: an exception rolls the state back. *)
Definition transaction {A} (m : ST S A) : ST S A := fun s =>
  match m s with
  | (Ok v, s') => (Ok v, s')
  | (Err e, _) => (Err e, s)
  end.

Fixpoint for_each {A} (l : list A) (body : A -> ST S unit) : ST S unit :=
  match l with
  | [] => ret tt
  | a :: r => bind (body a) (fun _ => for_each r body)
  end.
End ST.

Notation "x <- m ;; k" := (bind m (fun x => k))
  (at level 100, m at next level, k at level 200, right associativity) : codito_scope.
Notation "m ;;; k" := (bind m (fun _ => k))
  (at level 100, k at level 200, right associativity) : codito_scope.

(** Hoare triples for [ST]: from a state in [P], [m] either returns a value and
    a state in [Q], or raises with a state in [E]. *)
Definition triple {S A} (P : S -> Prop) (m : ST S A)
    (Q : A -> S -> Prop) (E : exn -> S -> Prop) : Prop :=
  forall s, P s -> match m s with (Ok a, s') => Q a s' | (Err e, s') => E e s' end.

(** ** Automation *)

Create HintDb codito discriminated.
Create Rewrite HintDb codito.

Ltac res_simplify :=
  repeat match goal with
  | H : Ok _ = Ok _ |- _ => injection H as H
  | H : Err _ = Err _ |- _ => injection H as H
  | H : Ok _ = Err _ |- _ => discriminate H
  | H : Err _ = Ok _ |- _ => discriminate H
  | H : Some _ = Some _ |- _ => injection H as H
  | H : Some _ = None |- _ => discriminate H
  | H : None = Some _ |- _ => discriminate H
  | H : (_, _) = (_, _) |- _ => injection H as ?; simplify_eq
  end; simplify_eq.

(** Split the scrutinee of the first [match] of a hypothesis or of the goal. *)
Ltac case_in H :=
  match type of H with
  | context [match ?x with _ => _ end] =>
      lazymatch x with
      | context [match _ with _ => _ end] => fail
      | _ => let E := fresh "E" in destruct x eqn:E
      end
  end; try discriminate H.

Ltac case_goal :=
  match goal with
  | |- context [match ?x with _ => _ end] =>
      lazymatch x with
      | context [match _ with _ => _ end] => fail
      | _ => let E := fresh "E" in destruct x eqn:E
      end
  end.

(** Pass a guard [if b then raise ... else ...] of a successful computation. *)
Ltac pass_guard :=
  lazymatch goal with
  | |- (if ?b then _ else _) = _ -> _ => let E := fresh "E" in destruct b eqn:E; [done|]
  | H : (if ?b then _ else _) = _ |- _ => let E := fresh "E" in destruct b eqn:E; [done|]
  end.

(** Turn boolean tests of the context into propositions. *)
Ltac reflect_bools :=
  repeat match goal with
  | H : bool_decide _ = true |- _ => apply bool_decide_eq_true in H
  | H : bool_decide _ = false |- _ => apply bool_decide_eq_false in H
  | H : (_ && _) = true |- _ => apply andb_true_iff in H as [? ?]
  | H : (_ || _) = false |- _ => apply orb_false_iff in H as [? ?]
  | H : negb _ = true |- _ => apply negb_true_iff in H
  | H : negb _ = false |- _ => apply negb_false_iff in H
  end.

Section triple_lemmas.
  Context {S : Type}.
  Implicit Types P : S -> Prop.

Lemma triple_ret {A} (a : A) P E : triple P (ret a) (fun r s => r = a /\ P s) E.
Proof. intros s Hs. by split. Qed.

Lemma triple_bind {A B} P (m : ST S A) (k : A -> ST S B) Q R E :
  triple P m Q E -> (forall a, triple (Q a) (k a) R E) -> triple P (bind m k) R E.
Proof.
  intros Hm Hk s Hs. unfold bind. specialize (Hm s Hs).
  destruct (m s) as [[a|e] s']; [exact (Hk a s' Hm) | exact Hm].
Qed.

Lemma triple_weaken {A} P P' (m : ST S A) Q Q' E E' :
  triple P' m Q' E' -> (forall s, P s -> P' s) ->
  (forall a s, Q' a s -> Q a s) -> (forall e s, E' e s -> E e s) -> triple P m Q E.
Proof.
  intros Hm HP HQ HE s Hs. specialize (Hm s (HP s Hs)).
  destruct (m s) as [[a|e] s']; auto.
Qed.

Lemma triple_raise {A} e P (Q : A -> S -> Prop) : triple P (raise e) Q (fun e' s => e' = e /\ P s).
Proof. intros s Hs. by split. Qed.

Lemma triple_gets {A} (f : S -> A) P E : triple P (gets f) (fun a s => a = f s /\ P s) E.
Proof. intros s Hs. by split. Qed.

Lemma triple_modify f P Q (E : exn -> S -> Prop) :
  (forall s, P s -> Q tt (f s)) -> triple P (modify f) Q E.
Proof. intros H s Hs. by apply H. Qed.

Lemma triple_pre {A} P P' (m : ST S A) Q E :
  triple P' m Q E -> (forall s, P s -> P' s) -> triple P m Q E.
Proof. intros Hm HP s Hs. apply Hm. auto. Qed.

Lemma triple_exists {A X} (P : X -> S -> Prop) (m : ST S A) Q E :
  (forall x, triple (P x) m Q E) -> triple (fun s => exists x, P x s) m Q E.
Proof. intros H s [x Hs]. by apply (H x). Qed.

Lemma triple_or {A} P P' (m : ST S A) Q E :
  triple P m Q E -> triple P' m Q E -> triple (fun s => P s \/ P' s) m Q E.
Proof. intros H H' s [Hs|Hs]; [by apply H|by apply H']. Qed.

Lemma triple_try_except {A} P (m : ST S A) h Q E1 E :
  triple P m Q E1 -> (forall e, caught e = true -> triple (E1 e) (h e) Q E) ->
  (forall e s, caught e = false -> E1 e s -> E e s) -> triple P (try_except m h) Q E.
Proof.
  intros Hm Hh He s Hs. unfold try_except. specialize (Hm s Hs).
  destruct (m s) as [[a|e] s']; [exact Hm|]. destruct (caught e) eqn:C; [by apply Hh|by apply He].
Qed.

(** [Qf] describes the states after the finaliser. *)
Lemma triple_try_finally {A} P (m : ST S A) f Q1 E1 Q E :
  triple P m Q1 E1 -> (forall s, E1 Crash s -> E Crash s) ->
  (forall a, triple (Q1 a) f (fun _ => Q a) E) ->
  (forall e, e <> Crash -> triple (E1 e) f (fun _ => E e) E) ->
  triple P (try_finally m f) Q E.
Proof.
  intros Hm Hc Hf He s Hs. unfold try_finally. specialize (Hm s Hs).
  destruct (m s) as [[a|e] s'].
  - specialize (Hf a s' Hm). destruct (f s') as [[[]|e] s'']; done.
  - destruct (decide (e = Crash)) as [->|Hne]; [by apply Hc|].
    specialize (He e Hne s' Hm). destruct e; try done; destruct (f s') as [[[]|?] s'']; done.
Qed.

Lemma triple_for_each {A} (I : list A -> S -> Prop) E (l : list A) (body : A -> ST S unit) :
  (forall a r, a :: r `suffix_of` l -> triple (I (a :: r)) (body a) (fun _ => I r) E) ->
  triple (I l) (for_each l body) (fun _ => I []) E.
Proof.
  induction l as [|a r IH]; intros Hb; simpl.
  - intros s Hs. exact Hs.
  - eapply triple_bind; [apply Hb; reflexivity|].
    intros []. apply IH. intros a' r' Hs. apply Hb. by apply suffix_cons_r.
Qed.
End triple_lemmas.

(** ** Computations along a preorder of states *)

Section along.
  Context {S : Type} (R : S -> S -> Prop) `{!PreOrder R}.
  #[local] Set Default Proof Using "Type*".

(** However [m] ends, the new state is related to the old one. *)
Definition along {T} (m : ST S T) : Prop := forall s, R s (m s).2.

Lemma along_ret {T} (t : T) : along (ret t).
Proof. intros s. cbn. reflexivity. Qed.
Lemma along_raise {T} e : along (@raise S T e).
Proof. intros s. cbn. reflexivity. Qed.
Lemma along_gets {T} (f : S -> T) : along (gets f).
Proof. intros s. cbn. reflexivity. Qed.
Lemma along_lift {T} (r : res T) : along (lift r).
Proof. intros s. cbn. reflexivity. Qed.
Lemma along_raise_if b e : along (raise_if b e).
Proof. destruct b; [apply along_raise|apply along_ret]. Qed.
Lemma along_bind {T U} (m : ST S T) (k : T -> ST S U) : along m -> (forall t, along (k t)) -> along (bind m k).
Proof.
  intros Hm Hk s. unfold bind. specialize (Hm s). destruct (m s) as [[t|e] s']; cbn in *; [|done].
  transitivity s'; [done|]. apply Hk.
Qed.
Lemma along_except {T} (m : ST S T) k : along m -> (forall e, along (k e)) -> along (try_except m k).
Proof.
  intros Hm Hk s. unfold try_except. specialize (Hm s). destruct (m s) as [[t|e] s']; cbn in *; [done|].
  destruct (caught e); [|done]. transitivity s'; [done|]. apply Hk.
Qed.
Lemma along_transaction {T} (m : ST S T) : along m -> along (transaction m).
Proof. intros H s. unfold transaction. specialize (H s). destruct (m s) as [[v|e] s']; cbn in *; done || reflexivity. Qed.
Lemma along_when b m : along m -> along (when b m).
Proof. intros H. destruct b; [done|apply along_ret]. Qed.
End along.

Create HintDb along discriminated.
#[export] Hint Resolve along_ret along_raise along_gets along_lift along_raise_if : along.

Ltac along_steps :=
  repeat first
    [ solve [eauto with along typeclass_instances]
    | apply along_bind; [typeclasses eauto| |intros]
    | apply along_except; [typeclasses eauto| |intros]
    | apply along_when; [typeclasses eauto|]
    | apply along_transaction; [typeclasses eauto|]
    | case_match ].

(** ** Results *)

Lemma rbind_ok {A B} (m : res A) (k : A -> res B) b :
  rbind m k = Ok b -> exists a, m = Ok a /\ k a = Ok b.
Proof. destruct m as [a|e]; [|done]. cbn. eauto. Qed.

(** ** Generic lemmas on lists *)

Lemma bool_decide_refl {A} `{EqDecision A} (a : A) : bool_decide (a = a) = true.
Proof. by apply bool_decide_eq_true. Qed.
#[export] Hint Rewrite @bool_decide_refl : codito.

Lemma forallb_impl {A} (p q : A -> bool) (l : list A) :
  (forall a, p a = true -> q a = true) -> forallb p l = true -> forallb q l = true.
Proof. rewrite !List.forallb_forall. auto. Qed.

Lemma existsb_false_forall {A} (p : A -> bool) (l : list A) :
  existsb p l = false <-> forall a, In a l -> p a = false.
Proof.
  split.
  - intros H a Ha. destruct (p a) eqn:Hp; [|done].
    assert (existsb p l = true) by (apply List.existsb_exists; eauto). congruence.
  - intros H. destruct (existsb p l) eqn:He; [|done].
    apply List.existsb_exists in He as (a & Ha & Hp). rewrite H in Hp; [done|exact Ha].
Qed.
