(* ===== verification/Utf8.v ===== *)
(** * UTF-8, as Python's codec implements it

    [utf8_encode] is [str.encode("utf-8")] ([None]: UnicodeEncodeError, for a
    lone surrogate); [utf8_decode], [utf8_decode_ignore] and
    [utf8_decode_replace] are [bytes.decode("utf-8")] with the error handlers
    [strict], [ignore] and [replace].  An ill-formed sequence is one error for
    its maximal subpart, as in CPython.  The theorems: decoding inverts
    encoding, and decoding a truncated encoding with [ignore] gives the longest
    prefix of the text whose encoding fits. *)
From S2P Require Import Prelude.

Open Scope Z_scope.

Definition is_scalar (c : N) : bool :=
  (c <? 55296)%N || ((57344 <=? c)%N && (c <=? 1114111)%N).

Definition encode_cp (c : N) : bytes :=
  let z := Z.of_N c in
  if z <? 128 then [z]
  else if z <? 2048 then [192 + z / 64; 128 + z mod 64]
  else if z <? 65536 then [224 + z / 4096; 128 + (z / 64) mod 64; 128 + z mod 64]
  else [240 + z / 262144; 128 + (z / 4096) mod 64; 128 + (z / 64) mod 64; 128 + z mod 64].

Definition encode_all (s : str) : bytes := concat (map encode_cp s).

Definition utf8_encode (s : str) : option bytes :=
  if forallb is_scalar s then Some (encode_all s) else None.

(** [len(s.encode("utf-8"))] for a text without surrogates. *)
Definition utf8_len (s : str) : Z := Z.of_nat (length (encode_all s)).

Definition is_cont (b : Z) : bool := (128 <=? b) && (b <=? 191).

(** Second byte after a three or four byte lead: overlong forms, surrogates and
    values beyond U+10FFFF are excluded here. *)
Definition second_ok (lead b : Z) : bool :=
  ((if lead =? 224 then 160 else if lead =? 240 then 144 else 128) <=? b) &&
  (b <=? (if lead =? 237 then 159 else if lead =? 244 then 143 else 191)).

(** Well-formed characters, and [None] for each maximal ill-formed subpart. *)
Fixpoint utf8_items (b : bytes) : list (option N) :=
  match b with
  | [] => []
  | b0 :: r0 =>
      if b0 <? 128 then Some (Z.to_N b0) :: utf8_items r0
      else if (194 <=? b0) && (b0 <=? 223) then
        match r0 with
        | b1 :: r1 =>
            if is_cont b1
            then Some (Z.to_N ((b0 - 192) * 64 + (b1 - 128))) :: utf8_items r1
            else None :: utf8_items r0
        | [] => [None]
        end
      else if (224 <=? b0) && (b0 <=? 239) then
        match r0 with
        | b1 :: r1 =>
            if second_ok b0 b1 then
              match r1 with
              | b2 :: r2 =>
                  if is_cont b2
                  then Some (Z.to_N ((b0 - 224) * 4096 + (b1 - 128) * 64 + (b2 - 128)))
                         :: utf8_items r2
                  else None :: utf8_items r1
              | [] => [None]
              end
            else None :: utf8_items r0
        | [] => [None]
        end
      else if (240 <=? b0) && (b0 <=? 244) then
        match r0 with
        | b1 :: r1 =>
            if second_ok b0 b1 then
              match r1 with
              | b2 :: r2 =>
                  if is_cont b2 then
                    match r2 with
                    | b3 :: r3 =>
                        if is_cont b3
                        then Some (Z.to_N ((b0 - 240) * 262144 + (b1 - 128) * 4096
                                           + (b2 - 128) * 64 + (b3 - 128))) :: utf8_items r3
                        else None :: utf8_items r2
                    | [] => [None]
                    end
                  else None :: utf8_items r1
              | [] => [None]
              end
            else None :: utf8_items r0
        | [] => [None]
        end
      else None :: utf8_items r0
  end.

Fixpoint all_some {A} (l : list (option A)) : option (list A) :=
  match l with
  | [] => Some []
  | Some a :: r => match all_some r with Some l' => Some (a :: l') | None => None end
  | None :: _ => None
  end.

Definition utf8_decode (b : bytes) : option str := all_some (utf8_items b).
Definition utf8_decode_ignore (b : bytes) : str := omap id (utf8_items b).
Definition utf8_decode_replace (b : bytes) : str := map (default 65533%N) (utf8_items b).

(** ** Round trip *)

(** [lia] with division and remainder by constants. *)
Ltac zdiv := Z.to_euclidean_division_equations; lia.

Ltac zbools :=
  repeat match goal with
  | |- context [?a <? ?b] =>
      first [ replace (a <? b) with true by (symmetry; apply Z.ltb_lt; lia)
            | replace (a <? b) with false by (symmetry; apply Z.ltb_ge; lia) ]
  | |- context [?a <=? ?b] =>
      first [ replace (a <=? b) with true by (symmetry; apply Z.leb_le; lia)
            | replace (a <=? b) with false by (symmetry; apply Z.leb_gt; lia) ]
  | |- context [?a =? ?b] =>
      first [ replace (a =? b) with true by (symmetry; apply Z.eqb_eq; lia)
            | replace (a =? b) with false by (symmetry; apply Z.eqb_neq; lia) ]
  end.

(** Ranges of the quotients and remainders an encoding is made of. *)
Lemma div_range z d lo hi : 0 < d -> lo * d <= z < hi * d -> lo <= z / d < hi.
Proof. intros. split; [apply Z.div_le_lower_bound|apply Z.div_lt_upper_bound]; lia. Qed.

Lemma mod_range z : 0 <= z mod 64 < 64.
Proof. apply Z.mod_pos_bound. lia. Qed.

Lemma is_scalar_range c : is_scalar c = true ->
  let z := Z.of_N c in 0 <= z < 55296 \/ 57344 <= z <= 1114111.
Proof. unfold is_scalar. lia. Qed.

Lemma is_cont_mod z : is_cont (128 + z mod 64) = true.
Proof. pose proof (mod_range z). unfold is_cont. by zbools. Qed.

Lemma second_ok_3 z : 2048 <= z < 55296 \/ 57344 <= z < 65536 ->
  second_ok (224 + z / 4096) (128 + z / 64 mod 64) = true.
Proof.
  intros H. unfold second_ok. pose proof (mod_range (z / 64)).
  assert (z / 4096 = 0 -> 32 <= z / 64 mod 64) by zdiv.
  assert (z / 4096 = 13 -> z / 64 mod 64 < 32) by zdiv.
  assert (0 <= z / 4096 < 16) by (apply div_range; lia).
  destruct (Z.eqb_spec (224 + z / 4096) 224); destruct (Z.eqb_spec (224 + z / 4096) 237);
    by zbools.
Qed.

Lemma second_ok_4 z : 65536 <= z <= 1114111 ->
  second_ok (240 + z / 262144) (128 + z / 4096 mod 64) = true.
Proof.
  intros H. unfold second_ok. pose proof (mod_range (z / 4096)).
  assert (z / 262144 = 0 -> 16 <= z / 4096 mod 64) by zdiv.
  assert (z / 262144 = 4 -> z / 4096 mod 64 < 16) by zdiv.
  assert (0 <= z / 262144 < 5) by (apply div_range; lia).
  destruct (Z.eqb_spec (240 + z / 262144) 240); destruct (Z.eqb_spec (240 + z / 262144) 244);
    by zbools.
Qed.

(** Case analysis on the length of the encoding of [z], with the ranges of the
    bytes in the context. *)
Ltac encode_cases z :=
  pose proof (mod_range z); pose proof (mod_range (z / 64)); pose proof (mod_range (z / 4096));
  destruct (Z.ltb_spec z 128);
  [|destruct (Z.ltb_spec z 2048);
    [assert (2 <= z / 64 < 32) by (apply div_range; lia)
    |destruct (Z.ltb_spec z 65536);
      [assert (0 <= z / 4096 < 16) by (apply div_range; lia)
      |assert (0 <= z / 262144 < 5) by (apply div_range; lia)]]].

Ltac reduce_items := cbn -[Z.ltb Z.leb is_cont second_ok Z.div Z.modulo]; zbools;
  rewrite ?second_ok_3, ?second_ok_4, ?is_cont_mod by lia; rewrite ?is_cont_mod; cbn [andb].

Lemma utf8_items_encode_cp c b : is_scalar c = true ->
  utf8_items (encode_cp c ++ b) = Some c :: utf8_items b.
Proof.
  intros Hc%is_scalar_range. unfold encode_cp. set (z := Z.of_N c) in *.
  replace c with (Z.to_N z) by lia. clearbody z; clear c.
  encode_cases z; reduce_items; do 3 f_equal; zdiv.
Qed.

(** A strict prefix of one character's encoding is at most one error. *)
Lemma utf8_items_short c k : is_scalar c = true ->
  (k < length (encode_cp c))%nat ->
  omap id (utf8_items (take k (encode_cp c))) = [].
Proof.
  intros Hc%is_scalar_range. unfold encode_cp. set (z := Z.of_N c) in *. clearbody z; clear c.
  encode_cases z; (destruct k as [|[|[|[|k]]]]; cbn [length]; intros; [done|..]; try lia;
    reduce_items; done).
Qed.

Lemma utf8_items_encode_all s b : forallb is_scalar s = true ->
  utf8_items (encode_all s ++ b) = map Some s ++ utf8_items b.
Proof.
  induction s as [|c s IH]; intros H; [done|]. cbn in H. apply andb_true_iff in H as [Hc Hs].
  unfold encode_all. cbn [map concat]. rewrite <-(assoc_L app), utf8_items_encode_cp by done.
  cbn. f_equal. by apply IH.
Qed.

Lemma all_some_map {A} (l : list A) : all_some (map Some l) = Some l.
Proof. induction l as [|a l IH]; cbn; [done|]. by rewrite IH. Qed.

Lemma omap_map_some {A} (l : list A) : omap id (map Some l) = l.
Proof. induction l as [|a l IH]; cbn; [done|]. by f_equal. Qed.

(** [s.encode("utf-8").decode("utf-8") == s] *)
Lemma utf8_decode_encode s b : utf8_encode s = Some b -> utf8_decode b = Some s.
Proof.
  unfold utf8_encode, utf8_decode. destruct (forallb is_scalar s) eqn:Hs; [|done].
  intros [= <-]. rewrite <-(app_nil_r (encode_all s)), utf8_items_encode_all by done.
  cbn. by rewrite app_nil_r, all_some_map.
Qed.

Lemma utf8_encode_inj s t b : utf8_encode s = Some b -> utf8_encode t = Some b -> s = t.
Proof.
  intros Hs%utf8_decode_encode Ht%utf8_decode_encode. congruence.
Qed.
#[export] Hint Resolve utf8_decode_encode : codito.

(** ** Truncation *)

Lemma encode_all_app s t : encode_all (s ++ t) = encode_all s ++ encode_all t.
Proof. unfold encode_all. by rewrite map_app, concat_app. Qed.

Lemma encode_cp_length c : (1 <= length (encode_cp c) <= 4)%nat.
Proof. unfold encode_cp. repeat case_match; cbn; lia. Qed.

Lemma utf8_len_app s t : utf8_len (s ++ t) = utf8_len s + utf8_len t.
Proof. unfold utf8_len. rewrite encode_all_app, length_app. lia. Qed.

Lemma utf8_len_nonneg s : 0 <= utf8_len s.
Proof. unfold utf8_len. lia. Qed.

Lemma utf8_len_nil s : utf8_len s = 0 -> s = [].
Proof.
  destruct s as [|c s]; [done|]. unfold utf8_len, encode_all. cbn [map concat].
  rewrite length_app. pose proof (encode_cp_length c). lia.
Qed.

Lemma forallb_take {A} (p : A -> bool) n l : forallb p l = true -> forallb p (take n l) = true.
Proof.
  revert n. induction l as [|a l IH]; intros [|n] H; cbn in *; try done.
  apply andb_true_iff in H as [H1 H2]. rewrite H1. by apply IH.
Qed.

(** Reading [n] bytes of an encoded text with the [ignore] handler keeps the
    longest prefix of the text that fits: it fits, and one more character
    would not. *)
Lemma decode_ignore_take s n : forallb is_scalar s = true ->
  exists m, utf8_decode_ignore (take n (encode_all s)) = take m s /\
    (length (encode_all (take m s)) <= n)%nat /\
    (m = length s \/ (m < length s)%nat /\ (n < length (encode_all (take (S m) s)))%nat).
Proof.
  revert n. induction s as [|c s IH]; intros n H.
  { exists 0%nat. cbn. rewrite take_nil. split; [done|]. split; [cbn; lia|by left]. }
  cbn in H. apply andb_true_iff in H as [Hc Hs].
  unfold encode_all at 1. cbn [map concat]. fold (encode_all s).
  destruct (decide (length (encode_cp c) <= n)%nat) as [Hle|Hlt].
  - destruct (IH (n - length (encode_cp c))%nat Hs) as (m & Hm & Hfit & Hmax).
    exists (S m). rewrite take_app. rewrite take_ge by done.
    unfold utf8_decode_ignore in *. rewrite utf8_items_encode_cp by done. cbn [omap list_omap id].
    split; [cbn; by rewrite Hm|].
    change (take (S m) (c :: s)) with (c :: take m s).
    change (take (S (S m)) (c :: s)) with (c :: take (S m) s).
    unfold encode_all in *. cbn [map concat length]. rewrite !length_app. split; [lia|].
    destruct Hmax as [->|[??]]; [by left|right; lia].
  - exists 0%nat. rewrite take_app_le by lia.
    unfold utf8_decode_ignore. rewrite utf8_items_short by (done || lia).
    split; [done|]. split; [cbn; lia|]. right. split; [cbn; lia|].
    unfold encode_all. cbn [take map concat]. rewrite length_app. lia.
Qed.

Lemma decode_ignore_prefix s n : forallb is_scalar s = true ->
  utf8_decode_ignore (take n (encode_all s)) `prefix_of` s.
Proof.
  intros H. destruct (decode_ignore_take s n H) as (m & -> & _). apply prefix_take.
Qed.

(** ** Decoding first *)

Definition is_byte (b : Z) : Prop := 0 <= b < 256.

Lemma div_mod_cont q r : is_cont r = true ->
  (q * 64 + (r - 128)) / 64 = q /\ (q * 64 + (r - 128)) mod 64 = r - 128.
Proof. unfold is_cont. intros. zdiv. Qed.

Lemma encode_cp_1 b : 0 <= b < 128 -> is_scalar (Z.to_N b) = true /\ encode_cp (Z.to_N b) = [b].
Proof. intros. unfold is_scalar, encode_cp. rewrite Z2N.id by lia. split; [lia|]. by zbools. Qed.

Lemma encode_cp_2 a b : 194 <= a <= 223 -> is_cont b = true ->
  let c := Z.to_N ((a - 192) * 64 + (b - 128)) in is_scalar c = true /\ encode_cp c = [a; b].
Proof.
  intros Ha Hb. destruct (div_mod_cont (a - 192) b Hb) as [H1 H2]. unfold is_cont in Hb.
  cbn zeta. unfold is_scalar, encode_cp. rewrite Z2N.id, H1, H2 by lia. split; [lia|].
  zbools. repeat (f_equal; try lia).
Qed.

Lemma second_ok_range a b : second_ok a b = true -> 128 <= b <= 191 /\
  (a = 224 -> 160 <= b) /\ (a = 240 -> 144 <= b) /\ (a = 237 -> b <= 159) /\ (a = 244 -> b <= 143).
Proof.
  unfold second_ok. destruct (a =? 224) eqn:?, (a =? 240) eqn:?, (a =? 237) eqn:?, (a =? 244) eqn:?; lia.
Qed.

Lemma encode_cp_3 a b c : 224 <= a <= 239 -> second_ok a b = true -> is_cont c = true ->
  let z := Z.to_N ((a - 224) * 4096 + (b - 128) * 64 + (c - 128)) in
  is_scalar z = true /\ encode_cp z = [a; b; c].
Proof.
  intros Ha Hb%second_ok_range Hc. cbn zeta. destruct (div_mod_cont ((a - 224) * 64 + (b - 128)) c Hc) as [H1 H2].
  replace ((a - 224) * 4096 + (b - 128) * 64 + (c - 128)) with
    (((a - 224) * 64 + (b - 128)) * 64 + (c - 128)) by lia.
  set (q := (a - 224) * 64 + (b - 128)) in *. unfold is_cont in Hc.
  assert (q / 64 = a - 224 /\ q mod 64 = b - 128) as [H3 H4] by (apply div_mod_cont; unfold is_cont; lia).
  unfold is_scalar, encode_cp. rewrite Z2N.id by lia.
  assert ((q * 64 + (c - 128)) / 4096 = a - 224) as H5.
  { change 4096 with (64 * 64). rewrite <-Z.div_div by lia. by rewrite H1. }
  rewrite H1, H2, H4, H5. split; [lia|]. zbools. repeat (f_equal; try lia).
Qed.

Lemma encode_cp_4 a b c d : 240 <= a <= 244 -> second_ok a b = true -> is_cont c = true ->
  is_cont d = true ->
  let z := Z.to_N ((a - 240) * 262144 + (b - 128) * 4096 + (c - 128) * 64 + (d - 128)) in
  is_scalar z = true /\ encode_cp z = [a; b; c; d].
Proof.
  intros Ha Hb%second_ok_range Hc Hd. cbn zeta.
  set (q := (a - 240) * 64 + (b - 128)). set (r := q * 64 + (c - 128)).
  replace ((a - 240) * 262144 + (b - 128) * 4096 + (c - 128) * 64 + (d - 128)) with
    (r * 64 + (d - 128)) by lia.
  destruct (div_mod_cont r d Hd) as [H1 H2], (div_mod_cont q c Hc) as [H3 H4].
  assert (q / 64 = a - 240 /\ q mod 64 = b - 128) as [H5 H6] by (apply div_mod_cont; unfold is_cont; lia).
  fold r in H3, H4. unfold is_cont in Hc, Hd.
  unfold is_scalar, encode_cp. rewrite Z2N.id by lia.
  assert ((r * 64 + (d - 128)) / 4096 = q) as H7.
  { change 4096 with (64 * 64). rewrite <-Z.div_div by lia. by rewrite H1. }
  assert ((r * 64 + (d - 128)) / 262144 = a - 240) as H8.
  { change 262144 with (4096 * 64). rewrite <-Z.div_div by lia. by rewrite H7. }
  rewrite H1, H2, H4, H7, H8, H6. split; [lia|]. zbools. repeat (f_equal; try lia).
Qed.

Lemma all_some_cons {A} (x : option A) l s :
  all_some (x :: l) = Some s -> exists a s', x = Some a /\ s = a :: s' /\ all_some l = Some s'.
Proof. cbn. destruct x; [|done]. destruct (all_some l); [|done]. intros [= <-]. eauto. Qed.

(** [b.decode("utf-8").encode("utf-8") == b] *)
Lemma utf8_encode_decode b s : Forall is_byte b -> utf8_decode b = Some s -> utf8_encode s = Some b.
Proof.
  assert (Hgo : forall n b s, (length b <= n)%nat -> Forall is_byte b -> utf8_decode b = Some s ->
    forallb is_scalar s = true /\ encode_all s = b).
  { clear. unfold utf8_decode. intros n. induction n as [|n IH]; intros b s Hn Hb H.
    { destruct b; [|cbn in Hn; lia]. by injection H as <-. }
    assert (Hok : forall k c r, b = k ++ r -> k <> [] -> is_scalar c = true /\ encode_cp c = k ->
      all_some (Some c :: utf8_items r) = Some s -> forallb is_scalar s = true /\ encode_all s = b).
    { intros k c r -> Hk [Hc He] (a & s' & [= <-] & -> & Hs)%all_some_cons.
      apply Forall_app in Hb as [_ Hb]. rewrite length_app in Hn.
      assert (length k <> 0%nat) by (by destruct k).
      destruct (IH r s') as [H1 H2]; [lia|done..|]. cbn [forallb]. rewrite Hc, H1. split; [done|].
      unfold encode_all in *. cbn. by rewrite He, H2. }
    destruct b as [|b0 r0]; [by injection H as <-|]. cbn [utf8_items] in H.
    repeat (match type of H with
            | all_some (if ?x then _ else _) = _ => destruct x eqn:?
            | all_some (match ?x with _ => _ end) = _ => destruct x as [|? ?] eqn:?
            end; try (by apply all_some_cons in H as (? & ? & ? & _))); subst.
    - eapply (Hok [b0]); [done..| |exact H]. apply encode_cp_1. inversion_clear Hb as [|?? Hb0]. unfold is_byte in Hb0. lia.
    - eapply (Hok [b0; _]); [done..| |exact H]. apply encode_cp_2; [lia|done].
    - eapply (Hok [b0; _; _]); [done..| |exact H]. apply encode_cp_3; [lia|done..].
    - eapply (Hok [b0; _; _; _]); [done..| |exact H]. apply encode_cp_4; [lia|done..]. }
  intros Hb H. destruct (Hgo (length b) b s) as [H1 H2]; [lia|done..|].
  unfold utf8_encode. by rewrite H1, H2.
Qed.
