(* ===== verification/PyStr.v ===== *)
(** * Python string operations used by the sources

    [startswith], [endswith], [split], [join], [splitlines], ASCII case mapping
    and the code point order that [sorted] uses on strings, each executable, and
    the laws the components need: [split]/[join] round trips and the
    decomposition of a text into its lines. *)
From S2P Require Import Prelude.
From stdpp Require Import sorting.

Open Scope N_scope.

Fixpoint starts_with (p s : str) : bool :=
  match p, s with
  | [], _ => true
  | a :: p', b :: s' => (a =? b) && starts_with p' s'
  | _ :: _, [] => false
  end.

Definition ends_with (p s : str) : bool := starts_with (rev p) (rev s).

Definition contains_char (c : N) (s : str) : bool := existsb (N.eqb c) s.

(** [s.split(c)]: one component more than there are separators. *)
Fixpoint split_on (c : N) (s : str) : list str :=
  match s with
  | [] => [[]]
  | a :: r =>
      if a =? c then [] :: split_on c r
      else match split_on c r with
           | w :: ws => (a :: w) :: ws
           | [] => [[a]]
           end
  end.

(** [c.join(ws)] *)
Fixpoint join (c : str) (ws : list str) : str :=
  match ws with
  | [] => []
  | [w] => w
  | w :: r => w ++ c ++ join c r
  end.

(** [s.replace(a, b)] for single characters. *)
Definition replace_char (a b : N) (s : str) : str := map (fun c => if c =? a then b else c) s.

(** ASCII part of [str.upper] and [str.lower]. *)
Definition upper_char (c : N) : N := if (97 <=? c) && (c <=? 122) then c - 32 else c.
Definition lower_char (c : N) : N := if (65 <=? c) && (c <=? 90) then c + 32 else c.
Definition ascii_upper : str -> str := map upper_char.
Definition ascii_lower : str -> str := map lower_char.

Definition is_alpha (c : N) : bool :=
  ((65 <=? c) && (c <=? 90)) || ((97 <=? c) && (c <=? 122)).
Definition is_digit (c : N) : bool := (48 <=? c) && (c <=? 57).
Definition is_alnum (c : N) : bool := is_alpha c || is_digit c.

(** [str.isspace], the characters of [\s] and of [str.strip]. *)
Definition is_space (c : N) : bool :=
  ((9 <=? c) && (c <=? 13)) || ((28 <=? c) && (c <=? 32)) || (c =? 133) || (c =? 160) ||
  (c =? 5760) || ((8192 <=? c) && (c <=? 8202)) || (c =? 8232) || (c =? 8233) ||
  (c =? 8239) || (c =? 8287) || (c =? 12288).

Fixpoint lstrip (s : str) : str :=
  match s with
  | c :: r => if is_space c then lstrip r else s
  | [] => []
  end.

(** [s.strip()] *)
Definition strip (s : str) : str := rev (lstrip (rev (lstrip s))).

Definition LF : N := 10.
Definition CR : N := 13.
Definition SLASH : N := 47.
Definition BACKSLASH : N := 92.
Definition COLON : N := 58.
Definition DOT : N := 46.
Definition SPACE : N := 32.

(** Line boundaries of [str.splitlines]. *)
Definition is_break (c : N) : bool :=
  ((10 <=? c) && (c <=? 13)) || ((28 <=? c) && (c <=? 30)) ||
  (c =? 133) || (c =? 8232) || (c =? 8233).

(** The lines of a text, each with the terminator that ended it ([[]] for an
    unterminated last line).  [acc] is the current line, reversed. *)
Fixpoint lines_go (acc s : str) : list (str * str) :=
  match s with
  | [] => match acc with [] => [] | _ => [(rev acc, [])] end
  | c :: r =>
      if c =? CR then
        match r with
        | d :: r' => if d =? LF then (rev acc, [CR; LF]) :: lines_go [] r'
                     else (rev acc, [CR]) :: lines_go [] r
        | [] => [(rev acc, [CR])]
        end
      else if is_break c then (rev acc, [c]) :: lines_go [] r
      else lines_go (c :: acc) r
  end.

Definition lines_of (s : str) : list (str * str) := lines_go [] s.
Definition splitlines (s : str) : list str := map fst (lines_of s).
Definition splitlines_keepends (s : str) : list str := map (fun p => p.1 ++ p.2) (lines_of s).

(** Code point order on strings. *)
Fixpoint str_leb (a b : str) : bool :=
  match a, b with
  | [], _ => true
  | _ :: _, [] => false
  | x :: a', y :: b' => (x <? y) || ((x =? y) && str_leb a' b')
  end.

Definition str_le (a b : str) : Prop := str_leb a b = true.
#[export] Instance str_le_dec : RelDecision str_le.
Proof. intros a b. unfold str_le. apply _. Defined.

(** [sorted(strings)] *)
Definition sorted_strs (l : list str) : list str := merge_sort str_le l.

Lemma sorted_strs_perm l : sorted_strs l ≡ₚ l.
Proof. apply merge_sort_Permutation. Qed.

Lemma starts_with_iff p s : starts_with p s = true <-> exists r, s = p ++ r.
Proof.
  revert s. induction p as [|a p IH]; intros s; cbn.
  { split; [by exists s|done]. }
  destruct s as [|b s]; [split; [done|by intros [? [=]]]|].
  rewrite andb_true_iff, N.eqb_eq, IH. split.
  - intros [-> [r ->]]. by exists r.
  - intros [r [= -> ->]]. eauto.
Qed.

Lemma starts_with_app p r : starts_with p (p ++ r) = true.
Proof. apply starts_with_iff. eauto. Qed.
#[export] Hint Resolve starts_with_app : codito.

(** ** [split] and [join] *)

Lemma split_on_nonempty c s : split_on c s <> [].
Proof. destruct s as [|a s]; cbn; [done|]. repeat case_match; done. Qed.

Lemma join_cons c w ws : ws <> [] -> join c (w :: ws) = w ++ c ++ join c ws.
Proof. by destruct ws. Qed.

Lemma join_split c s : join [c] (split_on c s) = s.
Proof.
  induction s as [|a s IH]; [done|]. cbn [split_on]. destruct (N.eqb_spec a c) as [->|Hne].
  - rewrite join_cons by apply split_on_nonempty. cbn. by rewrite IH.
  - destruct (split_on c s) as [|w ws] eqn:E; [by destruct (split_on_nonempty c s)|].
    destruct ws; cbn in *; by rewrite IH.
Qed.

Lemma split_on_app c w s : contains_char c w = false ->
  split_on c (w ++ c :: s) = w :: split_on c s.
Proof.
  unfold contains_char. induction w as [|a w IH]; cbn; intros H.
  { by rewrite N.eqb_refl. }
  apply orb_false_iff in H as [Ha Hw]. rewrite N.eqb_sym in Ha. rewrite Ha, IH by done. done.
Qed.

Lemma split_on_single c w : contains_char c w = false -> split_on c w = [w].
Proof.
  unfold contains_char. induction w as [|a w IH]; cbn; intros H; [done|].
  apply orb_false_iff in H as [Ha Hw]. rewrite N.eqb_sym in Ha. by rewrite Ha, IH.
Qed.

Lemma split_join c ws : ws <> [] -> forallb (fun w => negb (contains_char c w)) ws = true ->
  split_on c (join [c] ws) = ws.
Proof.
  induction ws as [|w [|w' ws] IH]; intros Hne H; [done|..]; cbn [forallb] in H;
    apply andb_true_iff in H as [Hw%negb_true_iff Hws].
  - by apply split_on_single.
  - rewrite join_cons by done. cbn [app]. rewrite split_on_app by done.
    by rewrite (IH ltac:(done) Hws).
Qed.

Lemma split_on_no_sep c s : forallb (fun w => negb (contains_char c w)) (split_on c s) = true.
Proof.
  induction s as [|a s IH]; [done|]. cbn [split_on].
  destruct (N.eqb_spec a c) as [->|Hne]; [done|].
  assert (Hca : (c =? a) = false) by lia.
  destruct (split_on c s) as [|w ws]; cbn [forallb] in *; unfold contains_char; cbn [existsb];
    rewrite Hca; [done|exact IH].
Qed.

(** ** Lines *)

Lemma lines_go_concat acc s :
  concat (map (fun p => p.1 ++ p.2) (lines_go acc s)) = rev acc ++ s.
Proof.
  revert acc. induction s as [s IH] using (induction_ltof1 _ (@length N)). unfold ltof in IH.
  intros acc. destruct s as [|c r]; cbn [lines_go].
  { destruct acc; cbn; by rewrite ?app_nil_r. }
  destruct (N.eqb_spec c CR) as [->|].
  - destruct r as [|d r']; [cbn; by rewrite app_nil_r|].
    destruct (N.eqb_spec d LF) as [->|]; cbn [map concat fst snd];
      rewrite IH by (cbn; lia); by rewrite <-!(assoc_L app).
  - destruct (is_break c); cbn [map concat fst snd]; rewrite IH by (cbn; lia); cbn;
      by rewrite <-(assoc_L app).
Qed.

(** [splitlines(keepends=True)] loses nothing. *)
Lemma splitlines_keepends_concat s : concat (splitlines_keepends s) = s.
Proof. apply lines_go_concat. Qed.

Definition no_break (s : str) : bool := forallb (fun c => negb (is_break c)) s.

Lemma lines_go_break_free acc s : no_break (rev acc) = true ->
  Forall (fun p => no_break p.1 = true) (lines_go acc s).
Proof.
  revert acc. induction s as [s IH] using (induction_ltof1 _ (@length N)). unfold ltof in IH.
  intros acc Ha. destruct s as [|c r]; cbn [lines_go].
  { destruct acc; by repeat constructor. }
  destruct (N.eqb_spec c CR) as [->|].
  - destruct r as [|d r']; [by repeat constructor|].
    destruct (d =? LF); constructor; try done; apply IH; try done; cbn; lia.
  - destruct (is_break c) eqn:Hc.
    + constructor; [done|]. apply IH; [cbn; lia|done].
    + apply IH; [cbn; lia|]. unfold no_break in *. cbn [rev].
      rewrite forallb_app, Ha. cbn. by rewrite Hc.
Qed.

Lemma splitlines_break_free s : Forall (fun l => no_break l = true) (splitlines s).
Proof.
  unfold splitlines. apply Forall_map. apply Forall_impl with (P := fun p => no_break p.1 = true).
  - by apply lines_go_break_free.
  - done.
Qed.

Lemma lines_go_app acc l r : no_break l = true ->
  lines_go acc (l ++ r) = lines_go (rev l ++ acc) r.
Proof.
  revert acc. induction l as [|c l IH]; intros acc H; [done|].
  cbn in H. apply andb_true_iff in H as [Hc Hl]. apply negb_true_iff in Hc.
  cbn [app lines_go]. replace (c =? CR) with false.
  2: { symmetry. apply N.eqb_neq. intros ->. by vm_compute in Hc. }
  rewrite Hc, IH by done. cbn [rev]. by rewrite <-(assoc_L app).
Qed.

Lemma no_break_rev l : no_break (rev l) = no_break l.
Proof.
  unfold no_break. induction l as [|c l IH]; [done|].
  cbn [rev]. rewrite forallb_app, IH. cbn. rewrite andb_true_r. apply andb_comm.
Qed.

(** A break-free line followed by [\n]: one line, and the rest on its own. *)
Lemma lines_of_line l r : no_break l = true ->
  lines_of (l ++ LF :: r) = (l, [LF]) :: lines_of r.
Proof.
  intros H. unfold lines_of. rewrite lines_go_app by done. rewrite app_nil_r.
  cbn [lines_go]. cbn. by rewrite rev_involutive.
Qed.

Lemma lines_of_last l : no_break l = true -> l <> [] -> lines_of l = [(l, [])].
Proof.
  intros H Hne. unfold lines_of. rewrite <-(app_nil_r l) at 1. rewrite lines_go_app by done.
  rewrite app_nil_r. cbn [lines_go].
  destruct (rev l) as [|c r] eqn:E; [by destruct l; [|destruct (app_cons_not_nil _ _ _ (eq_sym E))]|].
  by rewrite <-E, rev_involutive.
Qed.

(** Joining break-free lines with [\n] and splitting again. *)
Lemma splitlines_join ls : Forall (fun l => no_break l = true) ls ->
  (forall l, last ls = Some l -> l <> []) ->
  splitlines (join [LF] ls) = ls.
Proof.
  unfold splitlines. induction ls as [|l [|l' ls] IH]; intros Hb Hl; [done|..].
  - inversion_clear Hb. cbn [join]. rewrite lines_of_last; [done..|]. by apply Hl.
  - inversion_clear Hb. rewrite join_cons by done. cbn [app]. rewrite lines_of_line by done.
    cbn [map fst]. f_equal. apply IH; [done|]. intros x Hx. by apply Hl.
Qed.
