(* ===== verification/Models.v ===== *)
(** * Shared agent data: models.py, errors.py, wire_errors.py, access_policy.py

    The project record and its modes, the operation states of the agent journal,
    the local consent policy, and the translation of local errors to the wire
    error codes of the protocol with the redaction of error details. *)
From S2P Require Import Prelude PyStr.

(** ** models.py *)

Inductive ProjectMode := ISOLATED | NATIVE_APPROVAL | NATIVE_TRUSTED | NATIVE_PROJECT | FULL_ACCESS.
#[export] Instance ProjectMode_eq_dec : EqDecision ProjectMode.
Proof. solve_decision. Defined.

Record Project := {
  project_id : str;
  title : str;
  root : str;
  root_fingerprint : str;
  mode : ProjectMode;
  enabled : bool;
}.
#[export] Instance Project_eq_dec : EqDecision Project.
Proof. solve_decision. Defined.

Inductive OperationState :=
| RECEIVED | RUNNING | WAITING_APPROVAL | SUCCEEDED | FAILED | DENIED | CANCELLED | OUTCOME_UNKNOWN.
#[export] Instance OperationState_eq_dec : EqDecision OperationState.
Proof. solve_decision. Defined.

Definition TERMINAL_OPERATION_STATES (s : OperationState) : bool :=
  match s with
  | SUCCEEDED | FAILED | DENIED | CANCELLED | OUTCOME_UNKNOWN => true
  | RECEIVED | RUNNING | WAITING_APPROVAL => false
  end.

(** ** access_policy.py *)

Record LocalAccessPolicy := {
  requires_approval : bool;
  allow_saved_permissions : bool;
}.

Definition project_access_policy (p : Project) (inside_project uncertain : bool)
    : res LocalAccessPolicy :=
  if negb (enabled p) then agent_error "project_disabled"
  else match mode p with
  | ISOLATED => agent_error "sandbox_unavailable"
  | FULL_ACCESS => Ok {| requires_approval := false; allow_saved_permissions := false |}
  | NATIVE_APPROVAL | NATIVE_TRUSTED =>
      Ok {| requires_approval := true; allow_saved_permissions := false |}
  | NATIVE_PROJECT =>
      Ok {| requires_approval := negb inside_project || uncertain;
            allow_saved_permissions := true |}
  end.

(** ** JSON values

    Numbers are integers; an object is the ordered list of its items, as a
    Python dict keeps them. *)
Inductive json :=
| JNull
| JBool (b : bool)
| JNum (z : Z)
| JStr (s : str)
| JList (l : list json)
| JObj (l : list (str * json)).

(** Induction over the nested lists of a value. *)
Lemma json_ind' (P : json -> Prop) :
  P JNull -> (forall b, P (JBool b)) -> (forall z, P (JNum z)) -> (forall s, P (JStr s)) ->
  (forall l, Forall P l -> P (JList l)) ->
  (forall l, Forall (fun kv => P kv.2) l -> P (JObj l)) -> forall j, P j.
Proof.
  intros Hn Hb Hz Hs Hl Ho. fix IH 1. intros [|b|z|s|l|l]; [exact Hn|apply Hb|apply Hz|apply Hs|..].
  - apply Hl. induction l as [|a l IHl]; constructor; [apply IH|exact IHl].
  - apply Ho. induction l as [|[k a] l IHl]; constructor; [apply IH|exact IHl].
Qed.

Fixpoint json_eqb (a b : json) : bool :=
  match a, b with
  | JNull, JNull => true
  | JBool x, JBool y => Bool.eqb x y
  | JNum x, JNum y => (x =? y)%Z
  | JStr x, JStr y => bool_decide (x = y)
  | JList l, JList l' =>
      (fix go l l' := match l, l' with
                      | [], [] => true
                      | x :: r, y :: r' => json_eqb x y && go r r'
                      | _, _ => false
                      end) l l'
  | JObj l, JObj l' =>
      (fix go l l' := match l, l' with
                      | [], [] => true
                      | (k, x) :: r, (k', y) :: r' => bool_decide (k = k') && json_eqb x y && go r r'
                      | _, _ => false
                      end) l l'
  | _, _ => false
  end.

Lemma json_eqb_eq a b : json_eqb a b = true <-> a = b.
Proof.
  revert b. induction a as [|x|x|x|l IH|l IH] using json_ind'; intros [|y|y|y|l'|l']; cbn; try done.
  - rewrite Bool.eqb_true_iff. split; congruence.
  - rewrite Z.eqb_eq. split; congruence.
  - rewrite bool_decide_eq_true. split; congruence.
  - revert l'. induction IH as [|x l Hx Hl IHl]; intros [|y l']; try done.
    rewrite andb_true_iff, Hx, IHl. split; [intros [-> [= ->]]; done|intros [= -> ->]; done].
  - revert l'. induction IH as [|[k x] l Hx Hl IHl]; intros [|[k' y] l']; try done. cbn in Hx.
    rewrite !andb_true_iff, bool_decide_eq_true, Hx, IHl.
    split; [intros [[-> ->] [= ->]]; done|intros [= -> -> ->]; done].
Qed.
#[export] Instance json_eq_dec : EqDecision json.
Proof. intros a b. destruct (json_eqb a b) eqn:E; [left; by apply json_eqb_eq|right]. intros H. apply json_eqb_eq in H. congruence. Defined.

(** [d.get(key)] *)
Definition obj_get (k : str) (l : list (str * json)) : option json :=
  (fun r => r.2.2) <$> list_find (fun kv => kv.1 = k) l.

(** Python's dict display from items: a repeated key keeps its first position
    and takes the last value. *)
Fixpoint dict_set (k : str) (v : json) (l : list (str * json)) : list (str * json) :=
  match l with
  | [] => [(k, v)]
  | (k', v') :: r => if decide (k' = k) then (k, v) :: r else (k', v') :: dict_set k v r
  end.
Definition dict_of (l : list (str * json)) : list (str * json) :=
  fold_left (fun d kv => dict_set kv.1 kv.2 d) l [].

(** ** wire_errors.py *)

Inductive ErrorCode :=
| INVALID_REQUEST | UNAUTHENTICATED | UNAUTHORIZED | RESOURCE_MISMATCH | SCOPE_MISSING
| RATE_LIMITED | PROJECT_NOT_FOUND | DEVICE_OFFLINE | DEVICE_REVOKED | LINK_REVOKED | QUEUE_FULL
| DEADLINE_EXCEEDED | PATH_INVALID | PATH_OUTSIDE_PROJECT | PATH_CHANGED
| REPARSE_POINT_FORBIDDEN | HARDLINK_MUTATION_FORBIDDEN | FILE_NOT_FOUND | FILE_TOO_LARGE
| ENCODING_UNSUPPORTED | HASH_MISMATCH | PATCH_INVALID | PATCH_CONFLICT | IDEMPOTENCY_CONFLICT
| APPROVAL_REQUIRED | APPROVAL_DENIED | APPROVAL_EXPIRED | SANDBOX_UNAVAILABLE
| SHELL_NOT_FOUND | SHELL_NOT_RUNNING | OUTPUT_LIMIT_EXCEEDED | EC_OUTCOME_UNKNOWN
| SCREENSHOT_UNAVAILABLE | DESKTOP_UNAVAILABLE | EC_CANCELLED | INTERNAL_ERROR.
#[export] Instance ErrorCode_eq_dec : EqDecision ErrorCode.
Proof. solve_decision. Defined.

Definition LOCAL_ERROR_MAP : list (string * ErrorCode) := [
  ("action_digest_mismatch", INVALID_REQUEST); ("already_enrolled", INVALID_REQUEST);
  ("approval_denied", APPROVAL_DENIED); ("approval_expired", APPROVAL_EXPIRED);
  ("binary_file", ENCODING_UNSUPPORTED); ("binding_mismatch", UNAUTHORIZED);
  ("browser_capture_failed", SCREENSHOT_UNAVAILABLE);
  ("browser_close_failed", DESKTOP_UNAVAILABLE);
  ("browser_navigation_failed", DESKTOP_UNAVAILABLE);
  ("browser_unavailable", DESKTOP_UNAVAILABLE); ("broker_failed", SANDBOX_UNAVAILABLE);
  ("broker_cleanup_failed", SANDBOX_UNAVAILABLE);
  ("broker_protocol_error", SANDBOX_UNAVAILABLE); ("broker_unavailable", SANDBOX_UNAVAILABLE);
  ("confirmation_required", APPROVAL_REQUIRED); ("capture_too_large", OUTPUT_LIMIT_EXCEEDED);
  ("conflict", PATCH_CONFLICT); ("credential_unavailable", UNAUTHENTICATED);
  ("deadline_exceeded", DEADLINE_EXCEEDED); ("enrollment_required", UNAUTHENTICATED);
  ("dev_server_failed", SHELL_NOT_RUNNING); ("dev_server_stop_failed", SHELL_NOT_RUNNING);
  ("dev_server_timeout", DEADLINE_EXCEEDED); ("reenrollment_required", UNAUTHENTICATED);
  ("file_too_large", FILE_TOO_LARGE); ("element_not_found", RESOURCE_MISMATCH);
  ("element_not_interactable", INVALID_REQUEST);
  ("frontend_action_failed", DESKTOP_UNAVAILABLE);
  ("frontend_config_required", INVALID_REQUEST); ("frontend_port_in_use", INVALID_REQUEST);
  ("frontend_session_closed", RESOURCE_MISMATCH); ("frontend_session_exists", INVALID_REQUEST);
  ("frontend_session_expired", RESOURCE_MISMATCH);
  ("frontend_session_not_found", RESOURCE_MISMATCH);
  ("idempotency_conflict", IDEMPOTENCY_CONFLICT); ("internal_error", INTERNAL_ERROR);
  ("migration_failed", INTERNAL_ERROR); ("screenshot_unavailable", SCREENSHOT_UNAVAILABLE);
  ("desktop_unavailable", DESKTOP_UNAVAILABLE); ("invalid_approval", APPROVAL_DENIED);
  ("invalid_config", INTERNAL_ERROR); ("invalid_cursor", INVALID_REQUEST);
  ("invalid_frontend_config", INVALID_REQUEST); ("invalid_glob", INVALID_REQUEST);
  ("invalid_ipc_request", INVALID_REQUEST); ("invalid_patch", PATCH_INVALID);
  ("invalid_path", PATH_INVALID); ("invalid_permission", INVALID_REQUEST);
  ("invalid_project", INVALID_REQUEST); ("invalid_project_root", PATH_INVALID);
  ("invalid_request", INVALID_REQUEST); ("invalid_release", INTERNAL_ERROR);
  ("invalid_setting", INTERNAL_ERROR); ("invalid_state", INTERNAL_ERROR);
  ("ipc_unavailable", INTERNAL_ERROR); ("job_not_found", SHELL_NOT_FOUND);
  ("login_required", UNAUTHENTICATED); ("login_timeout", UNAUTHENTICATED);
  ("not_a_directory", PATH_INVALID); ("not_a_file", PATH_INVALID);
  ("not_enrolled", UNAUTHENTICATED); ("navigation_blocked", UNAUTHORIZED);
  ("operation_conflict", UNAUTHORIZED); ("operation_not_found", INTERNAL_ERROR);
  ("outcome_unknown", EC_OUTCOME_UNKNOWN); ("patch_conflict", PATCH_CONFLICT);
  ("path_not_found", FILE_NOT_FOUND); ("path_race", PATH_CHANGED);
  ("project_busy", RATE_LIMITED); ("project_disabled", PROJECT_NOT_FOUND);
  ("project_exists", INVALID_REQUEST); ("project_identity_changed", PATH_CHANGED);
  ("project_not_found", PROJECT_NOT_FOUND); ("project_unavailable", PROJECT_NOT_FOUND);
  ("protocol_error", INVALID_REQUEST); ("queue_full", QUEUE_FULL);
  ("read_failed", INTERNAL_ERROR); ("recovery_failed", INTERNAL_ERROR);
  ("release_unavailable", INTERNAL_ERROR); ("relay_protocol_error", INTERNAL_ERROR);
  ("relay_rejected", UNAUTHORIZED); ("result_limit", OUTPUT_LIMIT_EXCEEDED);
  ("request_expired", INVALID_REQUEST); ("request_not_found", INVALID_REQUEST);
  ("sandbox_policy_denied", UNAUTHORIZED); ("sandbox_unavailable", SANDBOX_UNAVAILABLE);
  ("search_timeout", DEADLINE_EXCEEDED); ("sensitive_input_blocked", UNAUTHORIZED);
  ("stale_snapshot", RESOURCE_MISMATCH); ("stale_connection", UNAUTHORIZED);
  ("ticket_expired", UNAUTHENTICATED); ("too_many_sessions", RATE_LIMITED);
  ("unauthorized", UNAUTHORIZED); ("unsafe_hardlink", HARDLINK_MUTATION_FORBIDDEN);
  ("unsafe_path", PATH_OUTSIDE_PROJECT); ("unsupported_encoding", ENCODING_UNSUPPORTED);
  ("unsupported_platform", INTERNAL_ERROR); ("update_check_failed", INTERNAL_ERROR);
  ("update_launch_failed", INTERNAL_ERROR); ("update_not_required", INVALID_REQUEST)
]%string.

Definition wire_code (code : string) : ErrorCode :=
  match list_find (fun kv => kv.1 = code) LOCAL_ERROR_MAP with
  | Some (_, (_, c)) => c
  | None => INTERNAL_ERROR
  end.

Open Scope N_scope.

(** [_ABSOLUTE_WINDOWS_PATH.search]: a drive letter, a colon and a separator, at
    the start or after white space. *)
Definition drive_at (s : str) : bool :=
  match s with
  | a :: b :: c :: _ => is_alpha a && (b =? COLON) && ((c =? BACKSLASH) || (c =? SLASH))
  | _ => false
  end.

Fixpoint drive_after_space (s : str) : bool :=
  match s with
  | [] => false
  | c :: r => (is_space c && drive_at r) || drive_after_space r
  end.

Definition absolute_windows_path (s : str) : bool := drive_at s || drive_after_space s.

Definition REDACTED : str := lit "[local path redacted]".

Definition local_path (s : str) : bool :=
  absolute_windows_path s || starts_with [BACKSLASH; BACKSLASH] s || starts_with [SLASH; SLASH] s.

Fixpoint safe_details (v : json) : json :=
  match v with
  | JNull | JBool _ | JNum _ => v
  | JStr s => if local_path s then JStr REDACTED else JStr (take 1024 s)
  | JList l => JList (take 64 (map safe_details l))
  | JObj l => JObj (dict_of (take 64 (map (fun kv => (take 100 kv.1, safe_details kv.2)) l)))
  end.

Record ToolError := {
  te_code : ErrorCode;
  te_message : str;
  te_retryable : bool;
  te_correlation_id : option str;
  te_details : json;
}.
Record ToolFailure := { tf_ok : bool; tf_text : str; tf_error : ToolError }.

(** [error] is given by its code, message, details and retry flag. *)
Definition to_tool_failure (code : string) (message : str) (details : json) (retryable : bool)
    (correlation_id : option str) : ToolFailure :=
  let message' := match take 1024 message with
                  | [] => lit "The device operation failed"
                  | m => m
                  end in
  {| tf_ok := false;
     tf_text := take 2048 message';
     tf_error := {| te_code := wire_code code;
                    te_message := message';
                    te_retryable := retryable;
                    te_correlation_id := correlation_id;
                    te_details := safe_details details |} |}.

(** ** The redaction of error details *)

(** Every text value of a JSON value (object keys are not values). *)
Fixpoint json_texts (v : json) : list str :=
  match v with
  | JStr s => [s]
  | JList l => concat (map json_texts l)
  | JObj l => concat (map (fun kv => json_texts kv.2) l)
  | _ => []
  end.

Definition redacted_text (s : str) : Prop := local_path s = false /\ (length s <= 1024)%nat.

Lemma drive_at_take n s : drive_at (take n s) = true -> drive_at s = true.
Proof.
  destruct n as [|[|[|n]]]; destruct s as [|a [|b [|c s]]]; done.
Qed.

Lemma drive_after_space_take n s :
  drive_after_space (take n s) = true -> drive_after_space s = true.
Proof.
  revert n. induction s as [|c s IH]; intros [|n] H; try done. cbn in *.
  apply orb_true_iff in H as [[H1 H2]%andb_true_iff|H]; apply orb_true_iff.
  - left. rewrite H1. by apply drive_at_take in H2.
  - right. eauto.
Qed.

Lemma starts_with_take p n s : starts_with p (take n s) = true -> starts_with p s = true.
Proof.
  rewrite !starts_with_iff. intros [r Hr]. exists (r ++ drop n s).
  rewrite (assoc_L app), <-Hr. by rewrite take_drop.
Qed.

Lemma local_path_take n s : local_path s = false -> local_path (take n s) = false.
Proof.
  unfold local_path, absolute_windows_path. rewrite !orb_false_iff.
  intros [[[H1 H2] H3] H4]. repeat split; apply not_true_iff_false; intros H.
  - apply drive_at_take in H. congruence.
  - apply drive_after_space_take in H. congruence.
  - apply starts_with_take in H. congruence.
  - apply starts_with_take in H. congruence.
Qed.

Lemma redacted_text_safe s :
  Forall redacted_text (json_texts (if local_path s then JStr REDACTED else JStr (take 1024 s))).
Proof.
  destruct (local_path s) eqn:E; cbn [json_texts]; constructor; try done; split.
  - by vm_compute.
  - vm_compute. lia.
  - by apply local_path_take.
  - rewrite length_take. lia.
Qed.

Lemma Forall_concat_map {A B} (P : B -> Prop) (f : A -> list B) l :
  Forall (fun a => Forall P (f a)) l -> Forall P (concat (map f l)).
Proof. induction 1; cbn; [done|]. by apply Forall_app. Qed.

Lemma dict_set_values (P : json -> Prop) k v l :
  P v -> Forall (fun kv => P kv.2) l -> Forall (fun kv => P kv.2) (dict_set k v l).
Proof.
  intros Hv. induction 1 as [|[k' v'] l Hx Hl IH]; cbn; [by constructor|].
  case_decide; by constructor.
Qed.

Lemma dict_of_values (P : json -> Prop) l :
  Forall (fun kv => P kv.2) l -> Forall (fun kv => P kv.2) (dict_of l).
Proof.
  unfold dict_of. assert (Forall (fun kv : str * json => P kv.2) []) as H0 by done. revert H0.
  generalize (@nil (str * json)). induction l as [|[k v] l IH]; intros acc Ha Hl; [done|].
  inversion_clear Hl. cbn. apply IH; [|done]. by apply dict_set_values.
Qed.

