(* ===== verification/OperationGate.v ===== *)
(** * Serialised mutations: operation_gate.py

    [ProjectOperationGate] with its owner table, the [hold] context manager, and
    the threads that use it as a step relation: every call to [reserve] or
    [release] is one atomic step, because both run under the guard lock. *)
From S2P Require Import Prelude.

Module Gate.

(** [self._owners] *)
Notation owners := (gmap str str).

Definition reserve (resource_key owner : str) : ST owners unit :=
  current <- gets (fun s => s !! resource_key) ;;
  match current with
  | Some _ => raise (AgentError "project_busy" true [])
  | None => modify <[resource_key := owner]>
  end.

Definition release (resource_key owner : str) : ST owners unit :=
  current <- gets (fun s => s !! resource_key) ;;
  when (bool_decide (current = Some owner)) (modify (delete resource_key)).

(** The body of the [with] block may itself use the gate. *)
Definition hold {A} (resource_key owner : str) (body : ST owners A) : ST owners A :=
  reserve resource_key owner ;;; try_finally body (release resource_key owner).

#[local] Arguments reserve : simpl never.
#[local] Arguments release : simpl never.

(** ** Threads

    A thread is outside the gate or holds a key under an owner name; [holding]
    records the ones inside. *)
Record system := { table : owners; holding : gmap nat (str * str) }.

Inductive event :=
| Enter (thread : nat) (key owner : str)
| Leave (thread : nat)
| StrayRelease (key owner : str).

(** One atomic step; [None] when the event cannot happen.  A refused [reserve]
    raises in its thread, which stays outside.  A release by a caller that does
    not hold the key, under an owner name that no holder of it uses, is a
    possible event too. *)
Definition step (s : system) (e : event) : option system :=
  match e with
  | Enter t k o =>
      match holding s !! t with
      | Some _ => None
      | None => match reserve k o (table s) with
                | (Ok _, m) => Some {| table := m; holding := <[t := (k, o)]> (holding s) |}
                | (Err _, m) => Some {| table := m; holding := holding s |}
                end
      end
  | Leave t =>
      match holding s !! t with
      | Some (k, o) => Some {| table := (release k o (table s)).2; holding := delete t (holding s) |}
      | None => None
      end
  | StrayRelease k o =>
      if bool_decide (map_Forall (fun _ h => h <> (k, o)) (holding s))
      then Some {| table := (release k o (table s)).2; holding := holding s |}
      else None
  end.

Definition run : system -> list event -> option system :=
  foldl (fun s e => s ≫= fun s => step s e) ∘ Some.

Definition initial : system := {| table := ∅; holding := ∅ |}.

(** The table names exactly the holders, and no two threads hold one key. *)
Record consistent (s : system) : Prop := {
  holder_owns : forall t k o, holding s !! t = Some (k, o) -> table s !! k = Some o;
  owner_holds : forall k o, table s !! k = Some o -> exists t, holding s !! t = Some (k, o);
  exclusive : forall t t' k o o',
    holding s !! t = Some (k, o) -> holding s !! t' = Some (k, o') -> t = t';
}.

Lemma reserve_spec k o m :
  reserve k o m = match m !! k with
                  | Some _ => (Err (AgentError "project_busy" true []), m)
                  | None => (Ok tt, <[k := o]> m)
                  end.
Proof. unfold reserve, bind, gets. by destruct (m !! k). Qed.

Lemma release_spec k o m :
  release k o m = (Ok tt, if bool_decide (m !! k = Some o) then delete k m else m).
Proof. unfold release, bind, gets, when. by case_bool_decide. Qed.

Lemma consistent_initial : consistent initial.
Proof. by split. Qed.

Lemma consistent_enter s t k o :
  consistent s -> holding s !! t = None -> table s !! k = None ->
  consistent {| table := <[k := o]> (table s); holding := <[t := (k, o)]> (holding s) |}.
Proof.
  intros [H1 H2 H3] Ht Hk. split; cbn.
  - intros t' k' o' [[-> [= -> ->]]|[Hne H]]%lookup_insert_Some; [by simplify_map_eq|].
    apply H1 in H. rewrite lookup_insert_ne; [done|]. intros ->. congruence.
  - intros k' o' [[-> ->]|[Hne H]]%lookup_insert_Some; [exists t; by simplify_map_eq|].
    apply H2 in H as [t' H]. exists t'. rewrite lookup_insert_ne; [done|]. intros ->. congruence.
  - intros t1 t2 k' o1 o2 Ha Hb. apply lookup_insert_Some in Ha, Hb.
    destruct Ha as [[<- [= <- <-]]|[? Ha]], Hb as [[<- Hb]|[? Hb]]; try done.
    + apply H1 in Hb. congruence.
    + injection Hb as <- <-. apply H1 in Ha. congruence.
    + by eapply H3.
Qed.

Lemma consistent_leave s t k o :
  consistent s -> holding s !! t = Some (k, o) ->
  consistent {| table := delete k (table s); holding := delete t (holding s) |}.
Proof.
  intros [H1 H2 H3] Ht. split; cbn.
  - intros t' k' o' [Hne H]%lookup_delete_Some. rewrite lookup_delete_ne; [by eauto|].
    intros ->. by destruct (H3 _ _ _ _ _ H Ht).
  - intros k' o' [Hne H]%lookup_delete_Some. apply H2 in H as [t' H]. exists t'.
    rewrite lookup_delete_ne; [done|]. intros ->. congruence.
  - intros t1 t2 k' o1 o2 [? Ha]%lookup_delete_Some [? Hb]%lookup_delete_Some. by eapply H3.
Qed.

Lemma consistent_step s e s' : consistent s -> step s e = Some s' -> consistent s'.
Proof.
  intros Hc. destruct e as [t k o|t|k o]; cbn [step].
  - destruct (holding s !! t) eqn:Ht; [done|]. rewrite reserve_spec.
    destruct (table s !! k) eqn:Hk; intros [= <-]; [by destruct s|by apply consistent_enter].
  - destruct (holding s !! t) as [[k o]|] eqn:Ht; [|done]. rewrite release_spec. intros [= <-]. cbn.
    rewrite bool_decide_eq_true_2 by by eapply holder_owns.
    by apply (consistent_leave s t k o).
  - case_bool_decide as Hn; [|done]. rewrite release_spec. intros [= <-]. cbn.
    rewrite bool_decide_eq_false_2; [by destruct s|].
    intros Hk. apply (owner_holds s Hc) in Hk as [t Ht]. by apply (Hn t) in Ht.
Qed.

Lemma run_none es : foldl (fun s e => s ≫= fun s : system => step s e) None es = None.
Proof. by induction es. Qed.

Lemma consistent_run s es s' : consistent s -> run s es = Some s' -> consistent s'.
Proof.
  unfold run. cbn. revert s. induction es as [|e es IH]; intros s Hc; cbn; [by intros [= <-]|].
  destruct (step s e) as [s1|] eqn:E; [|by rewrite run_none].
  apply IH. by eapply consistent_step.
Qed.



(** [hold] is transparent: a body that leaves the table as it found it, whether
    it returns or raises, runs with the key reserved and the table is restored. *)
Lemma hold_restores {A} k o (body : ST owners A) m :
  m !! k = None -> (body (<[k := o]> m)).2 = <[k := o]> m ->
  (body (<[k := o]> m)).1 <> Err Crash ->
  hold k o body m = ((body (<[k := o]> m)).1, m).
Proof.
  intros Hk Hb Hc. unfold hold, bind. rewrite reserve_spec, Hk. unfold try_finally.
  destruct (body (<[k := o]> m)) as [[a|e] m'] eqn:E; cbn in *; subst m';
    rewrite release_spec, bool_decide_eq_true_2 by apply lookup_insert_eq;
    rewrite delete_insert_id by done; [done|by destruct e].
Qed.

Lemma hold_busy {A} k o o' (body : ST owners A) m :
  m !! k = Some o' -> hold k o body m = (Err (AgentError "project_busy" true []), m).
Proof. intros Hk. unfold hold, bind. by rewrite reserve_spec, Hk. Qed.

End Gate.
