(* ===== verification/Paths.v ===== *)
(** * Project-relative paths: paths.py, protocol types.py and device_read.py

    The lexical validators of both sides of the wire and the resolver that
    confines a path to its registered project.  A file system is a function from
    absolute paths (lists of components) to what the platform reports about them;
    it may differ between two calls, which is how races appear. *)
From S2P Require Import Prelude PyStr Models.

Open Scope N_scope.

(** ** Lexical validation *)

Definition digit_chars : str := lit "123456789".

Definition _RESERVED_NAMES : list str :=
  [lit "CON"; lit "PRN"; lit "AUX"; lit "NUL"] ++
  map (fun d => lit "COM" ++ [d]) digit_chars ++ map (fun d => lit "LPT" ++ [d]) digit_chars.

(** [_INVALID_COMPONENT.search] *)
Definition invalid_char (c : N) : bool := contains_char c (lit "<>:|?*") || (c =? 34) || (c <? 32).
Definition _INVALID_COMPONENT (s : str) : bool := existsb invalid_char s.

(** [component.split(".", 1)[0].upper()]: the reserved names are ASCII and no
    other character has an upper case among their letters. *)
Definition stem (component : str) : str := ascii_upper (hd [] (split_on DOT component)).

Definition dot_name (s : str) : bool := bool_decide (s ∈ [[]; [DOT]; [DOT; DOT]]).
Definition trailing_alias (s : str) : bool := ends_with [DOT] s || ends_with [SPACE] s.

Definition component_error (component : str) : bool :=
  dot_name component || trailing_alias component || _INVALID_COMPONENT component ||
  bool_decide (stem component ∈ _RESERVED_NAMES).

(** [PureWindowsPath(value).drive or .root], for a value that is no UNC path. *)
Definition windows_drive (s : str) : bool := match s with _ :: b :: _ => b =? COLON | _ => false end.
Definition windows_root (s : str) : bool :=
  match s with a :: _ => (a =? SLASH) || (a =? BACKSLASH) | [] => false end.

Definition slashes (value : str) : str := replace_char BACKSLASH SLASH value.

Definition validate_relative_path (value : str) (allow_root : bool) : res str :=
  if contains_char 0 value then agent_error "invalid_path"
  else if bool_decide (value ∈ [[]; [DOT]]) then
    if allow_root then Ok [DOT] else agent_error "invalid_path"
  else if starts_with [BACKSLASH] value || starts_with [SLASH; SLASH] value then
    agent_error "invalid_path"
  else if windows_drive value || windows_root value then agent_error "invalid_path"
  else
    (fix go (rest : list str) (normalized_parts : list str) : res str :=
       match rest with
       | [] => Ok (join [SLASH] normalized_parts)
       | component :: rest' =>
           if component_error component then agent_error "invalid_path"
           else go rest' (normalized_parts ++ [component])
       end) (split_on SLASH (slashes value)) [].

(** *** The protocol's own validators (types.py) *)

Definition MAX_RELATIVE_PATH_CHARS : nat := 1024.

(** [PurePosixPath(value).parts] of a relative path. *)
Definition posix_parts (value : str) : list str :=
  filter (fun w => w <> [] /\ w <> [DOT]) (split_on SLASH value).

Definition drive_prefix (s : str) : bool :=
  match s with a :: b :: _ => is_alpha a && (b =? COLON) | _ => false end.

Definition _validate_relative_path (value : str) : res str :=
  if bool_decide (value ∈ [[]; [DOT]]) then Ok []
  else if (MAX_RELATIVE_PATH_CHARS <? length value)%nat then Err (ValueError "path is too long")
  else if contains_char 0 value || contains_char BACKSLASH value then
    Err (ValueError "path must use forward slashes and contain no NUL")
  else if starts_with [SLASH] value || drive_prefix value then
    Err (ValueError "path must be project-relative")
  else if contains_char COLON value then
    Err (ValueError "alternate data streams and device paths are forbidden")
  else if existsb dot_name (split_on SLASH value) then
    Err (ValueError "path contains an empty, current, or parent component")
  else if existsb (fun part => trailing_alias part || bool_decide (stem part ∈ _RESERVED_NAMES))
            (posix_parts value) then
    Err (ValueError "trailing alias or reserved Windows path component")
  else Ok (join [SLASH] (posix_parts value)).

Definition _validate_opaque_id (value : str) : res str :=
  match value with
  | c :: r =>
      if is_alnum c && ((15 <=? length r)%nat && (length r <=? 127)%nat) &&
         forallb (fun c => is_alnum c || (c =? 95) || (c =? 45)) r
      then Ok value else Err (ValueError "must be an opaque URL-safe identifier")
  | [] => Err (ValueError "must be an opaque URL-safe identifier")
  end.

Definition is_hex_lower (c : N) : bool := is_digit c || ((97 <=? c) && (c <=? 102)).

(** [lower()] maps no other character into [0-9a-f]. *)
Definition _validate_sha256 (value : str) : res str :=
  let normalized := ascii_lower value in
  if (length normalized =? 64)%nat && forallb is_hex_lower normalized then Ok normalized
  else Err (ValueError "must be a lowercase SHA-256 hex digest").

Definition MAX_GLOB_CHARS : nat := 512.

(** [value.replace("**", "*")], left to right. *)
Fixpoint collapse_stars (s : str) : str :=
  match s with
  | 42 :: 42 :: r => 42 :: collapse_stars r
  | c :: r => c :: collapse_stars r
  | [] => []
  end.

Definition _validate_glob (value : str) : res str :=
  if (MAX_GLOB_CHARS <? length value)%nat || contains_char 0 value ||
     contains_char BACKSLASH value || contains_char COLON value then
    Err (ValueError "invalid project-relative glob")
  else if starts_with [SLASH] value then Err (ValueError "glob must be project-relative")
  else if existsb dot_name (split_on SLASH (collapse_stars value)) then
    Err (ValueError "glob contains an invalid component")
  else Ok value.

(** *** The read scope of an approved device read (device_read.py) *)

Definition bad_name_char (c : N) : bool := (c <? 32) || contains_char c (lit "<>|?*") || (c =? 34).

(** [re.match(r"^(COM|LPT)[¹²³](\.|$)", part, re.IGNORECASE)]; [$] also matches
    before a final line feed. *)
Definition superscript_device (part : str) : bool :=
  match part with
  | a :: b :: c :: d :: r =>
      bool_decide (ascii_upper [a; b; c] ∈ [lit "COM"; lit "LPT"]) &&
      bool_decide (d ∈ [185; 178; 179]) &&
      (starts_with [DOT] r || bool_decide (r ∈ [[]; [LF]]))
  | _ => false
  end.

Definition _check_names (value : str) : res unit :=
  if existsb bad_name_char value then Err (ValueError "invalid Windows directory name")
  else if existsb superscript_device (split_on SLASH value) then
    Err (ValueError "reserved Windows device name")
  else Ok tt.

Definition normalize_read_scope (value : str) : res str :=
  let value := slashes value in
  match value with
  | a :: b :: c :: tail =>
      if negb (is_alpha a && (b =? COLON) && (c =? SLASH)) ||
         (MAX_RELATIVE_PATH_CHARS <? length value)%nat
      then Err (ValueError "scope_path must be a fully qualified local Windows directory")
      else
        let tail := if ends_with [SLASH] tail then removelast tail else tail in
        if bool_decide (tail = [DOT]) then Err (ValueError "dot components are forbidden")
        else _validate_relative_path tail ;;? _check_names tail ;;?
             Ok ([upper_char a; COLON; SLASH] ++ tail)
  | _ => Err (ValueError "scope_path must be a fully qualified local Windows directory")
  end.

(** ** File identities and the resolver *)

Record FileIdentity := { volume_serial : Z; file_id : Z; link_count : Z }.
#[export] Instance FileIdentity_eq_dec : EqDecision FileIdentity.
Proof. solve_decision. Defined.

(** What the platform reports about an absolute path.  [n_exists] follows links
    ([Path.exists]); [n_lstat] does not ([None]: no such entry). *)
Record node := {
  n_exists : bool;
  n_lstat : option FileIdentity;
  n_reparse : bool;
  n_is_dir : bool;
  n_is_file : bool;
}.

Definition fs := list str -> node.

Record ValidatedPath := {
  relative : str;
  absolute : list str;
  parent_identity : FileIdentity;
  target_identity : option FileIdentity;
}.

Definition file_identity (f : fs) (path : list str) : res FileIdentity :=
  match n_lstat (f path) with Some i => Ok i | None => Err (OSError "lstat") end.

(** [_is_reparse], of an entry that may be missing. *)
Definition _is_reparse (f : fs) (path : list str) : res bool :=
  match n_lstat (f path) with
  | Some _ => Ok (n_reparse (f path))
  | None => Err (OSError "lstat")
  end.

Definition root_parts (p : Project) : list str := posix_parts (root p).

(** [f"{n:0wx}"] *)
Definition hex_digit (z : Z) : N := Z.to_N (if (z <? 10)%Z then 48 + z else 87 + z)%Z.
Fixpoint hex_digits (fuel : nat) (z : Z) (acc : str) : str :=
  match fuel with
  | O => acc
  | S fuel' => if (z =? 0)%Z then acc else hex_digits fuel' (z / 16)%Z (hex_digit (z mod 16) :: acc)
  end.
Definition hex (w : nat) (z : Z) : str :=
  let d := hex_digits (Z.to_nat (Z.log2 z) + 1) z [] in
  replicate (w - length d) 48%N ++ d.

Definition fingerprint_raw (i : FileIdentity) : str :=
  hex 8 (volume_serial i) ++ [COLON] ++ hex 16 (file_id i).

Section resolver.
  (** [hashlib.sha256(raw.encode()).hexdigest()] of an ASCII text, and
      [os.path.normcase]. *)
  Context (sha256_hex : str -> str) (normcase : list str -> list str).

Definition fingerprint (i : FileIdentity) : str := sha256_hex (fingerprint_raw i).

Definition verify_project (f : fs) (p : Project) : res unit :=
  match file_identity f (root_parts p) with
  | Err _ => agent_error "project_unavailable"
  | Ok i =>
      if negb (bool_decide (fingerprint i = root_fingerprint p)) then
        agent_error "project_identity_changed"
      else r <-? _is_reparse f (root_parts p) ;;
           if r then agent_error "project_identity_changed" else Ok tt
  end.

(** The loop over the components: the path reached and the identity of an
    existing last component. *)
Fixpoint walk (f : fs) (must_exist : bool) (current parts : list str)
    : res (list str * option FileIdentity) :=
  match parts with
  | [] => Ok (current, None)
  | component :: rest =>
      let candidate := current ++ [component] in
      let is_last := bool_decide (rest = []) in
      if n_exists (f candidate) then
        r <-? _is_reparse f candidate ;;
        if r then agent_error "unsafe_path"
        else identity <-? file_identity f candidate ;;
             if is_last then Ok (candidate, Some identity)
             else walk f must_exist candidate rest
      else if negb is_last || must_exist then agent_error "path_not_found"
      else walk f must_exist candidate rest
  end.

(** [os.path.commonpath] of two absolute paths. *)
Fixpoint commonpath (a b : list str) : list str :=
  match a, b with
  | x :: a', y :: b' => if decide (x = y) then x :: commonpath a' b' else []
  | _, _ => []
  end.

Definition resolve (f : fs) (p : Project) (rel : str) (must_exist : bool)
    (directory : option bool) (for_write allow_root : bool) : res ValidatedPath :=
  verify_project f p ;;?
  normalized <-? validate_relative_path rel allow_root ;;
  if bool_decide (normalized = [DOT]) then
    identity <-? file_identity f (root_parts p) ;;
    Ok {| relative := normalized; absolute := root_parts p; parent_identity := identity;
          target_identity := Some identity |}
  else
    reached <-? walk f must_exist (root_parts p) (split_on SLASH normalized) ;;
    let '(current, target) := reached in
    let node := f current in
    if negb (bool_decide (normcase (commonpath (root_parts p) current) = normcase (root_parts p)))
    then agent_error "unsafe_path"
    else if bool_decide (directory = Some true) && (negb (n_exists node) || negb (n_is_dir node))
    then agent_error "not_a_directory"
    else if bool_decide (directory = Some false) && n_exists node && negb (n_is_file node)
    then agent_error "not_a_file"
    else if for_write && match target with Some i => (1 <? link_count i)%Z | None => false end
    then agent_error "unsafe_hardlink"
    else parent <-? file_identity f (removelast current) ;;
         Ok {| relative := normalized; absolute := current; parent_identity := parent;
               target_identity := target |}.

Definition revalidate_for_mutation (f : fs) (p : Project) (validated : ValidatedPath) : res unit :=
  current <-? resolve f p (relative validated)
                (bool_decide (target_identity validated <> None)) None true false ;;
  if negb (bool_decide (parent_identity current = parent_identity validated)) then
    agent_error "path_race"
  else if negb (bool_decide (target_identity current = target_identity validated)) then
    agent_error "path_race"
  else Ok tt.

(** The POSIX branch of [open_read]: [opens] says whether [open] succeeds, and
    the file system may have changed ([f']) between the check and the open. *)
Definition open_read (f f' : fs) (opens : bool) (p : Project) (rel : str) : res (list str) :=
  validated <-? resolve f p rel true (Some false) false false ;;
  if negb opens then agent_error "read_failed"
  else after <-? file_identity f' (absolute validated) ;;
       if negb (bool_decide (Some after = target_identity validated)) then agent_error "path_race"
       else r <-? _is_reparse f' (absolute validated) ;;
            if r then agent_error "path_race" else Ok (absolute validated).

End resolver.

(** ** The lexical guarantee *)

(** A component both sides may use: the specification, without the order of the
    checks. *)
Definition safe_component (c : str) : Prop :=
  c <> [] /\ c <> [DOT] /\ c <> [DOT; DOT] /\
  Forall (fun x => 32 <= x /\ x <> SLASH /\ x <> BACKSLASH /\ x <> COLON /\
                   x ∉ ([60; 62; 34; 124; 63; 42] : list N)) c /\
  last c <> Some DOT /\ last c <> Some SPACE /\ stem c ∉ _RESERVED_NAMES.

(** The path made of these components, all safe. *)
Definition safe_path (r : str) : Prop :=
  exists cs, cs <> [] /\ Forall safe_component cs /\ r = join [SLASH] cs.

Lemma contains_char_false c s : contains_char c s = false <-> c ∉ s.
Proof.
  unfold contains_char. rewrite existsb_false_forall. split.
  - intros H Hin%list_elem_of_In. apply H in Hin. lia.
  - intros H a Ha%list_elem_of_In. destruct (N.eqb_spec c a) as [->|]; done.
Qed.

Lemma ends_with_last c s : ends_with [c] s = true <-> last s = Some c.
Proof.
  unfold ends_with. rewrite starts_with_iff, last_Some. split.
  - intros [r Hr]. exists (rev r). rewrite <-(rev_involutive s), Hr. done.
  - intros [r ->]. exists (rev r). by rewrite rev_app_distr.
Qed.

Lemma go_spec l acc :
  (fix go (rest : list str) (normalized_parts : list str) : res str :=
     match rest with
     | [] => Ok (join [SLASH] normalized_parts)
     | component :: rest' =>
         if component_error component then agent_error "invalid_path"
         else go rest' (normalized_parts ++ [component])
     end) l acc =
  if existsb component_error l then agent_error "invalid_path" else Ok (join [SLASH] (acc ++ l)).
Proof.
  revert acc. induction l as [|c l IH]; intros acc; cbn; [by rewrite app_nil_r|].
  destruct (component_error c); [done|]. cbn. rewrite IH. by rewrite <-(assoc_L app).
Qed.

Lemma invalid_char_spec x : invalid_char x = false ->
  32 <= x /\ x <> COLON /\ x ∉ ([60; 62; 34; 124; 63; 42] : list N).
Proof.
  unfold invalid_char, contains_char. cbn. unfold COLON. rewrite !orb_false_iff. intros H.
  split; [lia|]. split; [lia|]. rewrite !list_elem_of_In. cbn. lia.
Qed.

Lemma invalid_char_complete x :
  32 <= x -> x <> COLON -> x ∉ ([60; 62; 34; 124; 63; 42] : list N) -> invalid_char x = false.
Proof.
  unfold invalid_char, contains_char. cbn. unfold COLON. rewrite !list_elem_of_In. cbn. lia.
Qed.

Lemma component_error_spec c : SLASH ∉ c -> BACKSLASH ∉ c ->
  component_error c = false <-> safe_component c.
Proof.
  intros Hs Hb. unfold component_error, safe_component, dot_name, trailing_alias, _INVALID_COMPONENT.
  rewrite !orb_false_iff, !bool_decide_eq_false, !elem_of_cons, existsb_false_forall,
    Forall_forall.
  assert (forall x, ends_with [x] c = false <-> last c <> Some x) as He.
  { intros x. rewrite <-ends_with_last. by destruct (ends_with [x] c). }
  rewrite !He. split.
  - intros [[[H1 [H2 H3]] H4] H5]. split_and!; try tauto.
    intros x Hx. specialize (H4 x ltac:(by apply list_elem_of_In)).
    apply invalid_char_spec in H4 as (? & ? & ?). split_and!; try done; by intros ->.
  - intros (H1 & H2 & H3 & H4 & H5 & H6 & H7). split_and!; try done.
    + rewrite elem_of_nil. tauto.
    + intros x Hx%list_elem_of_In. destruct (H4 x Hx) as (? & ? & ? & ? & ?).
      by apply invalid_char_complete.
Qed.

Lemma safe_component_no_slash c : safe_component c -> SLASH ∉ c.
Proof. intros (_ & _ & _ & H & _) Hin. rewrite Forall_forall in H. by apply H in Hin as (_ & ? & _). Qed.

Lemma split_join_safe cs : cs <> [] -> Forall safe_component cs ->
  split_on SLASH (join [SLASH] cs) = cs.
Proof.
  intros Hne Hs. apply split_join; [done|]. apply List.forallb_forall. intros c Hc%list_elem_of_In.
  apply negb_true_iff, contains_char_false, safe_component_no_slash.
  by eapply Forall_forall in Hc.
Qed.

Lemma elem_of_join sep x cs : x ∈ join [sep] cs -> x = sep \/ exists c, c ∈ cs /\ x ∈ c.
Proof.
  induction cs as [|c [|c' cs] IH]; intros H; [by apply elem_of_nil in H|..].
  - right. exists c. split; [by left|done].
  - rewrite join_cons in H by done. apply elem_of_app in H as [H|H].
    + right. exists c. split; [by left|done].
    + cbn [app] in H. apply elem_of_cons in H as [->|H]; [by left|].
      destruct (IH H) as [->|(d & Hd & Hx)]; [by left|]. right. exists d. split; [by right|done].
Qed.

Lemma safe_path_char r x : safe_path r -> x ∈ r -> 32 <= x /\ x <> BACKSLASH /\ x <> COLON.
Proof.
  intros (cs & _ & Hs & ->) [->|(c & Hc & Hx)]%elem_of_join; [done|].
  eapply Forall_forall in Hs as (_ & _ & _ & H & _); [|done]. eapply Forall_forall in H; [|done]. tauto.
Qed.

Lemma safe_path_head r a t : safe_path r -> r = a :: t -> a <> SLASH.
Proof.
  intros (cs & Hne & Hs & ->) E ->. apply split_join_safe in Hs as Hj; [|done].
  rewrite E in Hj. cbn in Hj. rewrite <-Hj in Hs. inversion_clear Hs as [|? ? (H & _)]. done.
Qed.

Lemma safe_path_not_root r : safe_path r -> r <> [] /\ r <> [DOT].
Proof.
  intros (cs & Hne & Hs & ->). apply split_join_safe in Hs as Hj; [|done].
  split; intros E; rewrite E in Hj; cbn in Hj; rewrite <-Hj in Hs;
    inversion_clear Hs as [|? ? H _]; destruct H as (? & ? & _); done.
Qed.

Lemma slashes_elem v x : x ∈ v -> (if x =? BACKSLASH then SLASH else x) ∈ slashes v.
Proof. unfold slashes, replace_char. intros H. apply list_elem_of_fmap. eauto. Qed.

Lemma slashes_no_backslash v : BACKSLASH ∉ slashes v.
Proof.
  unfold slashes, replace_char. intros (x & E & _)%list_elem_of_fmap. destruct (N.eqb_spec x BACKSLASH); done.
Qed.

Lemma slashes_id v : BACKSLASH ∉ v -> slashes v = v.
Proof.
  unfold slashes, replace_char. intros H. rewrite <-(map_id v) at 2. apply map_ext_in.
  intros a Ha%list_elem_of_In. destruct (N.eqb_spec a BACKSLASH) as [->|]; done.
Qed.

Lemma elem_of_split sep c s x : c ∈ split_on sep s -> x ∈ c -> x ∈ s.
Proof.
  revert c. induction s as [|a s IH]; cbn; intros c Hc Hx.
  - apply list_elem_of_singleton in Hc as ->. done.
  - destruct (a =? sep).
    + apply elem_of_cons in Hc as [->|Hc]; [by apply elem_of_nil in Hx|]. right. by eapply IH.
    + destruct (split_on sep s) as [|w ws] eqn:E; [by destruct (split_on_nonempty sep s)|].
      apply elem_of_cons in Hc as [->|Hc].
      * apply elem_of_cons in Hx as [->|Hx]; [by left|]. right. apply (IH w); [by left|done].
      * right. apply (IH c); [by right|done].
Qed.

Lemma split_safe v : existsb component_error (split_on SLASH (slashes v)) = false <->
  safe_path (slashes v).
Proof.
  assert (Hin : forall c, c ∈ split_on SLASH (slashes v) -> SLASH ∉ c /\ BACKSLASH ∉ c).
  { intros c Hc. split.
    - pose proof (split_on_no_sep SLASH (slashes v)) as H. rewrite List.forallb_forall in H.
      apply list_elem_of_In, H, negb_true_iff, contains_char_false in Hc. done.
    - intros Hb. by apply (slashes_no_backslash v), (elem_of_split SLASH c). }
  rewrite existsb_false_forall. split.
  - intros H. exists (split_on SLASH (slashes v)). split; [apply split_on_nonempty|].
    split; [|by rewrite join_split]. apply Forall_forall. intros c Hc.
    destruct (Hin c Hc). apply component_error_spec; [done..|]. by apply H, list_elem_of_In.
  - intros (cs & Hne & Hs & E) c Hc%list_elem_of_In. destruct (Hin c Hc).
    apply component_error_spec; [done..|]. rewrite E, split_join_safe in Hc by done.
    by eapply Forall_forall in Hs.
Qed.

Lemma validate_early v : safe_path (slashes v) ->
  contains_char 0 v = false /\ v ∉ ([[]; [DOT]] : list str) /\
  (starts_with [BACKSLASH] v || starts_with [SLASH; SLASH] v) = false /\
  (windows_drive v || windows_root v) = false.
Proof.
  intros Hs.
  assert (Hx : forall x, x ∈ v -> 32 <= (if x =? BACKSLASH then SLASH else x) /\ x <> COLON).
  { intros x Hx%slashes_elem. apply (safe_path_char _ _ Hs) in Hx. destruct (N.eqb_spec x BACKSLASH); [|tauto].
    subst. done. }
  assert (Hh : forall a t, v = a :: t -> a <> SLASH /\ a <> BACKSLASH).
  { intros a t ->. cbn in Hs. pose proof (safe_path_head _ _ _ Hs eq_refl) as H.
    split; intros ->; done. }
  split_and!.
  - apply contains_char_false. intros H%Hx. cbn in H. lia.
  - intros H. apply safe_path_not_root in Hs. rewrite !elem_of_cons, elem_of_nil in H.
    destruct H as [->|[->|[]]]; cbn in Hs; tauto.
  - destruct v as [|a t]; [done|]. destruct (Hh a t eq_refl). cbn [starts_with]. unfold BACKSLASH, SLASH in *. lia.
  - destruct v as [|a [|b t]]; [done|..]; destruct (Hh a _ eq_refl); cbn [windows_drive windows_root].
    + unfold BACKSLASH, SLASH in *. lia.
    + destruct (Hx b) as [_ Hb]; [right; by left|]. unfold BACKSLASH, SLASH, COLON in *. lia.
Qed.

Lemma validate_spec v allow_root r :
  validate_relative_path v allow_root = Ok r <->
  (allow_root = true /\ v ∈ ([[]; [DOT]] : list str) /\ r = [DOT]) \/ (r = slashes v /\ safe_path r).
Proof.
  unfold validate_relative_path. rewrite go_spec. split.
  - destruct (contains_char 0 v); [done|]. case_bool_decide as Hd.
    { destruct allow_root; intros; res_simplify; by left. }
    do 2 (destruct (_ || _); [done|]). destruct (existsb _ _) eqn:He; [done|].
    cbn [app]. rewrite join_split. intros [= <-]. right. split; [done|]. by apply split_safe.
  - intros [(-> & Hv & ->)|[-> Hs]].
    + rewrite (bool_decide_eq_true_2 _ Hv). rewrite !elem_of_cons, elem_of_nil in Hv.
      by destruct Hv as [->|[->|[]]].
    + destruct (validate_early v Hs) as (-> & Hv & -> & ->).
      rewrite (bool_decide_eq_false_2 _ Hv). apply split_safe in Hs as ->.
      cbn [app]. by rewrite join_split.
Qed.

(** C35. Accepted paths are exactly the safe ones.  A value is accepted as the
    project root only when the caller allows it; any other accepted value is
    returned with [/] separators, and it is accepted precisely when every one of
    its components is a name that is safe on Windows: not empty, no dot name, no
    reserved device, no trailing dot or space, no separator, colon, wildcard or
    control character. *)
Theorem validate_relative_path_iff v allow_root r :
  validate_relative_path v allow_root = Ok r <->
  (allow_root = true /\ v ∈ ([[]; [DOT]] : list str) /\ r = [DOT]) \/ (r = slashes v /\ safe_path r).
Proof. apply validate_spec. Qed.

Lemma existsb_orb {A} (p q : A -> bool) l :
  existsb (fun a => p a || q a) l = existsb p l || existsb q l.
Proof. induction l as [|a l IH]; [done|]. cbn. rewrite IH. by destruct (p a), (q a), (existsb p l). Qed.

Lemma existsb_ext' {A} (p q : A -> bool) l : (forall a, p a = q a) -> existsb p l = existsb q l.
Proof. intros H. induction l as [|a l IH]; [done|]. cbn. by rewrite H, IH. Qed.

Lemma component_errors l :
  existsb component_error l =
  existsb dot_name l || existsb _INVALID_COMPONENT l ||
  existsb (fun part => trailing_alias part || bool_decide (stem part ∈ _RESERVED_NAMES)) l.
Proof.
  rewrite <-!existsb_orb. apply existsb_ext'. intros a. unfold component_error.
  by destruct (dot_name a), (trailing_alias a), (_INVALID_COMPONENT a).
Qed.

Lemma invalid_parts r : existsb _INVALID_COMPONENT (split_on SLASH r) = existsb invalid_char r.
Proof.
  apply eq_iff_eq_true. unfold _INVALID_COMPONENT. rewrite !List.existsb_exists. split.
  - intros (c & Hc & (x & Hx & Hi)%List.existsb_exists). exists x. split; [|done].
    apply list_elem_of_In. apply list_elem_of_In in Hc, Hx. by eapply elem_of_split.
  - intros (x & Hx%list_elem_of_In & Hi). rewrite <-(join_split SLASH r) in Hx.
    apply elem_of_join in Hx as [->|(c & Hc & Hx)]; [done|]. exists c.
    split; [by apply list_elem_of_In|]. apply List.existsb_exists. exists x.
    split; [by apply list_elem_of_In|done].
Qed.

Lemma posix_parts_id r : existsb dot_name (split_on SLASH r) = false ->
  posix_parts r = split_on SLASH r.
Proof.
  unfold posix_parts. generalize (split_on SLASH r). intros l.
  induction l as [|c l IH]; cbn [existsb]; [done|]. intros [Hc Hl]%orb_false_iff.
  unfold dot_name in Hc. apply bool_decide_eq_false in Hc.
  rewrite filter_cons_True; [f_equal; by apply IH|]. split; intros ->; apply Hc.
  - by left.
  - right. by left.
Qed.

Lemma drive_prefix_colon r : contains_char COLON r = false -> drive_prefix r = false.
Proof.
  destruct r as [|a [|b r]]; [done..|]. unfold contains_char. cbn [existsb drive_prefix].
  rewrite !orb_false_iff, (N.eqb_sym _ b). intros (_ & -> & _). by rewrite andb_false_r.
Qed.

Lemma agent_accepts_iff w :
  (length w <= MAX_RELATIVE_PATH_CHARS)%nat -> w ∉ ([[]; [DOT]] : list str) ->
  (validate_relative_path w false = Ok w <->
   _validate_relative_path w = Ok w /\ existsb invalid_char w = false).
Proof.
  intros Hl Hd. unfold _validate_relative_path.
  rewrite (bool_decide_eq_false_2 _ Hd), (proj2 (Nat.ltb_ge _ _) Hl). split.
  - intros [(? & _)|[Hw Hs]]%validate_spec; [done|].
    rewrite Hw in Hs. destruct (validate_early w Hs) as (-> & _ & H1 & H2).
    pose proof (proj2 (split_safe w) Hs) as He. rewrite <-Hw, component_errors, !orb_false_iff in He.
    destruct He as [[He1 He2] He3]. rewrite invalid_parts in He2.
    rewrite (posix_parts_id w He1), He1, He2, He3, join_split.
    assert (contains_char COLON w = false) as Hc.
    { apply contains_char_false. intros Hx. rewrite Hw in Hx. by apply (safe_path_char _ _ Hs) in Hx as (_ & _ & ?). }
    assert (contains_char BACKSLASH w = false) as ->.
    { apply contains_char_false. rewrite Hw. apply slashes_no_backslash. }
    rewrite Hc, (drive_prefix_colon _ Hc). apply orb_false_iff in H2 as [_ H2].
    assert (starts_with [SLASH] w = false) as ->; [|done].
    destruct w as [|a w]; [done|]. cbn [starts_with windows_root] in *. unfold SLASH in *. lia.
  - intros [H Hi]. destruct (contains_char 0 w || contains_char BACKSLASH w) eqn:E1; [done|].
    apply orb_false_iff in E1 as [_ Hb]. apply contains_char_false in Hb.
    destruct (starts_with [SLASH] w || drive_prefix w); [done|].
    destruct (contains_char COLON w); [done|].
    destruct (existsb dot_name _) eqn:E2; [done|]. rewrite (posix_parts_id w E2) in H.
    destruct (existsb _ _) eqn:E3 in H; [done|].
    apply validate_spec. right. rewrite slashes_id by done. split; [done|].
    rewrite <-(slashes_id w Hb). apply split_safe. rewrite slashes_id, component_errors by done.
    by rewrite E2, E3, invalid_parts, Hi.
Qed.

(** The two ends of the wire agree on paths: for a value within the length
    limit that is not the project root, the agent accepts it as it stands
    precisely when the protocol model accepts it as it stands and it has no
    forbidden Windows character; so nothing the agent would take is refused on
    the way, and what the agent normalises stays accepted by both. *)
Theorem protocol_agent_paths v r :
  (length v <= MAX_RELATIVE_PATH_CHARS)%nat ->
  (v ∉ ([[]; [DOT]] : list str) ->
   (validate_relative_path v false = Ok v <->
    _validate_relative_path v = Ok v /\ existsb invalid_char v = false)) /\
  (validate_relative_path v false = Ok r ->
   validate_relative_path r false = Ok r /\ _validate_relative_path r = Ok r).
Proof.
  intros Hlen. split; [by apply agent_accepts_iff|]. intros [(? & _)|[-> Hs]]%validate_spec; [done|].
  assert (slashes (slashes v) = slashes v) as Hss by (apply slashes_id, slashes_no_backslash).
  assert (validate_relative_path (slashes v) false = Ok (slashes v)) as H.
  { apply validate_spec. right. by rewrite Hss. }
  split; [done|]. apply agent_accepts_iff; [|destruct (validate_early (slashes v)) as (_ & ? & _); by rewrite ?Hss|done].
  unfold slashes, replace_char. by rewrite length_map.
Qed.

Definition sample_path : str := lit "src\app\main.py".

Lemma protocol_agent_paths_witness :
  validate_relative_path sample_path false = Ok (lit "src/app/main.py") /\
  _validate_relative_path (lit "src/app/main.py") = Ok (lit "src/app/main.py").
Proof.
  assert (H : validate_relative_path sample_path false = Ok (lit "src/app/main.py")) by reflexivity.
  split; [exact H|]. apply (protocol_agent_paths sample_path (lit "src/app/main.py")); [|exact H].
  vm_compute. lia.
Defined.

(** ** Confinement of the resolver *)

Section resolver_proofs.
  Context (sha256_hex : str -> str) (normcase : list str -> list str).

Lemma proper_prefix_single {A} (c : A) pre d :
  pre ++ [d] `prefix_of` [c] -> pre ++ [d] <> [c] -> False.
Proof. intros [k Hk]. by destruct pre as [|? [|??]]; cbn in Hk; simplify_eq. Qed.

Lemma walk_spec f me cur parts to t :
  parts <> [] -> walk f me cur parts = Ok (to, t) ->
  to = cur ++ parts /\
  (forall pre c, pre ++ [c] `prefix_of` parts -> pre ++ [c] <> parts ->
     n_exists (f (cur ++ pre ++ [c])) = true /\ n_reparse (f (cur ++ pre ++ [c])) = false) /\
  match t with
  | Some i => n_exists (f to) = true /\ n_reparse (f to) = false /\ n_lstat (f to) = Some i
  | None => n_exists (f to) = false /\ me = false
  end.
Proof.
  revert cur. induction parts as [|c rest IH]; intros cur Hne H; [done|]. cbn [walk] in H.
  destruct (n_exists (f (cur ++ [c]))) eqn:He.
  - unfold _is_reparse, file_identity in H. destruct (n_lstat (f (cur ++ [c]))) as [i|] eqn:Hl; [|done].
    cbn [rbind] in H. destruct (n_reparse (f (cur ++ [c]))) eqn:Hr; [done|]. case_bool_decide as Hrest.
    + subst rest. injection H as <- <-. split_and!; try done. intros pre d Hp Hn. by destruct (proper_prefix_single c pre d).
    + destruct (IH (cur ++ [c]) Hrest H) as (-> & Hp & Ht). rewrite <-(assoc_L app) in *. split_and!; [done| |done].
      intros pre d [k Hk] Hne'. destruct pre as [|p pre]; cbn in Hk; injection Hk as <- Hk.
      * done.
      * cbn. specialize (Hp pre d). rewrite <-!(assoc_L app) in Hp. cbn in Hp. apply Hp.
        -- by exists k.
        -- intros Heq. apply Hne'. cbn. by rewrite Heq.
  - destruct (negb (bool_decide (rest = [])) || me) eqn:E; [done|].
    apply orb_false_iff in E as [E ->]. apply negb_false_iff, bool_decide_eq_true in E. subst rest.
    cbn in H. injection H as <- <-. split_and!; try done. intros pre d Hp Hn. by destruct (proper_prefix_single c pre d).
Qed.

(** Where a resolved path stands in the file system [f]. *)
Record confined (f : fs) (p : Project) (v : ValidatedPath) (cs : list str) : Prop := {
  conf_safe : cs <> [] /\ Forall safe_component cs;
  conf_names : relative v = join [SLASH] cs /\ absolute v = root_parts p ++ cs;
  conf_root : exists i, n_lstat (f (root_parts p)) = Some i /\
                fingerprint sha256_hex i = root_fingerprint p /\ n_reparse (f (root_parts p)) = false;
  conf_ancestors : forall pre c, pre ++ [c] `prefix_of` cs -> pre ++ [c] <> cs ->
    n_exists (f (root_parts p ++ pre ++ [c])) = true /\
    n_reparse (f (root_parts p ++ pre ++ [c])) = false;
  conf_parent : n_lstat (f (root_parts p ++ removelast cs)) = Some (parent_identity v);
  conf_target : match target_identity v with
    | Some i => n_exists (f (absolute v)) = true /\ n_reparse (f (absolute v)) = false /\
                n_lstat (f (absolute v)) = Some i
    | None => n_exists (f (absolute v)) = false
    end;
}.

Lemma verify_project_spec f p : verify_project sha256_hex f p = Ok tt ->
  exists i, n_lstat (f (root_parts p)) = Some i /\
    fingerprint sha256_hex i = root_fingerprint p /\ n_reparse (f (root_parts p)) = false.
Proof.
  unfold verify_project, file_identity, _is_reparse.
  destruct (n_lstat (f (root_parts p))) as [i|]; [|done].
  case_bool_decide as Hf; [|done]. cbn. destruct (n_reparse (f (root_parts p))) eqn:E; [done|]. eauto.
Qed.

Lemma resolve_confined_lemma f p rel me dir fw ar v :
  resolve sha256_hex normcase f p rel me dir fw ar = Ok v -> relative v <> [DOT] ->
  exists cs, confined f p v cs /\ slashes rel = relative v /\
    (target_identity v = None -> me = false) /\
    (fw = true -> forall i, target_identity v = Some i -> (link_count i <= 1)%Z).
Proof.
  unfold resolve. destruct (verify_project _ f p) as [[]|] eqn:Hv; [|done]. cbn [rbind].
  apply verify_project_spec in Hv.
  destruct (validate_relative_path rel ar) as [n|] eqn:Hn; [|done]. cbn [rbind].
  case_bool_decide as Hdot.
  { intros H Hne. destruct (file_identity f (root_parts p)); [|done]. cbn in H. injection H as <-. done. }
  apply validate_spec in Hn as [(_ & _ & ?)|[-> Hs]]; [done|].
  destruct Hs as (cs & Hne & Hs & E). rewrite E, split_join_safe by done.
  destruct (walk f me (root_parts p) cs) as [[to t]|] eqn:Hw; [|done]. cbn [rbind].
  apply walk_spec in Hw as (-> & Hp & Ht); [|done].
  do 4 pass_guard. rewrite removelast_app by done.
  unfold file_identity at 1. destruct (n_lstat (f (root_parts p ++ removelast cs))) as [pi|] eqn:Hpi; [|done].
  intros [= <-] _. exists cs. split; [split; cbn; try done|split_and!; cbn; [done|..]].
  - destruct t; tauto.
  - intros ->. tauto.
  - intros -> j ->. reflect_bools. lia.
Qed.


Lemma resolve_not_root f p rel me dir fw v :
  resolve sha256_hex normcase f p rel me dir fw false = Ok v -> relative v <> [DOT].
Proof.
  unfold resolve. intros (_ & _ & H)%rbind_ok Hd. apply rbind_ok in H as (n & Hn & H).
  apply validate_spec in Hn as [(? & _)|[-> Hs]]; [done|].
  apply safe_path_not_root in Hs as Hns. case_bool_decide; [tauto|].
  apply rbind_ok in H as ([cur t] & _ & H). do 4 pass_guard.
  apply rbind_ok in H as (pi & _ & [= <-]). tauto.
Qed.

Lemma confined_relative f p v cs : confined f p v cs -> slashes (relative v) = relative v.
Proof.
  intros [[? Hs] [-> _] _ _ _ _]. apply slashes_id. intros Hb.
  assert (safe_path (join [SLASH] cs)) as Hp by (by exists cs).
  by apply (safe_path_char _ _ Hp) in Hb as (_ & ? & _).
Qed.

(** A path that passes the check right before its mutation still leads to
    the objects that were checked first: whatever happened to the file system in
    between, the second file system confines the same path, and its parent
    directory and its target are the ones of the first resolution. *)
Theorem revalidate_same_objects f f' p rel must_exist directory for_write v :
  resolve sha256_hex normcase f p rel must_exist directory for_write false = Ok v ->
  revalidate_for_mutation sha256_hex normcase f' p v = Ok tt ->
  exists cs, confined f p v cs /\ confined f' p v cs /\
    (forall i, target_identity v = Some i -> (link_count i <= 1)%Z).
Proof.
  intros H1 H2. pose proof (resolve_not_root _ _ _ _ _ _ _ H1) as Hd.
  destruct (resolve_confined_lemma _ _ _ _ _ _ _ _ H1 Hd) as (cs & Hc & _ & _ & _).
  unfold revalidate_for_mutation in H2. apply rbind_ok in H2 as (v' & Hr & H2).
  do 2 pass_guard. reflect_bools.
  pose proof (resolve_not_root _ _ _ _ _ _ _ Hr) as Hd'.
  destruct (resolve_confined_lemma _ _ _ _ _ _ _ _ Hr Hd') as (cs' & Hc' & Hrel & _ & Hl).
  rewrite (confined_relative _ _ _ _ Hc) in Hrel.
  assert (cs' = cs) as ->.
  { destruct (conf_names _ _ _ _ Hc) as [Hn _], (conf_names _ _ _ _ Hc') as [Hn' _].
    destruct (conf_safe _ _ _ _ Hc), (conf_safe _ _ _ _ Hc').
    rewrite <-(split_join_safe cs), <-(split_join_safe cs'), <-Hn, <-Hn' by done. by rewrite Hrel. }
  assert (v' = v) as ->.
  { destruct (conf_names _ _ _ _ Hc) as [_ Ha], (conf_names _ _ _ _ Hc') as [_ Ha'].
    destruct v, v'; cbn in *. congruence. }
  eauto.
Qed.

(** A small project tree: a root with a directory and a file in it. *)
Definition sample_project : Project :=
  {| project_id := lit "p"; title := lit "t"; root := lit "/w/app"; root_fingerprint := lit "fp";
     mode := NATIVE_PROJECT; enabled := true |}.
Definition sample_fs : fs := fun path =>
  let entry n d := {| n_exists := true;
    n_lstat := Some {| volume_serial := 1; file_id := n; link_count := 1 |};
    n_reparse := false; n_is_dir := d; n_is_file := negb d |} in
  if bool_decide (path = [lit "w"; lit "app"]) then entry 2%Z true
  else if bool_decide (path = [lit "w"; lit "app"; lit "src"]) then entry 3%Z true
  else if bool_decide (path = [lit "w"; lit "app"; lit "src"; lit "a.py"]) then entry 4%Z false
  else {| n_exists := false; n_lstat := None; n_reparse := false; n_is_dir := false;
          n_is_file := false |}.

End resolver_proofs.


Lemma revalidate_same_objects_witness :
  exists v cs, resolve (fun _ => lit "fp") id sample_fs sample_project (lit "src\a.py") true
    (Some false) true false = Ok v /\ confined (fun _ => lit "fp") sample_fs sample_project v cs.
Proof.
  eexists _. refine (match revalidate_same_objects (fun _ => lit "fp") id sample_fs sample_fs sample_project
    (lit "src\a.py") true (Some false) true _ _ _ with
    | ex_intro _ cs H => ex_intro _ cs (conj _ (proj1 H)) end); [vm_compute; reflexivity|vm_compute; reflexivity|].
  vm_compute; reflexivity.
Defined.
