(* ===== verification/PatchFormat.v ===== *)
(** * Anchored patches: the text format of patching.py and protocol patch.py

    [_TextFile] with its decoder and encoder, the parser of the patch grammar,
    the application of hunks, and the protocol's own scan of a patch document. *)
From S2P Require Import Prelude Utf8 PyStr Models Paths.

Open Scope N_scope.

Definition MAX_PATCH_BYTES : Z := 2097152.

(** ** Data *)

Inductive LinePrefix := Keep | Plus | Minus.
#[export] Instance LinePrefix_eq_dec : EqDecision LinePrefix.
Proof. solve_decision. Defined.

Definition prefix_char (p : LinePrefix) : N :=
  match p with Keep => SPACE | Plus => 43 | Minus => 45 end.

Definition prefix_of_char (c : N) : option LinePrefix :=
  if c =? SPACE then Some Keep else if c =? 43 then Some Plus else if c =? 45 then Some Minus else None.

Definition Hunk := list (LinePrefix * str).

Inductive PatchAction := Add | Update | Delete | Move.
#[export] Instance PatchAction_eq_dec : EqDecision PatchAction.
Proof. solve_decision. Defined.

Record PatchSection := {
  action : PatchAction;
  path : str;
  destination : option str;
  add_lines : list str;
  hunks : list Hunk;
}.

(** ** Text files *)

Record _TextFile := {
  lines : list str;
  newline : str;
  final_newline : bool;
  bom : bool;
}.

Definition BOM : bytes := [239; 187; 191]%Z.

Definition has_bom (raw : bytes) : bool := bool_decide (BOM `prefix_of` raw).

(** ["\r\n" in text] *)
Fixpoint has_crlf (s : str) : bool :=
  match s with
  | a :: (b :: _) as r => ((a =? CR) && (b =? LF)) || has_crlf r
  | _ => false
  end.

Definition ends_with_newline (s : str) : bool :=
  ends_with [CR; LF] s || ends_with [LF] s || ends_with [CR] s.

Section text.
  (** [os.linesep] *)
  Context (linesep : str).

Definition newline_of (text : str) : str :=
  if has_crlf text then [CR; LF]
  else if contains_char LF text then [LF]
  else if contains_char CR text then [CR]
  else linesep.

Definition decode (raw : bytes) : res _TextFile :=
  let bom := has_bom raw in
  let body := if bom then drop 3 raw else raw in
  match utf8_decode body with
  | None => agent_error "unsupported_encoding"
  | Some text =>
      Ok {| lines := splitlines text; newline := newline_of text;
            final_newline := ends_with_newline text; bom := bom |}
  end.
End text.

Definition encode_text (d : _TextFile) : str :=
  let text := join (newline d) (lines d) in
  if final_newline d && negb (bool_decide (lines d = [])) then text ++ newline d else text.

(** [None]: the text has a lone surrogate, [str.encode] raises. *)
Definition encode (d : _TextFile) : option bytes :=
  (fun raw => if bom d then BOM ++ raw else raw) <$> utf8_encode (encode_text d).

(** ** The parser *)

Definition BEGIN_PATCH : str := lit "*** Begin Patch".
Definition END_PATCH : str := lit "*** End Patch".
Definition MOVE_TO : str := lit "*** Move to: ".
Definition HUNK_MARK : str := lit "@@".

Definition header_prefix (a : PatchAction) : str :=
  match a with
  | Add => lit "*** Add File: " | Update => lit "*** Update File: "
  | Delete => lit "*** Delete File: " | Move => MOVE_TO
  end.

Definition strip_prefix (p s : str) : option str :=
  if starts_with p s then Some (drop (length p) s) else None.

(** [_SECTION_RE.fullmatch(line)]: the action and the path of a header line. *)
Definition match_header (a : PatchAction) (line : str) : option (PatchAction * str) :=
  match strip_prefix (header_prefix a) line with
  | Some (c :: r) => if contains_char LF (c :: r) then None else Some (a, c :: r)
  | _ => None
  end.

Definition section_header (line : str) : option (PatchAction * str) :=
  match match_header Add line with
  | Some h => Some h
  | None => match match_header Update line with
            | Some h => Some h
            | None => match_header Delete line
            end
  end.

Fixpoint span {A} (p : A -> bool) (l : list A) : list A * list A :=
  match l with
  | [] => ([], [])
  | a :: r => if p a then let '(x, y) := span p r in (a :: x, y) else ([], l)
  end.

Definition invalid_patch {A} : res A := agent_error "invalid_patch".

Fixpoint map_res {A B} (f : A -> res B) (l : list A) : res (list B) :=
  match l with
  | [] => Ok []
  | a :: r => b <-? f a ;; bs <-? map_res f r ;; Ok (b :: bs)
  end.

Definition parse_hunk_line (line : str) : res (LinePrefix * str) :=
  match line with
  | [] => invalid_patch
  | c :: r => match prefix_of_char c with Some p => Ok (p, r) | None => invalid_patch end
  end.

Definition old_lines (h : Hunk) : list str := map snd (filter (fun l => l.1 <> Plus) h).
Definition new_lines (h : Hunk) : list str := map snd (filter (fun l => l.1 <> Minus) h).
Definition changes (h : Hunk) : bool := existsb (fun l => bool_decide (l.1 <> Keep)) h.

(** [while cursor < len(content)]; every round takes at least the [@@] line. *)
Fixpoint parse_hunks (fuel : nat) (content : list str) : res (list Hunk) :=
  match content with
  | [] => Ok []
  | mark :: rest =>
      match fuel with
      | O => Err (OSError "fuel")
      | S fuel =>
          if negb (bool_decide (mark = HUNK_MARK)) then invalid_patch
          else
            let '(body, rest) := span (fun l => negb (bool_decide (l = HUNK_MARK))) rest in
            hunk_lines <-? map_res parse_hunk_line body ;;
            if bool_decide (old_lines hunk_lines = []) then invalid_patch
            else if negb (changes hunk_lines) then invalid_patch
            else hunks <-? parse_hunks fuel rest ;; Ok (hunk_lines :: hunks)
      end
  end.

Definition is_header (line : str) : bool :=
  match section_header line with Some _ => true | None => false end.

(** The optional [*** Move to: ] line after an Update header. *)
Definition parse_move (action : PatchAction) (body : list str)
    : res (PatchAction * option str * list str) :=
  match action, body with
  | Update, line :: rest =>
      match strip_prefix MOVE_TO line with
      | Some dest => destination <-? validate_relative_path dest false ;;
                     Ok (Move, Some destination, rest)
      | None => Ok (action, None, body)
      end
  | _, _ => Ok (action, None, body)
  end.

Definition parse_content (action : PatchAction) (path : str) (destination : option str)
    (content : list str) : res PatchSection :=
  match action with
  | Add =>
      if bool_decide (content = []) || existsb (fun line => negb (starts_with [43] line)) content
      then invalid_patch
      else Ok {| action := Add; path := path; destination := None;
                 add_lines := map (drop 1) content; hunks := [] |}
  | Delete =>
      if negb (bool_decide (content = [])) then invalid_patch
      else Ok {| action := Delete; path := path; destination := None; add_lines := []; hunks := [] |}
  | Update | Move =>
      hunks <-? parse_hunks (length content) content ;;
      if bool_decide (hunks = []) then invalid_patch
      else Ok {| action := action; path := path; destination := destination; add_lines := [];
                 hunks := hunks |}
  end.

(** [while index < len(lines) - 1], on the lines between the two markers; every
    round takes at least the header line. *)
Fixpoint parse_sections (fuel : nat) (body : list str) : res (list PatchSection) :=
  match body with
  | [] => Ok []
  | line :: rest =>
      match fuel with
      | O => Err (OSError "fuel")
      | S fuel =>
          match section_header line with
          | None => invalid_patch
          | Some (a, raw) =>
              path <-? validate_relative_path raw false ;;
              moved <-? parse_move a rest ;;
              let '(a, destination, rest) := moved in
              let '(content, rest) := span (fun l => negb (is_header l)) rest in
              section <-? parse_content a path destination content ;;
              sections <-? parse_sections fuel rest ;; Ok (section :: sections)
          end
      end
  end.

Definition parse (document : str) : res (list PatchSection) :=
  match utf8_encode document with
  | None => Err (ValueError "surrogates not allowed")
  | Some raw =>
      if (MAX_PATCH_BYTES <? Z.of_nat (length raw))%Z then invalid_patch
      else match splitlines document with
      | first :: rest =>
          if negb (bool_decide (first = BEGIN_PATCH)) ||
             negb (bool_decide (last (first :: rest) = Some END_PATCH)) then invalid_patch
          else sections <-? parse_sections (length rest) (removelast rest) ;;
               if bool_decide (sections = []) then invalid_patch else Ok sections
      | [] => invalid_patch
      end
  end.

(** ** Applying hunks *)

(** [lines[index : index + len(expected)] == expected] *)
Definition matches_at (ls expected : list str) (index : nat) : bool :=
  bool_decide (take (length expected) (drop index ls) = expected).

Definition candidates (minimum_index : nat) (ls expected : list str) : list nat :=
  filter (fun index => matches_at ls expected index = true)
    (seq minimum_index (length ls + 1 - length expected - minimum_index)).

Definition patch_conflict {A} (reason : string) : res A :=
  Err (AgentError "patch_conflict" false [(lit "reason", reason)]).

Fixpoint apply_hunk_list (ls : list str) (minimum_index : nat) (hunks : list Hunk)
    : res (list str) :=
  match hunks with
  | [] => Ok ls
  | hunk :: rest =>
      let expected := old_lines hunk in
      let replacement := new_lines hunk in
      match candidates minimum_index ls expected with
      | [] => patch_conflict "not_found"
      | [index] =>
          apply_hunk_list (take index ls ++ replacement ++ drop (index + length expected) ls)
            (index + length replacement) rest
      | _ => patch_conflict "ambiguous"
      end
  end.

Definition _apply_hunks (document : _TextFile) (hunks : list Hunk) : res _TextFile :=
  ls <-? apply_hunk_list (lines document) 0 hunks ;;
  Ok {| lines := ls; newline := newline document; final_newline := final_newline document;
        bom := bom document |}.

(** ** Text files: what decoding and encoding keep *)

(** Every line ends with [nl], the last one possibly with nothing. *)
Fixpoint uniform (nl : str) (ls : list (str * str)) : Prop :=
  match ls with
  | [] => True
  | [(_, t)] => t = nl \/ t = []
  | (_, t) :: r => t = nl /\ uniform nl r
  end.

Definition newlines : list str := [[CR; LF]; [LF]; [CR]].

Definition terminated (nl : str) (ls : list str) : str := concat (map (fun l => l ++ nl) ls).

Lemma lines_of_term l nl r : no_break l = true -> nl ∈ newlines ->
  (nl = [CR] -> head r <> Some LF) -> lines_of (l ++ nl ++ r) = (l, nl) :: lines_of r.
Proof.
  intros Hl Hnl Hr. unfold lines_of. rewrite lines_go_app, app_nil_r by done.
  unfold newlines in Hnl. rewrite !elem_of_cons, elem_of_nil in Hnl.
  destruct Hnl as [->|[->|[->|[]]]]; cbn [app lines_go]; cbn [N.eqb CR LF Pos.eqb is_break];
    rewrite ?rev_involutive; [done|done|].
  destruct r as [|d r]; [done|]. destruct (N.eqb_spec d LF) as [->|]; [by destruct (Hr eq_refl)|done].
Qed.

Lemma no_break_head l : no_break l = true -> head l <> Some LF.
Proof. destruct l as [|a l]; [done|]. cbn. intros H [= ->]. done. Qed.

Lemma head_terminated nl ls x : nl ∈ newlines -> Forall (fun l => no_break l = true) ls ->
  no_break x = true -> nl = [CR] -> head (terminated nl ls ++ x) <> Some LF.
Proof.
  intros _ Hls Hx ->. destruct Hls as [|l ls Hl _]; cbn; [by apply no_break_head|].
  destruct l as [|a l]; [done|]. cbn. intros [= ->]. done.
Qed.

Lemma lines_of_terminated nl ls x :
  nl ∈ newlines -> Forall (fun l => no_break l = true) ls -> no_break x = true ->
  lines_of (terminated nl ls ++ x) =
  map (fun l => (l, nl)) ls ++ (if bool_decide (x = []) then [] else [(x, [])]).
Proof.
  intros Hnl Hls Hx. induction Hls as [|l ls Hl Hls IH]; cbn.
  - case_bool_decide; [by subst|]. by apply lines_of_last.
  - rewrite <-!(assoc_L app), lines_of_term; [by rewrite <-IH|done..|].
    by apply head_terminated.
Qed.

Lemma join_terminated nl ls x : join nl (ls ++ [x]) = terminated nl ls ++ x.
Proof.
  induction ls as [|l ls IH]; [done|]. cbn [app]. rewrite join_cons by (by destruct ls).
  rewrite IH. unfold terminated. cbn. by rewrite <-!(assoc_L app).
Qed.

(** The lines of a written file, in both cases of [final_newline]. *)
Lemma encode_text_cases d :
  (lines d = [] /\ encode_text d = []) \/
  (exists ls x, lines d = ls ++ [x] /\
     encode_text d = terminated (newline d) ls ++ x ++ (if final_newline d then newline d else [])).
Proof.
  unfold encode_text. induction (lines d) as [|a r _] using rev_ind.
  - left. split; [done|]. cbn. by rewrite andb_false_r.
  - right. exists r, a. split; [done|]. rewrite join_terminated.
    rewrite (bool_decide_eq_false_2 (r ++ [a] = [])) by (by destruct r). rewrite andb_true_r.
    destruct (final_newline d); by rewrite ?app_nil_r, ?(assoc_L app).
Qed.

Lemma lines_of_encode d : newline d ∈ newlines -> Forall (fun l => no_break l = true) (lines d) ->
  lines_of (encode_text d) =
  match last (lines d) with
  | None => []
  | Some x => map (fun l => (l, newline d)) (removelast (lines d)) ++
              (if final_newline d then [(x, newline d)]
               else if bool_decide (x = []) then [] else [(x, [])])
  end.
Proof.
  intros Hnl Hls. destruct (encode_text_cases d) as [[-> ->]|(ls & x & E & ->)]; [done|].
  rewrite E, last_snoc, removelast_last. rewrite E in Hls. apply Forall_app in Hls as [Hls Hx].
  inversion_clear Hx as [|?? Hx' _]. destruct (final_newline d).
  - assert (terminated (newline d) ls ++ x ++ newline d = terminated (newline d) (ls ++ [x]) ++ []) as ->.
    { unfold terminated. rewrite map_app, concat_app. cbn. by rewrite !app_nil_r. }
    rewrite lines_of_terminated; [|done| |done].
    + by rewrite map_app, bool_decide_eq_true_2, app_nil_r.
    + apply Forall_app. by repeat constructor.
  - rewrite app_nil_r. by apply lines_of_terminated.
Qed.

Lemma uniform_snoc nl ls x t :
  uniform nl (ls ++ [(x, t)]) <-> Forall (fun p => p.2 = nl) ls /\ (t = nl \/ t = []).
Proof.
  induction ls as [|[l u] ls IH]; cbn.
  - split; [by split|tauto].
  - assert (uniform nl ((l, u) :: ls ++ [(x, t)]) <-> u = nl /\ uniform nl (ls ++ [(x, t)])) as Hc.
    { by destruct ls. }
    cbn in Hc. rewrite Hc, IH, Forall_cons. cbn. tauto.
Qed.

Lemma lines_go_unterminated acc s : Forall (fun p => p.2 = [] -> p.1 <> []) (lines_go acc s).
Proof.
  revert acc. induction s as [s IH] using (induction_ltof1 _ (@length N)). unfold ltof in IH.
  intros acc. destruct s as [|c r]; cbn [lines_go].
  { destruct acc as [|a acc]; [done|]. constructor; [|done]. cbn. intros _ E.
    by destruct (app_cons_not_nil _ _ _ (eq_sym E)). }
  destruct (c =? CR).
  - destruct r as [|d r']; [by repeat constructor|].
    destruct (d =? LF); (constructor; [done|]); apply IH; cbn; lia.
  - destruct (is_break c); [constructor; [done|]|]; apply IH; cbn; lia.
Qed.

Lemma ends_with_app p s : ends_with p (s ++ p) = true.
Proof. unfold ends_with. rewrite rev_app_distr. apply starts_with_app. Qed.

Lemma ends_with_newline_app nl s : nl ∈ newlines -> ends_with_newline (s ++ nl) = true.
Proof.
  unfold newlines, ends_with_newline. rewrite !elem_of_cons, elem_of_nil.
  intros [->|[->|[->|[]]]]; by rewrite ends_with_app, ?orb_true_r.
Qed.

Lemma ends_with_newline_last s c : last s = Some c -> is_break c = false -> ends_with_newline s = false.
Proof.
  intros Hl Hc. unfold ends_with_newline.
  assert (c <> LF /\ c <> CR) as [? ?] by (split; intros ->; done).
  assert (forall x, x <> c -> ends_with [x] s = false) as He.
  { intros x Hx. apply not_true_iff_false. rewrite ends_with_last. congruence. }
  rewrite !He by done. unfold ends_with. cbn [rev app].
  apply last_Some in Hl as [l ->]. rewrite rev_app_distr. cbn [rev app starts_with].
  assert ((LF =? c) = false) as -> by (by apply N.eqb_neq). done.
Qed.

Lemma newline_of_newlines linesep text : linesep ∈ newlines -> newline_of linesep text ∈ newlines.
Proof. intros H. unfold newline_of. repeat case_match; [by left|right; by left|right; right; by left|done]. Qed.

Lemma lines_of_concat s : concat (map (fun p => p.1 ++ p.2) (lines_of s)) = s.
Proof. apply lines_go_concat. Qed.

Lemma concat_uniform nl ls : Forall (fun p : str * str => p.2 = nl) ls ->
  concat (map (fun p => p.1 ++ p.2) ls) = terminated nl (map fst ls).
Proof. unfold terminated. induction 1 as [|[l t] ls Ht _ IH]; cbn in *; [done|]. by rewrite IH, Ht. Qed.

Lemma splitlines_fst_break_free s : Forall (fun l => no_break l = true) (map fst (lines_of s)).
Proof. apply (splitlines_break_free s). Qed.

Definition text_file nl text bom : _TextFile :=
  {| lines := splitlines text; newline := nl; final_newline := ends_with_newline text; bom := bom |}.

Lemma encode_uniform nl text b : nl ∈ newlines -> uniform nl (lines_of text) ->
  encode_text (text_file nl text b) = text.
Proof.
  intros Hnl. destruct (encode_text_cases (text_file nl text b)) as [[E ->]|(ls & x & E & ->)];
    cbn [lines newline final_newline text_file] in *; unfold splitlines in E.
  { intros _. apply map_eq_nil in E. by rewrite <-(lines_of_concat text), E. }
  apply fmap_app_inv in E as (L & [|[x' t] [|]] & E1 & E2 & E); cbn in E2; try done.
  injection E2 as ->. subst ls. rewrite E, uniform_snoc. intros [HL Ht].
  assert (Htext : text = terminated nl (map fst L) ++ x' ++ t).
  { rewrite <-(lines_of_concat text), E, map_app, concat_app, (concat_uniform nl) by done. cbn.
    by rewrite app_nil_r. }
  destruct Ht as [->| ->].
  - assert (ends_with_newline text = true) as ->; [|done].
    rewrite Htext, (assoc_L app). by apply ends_with_newline_app.
  - pose proof (lines_go_unterminated [] text) as Hne. fold (lines_of text) in Hne. rewrite E in Hne.
    pose proof (splitlines_fst_break_free text) as Hb. rewrite E, map_app in Hb.
    apply Forall_app in Hne as [_ Hne], Hb as [_ Hb].
    inversion_clear Hne as [|?? Hx _]. inversion_clear Hb as [|?? Hx' _]. cbn in Hx, Hx'.
    destruct (last x') as [c|] eqn:Hc; [|by apply last_None in Hc; destruct Hx].
    assert (is_break c = false) as Hcb.
    { apply last_Some in Hc as [l ->]. unfold no_break in Hx'. rewrite forallb_app in Hx'.
      cbn in Hx'. by destruct (is_break c); [rewrite andb_false_r in Hx'|]. }
    rewrite (ends_with_newline_last text c); [done|rewrite Htext|done].
    rewrite app_nil_r. by rewrite last_app, Hc.
Qed.

Lemma uniform_encode nl text b : nl ∈ newlines ->
  encode_text (text_file nl text b) = text -> uniform nl (lines_of text).
Proof.
  intros Hnl E. rewrite <-E, lines_of_encode; [|done|apply splitlines_break_free].
  cbn [lines newline final_newline text_file]. destruct (last (splitlines text)) as [x|] eqn:Hx; [|done].
  assert (HF : Forall (fun p : str * str => p.2 = nl) (map (fun l => (l, nl)) (removelast (splitlines text)))).
  { apply Forall_map. by apply Forall_forall. }
  destruct (ends_with_newline text) eqn:Hf; [apply uniform_snoc; by split; [|left]|].
  case_bool_decide as Hxe; [|apply uniform_snoc; by split; [|right]]. subst x.
  exfalso. pose proof (lines_of_encode (text_file nl text b) Hnl (splitlines_break_free text)) as HL.
  rewrite E in HL. cbn [lines newline final_newline text_file] in HL.
  rewrite Hx, Hf, bool_decide_eq_true_2, app_nil_r in HL by done.
  apply (f_equal length) in HL. rewrite length_map in HL.
  apply last_Some in Hx as [l Hx]. rewrite Hx, removelast_last in HL. unfold splitlines in Hx.
  apply (f_equal length) in Hx. rewrite length_map, length_app in Hx. cbn in Hx. lia.
Qed.

Lemma has_bom_split raw : has_bom raw = true -> raw = BOM ++ drop 3 raw.
Proof. unfold has_bom. intros [k ->]%bool_decide_eq_true. done. Qed.

(** C36. A file that is decoded and written back unchanged comes out byte for byte
    the same precisely when all its lines end with the newline the decoder
    chose, the last line possibly unterminated.  In particular every other line
    boundary of Python's [splitlines] (a vertical tab, a form feed, U+0085,
    U+2028, ...) and every mixed newline is rewritten. *)
Theorem text_file_roundtrip linesep raw d text :
  linesep ∈ newlines -> Forall is_byte raw -> decode linesep raw = Ok d ->
  utf8_decode (if has_bom raw then drop 3 raw else raw) = Some text ->
  (encode d = Some raw <-> uniform (newline d) (lines_of text)).
Proof.
  unfold decode. intros Hls Hraw Hd Htext. unfold bytes in Hd, Htext. rewrite Htext in Hd. injection Hd as <-.
  set (nl := newline_of linesep text). fold (text_file nl text (has_bom raw)). cbn [newline].
  pose proof (newline_of_newlines linesep text Hls : nl ∈ newlines) as Hnl.
  assert (Henc : utf8_encode text = Some (if has_bom raw then drop 3 raw else raw)).
  { apply utf8_encode_decode; [|done]. destruct (has_bom raw); [by apply Forall_drop|done]. }
  unfold encode. cbn [bom text_file]. split; intros H.
  - apply (uniform_encode nl text (has_bom raw) Hnl).
    apply fmap_Some in H as (b & Hb & E). apply (utf8_encode_inj _ _ b); [done|].
    rewrite Henc. destruct (has_bom raw) eqn:Hbom; [|by rewrite E].
    rewrite E. by rewrite drop_app_length'.
  - rewrite (encode_uniform nl text _ Hnl H), Henc. destruct (has_bom raw) eqn:Hbom; [|done].
    change (Some (BOM ++ drop 3 raw) = Some raw). by rewrite <-has_bom_split.
Qed.

(** A file whose only line boundary is a form feed loses it. *)
Example form_feed_rewritten :
  (d <-? decode [LF] [97; 12; 98; 10]%Z ;; Ok (encode d)) = Ok (Some [97; 10; 98; 10]%Z).
Proof. reflexivity. Qed.

Lemma text_file_roundtrip_witness :
  exists d, decode [LF] [97; 13; 10; 98]%Z = Ok d /\
    (encode d = Some [97; 13; 10; 98]%Z <-> uniform (newline d) (lines_of [97; 13; 10; 98])).
Proof.
  eexists. split; [reflexivity|].
  apply (text_file_roundtrip [LF] [97; 13; 10; 98]%Z); [right; left| |reflexivity..].
  repeat constructor; unfold is_byte; lia.
Defined.

(** ** Hunks: the declarative reading *)

(** The hunks apply in order: before each one some lines are kept, its old lines
    occur exactly once from there to the end of the file, and they are replaced
    by its new lines; what follows is left to the remaining hunks. *)
Inductive aligned : list Hunk -> list str -> list str -> Prop :=
| Aligned_nil ls : aligned [] ls ls
| Aligned_cons h hs kept ls out :
    (forall kept' ls', kept ++ old_lines h ++ ls = kept' ++ old_lines h ++ ls' -> kept' = kept) ->
    aligned hs ls out ->
    aligned (h :: hs) (kept ++ old_lines h ++ ls) (kept ++ new_lines h ++ out).

Lemma matches_at_spec ls expected i :
  matches_at ls expected i = true /\ (i + length expected <= length ls)%nat <->
  exists pre suf, ls = pre ++ expected ++ suf /\ length pre = i.
Proof.
  unfold matches_at. split.
  - intros [H%bool_decide_eq_true Hi]. exists (take i ls), (drop (i + length expected) ls). split.
    + rewrite <-H at 1. rewrite <-drop_drop. by rewrite !take_drop.
    + rewrite length_take. lia.
  - intros (pre & suf & -> & <-). rewrite drop_app_length, take_app_length. split; [by apply bool_decide_eq_true|].
    rewrite !length_app. lia.
Qed.

Lemma elem_of_candidates m ls expected i :
  i ∈ candidates m ls expected <->
  (m <= i)%nat /\ exists pre suf, ls = pre ++ expected ++ suf /\ length pre = i.
Proof.
  unfold candidates. rewrite list_elem_of_filter, elem_of_seq, <-matches_at_spec.
  destruct (matches_at ls expected i); intuition lia.
Qed.

Lemma candidates_nodup m ls expected : NoDup (candidates m ls expected).
Proof. apply NoDup_filter, NoDup_seq. Qed.

Lemma candidates_single m ls expected i :
  candidates m ls expected = [i] <-> forall j, j ∈ candidates m ls expected <-> j = i.
Proof.
  split.
  - intros ->. intros j. apply list_elem_of_singleton.
  - intros H. pose proof (candidates_nodup m ls expected) as Hn. revert H Hn.
    generalize (candidates m ls expected). intros [|a [|b l]] H Hn.
    + exfalso. apply (elem_of_nil i). by apply H.
    + f_equal. apply H. by left.
    + assert (a = i) as -> by (apply H; by left). assert (b = i) as -> by (apply H; right; by left).
      inversion_clear Hn as [|?? Hi _]. destruct Hi. by left.
Qed.

(** From [minimum_index] on, one candidate: one way to place the old lines in the
    part of the file that is still unread. *)
Lemma candidates_unread done_ unread expected i :
  candidates (length done_) (done_ ++ unread) expected = [length done_ + i]%nat <->
  exists kept suf, unread = kept ++ expected ++ suf /\ length kept = i /\
    forall kept' suf', unread = kept' ++ expected ++ suf' -> kept' = kept.
Proof.
  assert (Hmem : forall j, j ∈ candidates (length done_) (done_ ++ unread) expected <->
    exists kept suf, unread = kept ++ expected ++ suf /\ j = (length done_ + length kept)%nat).
  { intros j. rewrite elem_of_candidates. split.
    - intros (Hm & pre & suf & E & <-). exists (drop (length done_) pre), suf.
      assert (pre = done_ ++ drop (length done_) pre) as Hpre.
      { rewrite <-(take_drop (length done_) pre) at 1. f_equal.
        apply (f_equal (take (length done_))) in E. rewrite take_app_length in E.
        by rewrite take_app_le in E by lia. }
      split; [|apply (f_equal length) in Hpre; rewrite length_app in Hpre; lia].
      rewrite Hpre, <-(assoc_L app) in E. by apply (inj (app done_)) in E.
    - intros (kept & suf & -> & ->). split; [lia|]. exists (done_ ++ kept), suf.
      by rewrite <-(assoc_L app), length_app. }
  rewrite candidates_single. setoid_rewrite Hmem. split.
  - intros H. destruct (proj2 (H (length done_ + i)%nat) eq_refl) as (kept & suf & E & Hl).
    exists kept, suf. split_and!; [done|lia|]. intros kept' suf' E'.
    assert (length done_ + length kept' = length done_ + i)%nat as Hl' by (apply H; eauto).
    rewrite E in E'. apply app_inj_1 in E' as [-> _]; [done|lia].
  - intros (kept & suf & -> & <- & Hu) j. split.
    + intros (kept' & suf' & E & ->). by rewrite (Hu _ _ E).
    + intros ->. eauto.
Qed.

Lemma splice {A} (pre old new suf : list A) :
  take (length pre) (pre ++ old ++ suf) ++ new ++ drop (length pre + length old) (pre ++ old ++ suf) =
  (pre ++ new) ++ suf.
Proof.
  rewrite take_app_length, <-drop_drop, !drop_app_length. by rewrite <-(assoc_L app).
Qed.

Lemma candidates_at_least m ls expected i : i ∈ candidates m ls expected -> (m <= i)%nat.
Proof. by intros [? _]%elem_of_candidates. Qed.

Lemma apply_hunk_list_aligned hs done_ unread o :
  apply_hunk_list (done_ ++ unread) (length done_) hs = Ok o <->
  exists out, o = done_ ++ out /\ aligned hs unread out.
Proof.
  revert done_ unread o. induction hs as [|h hs IH]; intros done_ unread o; cbn [apply_hunk_list].
  { split; [intros [= <-]; exists unread; split; [done|constructor]|].
    intros (out & -> & H). inversion H; by subst. }
  assert (Hstep : forall kept suf,
    apply_hunk_list (take (length done_ + length kept) (done_ ++ kept ++ old_lines h ++ suf) ++ new_lines h ++
        drop (length done_ + length kept + length (old_lines h)) (done_ ++ kept ++ old_lines h ++ suf))
      (length done_ + length kept + length (new_lines h)) hs = Ok o <->
    exists out, o = done_ ++ kept ++ new_lines h ++ out /\ aligned hs suf out).
  { intros kept suf. rewrite (assoc_L app done_ kept (old_lines h ++ suf)),
      <-(length_app done_ kept), splice, <-length_app, IH.
    split; intros (out & -> & ?); exists out; by rewrite <-!(assoc_L app). }
  split.
  - destruct (candidates _ _ _) as [|i [|]] eqn:Hc; try done. intros H.
    assert (length done_ <= i)%nat as Hi.
    { apply (candidates_at_least _ (done_ ++ unread) (old_lines h)). rewrite Hc. by left. }
    replace i with (length done_ + (i - length done_))%nat in Hc by lia.
    apply candidates_unread in Hc as (kept & suf & -> & Hk & Hu).
    replace i with (length done_ + length kept)%nat in H by lia.
    apply Hstep in H as (out & -> & Ha). exists (kept ++ new_lines h ++ out).
    split; [done|]. constructor; [|done]. intros kept' ls' E. by eapply Hu.
  - intros (out & -> & H). inversion H as [|? ? kept ls out' Hu Ha]; subst.
    assert (candidates (length done_) (done_ ++ kept ++ old_lines h ++ ls) (old_lines h) =
            [(length done_ + length kept)%nat]) as ->.
    { apply candidates_unread. exists kept, ls. split_and!; [done..|]. intros kept' suf' E. by eapply Hu. }
    apply Hstep. eauto.
Qed.

(** C26. A patch is applied exactly as its hunks say: the imperative scan succeeds
    with a result precisely when the hunks can be aligned with the file in
    order, each set of old lines occurring exactly once in the part of the file
    after the previous hunk, and the result is the file with the old lines of
    every hunk replaced by its new lines and everything between them untouched. *)
Theorem apply_hunks_aligned document hs result :
  _apply_hunks document hs = Ok result <->
  aligned hs (lines document) (lines result) /\ newline result = newline document /\
  final_newline result = final_newline document /\ bom result = bom document.
Proof.
  unfold _apply_hunks. pose proof (apply_hunk_list_aligned hs [] (lines document)) as H.
  cbn [app length] in H. split.
  - intros (ls & Hl & [= <-])%rbind_ok. apply H in Hl as (out & -> & ?). done.
  - intros (Ha & Hn & Hf & Hb). rewrite (proj2 (H (lines result))) by eauto. cbn.
    destruct result; cbn in *. by subst.
Qed.

(** A refused hunk: its old lines are nowhere in the unread part, or more than
    once.  The two outcomes are the only failures. *)
Lemma apply_hunk_list_errors ls m hs e :
  apply_hunk_list ls m hs = Err e ->
  e = AgentError "patch_conflict" false [(lit "reason", "not_found"%string)] \/
  e = AgentError "patch_conflict" false [(lit "reason", "ambiguous"%string)].
Proof.
  revert ls m. induction hs as [|h hs IH]; intros ls m; cbn; [done|].
  destruct (candidates _ _ _) as [|i [|]]; [intros [= <-]; by left|apply IH|intros [= <-]; by right].
Qed.

(** ** The grammar: printing and parsing *)

Definition render_hunk (h : Hunk) : list str :=
  HUNK_MARK :: map (fun l => prefix_char l.1 :: l.2) h.

Definition render_hunks (hs : list Hunk) : list str := concat (map render_hunk hs).

Definition render_section (s : PatchSection) : list str :=
  match action s with
  | Add => (header_prefix Add ++ path s) :: map (cons 43) (add_lines s)
  | Update => (header_prefix Update ++ path s) :: render_hunks (hunks s)
  | Delete => [header_prefix Delete ++ path s]
  | Move => (header_prefix Update ++ path s) :: (MOVE_TO ++ default [] (destination s))
              :: render_hunks (hunks s)
  end.

Definition render_body (ss : list PatchSection) : list str := concat (map render_section ss).

(** The document of a list of sections. *)
Definition render (ss : list PatchSection) : str :=
  join [LF] (BEGIN_PATCH :: render_body ss ++ [END_PATCH]).

(** A path that can stand in a header line. *)
Definition line_path (p : str) : Prop := safe_path p /\ no_break p = true.

Definition wf_hunk (h : Hunk) : Prop :=
  old_lines h <> [] /\ changes h = true /\ Forall (fun l => no_break l.2 = true) h.

Definition wf_section (s : PatchSection) : Prop :=
  line_path (path s) /\
  match action s with
  | Add => destination s = None /\ hunks s = [] /\ add_lines s <> [] /\
           Forall (fun l => no_break l = true) (add_lines s)
  | Delete => destination s = None /\ hunks s = [] /\ add_lines s = []
  | Update => destination s = None /\ add_lines s = [] /\ hunks s <> [] /\ Forall wf_hunk (hunks s)
  | Move => (exists d, destination s = Some d /\ line_path d) /\ add_lines s = [] /\
            hunks s <> [] /\ Forall wf_hunk (hunks s)
  end.

Definition plain (l : str) : Prop := no_break l = true.

Lemma validate_line raw p : plain raw -> validate_relative_path raw false = Ok p -> line_path p.
Proof.
  intros Hb [(? & _)|[-> Hs]]%validate_spec; [done|]. split; [done|].
  unfold plain, no_break, slashes, replace_char in *. rewrite List.forallb_forall in *.
  intros x (y & <- & Hy)%in_map_iff. destruct (y =? BACKSLASH); [done|]. by apply Hb.
Qed.

Lemma validate_line_path p : line_path p -> validate_relative_path p false = Ok p.
Proof.
  intros [Hs _]. apply validate_spec. right. split; [|done]. symmetry. apply slashes_id.
  intros Hx. by apply (safe_path_char _ _ Hs) in Hx as (_ & ? & _).
Qed.

Lemma plain_drop n l : plain l -> plain (drop n l).
Proof. unfold plain, no_break. rewrite !List.forallb_forall. intros H x Hx. apply H.
  rewrite <-(take_drop n l). apply in_or_app. by right.
Qed.

Lemma span_spec {A} (p : A -> bool) l x y : span p l = (x, y) ->
  l = x ++ y /\ Forall (fun a => p a = true) x /\ (forall a, head y = Some a -> p a = false).
Proof.
  revert x y. induction l as [|a l IH]; intros x y; cbn; [by intros [= <- <-]|].
  destruct (p a) eqn:E.
  - destruct (span p l) as [x' y']. intros [= <- <-]. destruct (IH _ _ eq_refl) as (-> & ? & ?).
    split_and!; [done|by constructor|done].
  - intros [= <- <-]. split_and!; [done..|]. by intros ? [= <-].
Qed.

Lemma span_app {A} (p : A -> bool) x y : Forall (fun a => p a = true) x ->
  (forall a, head y = Some a -> p a = false) -> span p (x ++ y) = (x, y).
Proof.
  intros Hx Hy. induction Hx as [|a x Ha _ IH]; cbn.
  - destruct y as [|b y]; [done|]. cbn. by rewrite (Hy b eq_refl).
  - by rewrite Ha, IH.
Qed.

Lemma map_res_ok {A B} (f : A -> res B) l l' : map_res f l = Ok l' -> Forall2 (fun a b => f a = Ok b) l l'.
Proof.
  revert l'. induction l as [|a l IH]; intros l'; cbn; [intros [= <-]; constructor|].
  intros (b & Hb & (bs & Hbs & [= <-])%rbind_ok)%rbind_ok. constructor; auto.
Qed.

Lemma map_res_map {A B} (f : A -> res B) (g : B -> A) l : (forall b, f (g b) = Ok b) ->
  map_res f (map g l) = Ok l.
Proof. intros H. induction l as [|b l IH]; cbn; [done|]. by rewrite H, IH. Qed.

Lemma parse_hunk_line_render l : parse_hunk_line (prefix_char l.1 :: l.2) = Ok l.
Proof. by destruct l as [[] t]. Qed.

Lemma parse_hunk_line_plain line l : plain line -> parse_hunk_line line = Ok l -> no_break l.2 = true.
Proof.
  destruct line as [|c r]; [done|]. cbn. intros H. destruct (prefix_of_char c); [|done].
  intros [= <-]. by apply (plain_drop 1) in H.
Qed.

Lemma parse_hunks_wf fuel content hs : Forall plain content ->
  parse_hunks fuel content = Ok hs -> Forall wf_hunk hs.
Proof.
  revert content hs. induction fuel as [|fuel IH]; intros [|mark rest] hs Hc; cbn; try (by intros [= <-]).
  case_bool_decide; [|done]. cbn [negb]. destruct (span _ rest) as [body rest'] eqn:E.
  apply span_spec in E as (-> & _ & _). inversion_clear Hc as [|?? _ Hr].
  apply Forall_app in Hr as [Hb Hr].
  intros (hl & Hl & H')%rbind_ok. case_bool_decide; [done|]. destruct (changes hl) eqn:Hch; [|done]. cbn in H'.
  apply rbind_ok in H' as (hs' & Hhs & [= <-]). constructor; [|by eapply IH].
  split_and!; [done..|]. apply map_res_ok in Hl. clear -Hb Hl. induction Hl as [|a b ? ? Hab _ IH]; [done|].
  inversion_clear Hb. constructor; [by eapply parse_hunk_line_plain|auto].
Qed.

Lemma parse_hunks_render fuel hs : (length (render_hunks hs) <= fuel)%nat -> Forall wf_hunk hs ->
  parse_hunks fuel (render_hunks hs) = Ok hs.
Proof.
  revert fuel. induction hs as [|h hs IH]; intros fuel Hf Hw; [by destruct fuel|].
  inversion_clear Hw as [|?? (Ho & Hch & _) Hws]. unfold render_hunks in *. cbn [map concat render_hunk app] in *.
  destruct fuel as [|fuel]; [cbn in Hf; lia|]. cbn [parse_hunks].
  rewrite bool_decide_refl. cbn [negb]. rewrite span_app.
  - rewrite (map_res_map _ (fun l => prefix_char l.1 :: l.2)) by apply parse_hunk_line_render. cbn [rbind].
    rewrite (bool_decide_eq_false_2 _ Ho), Hch. cbn [negb]. rewrite IH; [done| |done].
    cbn in Hf. rewrite length_app in Hf. lia.
  - apply Forall_map, Forall_forall. intros [[] t] _; by apply negb_true_iff, bool_decide_eq_false.
  - intros a. destruct hs; cbn; [done|]. by intros [= <-].
Qed.

Lemma strip_prefix_app p s : strip_prefix p (p ++ s) = Some s.
Proof. unfold strip_prefix. by rewrite starts_with_app, drop_app_length. Qed.

Lemma safe_path_nonempty p : safe_path p -> p <> [].
Proof. intros H. by apply safe_path_not_root in H as [? _]. Qed.

Lemma safe_path_no_lf p : safe_path p -> contains_char LF p = false.
Proof. intros H. apply contains_char_false. intros (Hx & _)%(safe_path_char _ _ H). unfold LF in Hx. lia. Qed.

Lemma section_header_render a p : a <> Move -> safe_path p ->
  section_header (header_prefix a ++ p) = Some (a, p).
Proof.
  intros Ha Hp. pose proof (safe_path_no_lf p Hp) as Hlf. apply safe_path_nonempty in Hp.
  assert (match_header a (header_prefix a ++ p) = Some (a, p)) as Hm.
  { unfold match_header. rewrite strip_prefix_app. destruct p; [done|]. by rewrite Hlf. }
  unfold section_header. destruct a; [by rewrite Hm| |..|done].
  - replace (match_header Add _) with (@None (PatchAction * str)) by done. by rewrite Hm.
  - replace (match_header Add _) with (@None (PatchAction * str)) by done.
    replace (match_header Update _) with (@None (PatchAction * str)) by done. by rewrite Hm.
Qed.

Lemma section_header_inv line a raw : section_header line = Some (a, raw) -> plain line ->
  a <> Move /\ plain raw.
Proof.
  assert (forall b, match_header b line = Some (a, raw) -> plain line -> a = b /\ plain raw) as Hm.
  { unfold match_header, strip_prefix. intros b. destruct (starts_with _ line); [|done].
    destruct (drop _ line) as [|c r] eqn:E; [done|]. destruct (contains_char LF (c :: r)); [done|].
    intros [= <- <-] Hl. split; [done|]. rewrite <-E. by apply plain_drop. }
  unfold section_header. intros H Hl.
  destruct (match_header Add line) as [[]|] eqn:E1; [injection H as <- <-; by destruct (Hm _ E1 Hl) as [-> ?]|].
  destruct (match_header Update line) as [[]|] eqn:E2; [injection H as <- <-; by destruct (Hm _ E2 Hl) as [-> ?]|].
  by destruct (Hm _ H Hl) as [-> ?].
Qed.

(** A header line starts with an asterisk, a content line does not. *)
Lemma is_header_star line c : head line = Some c -> c <> 42 -> is_header line = false.
Proof.
  intros Hh Hc. destruct line as [|x r]; [done|]. injection Hh as ->.
  assert ((42 =? c) = false) as E by (by apply N.eqb_neq).
  assert (forall a, match_header a (c :: r) = None) as Hm.
  { intros a. assert (exists t, header_prefix a = 42 :: t) as [t Ht].
    { destruct a; eexists; vm_compute; reflexivity. }
    unfold match_header, strip_prefix. rewrite Ht. cbn [starts_with]. by rewrite E. }
  unfold is_header, section_header. by rewrite !Hm.
Qed.

Lemma parse_move_wf a body a' d rest : Forall plain body -> a <> Move ->
  parse_move a body = Ok (a', d, rest) ->
  Forall plain rest /\ (length rest <= length body)%nat /\
  ((a' = a /\ d = None) \/ (a = Update /\ a' = Move /\ exists p, d = Some p /\ line_path p)).
Proof.
  intros Hb Ha H. destruct a; cbn [parse_move] in H; try (injection H as <- <- <-; split_and!; [done|lia|by left]).
  destruct body as [|line body]; [injection H as <- <- <-; split_and!; [done|lia|by left]|].
  unfold strip_prefix in H. destruct (starts_with MOVE_TO line).
  2: { injection H as <- <- <-. split_and!; [done|lia|by left]. }
  apply rbind_ok in H as (p & Hp & [= <- <- <-]). inversion_clear Hb as [|?? Hl Hr].
  split_and!; [done|cbn; lia|]. right. split_and!; [done..|]. exists p. split; [done|].
  eapply validate_line; [|exact Hp]. by apply plain_drop.
Qed.

Lemma parse_content_wf a p d content s : Forall plain content -> line_path p ->
  (a <> Move /\ d = None \/ a = Move /\ exists q, d = Some q /\ line_path q) ->
  parse_content a p d content = Ok s -> wf_section s.
Proof.
  intros Hc Hp Hd H.
  assert (forall hs, parse_hunks (length content) content = Ok hs -> Forall wf_hunk hs) as Hh.
  { intros hs. by apply parse_hunks_wf. }
  destruct a; cbn in H.
  - destruct (bool_decide _ || _) eqn:E; [done|]. injection H as <-. apply orb_false_iff in E as [E _].
    apply bool_decide_eq_false in E. split; [done|]. cbn. split_and!; [done..| |].
    + by destruct content.
    + apply Forall_map. eapply Forall_impl; [exact Hc|]. intros l. apply plain_drop.
  - apply rbind_ok in H as (hs & Hhs & H). case_bool_decide; [done|]. injection H as <-.
    destruct Hd as [[_ ->]|[? _]]; [|done]. split; [done|]. cbn. eauto.
  - case_bool_decide; [|done]. injection H as <-. by split.
  - apply rbind_ok in H as (hs & Hhs & H). case_bool_decide; [done|]. injection H as <-.
    destruct Hd as [[? _]|[_ ?]]; [done|]. split; [done|]. cbn. eauto.
Qed.

Lemma parse_sections_wf fuel body ss : Forall plain body ->
  parse_sections fuel body = Ok ss -> Forall wf_section ss.
Proof.
  revert body ss. induction fuel as [|fuel IH]; intros [|line rest] ss Hb; cbn; try (by intros [= <-]).
  inversion_clear Hb as [|?? Hl Hr]. destruct (section_header line) as [[a raw]|] eqn:Eh; [|done].
  apply section_header_inv in Eh as [Ha Hraw]; [|done].
  intros (p & Hp & ([[a' d] rest'] & Hm & H)%rbind_ok)%rbind_ok.
  apply validate_line in Hp; [|done]. apply parse_move_wf in Hm as (Hr' & _ & Hd); [|done..].
  destruct (span _ rest') as [content rest''] eqn:Es. apply span_spec in Es as (-> & _ & _).
  apply Forall_app in Hr' as [Hc Hr''].
  apply rbind_ok in H as (s & Hs & (ss' & Hss & [= <-])%rbind_ok).
  constructor; [|by eapply IH]. eapply parse_content_wf; [exact Hc|exact Hp| |exact Hs].
  destruct Hd as [[-> ->]|(_ & -> & ?)]; [by left|by right].
Qed.

Lemma splitlines_plain s : Forall plain (splitlines s).
Proof. apply splitlines_break_free. Qed.

Lemma Forall_removelast {A} (P : A -> Prop) l : Forall P l -> Forall P (removelast l).
Proof.
  intros H. destruct l as [|x l _] using rev_ind; [done|]. rewrite removelast_last.
  by apply Forall_app in H as [? _].
Qed.

(** C37. Whatever the parser accepts is well formed: safe paths, a destination
    exactly for moves, hunks exactly for updates and moves, every hunk with old
    lines to anchor it and at least one changed line, and no line that contains
    a line boundary. *)
Theorem parse_well_formed document ss :
  parse document = Ok ss -> ss <> [] /\ Forall wf_section ss.
Proof.
  unfold parse. destruct (utf8_encode document); [|done]. intros H. pass_guard.
  pose proof (splitlines_plain document) as Hp. destruct (splitlines document) as [|first rest]; [done|].
  pass_guard. apply rbind_ok in H as (ss' & Hs & H). case_bool_decide; [done|]. injection H as <-.
  split; [done|]. inversion_clear Hp. eapply parse_sections_wf; [|exact Hs]. by apply Forall_removelast.
Qed.

Definition content_of (s : PatchSection) : list str :=
  match action s with
  | Add => map (cons 43) (add_lines s)
  | Delete => []
  | Update | Move => render_hunks (hunks s)
  end.

Lemma not_header_char c t : c <> 42 -> negb (is_header (c :: t)) = true.
Proof. intros H. apply negb_true_iff. by apply (is_header_star _ c). Qed.

Lemma content_not_header s : Forall (fun l => negb (is_header l) = true) (content_of s).
Proof.
  assert (forall hs, Forall (fun l => negb (is_header l) = true) (render_hunks hs)) as Hh.
  { intros hs. unfold render_hunks. apply Forall_concat, Forall_map, Forall_forall. intros h _.
    constructor; [done|]. apply Forall_map, Forall_forall. intros [[] t] _; by apply not_header_char. }
  unfold content_of. destruct (action s); [|apply Hh|done|apply Hh].
  apply Forall_map, Forall_forall. intros t _. by apply not_header_char.
Qed.

Lemma render_header s : wf_section s -> exists a rest,
  render_section s = (header_prefix a ++ path s) :: rest /\ a <> Move.
Proof.
  intros _. unfold render_section. destruct (action s);
    [exists Add|exists Update|exists Delete|exists Update]; eexists; by split.
Qed.

Lemma render_body_head ss l : Forall wf_section ss -> head (render_body ss) = Some l ->
  negb (is_header l) = false.
Proof.
  intros [|s ss' Hs _]; [done|]. unfold render_body. cbn [map concat].
  destruct (render_header s Hs) as (a & rest & -> & Ha). intros [= <-].
  unfold is_header. destruct Hs as [[Hp _] _]. by rewrite (section_header_render a _ Ha Hp).
Qed.

Lemma add_line_prefix ls : existsb (fun line => negb (starts_with [43] line)) (map (cons 43) ls) = false.
Proof. induction ls as [|l ls IH]; [done|]. cbn [map existsb]. by rewrite IH. Qed.

Lemma parse_content_render s : wf_section s ->
  parse_content (action s) (path s) (destination s) (content_of s) = Ok s.
Proof.
  destruct s as [a p d al hs]. unfold wf_section, content_of. cbn [action path destination add_lines hunks].
  assert (Hh : hs <> [] -> Forall wf_hunk hs ->
    bool_decide (hs = []) = false /\ parse_hunks (length (render_hunks hs)) (render_hunks hs) = Ok hs).
  { intros H1 H2. split; [by apply bool_decide_eq_false|by apply parse_hunks_render]. }
  intros [_ Hw]. destruct a.
  - destruct Hw as (-> & -> & Hne & _). cbn [parse_content]. rewrite add_line_prefix, bool_decide_eq_false_2.
    + cbn. do 2 f_equal. rewrite map_map. apply map_id.
    + by destruct al.
  - destruct Hw as (-> & -> & Hne & Hwh). destruct (Hh Hne Hwh) as [H1 H2].
    cbn [parse_content]. rewrite H2. cbn [rbind]. by rewrite H1.
  - by destruct Hw as (-> & -> & ->).
  - destruct Hw as (_ & -> & Hne & Hwh). destruct (Hh Hne Hwh) as [H1 H2].
    cbn [parse_content]. rewrite H2. cbn [rbind]. by rewrite H1.
Qed.

Lemma render_section_parse s rest : wf_section s -> exists a tail,
  render_section s ++ rest = (header_prefix a ++ path s) :: tail /\ a <> Move /\
  parse_move a tail = Ok (action s, destination s, content_of s ++ rest) /\
  (length (content_of s) < length (render_section s))%nat.
Proof.
  destruct s as [a p d al hs]. unfold wf_section, content_of, render_section.
  cbn [action path destination add_lines hunks]. intros [_ Hw]. destruct a.
  - destruct Hw as (-> & _). exists Add. eexists. split_and!; [done..|cbn; lia].
  - destruct Hw as (-> & _ & Hne & _). exists Update. eexists. split_and!; [done..| |cbn; lia].
    destruct hs as [|h hs]; done.
  - destruct Hw as (-> & _). exists Delete. eexists. split_and!; [done..|cbn; lia].
  - destruct Hw as ((q & -> & Hq) & _). exists Update. eexists. split_and!; [done..| |cbn; lia].
    cbn [parse_move app]. rewrite strip_prefix_app. cbn [default]. by rewrite validate_line_path.
Qed.

Lemma parse_sections_render fuel ss : (length (render_body ss) <= fuel)%nat -> Forall wf_section ss ->
  parse_sections fuel (render_body ss) = Ok ss.
Proof.
  intros Hf Hw. revert fuel Hf. induction Hw as [|s ss Hs Hw IH]; intros fuel Hf; [by destruct fuel|].
  unfold render_body in *. cbn [map concat] in *. rewrite length_app in Hf.
  destruct (render_section_parse s (concat (map render_section ss)) Hs) as (a & tail & E & Ha & Hm & Hlen).
  rewrite E. destruct fuel as [|fuel]; [lia|]. cbn [parse_sections].
  destruct (Hs) as [Hp _]. rewrite (section_header_render a _ Ha (proj1 Hp)).
  rewrite (validate_line_path _ Hp). cbn [rbind]. rewrite Hm. cbn [rbind].
  rewrite span_app; [|apply content_not_header|intros l; by apply render_body_head].
  rewrite (parse_content_render s Hs). cbn [rbind]. rewrite IH by lia. done.
Qed.

Lemma plain_app a b : plain a -> plain b -> plain (a ++ b).
Proof. unfold plain, no_break. rewrite forallb_app. intros -> ->. done. Qed.

Lemma render_hunks_plain hs : Forall wf_hunk hs -> Forall plain (render_hunks hs).
Proof.
  intros Hw. unfold render_hunks. apply Forall_concat, Forall_map. eapply Forall_impl; [exact Hw|].
  intros h (_ & _ & Hb). constructor; [done|]. apply Forall_map. eapply Forall_impl; [exact Hb|].
  intros [[] t] Ht; exact Ht.
Qed.

Lemma header_plain a p : line_path p -> plain (header_prefix a ++ p).
Proof. intros [_ Hb]. apply plain_app; [by destruct a|exact Hb]. Qed.

Lemma render_section_plain s : wf_section s -> Forall plain (render_section s).
Proof.
  intros [Hp Hw]. unfold render_section. destruct (action s).
  - destruct Hw as (_ & _ & _ & Hb). constructor; [by apply header_plain|]. apply Forall_map.
    eapply Forall_impl; [exact Hb|]. intros t Ht. exact Ht.
  - destruct Hw as (_ & _ & _ & Hh). constructor; [by apply header_plain|by apply render_hunks_plain].
  - constructor; [by apply header_plain|done].
  - destruct Hw as ((q & -> & Hq) & _ & _ & Hh). constructor; [by apply header_plain|].
    constructor; [by apply (header_plain Move)|by apply render_hunks_plain].
Qed.

(** C33. Printing a well-formed patch and parsing it gives the patch back: every
    such list of sections whose document can be encoded within the size limit is
    expressible in the grammar, and no two of them share a document. *)
Theorem parse_render ss raw :
  ss <> [] -> Forall wf_section ss ->
  utf8_encode (render ss) = Some raw -> (Z.of_nat (length raw) <= MAX_PATCH_BYTES)%Z ->
  parse (render ss) = Ok ss.
Proof.
  intros Hne Hw Hraw Hlen. unfold parse. rewrite Hraw. rewrite (proj2 (Z.ltb_ge _ _) Hlen).
  unfold render. rewrite splitlines_join.
  - assert (last (BEGIN_PATCH :: render_body ss ++ [END_PATCH]) = Some END_PATCH) as ->.
    { by rewrite app_comm_cons, last_snoc. }
    rewrite !bool_decide_refl. cbn [negb orb]. rewrite removelast_last, parse_sections_render; [|rewrite length_app; lia|done].
    cbn [rbind]. by rewrite bool_decide_eq_false_2.
  - constructor; [done|]. apply Forall_app. split; [|by repeat constructor].
    apply Forall_concat, Forall_map. eapply Forall_impl; [exact Hw|]. apply render_section_plain.
  - intros l. rewrite app_comm_cons, last_snoc. by intros [= <-].
Qed.

Definition sample_hunk : Hunk := [(Keep, lit "a"); (Minus, lit "b"); (Plus, lit "c")].
Definition sample_patch : list PatchSection :=
  [{| action := Add; path := lit "new.txt"; destination := None; add_lines := [lit "x"; []]; hunks := [] |};
   {| action := Move; path := lit "src/a.py"; destination := Some (lit "src/b.py"); add_lines := [];
      hunks := [sample_hunk] |};
   {| action := Delete; path := lit "old.txt"; destination := None; add_lines := []; hunks := [] |}].

Lemma parse_well_formed_witness :
  parse (render sample_patch) = Ok sample_patch /\ sample_patch <> [] /\ Forall wf_section sample_patch.
Proof.
  assert (H : parse (render sample_patch) = Ok sample_patch) by (vm_compute; reflexivity).
  split; [exact H|]. exact (parse_well_formed _ _ H).
Defined.

Lemma parse_render_witness : parse (render sample_patch) = Ok sample_patch.
Proof.
  eapply parse_render; [discriminate| |vm_compute; reflexivity|vm_compute; discriminate].
  apply (parse_sections_wf 20 (render_body sample_patch)); [repeat constructor|vm_compute; reflexivity].
Defined.

(** ** The protocol's scan of the same document (patch.py) *)

Definition match_move (line : str) : option str :=
  match strip_prefix MOVE_TO line with
  | Some (c :: r) => if contains_char LF (c :: r) then None else Some (c :: r)
  | _ => None
  end.

(** The loop over the lines: [expectations] in the order of the document, each
    path with "must not exist", and [current_section]. *)
Fixpoint scan (ls : list str) (expectations : list (str * bool)) (current : option PatchAction)
    : res (list (str * bool)) :=
  match ls with
  | [] => Ok expectations
  | line :: rest =>
      match section_header line with
      | Some (operation, raw) =>
          path <-? _validate_relative_path raw ;;
          if bool_decide (path ∈ map fst expectations) then
            Err (ValueError "path appears in more than one patch section")
          else scan rest (expectations ++ [(path, bool_decide (operation = Add))]) (Some operation)
      | None =>
          match match_move line with
          | Some raw =>
              if negb (bool_decide (current = Some Update)) then
                Err (ValueError "Move to is valid only immediately after an Update header")
              else
                destination <-? _validate_relative_path raw ;;
                if bool_decide (destination ∈ map fst expectations) then
                  Err (ValueError "move destination duplicates a touched path")
                else scan rest (expectations ++ [(destination, true)]) None
          | None => scan rest expectations (if bool_decide (current = Some Update) then None else current)
          end
      end
  end.

Definition precondition_ok (expectation : str * bool) (digest : option str) : bool :=
  bool_decide (snd expectation = bool_decide (digest = None)).

(** [validate_complete_preconditions]; [base_hashes] with validated keys. *)
Definition validate_complete_preconditions (patch : str) (base_hashes : gmap str (option str))
    : res unit :=
  expectations <-? scan (splitlines patch) [] None ;;
  if bool_decide (expectations = []) then Err (ValueError "patch contains no file sections")
  else if negb (bool_decide (list_to_set (map fst expectations) = dom base_hashes :> gset str)) then
    Err (ValueError "base_hashes must exactly cover touched paths")
  else if forallb (fun e => match base_hashes !! e.1 with
                            | Some digest => precondition_ok e digest
                            | None => false
                            end) expectations
  then Ok tt else Err (ValueError "precondition of the wrong kind").

Fixpoint rstrip_lf (r : str) : str :=
  match r with c :: r' => if c =? LF then rstrip_lf r' else r | [] => [] end.

Definition validate_patch_document (value : str) : res str :=
  match utf8_encode value with
  | None => Err (ValueError "surrogates not allowed")
  | Some raw =>
      if (MAX_PATCH_BYTES <? Z.of_nat (length raw))%Z then
        Err (ValueError "patch exceeds the 2 MiB protocol limit")
      else if negb (starts_with (BEGIN_PATCH ++ [LF]) value) then
        Err (ValueError "patch must start with '*** Begin Patch'")
      else if negb (ends_with END_PATCH (rev (rstrip_lf (rev value)))) then
        Err (ValueError "patch must end with '*** End Patch'")
      else if contains_char 0 value then Err (ValueError "patch contains NUL")
      else Ok value
  end.

(** ** Agreement of the two readings *)

(** The paths a section touches, each with "must not exist". *)
Definition touched (s : PatchSection) : list (str * bool) :=
  (path s, bool_decide (action s = Add)) ::
  match destination s with Some d => [(d, true)] | None => [] end.

Definition starred (l : str) : Prop := head l = Some 42.

Lemma match_move_star line c : head line = Some c -> c <> 42 -> match_move line = None.
Proof.
  intros Hh Hc. destruct line as [|x r]; [done|]. injection Hh as ->.
  unfold match_move, strip_prefix. change MOVE_TO with (42 :: tl MOVE_TO). cbn [starts_with].
  assert ((42 =? c) = false) as -> by (by apply N.eqb_neq). done.
Qed.

Lemma scan_content content rest exps cur :
  Forall (fun l => exists c, head l = Some c /\ c <> 42) content ->
  exists cur', scan (content ++ rest) exps cur = scan rest exps cur'.
Proof.
  intros H. revert cur. induction H as [|l content (c & Hl & Hc) _ IH]; intros cur; [by exists cur|].
  cbn [app scan]. pose proof (is_header_star l c Hl Hc) as Hh. unfold is_header in Hh.
  destruct (section_header l); [done|]. rewrite (match_move_star l c Hl Hc). apply IH.
Qed.

Lemma protocol_same_path raw p q : plain raw ->
  validate_relative_path raw false = Ok p -> _validate_relative_path raw = Ok q -> p = q /\ p = raw.
Proof.
  intros _ Hp Hq. apply validate_spec in Hp as [(? & _)|[-> Hs]]; [done|].
  destruct (validate_early raw Hs) as (_ & Hd & _). unfold _validate_relative_path in Hq.
  rewrite (bool_decide_eq_false_2 _ Hd) in Hq. do 2 pass_guard.
  apply orb_false_iff in E0 as [_ Hb]. apply contains_char_false in Hb.
  do 2 pass_guard. pass_guard. rewrite (posix_parts_id _ E2) in Hq. pass_guard.
  rewrite join_split in Hq. injection Hq as <-. by rewrite slashes_id.
Qed.

Definition unstarred (l : str) : Prop := exists c, head l = Some c /\ c <> 42.

Lemma parse_hunk_line_unstarred l r : parse_hunk_line l = Ok r -> unstarred l.
Proof.
  destruct l as [|c t]; [done|]. cbn. unfold prefix_of_char. intros H. exists c. split; [done|].
  intros ->. cbn in H. done.
Qed.

Lemma parse_hunks_unstarred fuel content hs : parse_hunks fuel content = Ok hs -> Forall unstarred content.
Proof.
  revert content hs. induction fuel as [|fuel IH]; intros [|mark rest] hs; cbn [parse_hunks]; try done.
  case_bool_decide as Hm; [|done]. cbn [negb]. subst mark. destruct (span _ rest) as [body rest'] eqn:E.
  apply span_spec in E as (-> & _ & _). intros (hl & Hl & H')%rbind_ok. do 2 pass_guard.
  apply rbind_ok in H' as (hs' & Hhs & _). constructor; [by exists 64|]. apply Forall_app. split; [|by eapply IH].
  apply map_res_ok in Hl. clear -Hl. induction Hl; constructor; [by eapply parse_hunk_line_unstarred|done].
Qed.

Lemma parse_content_unstarred a p d content s : parse_content a p d content = Ok s ->
  Forall unstarred content /\ path s = p /\ action s = a /\ destination s = (if bool_decide (a = Move \/ a = Update) then d else None).
Proof.
  destruct a; cbn [parse_content]; intros H.
  - pass_guard. injection H as <-. apply orb_false_iff in E as [_ E]. split; [|done].
    apply Forall_forall. intros l Hl%list_elem_of_In. apply (proj1 (existsb_false_forall _ _) E) in Hl.
    apply negb_false_iff in Hl. destruct l as [|c l]; [done|]. exists c. split; [done|].
    cbn in Hl. intros ->. done.
  - apply rbind_ok in H as (hs & Hhs & H). pass_guard. injection H as <-. split; [by eapply parse_hunks_unstarred|done].
  - pass_guard. injection H as <-. apply negb_false_iff, bool_decide_eq_true in E. by subst.
  - apply rbind_ok in H as (hs & Hhs & H). pass_guard. injection H as <-. split; [by eapply parse_hunks_unstarred|done].
Qed.

(** The optional move line is read alike. *)
Lemma scan_move a body a' d rest exps e tail :
  Forall plain body -> a <> Move ->
  parse_move a body = Ok (a', d, rest) ->
  scan (body ++ tail) exps (Some a) = Ok e ->
  (a' = a /\ d = None /\ rest = body) \/
  (a' = Move /\ exists q, d = Some q /\ scan (rest ++ tail) (exps ++ [(q, true)]) None = Ok e).
Proof.
  intros Hb Ha Hm Hs. destruct a; cbn [parse_move] in Hm; try (injection Hm as <- <- <-; by left).
  destruct body as [|line body]; [injection Hm as <- <- <-; by left|].
  destruct (strip_prefix MOVE_TO line) as [raw|] eqn:Er; [|injection Hm as <- <- <-; by left].
  apply rbind_ok in Hm as (q & Hq & [= <- <- <-]). right. split; [done|]. exists q. split; [done|].
  inversion_clear Hb as [|?? Hl _].
  cbn [app scan] in Hs. unfold match_move in Hs. rewrite Er in Hs.
  assert (section_header line = None) as Hn.
  { unfold strip_prefix in Er. destruct (starts_with MOVE_TO line) eqn:Est; [|done].
    apply starts_with_iff in Est as [r ->]. done. }
  rewrite Hn in Hs. assert (plain raw) as Hraw.
  { unfold strip_prefix in Er. destruct (starts_with _ line); [|done]. injection Er as <-. by apply plain_drop. }
  destruct raw as [|c r]; [done|].
  assert (contains_char LF (c :: r) = false) as Hlf.
  { apply contains_char_false. intros Hin%list_elem_of_In. unfold plain, no_break in Hraw.
    rewrite List.forallb_forall in Hraw. by apply Hraw in Hin. }
  rewrite Hlf in Hs. cbn [bool_decide negb] in Hs.
  rewrite bool_decide_eq_true_2 in Hs by done. cbn [negb] in Hs.
  apply rbind_ok in Hs as (q' & Hq' & Hs). pass_guard.
  destruct (protocol_same_path _ _ _ Hraw Hq Hq') as [<- _]. done.
Qed.

Lemma scan_sections fuel body ss tail : parse_sections fuel body = Ok ss -> Forall plain body ->
  forall exps cur e, scan (body ++ tail) exps cur = Ok e ->
  exists cur', scan tail (exps ++ concat (map touched ss)) cur' = Ok e.
Proof.
  revert body ss. induction fuel as [|fuel IH]; intros [|line rest] ss; cbn [parse_sections];
    try (by (intros [= <-] _ exps cur e H; cbn; rewrite app_nil_r; eauto)).
  destruct (section_header line) as [[a raw]|] eqn:Eh; [|done].
  intros (p & Hp & ([[a' d] rest'] & Hm & H)%rbind_ok)%rbind_ok Hb. inversion_clear Hb as [|?? Hl Hr].
  destruct (section_header_inv _ _ _ Eh Hl) as [Ha Hraw].
  destruct (span _ rest') as [content rest''] eqn:Es. apply span_spec in Es as (-> & _ & _).
  apply rbind_ok in H as (s & Hs & (ss' & Hss & [= <-])%rbind_ok).
  intros exps cur e. cbn [app scan]. rewrite Eh. intros (q & Hq & H)%rbind_ok. pass_guard.
  destruct (protocol_same_path _ _ _ Hraw Hp Hq) as [<- _].
  destruct (parse_content_unstarred _ _ _ _ _ Hs) as (Hun & Hps & Has & Hds).
  pose proof (parse_move_wf _ _ _ _ _ Hr Ha Hm) as (Hr' & _ & _). apply Forall_app in Hr' as [_ Hr''].
  assert (Hrec : forall exps' cur', scan ((content ++ rest'') ++ tail) exps' cur' = Ok e ->
    exists cur'', scan tail (exps' ++ concat (map touched ss')) cur'' = Ok e).
  { intros exps' cur'. rewrite <-(assoc_L app content).
    destruct (scan_content content (rest'' ++ tail) exps' cur' Hun) as [cur'' Hc].
    intros Hsc. exact (IH _ _ Hss Hr'' _ _ _ (eq_trans (eq_sym Hc) Hsc)). }
  cbn [map concat]. unfold touched at 1. rewrite Hps, Has, Hds.
  destruct (scan_move _ _ _ _ _ _ _ tail Hr Ha Hm H) as [(-> & -> & <-)|(-> & q' & -> & H')].
  - destruct (Hrec _ _ H) as [cur'' Hc]. exists cur''. rewrite <-Hc, <-!(assoc_L app).
    by destruct (bool_decide (a = Move \/ a = Update)).
  - destruct (Hrec _ _ H') as [cur'' Hc]. exists cur''. rewrite <-Hc.
    rewrite (bool_decide_eq_true_2 (Move = Move \/ _)) by (by left). cbn [app].
    rewrite <-!(assoc_L app). by destruct a.
Qed.

Lemma scan_nodup ls exps cur e : NoDup (map fst exps) -> scan ls exps cur = Ok e -> NoDup (map fst e).
Proof.
  assert (Hadd : forall exps p b, NoDup (map fst exps) -> p ∉ map fst exps ->
    NoDup (map fst (exps ++ [(p : str, b : bool)]))).
  { intros exps' p b Hn Hp. rewrite map_app. apply NoDup_app. split_and!; [done| |apply NoDup_singleton].
    intros x Hx ->%list_elem_of_singleton. done. }
  revert exps cur. induction ls as [|l ls IH]; intros exps cur Hn; cbn [scan]; [by intros [= <-]|].
  destruct (section_header l) as [[a raw]|].
  - intros (p & _ & H)%rbind_ok. pass_guard. apply bool_decide_eq_false in E. eapply IH; [|exact H]. by apply Hadd.
  - destruct (match_move l); [|by apply IH]. intros H. pass_guard. apply rbind_ok in H as (d & _ & H).
    pass_guard. apply bool_decide_eq_false in E0. eapply IH; [|exact H]. by apply Hadd.
Qed.

(** A patch request the protocol model accepts and the agent can parse names
    the same files on both sides: the keys of [base_hashes] are exactly the
    paths and destinations of the parsed sections, no file is touched twice, and
    the precondition of a path is "must not exist" exactly for added files and
    move destinations. *)
Theorem preconditions_cover_sections document base_hashes ss :
  validate_complete_preconditions document base_hashes = Ok tt -> parse document = Ok ss ->
  let touches := concat (map touched ss) in
  NoDup (map fst touches) /\ dom base_hashes = list_to_set (map fst touches) /\
  (forall p absent, (p, absent) ∈ touches -> exists digest, base_hashes !! p = Some digest /\
     (absent = true <-> digest = None)).
Proof.
  unfold validate_complete_preconditions, parse. intros (e & He & H)%rbind_ok Hp.
  destruct (utf8_encode document); [|done]. pass_guard.
  pose proof (splitlines_plain document) as Hpl. destruct (splitlines document) as [|first rest]; [done|].
  pass_guard. apply rbind_ok in Hp as (ss' & Hs & Hp). case_bool_decide; [done|]. injection Hp as <-.
  apply orb_false_iff in E0 as [Ef El]. apply negb_false_iff, bool_decide_eq_true in Ef, El. subst first.
  assert (exists body, rest = body ++ [END_PATCH]) as [body ->].
  { destruct rest as [|x rest _] using rev_ind; [done|]. rewrite app_comm_cons, last_snoc in El.
    injection El as ->. eauto. }
  rewrite removelast_last in Hs. inversion_clear Hpl as [|?? _ Hr]. apply Forall_app in Hr as [Hb _].
  pose proof (scan_nodup _ _ _ _ (NoDup_nil_2 : NoDup (map fst (@nil (str * bool)))) He) as Hn.
  change (scan (body ++ [END_PATCH]) [] None = Ok e) in He.
  destruct (scan_sections _ _ _ [END_PATCH] Hs Hb [] None e He) as [cur' Hc].
  cbn [app] in Hc. change (Ok (concat (map touched ss')) = Ok e) in Hc. injection Hc as <-.
  do 2 pass_guard. apply negb_false_iff, bool_decide_eq_true in E1. cbn zeta. split_and!; [done|done|].
  intros p absent Hin. destruct (forallb _ _) eqn:Hf; [|done]. rewrite List.forallb_forall in Hf.
  apply list_elem_of_In, Hf in Hin. cbn [fst] in Hin. destruct (base_hashes !! p) as [digest|]; [|done].
  exists digest. split; [done|]. unfold precondition_ok in Hin. cbn in Hin. apply bool_decide_eq_true in Hin as ->.
  apply bool_decide_eq_true.
Qed.

Definition sample_hashes : gmap str (option str) :=
  {[ lit "new.txt" := None; lit "src/a.py" := Some (lit "aa"); lit "src/b.py" := None;
     lit "old.txt" := Some (lit "bb") ]}.

Lemma preconditions_cover_sections_witness :
  validate_complete_preconditions (render sample_patch) sample_hashes = Ok tt /\
  NoDup (map fst (concat (map touched sample_patch))).
Proof.
  assert (H : validate_complete_preconditions (render sample_patch) sample_hashes = Ok tt)
    by (vm_compute; reflexivity).
  split; [exact H|].
  apply (preconditions_cover_sections (render sample_patch) sample_hashes sample_patch H).
  vm_compute; reflexivity.
Defined.
