(* ===== verification/Database.v ===== *)
(** * The agent's journal: db.py

    The tables of [AgentDatabase] as finite maps and its methods as operations of
    the state monad.  A transaction is one atomic operation; the time of a call
    ([now]) and the fresh identifiers it draws ([uuid4]) are arguments.  Stored
    JSON texts are kept as the values they decode to. *)
From S2P Require Import Prelude PyStr Models.
From stdpp Require Import sorting.
From Stdlib Require DecimalString DecimalZ.

Open Scope N_scope.

(** ** Decimal text of integers: [str(z)] and [int(s)] (ASCII, no blanks) *)

Definition str_of_Z (z : Z) : str := lit (DecimalString.NilZero.string_of_int (Z.to_int z)).
Definition int_of_str (s : str) : option Z :=
  Z.of_int <$> DecimalString.NilZero.int_of_string (String.string_of_list_ascii (map Ascii.ascii_of_N s)).

(** ** Audit values *)

Definition _ACTIVITY_SECRET_KEYS : list str :=
  [lit "access_token"; lit "authorization"; lit "client_secret"; lit "cookie"; lit "id_token";
   lit "password"; lit "private_key"; lit "refresh_token"; lit "secret"; lit "token"].

(** [str.casefold] as far as it produces ASCII letters. *)
Definition casefold_char (c : N) : str :=
  match c with
  | 223 | 7838 => lit "ss" | 383 => lit "s" | 8490 => lit "k"
  | 64256 => lit "ff" | 64257 => lit "fi" | 64258 => lit "fl" | 64259 => lit "ffi" | 64260 => lit "ffl"
  | 64261 | 64262 => lit "st"
  | _ => [lower_char c]
  end.
Definition casefold (s : str) : str := concat (map casefold_char s).

Definition normalized_key (name : str) : str := replace_char 45 95 (casefold name).

Definition secret_key (name : str) : bool := bool_decide (normalized_key name ∈ _ACTIVITY_SECRET_KEYS).

Definition REDACTED_VALUE : json := JStr (lit "[redacted]").

Fixpoint _activity_safe_value (depth : nat) (value : json) : json :=
  if (12 <? depth)%nat then JStr (lit "[maximum nesting reached]")
  else match value with
  | JNull | JBool _ | JNum _ | JStr _ => value
  | JObj l => JObj (dict_of (map (fun kv =>
      (kv.1, if secret_key kv.1 then REDACTED_VALUE else _activity_safe_value (S depth) kv.2)) l))
  | JList l => JList (map (_activity_safe_value (S depth)) l)
  end.

(** ** Tables *)

Record ProjectRow := { pr_project : Project; pr_created_at : Z; pr_updated_at : Z }.

Record Operation := {
  op_correlation_id : str; op_account_id : str; op_grant_id : str; op_link_id : str;
  op_device_id : str; op_project_id : option str; op_capability : str; op_action_digest : str;
  op_idempotency_key : option str; op_request_digest : str; op_request : option json;
  op_state : OperationState; op_result : option json; op_terminal_acked : bool;
  op_connection_epoch : Z; op_deadline_at : str; op_received_at : Z; op_updated_at : Z;
}.

(** The authorization binding of an idempotency row. *)
Record Binding := { b_account_id : str; b_grant_id : str; b_link_id : str; b_device_id : str }.
#[export] Instance Binding_eq_dec : EqDecision Binding.
Proof. solve_decision. Defined.

Record Idempotency := {
  id_binding : Binding; id_request_digest : str; id_state : OperationState;
  id_result : option json; id_job_id : option str; id_created_at : Z; id_updated_at : Z;
}.

Record ScopePermission := {
  sp_scope_path : str; sp_root_identity : str; sp_account_id : str; sp_link_id : str;
  sp_created_at : Z;
}.
Record ScreenPermission := {
  sc_display_id : str; sc_display_identity : str; sc_display_label : str; sc_account_id : str;
  sc_link_id : str; sc_created_at : Z;
}.

Inductive RequestStatus := RPending | RCompleted | RDismissed | RExpired.
#[export] Instance RequestStatus_eq_dec : EqDecision RequestStatus.
Proof. solve_decision. Defined.

Record RegistrationRequest := {
  rr_title : str; rr_account_id : str; rr_grant_id : str; rr_link_id : str; rr_device_id : str;
  rr_connection_epoch : Z; rr_status : RequestStatus; rr_expires_at : Z; rr_created_at : Z;
  rr_updated_at : Z;
}.

Record db := {
  projects : gmap str ProjectRow;
  operations : gmap str Operation;
  idempotency : gmap (str * str * str) Idempotency;
  settings : gmap str str;
  read_permissions : gmap str ScopePermission;
  shell_permissions : gmap str ScopePermission;
  screen_permissions : gmap str ScreenPermission;
  registration_requests : gmap str RegistrationRequest;
}.

Definition on_projects (f : gmap str ProjectRow -> gmap str ProjectRow) (d : db) : db :=
  {| projects := f (projects d); operations := operations d; idempotency := idempotency d;
     settings := settings d; read_permissions := read_permissions d;
     shell_permissions := shell_permissions d; screen_permissions := screen_permissions d;
     registration_requests := registration_requests d |}.
Definition on_operations (f : gmap str Operation -> gmap str Operation) (d : db) : db :=
  {| projects := projects d; operations := f (operations d); idempotency := idempotency d;
     settings := settings d; read_permissions := read_permissions d;
     shell_permissions := shell_permissions d; screen_permissions := screen_permissions d;
     registration_requests := registration_requests d |}.
Definition on_idempotency (f : gmap (str * str * str) Idempotency -> gmap (str * str * str) Idempotency)
    (d : db) : db :=
  {| projects := projects d; operations := operations d; idempotency := f (idempotency d);
     settings := settings d; read_permissions := read_permissions d;
     shell_permissions := shell_permissions d; screen_permissions := screen_permissions d;
     registration_requests := registration_requests d |}.
Definition on_settings (f : gmap str str -> gmap str str) (d : db) : db :=
  {| projects := projects d; operations := operations d; idempotency := idempotency d;
     settings := f (settings d); read_permissions := read_permissions d;
     shell_permissions := shell_permissions d; screen_permissions := screen_permissions d;
     registration_requests := registration_requests d |}.
Definition on_read (f : gmap str ScopePermission -> gmap str ScopePermission) (d : db) : db :=
  {| projects := projects d; operations := operations d; idempotency := idempotency d;
     settings := settings d; read_permissions := f (read_permissions d);
     shell_permissions := shell_permissions d; screen_permissions := screen_permissions d;
     registration_requests := registration_requests d |}.
Definition on_shell (f : gmap str ScopePermission -> gmap str ScopePermission) (d : db) : db :=
  {| projects := projects d; operations := operations d; idempotency := idempotency d;
     settings := settings d; read_permissions := read_permissions d;
     shell_permissions := f (shell_permissions d); screen_permissions := screen_permissions d;
     registration_requests := registration_requests d |}.
Definition on_screen (f : gmap str ScreenPermission -> gmap str ScreenPermission) (d : db) : db :=
  {| projects := projects d; operations := operations d; idempotency := idempotency d;
     settings := settings d; read_permissions := read_permissions d;
     shell_permissions := shell_permissions d; screen_permissions := f (screen_permissions d);
     registration_requests := registration_requests d |}.
Definition on_requests (f : gmap str RegistrationRequest -> gmap str RegistrationRequest) (d : db) : db :=
  {| projects := projects d; operations := operations d; idempotency := idempotency d;
     settings := settings d; read_permissions := read_permissions d;
     shell_permissions := shell_permissions d; screen_permissions := screen_permissions d;
     registration_requests := f (registration_requests d) |}.

Definition empty_db : db :=
  {| projects := ∅; operations := ∅; idempotency := ∅; settings := ∅; read_permissions := ∅;
     shell_permissions := ∅; screen_permissions := ∅; registration_requests := ∅ |}.

Definition DB := ST db.

(** ** Projects *)

Definition valid_title (title : str) : bool :=
  negb (bool_decide (title = [])) && (length title <=? 120)%nat.

(** [validated] is the outcome of [validate_project_root root]: the resolved root
    and its fingerprint; [fresh] is the [uuid4] drawn. *)
Definition register_project (now : Z) (fresh : str) (title : str) (validated : res (str * str))
    (mode : ProjectMode) (project_id : option str) : DB Project :=
  let title := strip title in
  if negb (valid_title title) then raise (AgentError "invalid_project" false [])
  else
    root <- lift validated ;;
    let project := {| project_id := match project_id with Some (c :: r) => c :: r | _ => fresh end;
                      title := title; root := root.1; root_fingerprint := root.2;
                      mode := mode; enabled := true |} in
    d <- gets id ;;
    if bool_decide (is_Some (projects d !! Models.project_id project)) ||
       negb (bool_decide (map_Forall (fun _ r => Models.root (pr_project r) <> root.1) (projects d)))
    then raise (AgentError "project_exists" false [])
    else modify (on_projects <[Models.project_id project :=
           {| pr_project := project; pr_created_at := now; pr_updated_at := now |}]>) ;;;
         ret project.

Definition get_project (id : str) : DB Project :=
  d <- gets projects ;;
  match d !! id with
  | None => raise (AgentError "project_not_found" false [])
  | Some row => ret (pr_project row)
  end.

(** [UPDATE projects SET ... WHERE project_id=?] with the rowcount test. *)
Definition update_project (now : Z) (id : str) (f : Project -> Project) : DB unit :=
  d <- gets projects ;;
  match d !! id with
  | None => raise (AgentError "project_not_found" false [])
  | Some row => modify (on_projects <[id := {| pr_project := f (pr_project row);
                  pr_created_at := pr_created_at row; pr_updated_at := now |}]>)
  end.

Definition set_project_mode (now : Z) (id : str) (m : ProjectMode) : DB unit :=
  update_project now id (fun p => {| project_id := Models.project_id p; title := title p;
    root := root p; root_fingerprint := root_fingerprint p; mode := m; enabled := enabled p |}).

Definition set_project_title (now : Z) (id : str) (t : str) : DB unit :=
  let t := strip t in
  if negb (valid_title t) then raise (AgentError "invalid_project" false [])
  else update_project now id (fun p => {| project_id := Models.project_id p; title := t;
    root := root p; root_fingerprint := root_fingerprint p; mode := mode p; enabled := enabled p |}).

Definition set_project_enabled (now : Z) (id : str) (e : bool) : DB unit :=
  update_project now id (fun p => {| project_id := Models.project_id p; title := title p;
    root := root p; root_fingerprint := root_fingerprint p; mode := mode p; enabled := e |}).

Definition disable_project (now : Z) (id : str) : DB unit := set_project_enabled now id false.

(** [ORDER BY title COLLATE NOCASE, project_id] *)
Definition project_le (p q : Project) : Prop :=
  let a := ascii_lower (title p) in let b := ascii_lower (title q) in
  if decide (a = b) then str_le (project_id p) (project_id q) else str_le a b.
#[export] Instance project_le_dec : RelDecision project_le.
Proof. intros p q. unfold project_le. destruct (decide _); apply _. Defined.

Definition list_projects (enabled_only : bool) : DB (list Project) :=
  d <- gets projects ;;
  let rows := map (fun kv => pr_project kv.2) (map_to_list d) in
  ret (merge_sort project_le (filter (fun p => enabled_only = false \/ enabled p = true) rows)).

Definition with_project_id (now : Z) (current : str) (row : ProjectRow) : ProjectRow :=
  let p := pr_project row in
  {| pr_project := {| project_id := current; title := title p; root := root p;
       root_fingerprint := root_fingerprint p; mode := mode p; enabled := enabled p |};
     pr_created_at := pr_created_at row; pr_updated_at := now |}.

Definition op_with_project (current : option str) (o : Operation) : Operation :=
  {| op_correlation_id := op_correlation_id o; op_account_id := op_account_id o;
     op_grant_id := op_grant_id o; op_link_id := op_link_id o; op_device_id := op_device_id o;
     op_project_id := current; op_capability := op_capability o;
     op_action_digest := op_action_digest o; op_idempotency_key := op_idempotency_key o;
     op_request_digest := op_request_digest o; op_request := op_request o; op_state := op_state o;
     op_result := op_result o; op_terminal_acked := op_terminal_acked o;
     op_connection_epoch := op_connection_epoch o; op_deadline_at := op_deadline_at o;
     op_received_at := op_received_at o; op_updated_at := op_updated_at o |}.

(** One round of the loop of [rotate_project_ids]. *)
Definition rotate_one (now : Z) (previous current : str) : DB unit :=
  modify (on_operations (fmap (fun o =>
    if bool_decide (op_project_id o = Some previous) then op_with_project (Some current) o else o))) ;;;
  d <- gets projects ;;
  match d !! previous with
  | None => ret tt
  | Some row =>
      if bool_decide (is_Some (d !! current)) && negb (bool_decide (current = previous))
      then raise IntegrityError
      else modify (on_projects (fun m => <[current := with_project_id now current row]> (delete previous m)))
  end.

(** [fresh] gives the [uuid4] drawn for each project. *)
Definition rotate_project_ids (now : Z) (fresh : str -> str) : DB (list (str * str)) :=
  d <- gets projects ;;
  let mapping := map (fun kv => (kv.1, fresh kv.1)) (map_to_list d) in
  if bool_decide (mapping = []) then ret mapping
  else transaction (for_each mapping (fun pc => rotate_one now pc.1 pc.2) ;;;
                    modify (on_idempotency (fun _ => ∅)) ;;; ret mapping).

(** ** Settings and saved permissions *)

Definition get_setting (key : str) (dflt : option str) : DB (option str) :=
  d <- gets settings ;;
  ret (match d !! key with Some v => Some v | None => dflt end).

Definition set_setting (key value : str) : DB unit :=
  if bool_decide (key = []) || (100 <? length key)%nat || (4096 <? length value)%nat
  then raise (AgentError "invalid_setting" false [])
  else modify (on_settings <[key := value]>).

Definition has_scope_permission (t : gmap str ScopePermission) (key identity : str) : bool :=
  match t !! key with Some p => bool_decide (sp_root_identity p = identity) | None => false end.

Definition has_read_permission (permission_key root_identity : str) : DB bool :=
  gets (fun d => has_scope_permission (read_permissions d) permission_key root_identity).
Definition save_read_permission (now : Z) (permission_key scope_path root_identity account link : str) : DB unit :=
  modify (on_read <[permission_key := {| sp_scope_path := scope_path;
    sp_root_identity := root_identity; sp_account_id := account; sp_link_id := link;
    sp_created_at := now |}]>).
Definition revoke_read_permissions : DB Z :=
  n <- gets (fun d => Z.of_nat (size (read_permissions d))) ;;
  modify (on_read (fun _ => ∅)) ;;; ret n.

Definition has_shell_permission (key identity : str) : DB bool :=
  gets (fun d => has_scope_permission (shell_permissions d) key identity).
Definition save_shell_permission (now : Z) (key scope identity account link : str) : DB unit :=
  modify (on_shell <[key := {| sp_scope_path := scope; sp_root_identity := identity;
    sp_account_id := account; sp_link_id := link; sp_created_at := now |}]>).
Definition revoke_shell_permissions : DB Z :=
  n <- gets (fun d => Z.of_nat (size (shell_permissions d))) ;;
  modify (on_shell (fun _ => ∅)) ;;; ret n.

Definition has_screen_permission (key identity : str) : DB bool :=
  gets (fun d => match screen_permissions d !! key with
                 | Some p => bool_decide (sc_display_identity p = identity)
                 | None => false
                 end).
Definition save_screen_permission (now : Z) (key display_id identity label account link : str) : DB unit :=
  modify (on_screen <[key := {| sc_display_id := display_id; sc_display_identity := identity;
    sc_display_label := label; sc_account_id := account; sc_link_id := link;
    sc_created_at := now |}]>).
Definition revoke_screen_permissions : DB Z :=
  n <- gets (fun d => Z.of_nat (size (screen_permissions d))) ;;
  modify (on_screen (fun _ => ∅)) ;;; ret n.

(** [ORDER BY created_at DESC] (ties in no particular order). *)
Definition newest_first {A} (created : A -> Z) (x y : str * A) : Prop := (created y.2 <= created x.2)%Z.
#[export] Instance newest_first_dec {A} (created : A -> Z) : RelDecision (newest_first created).
Proof. intros x y. unfold newest_first. apply _. Defined.

Definition list_read_permissions : DB (list (str * ScopePermission)) :=
  gets (fun d => merge_sort (newest_first sp_created_at) (map_to_list (read_permissions d))).
Definition list_shell_permissions : DB (list (str * ScopePermission)) :=
  gets (fun d => merge_sort (newest_first sp_created_at) (map_to_list (shell_permissions d))).
Definition list_screen_permissions : DB (list (str * ScreenPermission)) :=
  gets (fun d => merge_sort (newest_first sc_created_at) (map_to_list (screen_permissions d))).

Definition revoke_permission (category permission_id : str) : DB bool :=
  if bool_decide (category = lit "read") then
    b <- gets (fun d => bool_decide (is_Some (read_permissions d !! permission_id))) ;;
    modify (on_read (delete permission_id)) ;;; ret b
  else if bool_decide (category = lit "shell") then
    b <- gets (fun d => bool_decide (is_Some (shell_permissions d !! permission_id))) ;;
    modify (on_shell (delete permission_id)) ;;; ret b
  else if bool_decide (category = lit "screen") then
    b <- gets (fun d => bool_decide (is_Some (screen_permissions d !! permission_id))) ;;
    modify (on_screen (delete permission_id)) ;;; ret b
  else raise (AgentError "invalid_permission" false []).

(** ** Project registration requests *)

(** Times are microseconds since the epoch. *)
Definition FIFTEEN_MINUTES : Z := 900 * 1000000.

Definition create_project_registration_request (now : Z) (fresh : str) (title account grant link device : str)
    (epoch : Z) : DB str :=
  let title := strip title in
  if negb (valid_title title) then raise (AgentError "invalid_project" false [])
  else
    let request_id := lit "project_request_" ++ fresh in
    d <- gets registration_requests ;;
    if bool_decide (is_Some (d !! request_id)) then raise IntegrityError
    else modify (on_requests <[request_id := {| rr_title := title; rr_account_id := account;
           rr_grant_id := grant; rr_link_id := link; rr_device_id := device;
           rr_connection_epoch := epoch; rr_status := RPending;
           rr_expires_at := now + FIFTEEN_MINUTES; rr_created_at := now; rr_updated_at := now |}]>) ;;;
         ret request_id.

Definition rr_with_status (now : Z) (s : RequestStatus) (r : RegistrationRequest) : RegistrationRequest :=
  {| rr_title := rr_title r; rr_account_id := rr_account_id r; rr_grant_id := rr_grant_id r;
     rr_link_id := rr_link_id r; rr_device_id := rr_device_id r;
     rr_connection_epoch := rr_connection_epoch r; rr_status := s; rr_expires_at := rr_expires_at r;
     rr_created_at := rr_created_at r; rr_updated_at := now |}.

Definition expire_requests (now : Z) : DB unit :=
  modify (on_requests (fmap (fun r =>
    if bool_decide (rr_status r = RPending) && (rr_expires_at r <=? now)%Z
    then rr_with_status now RExpired r else r))).

(** The oldest pending request. *)
Definition oldest_first (x y : str * RegistrationRequest) : Prop := (rr_created_at x.2 <= rr_created_at y.2)%Z.
#[export] Instance oldest_first_dec : RelDecision oldest_first.
Proof. intros x y. unfold oldest_first. apply _. Defined.

Definition next_project_registration_request (now : Z) : DB (option (str * RegistrationRequest)) :=
  expire_requests now ;;;
  d <- gets registration_requests ;;
  ret (head (merge_sort oldest_first
    (filter (fun kv => rr_status kv.2 = RPending) (map_to_list d)))).

Definition dismiss_project_registration_request (now : Z) (request_id : str) (expired : bool) : DB unit :=
  d <- gets registration_requests ;;
  match d !! request_id with
  | Some r =>
      if bool_decide (rr_status r = RPending)
      then modify (on_requests <[request_id :=
             rr_with_status now (if expired then RExpired else RDismissed) r]>)
      else raise (AgentError "request_not_found" false [])
  | None => raise (AgentError "request_not_found" false [])
  end.

Definition complete_project_registration_request (now : Z) (fresh : str) (request_id : str)
    (validated : res (str * str)) : DB Project :=
  d <- gets registration_requests ;;
  match d !! request_id with
  | Some r =>
      if negb (bool_decide (rr_status r = RPending)) then raise (AgentError "request_not_found" false [])
      else if (rr_expires_at r <=? now)%Z then
        dismiss_project_registration_request now request_id true ;;;
        raise (AgentError "request_expired" false [])
      else
        project <- register_project now fresh (rr_title r) validated ISOLATED None ;;
        modify (on_requests (alter (rr_with_status now RCompleted) request_id)) ;;;
        ret project
  | None => raise (AgentError "request_not_found" false [])
  end.

(** ** Operations *)

(** The arguments of [record_received]. *)
Record Receipt := {
  rc_operation_id : str; rc_correlation_id : str; rc_account_id : str; rc_grant_id : str;
  rc_link_id : str; rc_device_id : str; rc_project_id : option str; rc_capability : str;
  rc_action_digest : str; rc_idempotency_key : option str; rc_request_digest : str;
  rc_request : option json; rc_connection_epoch : Z; rc_deadline_at : str;
}.

Definition received_operation (now : Z) (r : Receipt) : Operation :=
  {| op_correlation_id := rc_correlation_id r; op_account_id := rc_account_id r;
     op_grant_id := rc_grant_id r; op_link_id := rc_link_id r; op_device_id := rc_device_id r;
     op_project_id := rc_project_id r; op_capability := rc_capability r;
     op_action_digest := rc_action_digest r; op_idempotency_key := rc_idempotency_key r;
     op_request_digest := rc_request_digest r;
     op_request := _activity_safe_value 0 <$> rc_request r; op_state := RECEIVED; op_result := None;
     op_terminal_acked := false; op_connection_epoch := rc_connection_epoch r;
     op_deadline_at := rc_deadline_at r; op_received_at := now; op_updated_at := now |}.

(** The columns compared on redelivery. *)
Definition op_bindings (o : Operation) :=
  (op_correlation_id o, op_account_id o, op_grant_id o, op_link_id o, op_device_id o,
   op_project_id o, op_capability o, op_action_digest o, op_idempotency_key o,
   op_request_digest o, op_deadline_at o).
Definition rc_bindings (r : Receipt) :=
  (rc_correlation_id r, rc_account_id r, rc_grant_id r, rc_link_id r, rc_device_id r,
   rc_project_id r, rc_capability r, rc_action_digest r, rc_idempotency_key r,
   rc_request_digest r, rc_deadline_at r).

Definition op_with_epoch (now : Z) (epoch : Z) (o : Operation) : Operation :=
  {| op_correlation_id := op_correlation_id o; op_account_id := op_account_id o;
     op_grant_id := op_grant_id o; op_link_id := op_link_id o; op_device_id := op_device_id o;
     op_project_id := op_project_id o; op_capability := op_capability o;
     op_action_digest := op_action_digest o; op_idempotency_key := op_idempotency_key o;
     op_request_digest := op_request_digest o; op_request := op_request o; op_state := op_state o;
     op_result := op_result o; op_terminal_acked := op_terminal_acked o;
     op_connection_epoch := epoch; op_deadline_at := op_deadline_at o;
     op_received_at := op_received_at o; op_updated_at := now |}.

(** The foreign key of the project column. *)
Definition references_project (d : db) (p : option str) : bool :=
  match p with Some p => bool_decide (is_Some (projects d !! p)) | None => true end.

Definition record_received (now : Z) (r : Receipt) : DB bool :=
  d <- gets id ;;
  match operations d !! rc_operation_id r with
  | None =>
      if references_project d (rc_project_id r)
      then modify (on_operations <[rc_operation_id r := received_operation now r]>) ;;; ret true
      else raise (AgentError "operation_conflict" false [])
  | Some row =>
      if negb (bool_decide (op_bindings row = rc_bindings r)) ||
         (rc_connection_epoch r <? op_connection_epoch row)%Z
      then raise (AgentError "operation_conflict" false [])
      else when (op_connection_epoch row <? rc_connection_epoch r)%Z
             (modify (on_operations <[rc_operation_id r := op_with_epoch now (rc_connection_epoch r) row]>)) ;;;
           ret false
  end.

Definition op_with_state (now : Z) (s : OperationState) (result : option json) (o : Operation) : Operation :=
  {| op_correlation_id := op_correlation_id o; op_account_id := op_account_id o;
     op_grant_id := op_grant_id o; op_link_id := op_link_id o; op_device_id := op_device_id o;
     op_project_id := op_project_id o; op_capability := op_capability o;
     op_action_digest := op_action_digest o; op_idempotency_key := op_idempotency_key o;
     op_request_digest := op_request_digest o; op_request := op_request o; op_state := s;
     op_result := result;
     op_terminal_acked := if TERMINAL_OPERATION_STATES s then false else op_terminal_acked o;
     op_connection_epoch := op_connection_epoch o; op_deadline_at := op_deadline_at o;
     op_received_at := op_received_at o; op_updated_at := now |}.

Definition transition_operation (now : Z) (operation_id : str) (s : OperationState)
    (result : option json) : DB unit :=
  d <- gets operations ;;
  match d !! operation_id with
  | None => raise (AgentError "operation_not_found" false [])
  | Some row =>
      if TERMINAL_OPERATION_STATES (op_state row) && negb (bool_decide (op_state row = s))
      then raise (AgentError "invalid_state" false [])
      else modify (on_operations <[operation_id := op_with_state now s result row]>)
  end.

Definition get_operation (operation_id : str) : DB (option Operation) :=
  gets (fun d => operations d !! operation_id).

(** [ORDER BY updated_at, operation_id] *)
Definition op_le (x y : str * Operation) : Prop :=
  (op_updated_at x.2 < op_updated_at y.2)%Z \/
  (op_updated_at x.2 = op_updated_at y.2 /\ str_le x.1 y.1).
#[export] Instance op_le_dec : RelDecision op_le.
Proof. intros x y. unfold op_le. apply _. Defined.

Definition unacknowledged (o : Operation) : bool :=
  negb (op_terminal_acked o) && bool_decide (op_result o <> None) &&
  TERMINAL_OPERATION_STATES (op_state o).

Definition list_unacknowledged_terminals : DB (list (str * Operation)) :=
  gets (fun d => merge_sort op_le (filter (fun kv => unacknowledged kv.2 = true)
                                     (map_to_list (operations d)))).

Record AckBinding := {
  ak_correlation_id : str; ak_action_digest : str; ak_account_id : str; ak_grant_id : str;
  ak_link_id : str; ak_device_id : str; ak_project_id : option str;
}.

Definition ack_matches (a : AckBinding) (o : Operation) : bool :=
  bool_decide (op_correlation_id o = ak_correlation_id a) &&
  bool_decide (op_action_digest o = ak_action_digest a) &&
  bool_decide (op_account_id o = ak_account_id a) && bool_decide (op_grant_id o = ak_grant_id a) &&
  bool_decide (op_link_id o = ak_link_id a) && bool_decide (op_device_id o = ak_device_id a) &&
  bool_decide (op_project_id o = ak_project_id a) && TERMINAL_OPERATION_STATES (op_state o).

Definition op_acked (now : Z) (o : Operation) : Operation :=
  {| op_correlation_id := op_correlation_id o; op_account_id := op_account_id o;
     op_grant_id := op_grant_id o; op_link_id := op_link_id o; op_device_id := op_device_id o;
     op_project_id := op_project_id o; op_capability := op_capability o;
     op_action_digest := op_action_digest o; op_idempotency_key := op_idempotency_key o;
     op_request_digest := op_request_digest o; op_request := op_request o; op_state := op_state o;
     op_result := op_result o; op_terminal_acked := true;
     op_connection_epoch := op_connection_epoch o; op_deadline_at := op_deadline_at o;
     op_received_at := op_received_at o; op_updated_at := now |}.

Definition acknowledge_terminal (now : Z) (a : AckBinding) : DB bool :=
  b <- gets (fun d => negb (bool_decide (map_Forall (fun _ o => ack_matches a o = false) (operations d)))) ;;
  modify (on_operations (fmap (fun o => if ack_matches a o then op_acked now o else o))) ;;;
  ret b.

(** ** Idempotency *)

Definition get_idempotency (project_id capability key : str) (b : Binding)
    : DB (option (str * OperationState * option json)) :=
  d <- gets idempotency ;;
  match d !! (project_id, capability, key) with
  | None => ret None
  | Some row =>
      if negb (bool_decide (id_binding row = b)) then raise (AgentError "idempotency_conflict" false [])
      else ret (Some (id_request_digest row, id_state row, id_result row))
  end.

(** The truth value of a result object. *)
Definition truthy (result : option json) : option json :=
  match result with Some (JObj []) => None | r => r end.

Definition job_id_of (capability : str) (result : option json) : option str :=
  match truthy result with
  | Some (JObj o) =>
      if bool_decide (capability = lit "project_shell") then
        match obj_get (lit "job_id") o with
        | Some (JStr (c :: r)) => Some (c :: r)
        | _ => None
        end
      else None
  | _ => None
  end.

Definition put_idempotency (now : Z) (project_id capability key request_digest : str)
    (s : OperationState) (result : option json) (b : Binding) : DB unit :=
  d <- gets id ;;
  let k := (project_id, capability, key) in
  match idempotency d !! k with
  | Some row =>
      if negb (bool_decide (id_request_digest row = request_digest)) ||
         negb (bool_decide (id_binding row = b))
      then raise (AgentError "idempotency_conflict" false [])
      else modify (on_idempotency <[k := {| id_binding := id_binding row;
             id_request_digest := id_request_digest row; id_state := s; id_result := truthy result;
             id_job_id := job_id_of capability result; id_created_at := id_created_at row;
             id_updated_at := now |}]>)
  | None =>
      if negb (bool_decide (is_Some (projects d !! project_id))) then raise IntegrityError
      else modify (on_idempotency <[k := {| id_binding := b; id_request_digest := request_digest;
             id_state := s; id_result := truthy result; id_job_id := job_id_of capability result;
             id_created_at := now; id_updated_at := now |}]>)
  end.

(** [fetchone] on a job identifier: the first row in key order. *)
Definition get_shell_job (project_id job_id : str) (b : Binding)
    : DB (option (OperationState * option json)) :=
  d <- gets idempotency ;;
  match head (filter (fun kv => kv.1.1 = (project_id, lit "project_shell") /\
                                id_job_id kv.2 = Some job_id) (map_to_list d)) with
  | None => ret None
  | Some (_, row) =>
      if negb (bool_decide (id_binding row = b)) then raise (AgentError "binding_mismatch" false [])
      else ret (Some (id_state row, id_result row))
  end.

Definition delete_idempotency (project_id capability key : str) : DB unit :=
  modify (on_idempotency (delete (project_id, capability, key))).

(** ** Connection epochs *)

Definition EPOCH_KEY : str := lit "connection_epoch".

Definition next_connection_epoch : DB Z :=
  d <- gets settings ;;
  value <- match d !! EPOCH_KEY with
           | None => ret 1%Z
           | Some v => match int_of_str v with
                       | Some n => ret (n + 1)%Z
                       | None => raise (ValueError "int")
                       end
           end ;;
  modify (on_settings <[EPOCH_KEY := str_of_Z value]>) ;;;
  ret value.

Definition set_connection_epoch (value : Z) : DB unit :=
  if (value <? 1)%Z then raise (AgentError "protocol_error" false [])
  else modify (on_settings <[EPOCH_KEY := str_of_Z value]>).

(** ** Histories

    Every method that writes, as a call; reads cannot change the journal. *)
Inductive db_call :=
| RegisterProject (fresh title : str) (validated : res (str * str)) (mode : ProjectMode) (id : option str)
| SetMode (id : str) (m : ProjectMode)
| SetTitle (id t : str)
| SetEnabled (id : str) (e : bool)
| RotateIds (fresh : str -> str)
| SetSetting (key value : str)
| SaveRead (k scope ident account link : str)
| SaveShell (k scope ident account link : str)
| SaveScreen (k display ident label account link : str)
| RevokeRead | RevokeShell | RevokeScreen
| Revoke (category id : str)
| CreateRequest (fresh title account grant link device : str) (epoch : Z)
| NextRequest
| CompleteRequest (fresh id : str) (validated : res (str * str))
| DismissRequest (id : str) (expired : bool)
| Record_ (r : Receipt)
| Transition (id : str) (s : OperationState) (result : option json)
| Acknowledge (a : AckBinding)
| PutIdempotency (p c k digest : str) (s : OperationState) (result : option json) (b : Binding)
| DeleteIdempotency (p c k : str)
| NextEpoch
| SetEpoch (v : Z).

Definition void {A} (m : DB A) : DB unit := _ <- m ;; ret tt.

Definition exec (now : Z) (c : db_call) : DB unit :=
  match c with
  | RegisterProject f t v m i => void (register_project now f t v m i)
  | SetMode i m => set_project_mode now i m
  | SetTitle i t => set_project_title now i t
  | SetEnabled i e => set_project_enabled now i e
  | RotateIds f => void (rotate_project_ids now f)
  | SetSetting k v => set_setting k v
  | SaveRead k s i a l => save_read_permission now k s i a l
  | SaveShell k s i a l => save_shell_permission now k s i a l
  | SaveScreen k d i la a l => save_screen_permission now k d i la a l
  | RevokeRead => void revoke_read_permissions
  | RevokeShell => void revoke_shell_permissions
  | RevokeScreen => void revoke_screen_permissions
  | Revoke c i => void (revoke_permission c i)
  | CreateRequest f t a g l d e => void (create_project_registration_request now f t a g l d e)
  | NextRequest => void (next_project_registration_request now)
  | CompleteRequest f i v => void (complete_project_registration_request now f i v)
  | DismissRequest i e => dismiss_project_registration_request now i e
  | Record_ r => void (record_received now r)
  | Transition i s r => transition_operation now i s r
  | Acknowledge a => void (acknowledge_terminal now a)
  | PutIdempotency p c k d s r b => put_idempotency now p c k d s r b
  | DeleteIdempotency p c k => delete_idempotency p c k
  | NextEpoch => void next_connection_epoch
  | SetEpoch v => set_connection_epoch v
  end.

(** A journal after a history of timed calls, failed ones included. *)
Definition history (d : db) (calls : list (Z * db_call)) : db :=
  foldl (fun d tc => (exec tc.1 tc.2 d).2) d calls.

(** What may become of one operation row. *)
Definition op_fixed (o : Operation) :=
  (op_correlation_id o, op_account_id o, op_grant_id o, op_link_id o, op_device_id o,
   op_capability o, op_action_digest o, op_idempotency_key o, op_request_digest o,
   op_deadline_at o, op_received_at o).

Record op_evolves (o o' : Operation) : Prop := {
  ev_fixed : op_fixed o' = op_fixed o;
  ev_request : op_request o' = op_request o;
  ev_terminal : TERMINAL_OPERATION_STATES (op_state o) = true -> op_state o' = op_state o;
  ev_epoch : (op_connection_epoch o <= op_connection_epoch o')%Z;
}.

Definition ops_evolve (d d' : db) : Prop :=
  forall id o, operations d !! id = Some o -> exists o', operations d' !! id = Some o' /\ op_evolves o o'.

#[export] Instance op_evolves_preorder : PreOrder op_evolves.
Proof.
  split; [intros o; by split|]. intros o1 o2 o3 [H1 H2 H3 H4] [G1 G2 G3 G4]. split.
  - congruence.
  - congruence.
  - intros H. rewrite G3; [by apply H3|]. by rewrite H3.
  - lia.
Qed.

#[export] Instance ops_evolve_preorder : PreOrder ops_evolve.
Proof.
  split; [intros d id o H; exists o; by split|]. intros d1 d2 d3 H1 H2 id o Ho.
  destruct (H1 id o Ho) as (o2 & Ho2 & E2). destruct (H2 id o2 Ho2) as (o3 & Ho3 & E3).
  exists o3. split; [done|]. by transitivity o2.
Qed.

(** A computation evolves the operations on every way out. *)
Definition evolving {A} (m : DB A) : Prop := forall d, ops_evolve d (m d).2.

Lemma ops_evolve_same d d' : operations d' = operations d -> ops_evolve d d'.
Proof. intros E id o Ho. exists o. rewrite E. by split. Qed.

Lemma evolving_ret {A} (a : A) : evolving (ret a).
Proof. intros d. by apply ops_evolve_same. Qed.
Lemma evolving_raise {A} e : evolving (@raise db A e).
Proof. intros d. by apply ops_evolve_same. Qed.
Lemma evolving_gets {A} (f : db -> A) : evolving (gets f).
Proof. intros d. by apply ops_evolve_same. Qed.
Lemma evolving_lift {A} (r : res A) : evolving (lift r).
Proof. intros d. by apply ops_evolve_same. Qed.
Lemma evolving_modify f : (forall d, operations (f d) = operations d) -> evolving (modify f).
Proof. intros H d. apply ops_evolve_same, H. Qed.

Lemma evolving_bind {A B} (m : DB A) (k : A -> DB B) :
  evolving m -> (forall a, evolving (k a)) -> evolving (bind m k).
Proof.
  intros Hm Hk d. unfold bind. specialize (Hm d). destruct (m d) as [[a|e] d']; [|done].
  cbn in *. transitivity d'; [done|]. apply Hk.
Qed.

#[export] Hint Resolve evolving_ret evolving_raise evolving_gets evolving_lift : codito.

(** Follow the structure of a method down to its writes. *)
Ltac evolving_steps :=
  repeat match goal with
  | |- evolving (bind _ _) => apply evolving_bind; [|intros ?]
  | |- evolving (void _) => apply evolving_bind; [|intros ?]
  | |- evolving (when ?b _) => unfold when
  | |- evolving (match ?x with _ => _ end) => destruct x
  | |- evolving (modify _) => apply evolving_modify; intros ?; reflexivity
  | |- evolving _ => solve [auto with codito]
  end.

Lemma evolving_update_project now id f : evolving (update_project now id f).
Proof. unfold update_project. evolving_steps. Qed.

Lemma evolving_register now f t v m i : evolving (register_project now f t v m i).
Proof. unfold register_project. cbn zeta. evolving_steps. Qed.
#[export] Hint Resolve evolving_update_project evolving_register : codito.

Lemma evolving_dismiss now i e : evolving (dismiss_project_registration_request now i e).
Proof. unfold dismiss_project_registration_request. evolving_steps. Qed.
#[export] Hint Resolve evolving_dismiss : codito.

(** Writes to the operations themselves. *)
Lemma evolving_map f : (forall o, op_evolves o (f o)) -> evolving (modify (on_operations (fmap f))).
Proof.
  intros H d id o Ho. exists (f o). cbn. rewrite lookup_fmap, Ho. by split.
Qed.

Lemma evolves_insert d id o o' : operations d !! id = Some o -> op_evolves o o' ->
  ops_evolve d (on_operations <[id := o']> d).
Proof.
  intros Ho He id' o1 H1. cbn. destruct (decide (id = id')) as [->|Hne].
  - exists o'. rewrite lookup_insert_eq. split; [done|]. by simplify_eq.
  - exists o1. rewrite lookup_insert_ne by done. by split.
Qed.

Lemma evolves_fresh d id o : operations d !! id = None -> ops_evolve d (on_operations <[id := o]> d).
Proof.
  intros Ho id' o1 H1. cbn. exists o1. rewrite lookup_insert_ne by congruence. by split.
Qed.

Lemma evolving_record now r : evolving (record_received now r).
Proof.
  intros d. unfold record_received, bind, gets. cbn [id fst snd].
  destruct (operations d !! rc_operation_id r) as [row|] eqn:Ho.
  - destruct (_ || _) eqn:E; [by apply ops_evolve_same|]. apply orb_false_iff in E as [_ E].
    unfold when. destruct (op_connection_epoch row <? rc_connection_epoch r)%Z eqn:E'; [|by apply ops_evolve_same]. cbn.
    eapply evolves_insert; [done|]. split; cbn; [done..|lia].
  - destruct (references_project _ _); [|by apply ops_evolve_same]. by apply evolves_fresh.
Qed.

Lemma evolving_transition now id s r : evolving (transition_operation now id s r).
Proof.
  intros d. unfold transition_operation, bind, gets. destruct (operations d !! id) as [row|] eqn:Ho.
  - destruct (_ && _) eqn:E; [by apply ops_evolve_same|]. eapply evolves_insert; [done|].
    split; cbn; [done|done| |lia]. intros Ht. rewrite Ht in E. cbn in E.
    by apply negb_false_iff, bool_decide_eq_true in E.
  - by apply ops_evolve_same.
Qed.

Lemma evolving_ack now a : evolving (acknowledge_terminal now a).
Proof.
  unfold acknowledge_terminal. apply evolving_bind; [auto with codito|]. intros b.
  apply evolving_bind; [|intros; auto with codito]. apply evolving_map. intros o.
  destruct (ack_matches a o); by split.
Qed.

Lemma evolving_rotate_one now p c : evolving (rotate_one now p c).
Proof.
  unfold rotate_one. apply evolving_bind; [|intros; evolving_steps].
  apply evolving_map. intros o. case_bool_decide; by split.
Qed.

Lemma evolving_for_each {A} (l : list A) body : (forall a, evolving (body a)) -> evolving (for_each l body).
Proof.
  intros H. induction l as [|a l IH]; [apply evolving_ret|]. apply evolving_bind; [apply H|done].
Qed.

Lemma evolving_transaction {A} (m : DB A) : evolving m -> evolving (transaction m).
Proof.
  intros Hm d. unfold transaction. specialize (Hm d). destruct (m d) as [[v|e] d']; [done|].
  by apply ops_evolve_same.
Qed.

Lemma evolving_rotate now f : evolving (rotate_project_ids now f).
Proof.
  unfold rotate_project_ids. apply evolving_bind; [auto with codito|]. intros ps.
  case_bool_decide; [auto with codito|]. apply evolving_transaction.
  apply evolving_bind; [apply evolving_for_each; intros; apply evolving_rotate_one|].
  intros; evolving_steps.
Qed.
#[export] Hint Resolve evolving_record evolving_transition evolving_ack evolving_rotate : codito.

Lemma evolving_exec now c : evolving (exec now c).
Proof.
  destruct c; cbn [exec]; unfold set_project_mode, set_project_title, set_project_enabled, set_setting,
    save_read_permission, save_shell_permission, save_screen_permission, revoke_read_permissions,
    revoke_shell_permissions, revoke_screen_permissions, revoke_permission,
    create_project_registration_request, next_project_registration_request, expire_requests,
    complete_project_registration_request, put_idempotency, delete_idempotency,
    next_connection_epoch, set_connection_epoch; cbn zeta; evolving_steps.
Qed.

Lemma history_evolves d calls : ops_evolve d (history d calls).
Proof.
  unfold history. revert d. induction calls as [|[t c] calls IH]; intros d; cbn; [reflexivity|].
  transitivity (exec t c d).2; [apply evolving_exec|apply IH].
Qed.


Definition sample_receipt : Receipt :=
  {| rc_operation_id := lit "op1"; rc_correlation_id := lit "c1"; rc_account_id := lit "acc";
     rc_grant_id := lit "g"; rc_link_id := lit "l"; rc_device_id := lit "d"; rc_project_id := None;
     rc_capability := lit "project_read"; rc_action_digest := lit "ad"; rc_idempotency_key := None;
     rc_request_digest := lit "rd"; rc_request := None; rc_connection_epoch := 1;
     rc_deadline_at := lit "2030" |}.

Definition sample_calls : list (Z * db_call) :=
  [(2%Z, Transition (lit "op1") SUCCEEDED (Some (JObj []))); (3%Z, Transition (lit "op1") RUNNING None);
   (4%Z, RotateIds id)].


(** An operation identifier is executed at most once: after [record_received]
    has answered [True] for it, no later delivery of that identifier is answered
    [True] again, whatever happened to the journal in between; an exact
    redelivery of a live connection is answered [False], anything else refused. *)
Theorem received_at_most_once now r d d' calls now' r' :
  record_received now r d = (Ok true, d') -> rc_operation_id r' = rc_operation_id r ->
  exists row, operations (history d' calls) !! rc_operation_id r = Some row /\
  (record_received now' r' (history d' calls)).1 =
    if bool_decide (op_bindings row = rc_bindings r') &&
       (op_connection_epoch row <=? rc_connection_epoch r')%Z
    then Ok false else Err (AgentError "operation_conflict" false []).
Proof.
  intros H Hid.
  assert (exists o, operations d' !! rc_operation_id r = Some o) as [o Ho].
  { unfold record_received, bind, gets in H. cbn [id] in H.
    destruct (operations d !! rc_operation_id r); [|].
    - destruct (_ || _) in H; [done|]. unfold when in H. by destruct (_ <? _)%Z in H.
    - destruct (references_project _ _); [|done]. injection H as <-. eexists. apply lookup_insert_eq. }
  destruct (history_evolves d' calls _ _ Ho) as (row & Hrow & _). exists row. split; [done|].
  unfold record_received, bind, gets. cbn [id]. rewrite Hid, Hrow.
  case_bool_decide; cbn [negb orb andb]; [|done]. rewrite Z.leb_antisym.
  destruct (_ <? _)%Z; cbn [negb]; [done|]. unfold when. by destruct (_ <? _)%Z.
Qed.

Lemma received_at_most_once_witness : exists row d',
  record_received 1 sample_receipt empty_db = (Ok true, d') /\
  operations (history d' sample_calls) !! lit "op1" = Some row /\
  (record_received 5 sample_receipt (history d' sample_calls)).1 = Ok false.
Proof.
  edestruct (received_at_most_once 1 sample_receipt empty_db
    (record_received 1 sample_receipt empty_db).2 sample_calls 5 sample_receipt) as (row & H1 & _);
    [vm_compute; reflexivity|reflexivity|].
  exists row. eexists. split; [vm_compute; reflexivity|]. split; [exact H1|vm_compute; reflexivity].
Defined.

(** ** References between the tables *)

Record well_formed (d : db) : Prop := {
  wf_ids : forall id row, projects d !! id = Some row -> project_id (pr_project row) = id;
  wf_roots : forall id id' row row', projects d !! id = Some row -> projects d !! id' = Some row' ->
    root (pr_project row) = root (pr_project row') -> id = id';
  wf_operations : forall id o p, operations d !! id = Some o -> op_project_id o = Some p ->
    is_Some (projects d !! p);
  wf_idempotency : forall p c k row, idempotency d !! (p, c, k) = Some row -> is_Some (projects d !! p);
}.

(** What rotation keeps while identifiers are being renamed: the idempotency
    rows are checked only at the end, when they are gone. *)
Definition wf_rotating (d : db) : Prop := well_formed (on_idempotency (fun _ => ∅) d).

Definition preserves {A} (I : db -> Prop) (m : DB A) : Prop := forall d, I d -> I (m d).2.

Lemma preserves_bind {A B} I (m : DB A) (k : A -> DB B) :
  preserves I m -> (forall a, preserves I (k a)) -> preserves I (bind m k).
Proof.
  intros Hm Hk d Hd. unfold bind. specialize (Hm d Hd). destruct (m d) as [[a|e] d']; [|done]. by apply Hk.
Qed.

Lemma preserves_same {A} (m : DB A) :
  (forall d, projects (m d).2 = projects d /\ operations (m d).2 = operations d /\
             idempotency (m d).2 = idempotency d) -> preserves well_formed m.
Proof.
  intros H d [H1 H2 H3 H4]. destruct (H d) as (E1 & E2 & E3). split; rewrite ?E1, ?E2, ?E3; done.
Qed.

Lemma preserves_ret {A} (a : A) : preserves well_formed (ret a).
Proof. by apply preserves_same. Qed.
Lemma preserves_raise {A} e : preserves well_formed (@raise db A e).
Proof. by apply preserves_same. Qed.
Lemma preserves_gets {A} (f : db -> A) : preserves well_formed (gets f).
Proof. by apply preserves_same. Qed.
Lemma preserves_lift {A} (r : res A) : preserves well_formed (lift r).
Proof. by apply preserves_same. Qed.
Lemma preserves_modify f :
  (forall d, projects (f d) = projects d /\ operations (f d) = operations d /\
             idempotency (f d) = idempotency d) -> preserves well_formed (modify f).
Proof. intros H. apply preserves_same. intros d. apply H. Qed.
#[export] Hint Resolve preserves_ret preserves_raise preserves_gets preserves_lift : codito.

Ltac preserves_steps :=
  repeat match goal with
  | |- preserves _ (bind _ _) => apply preserves_bind; [|intros ?]
  | |- preserves _ (void _) => apply preserves_bind; [|intros ?]
  | |- preserves _ (when ?b _) => unfold when
  | |- preserves _ (match ?x with _ => _ end) => destruct x
  | |- preserves _ (modify _) => apply preserves_modify; intros ?; done
  | |- preserves _ _ => solve [auto with codito]
  end.

Lemma wf_put_project d id row :
  well_formed d -> project_id (pr_project row) = id ->
  (forall id' row', projects d !! id' = Some row' -> root (pr_project row') = root (pr_project row) -> id' = id) ->
  well_formed (on_projects <[id := row]> d).
Proof.
  intros [H1 H2 H3 H4] Hid Hroot. split; cbn.
  - intros id' row' [[<- <-]|[_ H]]%lookup_insert_Some; [done|by apply H1].
  - intros i i' r r' [[<- <-]|[? Hi]]%lookup_insert_Some [[<- <-]|[? Hi']]%lookup_insert_Some E; try done.
    + symmetry. by eapply Hroot.
    + by eapply Hroot.
    + by eapply H2.
  - intros i o p Ho Hp. rewrite lookup_insert_is_Some'. right. by eapply H3.
  - intros p c k r Hr. rewrite lookup_insert_is_Some'. right. by eapply H4.
Qed.

Lemma wf_update_project now id f : (forall p, project_id (f p) = project_id p /\ root (f p) = root p) ->
  preserves well_formed (update_project now id f).
Proof.
  intros Hf d Hd. unfold update_project, bind, gets. destruct (projects d !! id) as [row|] eqn:E; [|done].
  destruct (Hf (pr_project row)) as [Hi Hr]. apply wf_put_project; cbn; [done| |].
  - rewrite Hi. by apply (wf_ids d Hd).
  - intros id' row' Hrow'. rewrite Hr. by eapply wf_roots.
Qed.

Lemma wf_register now f t v m i : preserves well_formed (register_project now f t v m i).
Proof.
  unfold register_project. cbn zeta. destruct (negb _); [auto with codito|].
  apply preserves_bind; [auto with codito|]. intros r d Hd. unfold bind, gets. cbn [id].
  destruct (_ || _) eqn:E; [done|]. apply orb_false_iff in E as [_ E].
  apply negb_false_iff, bool_decide_eq_true in E. cbn. apply wf_put_project; cbn; [done|done|].
  intros id' row' Hrow' Hr. by destruct (E id' row' Hrow').
Qed.

Lemma wf_put_operation d id o :
  well_formed d -> (forall p, op_project_id o = Some p -> is_Some (projects d !! p)) ->
  well_formed (on_operations <[id := o]> d).
Proof.
  intros [H1 H2 H3 H4] Ho. split; cbn; [done..| |done].
  intros id' o' p [[<- <-]|[_ Ho']]%lookup_insert_Some Hp; [by apply Ho|by eapply H3].
Qed.

Lemma wf_map_operations f : (forall o, op_project_id (f o) = op_project_id o) ->
  preserves well_formed (modify (on_operations (fmap f))).
Proof.
  intros Hf d [H1 H2 H3 H4]. split; cbn; [done..| |done].
  intros id o p Ho Hp. apply lookup_fmap_Some in Ho as (o0 & <- & Ho0). rewrite Hf in Hp. by eapply H3.
Qed.

Lemma wf_record now r : preserves well_formed (record_received now r).
Proof.
  intros d Hd. unfold record_received, bind, gets. cbn [id].
  destruct (operations d !! rc_operation_id r) as [row|] eqn:Ho.
  - destruct (_ || _); [done|]. unfold when. destruct (op_connection_epoch row <? _)%Z; [|done]. cbn.
    apply wf_put_operation; [done|]. intros p Hp. by eapply wf_operations.
  - destruct (references_project d _) eqn:E; [|done]. cbn. apply wf_put_operation; [done|].
    intros p Hp. cbn in Hp. rewrite Hp in E. by apply bool_decide_eq_true in E.
Qed.

Lemma wf_transition now id s r : preserves well_formed (transition_operation now id s r).
Proof.
  intros d Hd. unfold transition_operation, bind, gets. destruct (operations d !! id) as [row|] eqn:Ho; [|done].
  destruct (_ && _); [done|]. apply wf_put_operation; [done|]. intros p Hp. by eapply wf_operations.
Qed.

Lemma wf_ack now a : preserves well_formed (acknowledge_terminal now a).
Proof.
  unfold acknowledge_terminal. preserves_steps. apply wf_map_operations.
  intros o. by destruct (ack_matches a o).
Qed.

Lemma wf_put_idempotency now p c k dg s r b : preserves well_formed (put_idempotency now p c k dg s r b).
Proof.
  intros d Hd. unfold put_idempotency, bind, gets. cbn [id].
  assert (Hput : forall row, is_Some (projects d !! p) -> well_formed (on_idempotency <[(p, c, k) := row]> d)).
  { intros row Hp. destruct Hd as [H1 H2 H3 H4]. split; cbn; [done..|].
    intros p' c' k' row' [[[= <- <- <-] _]|[_ Hr]]%lookup_insert_Some; [done|by eapply H4]. }
  destruct (idempotency d !! (p, c, k)) as [row|] eqn:E.
  - destruct (_ || _); [done|]. apply Hput. by eapply wf_idempotency.
  - case_bool_decide; [|done]. by apply Hput.
Qed.

Lemma wf_delete_idempotency p c k : preserves well_formed (delete_idempotency p c k).
Proof.
  intros d [H1 H2 H3 H4]. split; cbn; [done..|]. intros p' c' k' row [_ Hr]%lookup_delete_Some. by eapply H4.
Qed.

(** Renaming one project and the operations that refer to it. *)
Lemma wf_rename now prev cur d row :
  wf_rotating d -> projects d !! prev = Some row -> (cur = prev \/ projects d !! cur = None) ->
  wf_rotating (on_projects (fun m => <[cur := with_project_id now cur row]> (delete prev m))
    (on_operations (fmap (fun o => if bool_decide (op_project_id o = Some prev)
       then op_with_project (Some cur) o else o)) d)).
Proof.
  intros [H1 H2 H3 _] Hrow Hcur. cbn in *.
  assert (Hk : forall i r, <[cur := with_project_id now cur row]> (delete prev (projects d)) !! i = Some r ->
    exists j r', projects d !! j = Some r' /\ root (pr_project r) = root (pr_project r') /\
      project_id (pr_project r) = i /\ i = (if decide (j = prev) then cur else j)).
  { intros i r [[<- <-]|[Hne Hr]]%lookup_insert_Some.
    - exists prev, row. rewrite decide_True by done. done.
    - apply lookup_delete_Some in Hr as [Hp Hr]. exists i, r. rewrite decide_False by done.
      split_and!; [done..|by apply H1|done]. }
  split; cbn.
  - intros i r (j & r' & _ & _ & ? & _)%Hk. done.
  - intros i i' r r' (j & q & Hj & Hr & _ & ->)%Hk (j' & q' & Hj' & Hr' & _ & ->)%Hk E.
    rewrite Hr, Hr' in E. by rewrite (H2 _ _ _ _ Hj Hj' E).
  - intros i o p Ho Hp. apply lookup_fmap_Some in Ho as (o0 & <- & Ho0). case_bool_decide as E.
    + cbn in Hp. injection Hp as <-. rewrite lookup_insert_eq. done.
    + rewrite lookup_insert_is_Some'. right. rewrite lookup_delete_ne by congruence. by eapply H3.
  - intros p c k r Hr. done.
Qed.

Lemma wf_rotate_one now prev cur : preserves wf_rotating (rotate_one now prev cur).
Proof.
  intros d Hd. unfold rotate_one, bind, modify, gets. cbn [projects on_operations].
  destruct (projects d !! prev) as [row|] eqn:Hrow.
  - destruct (_ && _) eqn:E; cbn.
    + destruct Hd as [H1 H2 H3 _]. cbn in *. split; cbn; [done..| |done].
      intros i o p Ho Hp. apply lookup_fmap_Some in Ho as (o0 & <- & Ho0).
      apply andb_true_iff in E as [E _]. apply bool_decide_eq_true in E.
      case_bool_decide; [cbn in Hp; by injection Hp as <-|by eapply H3].
    + apply wf_rename; [done..|]. apply andb_false_iff in E as [E|E].
      * right. apply bool_decide_eq_false, eq_None_not_Some in E. done.
      * left. by apply negb_false_iff, bool_decide_eq_true in E.
  - destruct Hd as [H1 H2 H3 _]. cbn in *. split; cbn; [done..| |done].
    intros i o p Ho Hp. apply lookup_fmap_Some in Ho as (o0 & <- & Ho0). case_bool_decide as E.
    + destruct (H3 _ _ _ Ho0 E) as [? ?]. congruence.
    + by eapply H3.
Qed.

Lemma preserves_for_each {A} I (l : list A) body : (forall a, preserves I (body a)) -> preserves I (for_each l body).
Proof.
  intros H. induction l as [|a l IH]; [by intros d Hd|]. apply preserves_bind; [apply H|done].
Qed.

Lemma wf_rotate now f : preserves well_formed (rotate_project_ids now f).
Proof.
  unfold rotate_project_ids. apply preserves_bind; [auto with codito|]. intros ps.
  case_bool_decide; [auto with codito|]. intros d Hd. unfold transaction, bind.
  assert (wf_rotating d) as Hr.
  { destruct Hd as [H1 H2 H3 H4]. split; cbn; done. }
  pose proof (preserves_for_each wf_rotating (map (fun kv => (kv.1, f kv.1)) (map_to_list ps))
    (fun pc => rotate_one now pc.1 pc.2) (fun pc => wf_rotate_one now pc.1 pc.2) d Hr) as Hl.
  destruct (for_each _ _ d) as [[a|e] d']; [|done]. cbn in *. exact Hl.
Qed.
#[export] Hint Resolve wf_register wf_record wf_transition wf_ack wf_rotate wf_put_idempotency
  wf_delete_idempotency : codito.

Lemma wf_dismiss now i e : preserves well_formed (dismiss_project_registration_request now i e).
Proof. unfold dismiss_project_registration_request. preserves_steps. Qed.
#[export] Hint Resolve wf_dismiss : codito.

Lemma wf_exec now c : preserves well_formed (exec now c).
Proof.
  destruct c; cbn [exec]; unfold set_project_mode, set_project_title, set_project_enabled, set_setting,
    save_read_permission, save_shell_permission, save_screen_permission, revoke_read_permissions,
    revoke_shell_permissions, revoke_screen_permissions, revoke_permission,
    create_project_registration_request, next_project_registration_request, expire_requests,
    complete_project_registration_request, next_connection_epoch, set_connection_epoch; cbn zeta;
    preserves_steps; by apply wf_update_project.
Qed.

(** The journal stays well formed through every history: each project row is
    stored under its own identifier, no two projects share a root, and every
    operation and idempotency row refers to an existing project, also after
    identifier rotations that fail half way. *)
Theorem journal_well_formed calls : well_formed (history empty_db calls).
Proof.
  assert (forall d, well_formed d -> well_formed (history d calls)) as H.
  { unfold history. induction calls as [|[t c] calls IH]; intros d Hd; cbn; [done|].
    apply IH. by apply wf_exec. }
  apply H. by split.
Qed.

(** ** Idempotency keys *)

(** C38. An idempotency key is bound to the first request that uses it.  Once a
    row exists, a [put] with another request digest or another authorization
    binding is refused and changes nothing, a [get] with another binding is
    refused, and an accepted [put] is what the next [get] of the same binding
    returns; only an empty result object comes back as no result. *)
Theorem idempotency_key_is_bound now p c k dg s r b d :
  match idempotency d !! (p, c, k) with
  | Some row =>
      if bool_decide (id_request_digest row = dg) && bool_decide (id_binding row = b)
      then exists d', put_idempotency now p c k dg s r b d = (Ok tt, d') /\
                      get_idempotency p c k b d' = (Ok (Some (dg, s, truthy r)), d')
      else put_idempotency now p c k dg s r b d = (Err (AgentError "idempotency_conflict" false []), d) /\
           (id_binding row <> b ->
            get_idempotency p c k b d = (Err (AgentError "idempotency_conflict" false []), d))
  | None =>
      get_idempotency p c k b d = (Ok None, d) /\
      (is_Some (projects d !! p) -> exists d', put_idempotency now p c k dg s r b d = (Ok tt, d') /\
         get_idempotency p c k b d' = (Ok (Some (dg, s, truthy r)), d') /\
         forall b', b' <> b ->
           get_idempotency p c k b' d' = (Err (AgentError "idempotency_conflict" false []), d'))
  end.
Proof.
  unfold put_idempotency, get_idempotency, bind, gets, modify. cbn [id].
  destruct (idempotency d !! (p, c, k)) as [row|] eqn:E.
  - case_bool_decide as Hd; case_bool_decide as Hb; cbn [negb orb andb].
    + eexists. split; [reflexivity|]. cbn. rewrite lookup_insert_eq. cbn. rewrite Hb.
      rewrite bool_decide_refl. cbn. by rewrite Hd.
    + done.
    + split; [done|]. intros Hn. by destruct Hn.
    + done.
  - split; [done|]. intros Hp. rewrite bool_decide_eq_true_2 by done. cbn [negb].
    eexists. split; [reflexivity|]. cbn. rewrite lookup_insert_eq. cbn. rewrite bool_decide_refl.
    split; [done|]. intros b' Hb'. by rewrite bool_decide_eq_false_2.
Qed.

(** ** Connection epochs *)

Lemma ascii_text s : map Ascii.ascii_of_N (lit s) = String.list_ascii_of_string s.
Proof.
  unfold lit. rewrite map_map. rewrite <-(map_id (String.list_ascii_of_string s)) at 2.
  apply map_ext. intros a. apply Ascii.ascii_N_embedding.
Qed.

Lemma int_of_str_of_Z z : int_of_str (str_of_Z z) = Some z.
Proof.
  unfold int_of_str, str_of_Z. rewrite ascii_text, String.string_of_list_ascii_of_string.
  pose proof (DecimalZ.of_to z) as Hz.
  rewrite DecimalString.NilZero.isi; [cbn; by rewrite Hz| |];
    intros E; rewrite E in Hz; cbn in Hz; by subst z.
Qed.

(** Connection epochs only grow: while the stored value is a number, each
    call hands out the number after it and stores it, so that two calls never
    return the same epoch; after [set_connection_epoch v] the next one is
    [v + 1]. *)
Theorem connection_epochs_increase d v d' :
  next_connection_epoch d = (Ok v, d') ->
  next_connection_epoch d' = (Ok (v + 1)%Z, on_settings <[EPOCH_KEY := str_of_Z (v + 1)]> d') /\
  (forall e, (1 <= e)%Z -> exists d'', set_connection_epoch e d = (Ok tt, d'') /\
     (next_connection_epoch d'').1 = Ok (e + 1)%Z).
Proof.
  intros H. split.
  - assert (settings d' !! EPOCH_KEY = Some (str_of_Z v)) as Hs.
    { unfold next_connection_epoch, bind, gets, modify, ret, raise in H.
      destruct (settings d !! EPOCH_KEY) as [t|]; [destruct (int_of_str t)|];
        simplify_eq; apply lookup_insert_eq. }
    unfold next_connection_epoch, bind, gets, modify, ret. by rewrite Hs, int_of_str_of_Z.
  - intros e He. unfold set_connection_epoch. rewrite (proj2 (Z.ltb_ge _ _) He).
    eexists. split; [reflexivity|]. unfold next_connection_epoch, bind, gets, modify, ret.
    cbn [settings on_settings]. by rewrite lookup_insert_eq, int_of_str_of_Z.
Qed.

Lemma connection_epochs_increase_witness :
  (next_connection_epoch (next_connection_epoch empty_db).2).1 = Ok 2%Z.
Proof.
  rewrite (proj1 (connection_epochs_increase empty_db 1%Z (next_connection_epoch empty_db).2
    ltac:(vm_compute; reflexivity))). reflexivity.
Defined.

(** ** The audit copy of a request *)

(** Every item of every object of a value. *)
Fixpoint json_items (v : json) : list (str * json) :=
  match v with
  | JList l => concat (map json_items l)
  | JObj l => l ++ concat (map (fun kv => json_items kv.2) l)
  | _ => []
  end.

Lemma dict_set_items (P : str * json -> Prop) k v l :
  P (k, v) -> Forall P l -> Forall P (dict_set k v l).
Proof.
  intros Hv. induction 1 as [|[k' v'] l Hx Hl IH]; cbn; [by constructor|].
  case_decide; by constructor.
Qed.

Lemma dict_of_items (P : str * json -> Prop) l : Forall P l -> Forall P (dict_of l).
Proof.
  unfold dict_of. assert (Forall P []) as H0 by done. revert H0.
  generalize (@nil (str * json)). induction l as [|[k v] l IH]; intros acc Ha Hl; [done|].
  inversion_clear Hl. cbn. apply IH; [|done]. by apply dict_set_items.
Qed.

(** The audit copy of a request keeps no credential: wherever a key that
    reads as one of the secret names (whatever its case, with dashes or
    underscores) occurs in it, at any depth, its value is the redaction mark. *)
Theorem activity_value_redacted depth v :
  Forall (fun kv => secret_key kv.1 = true -> kv.2 = REDACTED_VALUE)
    (json_items (_activity_safe_value depth v)).
Proof.
  revert depth. induction v as [| | |s|l IH|l IH] using json_ind'; intros depth; cbn [_activity_safe_value];
    (destruct (12 <? depth)%nat; [done|]); try done; cbn [json_items].
  - apply Forall_concat_map, Forall_map. eapply Forall_impl; [exact IH|]. intros x Hx. apply Hx.
  - set (Q := fun kv : str * json => (secret_key kv.1 = true -> kv.2 = REDACTED_VALUE) /\
      Forall (fun kv => secret_key kv.1 = true -> kv.2 = REDACTED_VALUE) (json_items kv.2)).
    assert (Forall Q (dict_of (map (fun kv => (kv.1,
      if secret_key kv.1 then REDACTED_VALUE else _activity_safe_value (S depth) kv.2)) l))) as HQ.
    { apply dict_of_items, Forall_map. eapply Forall_impl; [exact IH|]. intros [k x] Hx. cbn.
      unfold Q; cbn. destruct (secret_key k); split; done || apply Hx. }
    apply Forall_app. split; [|apply Forall_concat_map];
      (eapply Forall_impl; [exact HQ|]; by intros kv []).
Qed.
