(* ===== verification/Json.v ===== *)
(** * JSON text: json.dumps and the action digest (protocol digest.py)

    [json.dumps(value, separators=(",", ":"), sort_keys=True)] with and without
    [ensure_ascii], as every digest and every durable record of the sources
    writes it.  Numbers are integers. *)
From S2P Require Import Prelude Utf8 PyStr Models Database.
From stdpp Require Import sorting.
#[local] Notation join := PyStr.join.

Open Scope N_scope.

(** [f"{n:04x}"] *)
Definition hex4 (n : N) : str :=
  let d k := let x := (n / k) mod 16 in if x <? 10 then 48 + x else 87 + x in
  [d 4096; d 256; d 16; d 1].

Definition QUOTE : N := 34.

(** The two-character escapes of a JSON string. *)
Definition short_escape (c : N) : option N :=
  match c with
  | 34 => Some 34 | 92 => Some 92 | 10 => Some 110 | 13 => Some 114 | 9 => Some 116
  | 12 => Some 102 | 8 => Some 98
  | _ => None
  end.

Definition escape_char (ensure_ascii : bool) (c : N) : str :=
  match short_escape c with
  | Some e => [BACKSLASH; e]
  | None =>
      if c <? 32 then [BACKSLASH; 117] ++ hex4 c
      else if negb ensure_ascii || (c <? 127) then [c]
      else if c <? 65536 then [BACKSLASH; 117] ++ hex4 c
      else let v := c - 65536 in
           [BACKSLASH; 117] ++ hex4 (55296 + v / 1024) ++ [BACKSLASH; 117] ++ hex4 (56320 + v mod 1024)
  end.

Definition dump_string (ensure_ascii : bool) (s : str) : str :=
  QUOTE :: concat (map (escape_char ensure_ascii) s) ++ [QUOTE].

Definition COMMA : N := 44.

(** The order of [sort_keys]. *)
Definition key_le {A} (x y : str * A) : Prop := str_le x.1 y.1.
#[export] Instance key_le_dec {A} : RelDecision (@key_le A).
Proof. intros x y. unfold key_le. apply _. Defined.

(** Keys sorted at every level. *)
Fixpoint sort_keys (v : json) : json :=
  match v with
  | JList l => JList (map sort_keys l)
  | JObj l => JObj (merge_sort key_le (map (fun kv => (kv.1, sort_keys kv.2)) l))
  | _ => v
  end.

(** The text of a value, items in the order given. *)
Fixpoint print_json (ascii : bool) (v : json) : str :=
  match v with
  | JNull => lit "null"
  | JBool true => lit "true"
  | JBool false => lit "false"
  | JNum z => str_of_Z z
  | JStr s => dump_string ascii s
  | JList l => [91] ++ join [COMMA] (map (print_json ascii) l) ++ [93]
  | JObj l => [123] ++ join [COMMA] (map (fun kv => dump_string ascii kv.1 ++ [COLON] ++ print_json ascii kv.2) l) ++ [125]
  end.

Definition dumps (ensure_ascii : bool) (v : json) : str := print_json ensure_ascii (sort_keys v).

(** [json.dumps(...).encode()] of the agent (ASCII only). *)
Definition dumps_ascii (v : json) : bytes := map Z.of_N (dumps true v).

(** *** digest.py *)

Definition _DOMAIN_SEPARATOR : bytes := map Z.of_N (lit "codito-action-digest-v1") ++ [0%Z].

(** [None]: a lone surrogate, [str.encode] raises. *)
Definition canonical_action_bytes (v : json) : option bytes := utf8_encode (dumps false v).

Definition compute_action_digest (sha256_hex : bytes -> str) (v : json) : option str :=
  (fun b => sha256_hex (_DOMAIN_SEPARATOR ++ b)) <$> canonical_action_bytes v.

Example dumps_sorts :
  dumps true (JObj [(lit "b", JNum (-12)); (lit "a", JList [JStr (lit "x") ; JNull])]) =
  lit "{" ++ [34] ++ lit "a" ++ [34] ++ lit ":[" ++ [34] ++ lit "x" ++ [34] ++ lit ",null]," ++ [34] ++
  lit "b" ++ [34] ++ lit ":-12}".
Proof. reflexivity. Qed.
