(* ===== verification/JsonInjective.v ===== *)
(** * Canonical JSON determines the value

    The text of a value can be read back in one way only, so equal canonical
    bytes come from equal values up to the order of keys: what a digest was
    approved for is what it will be checked against. *)
From S2P Require Import Prelude Utf8 PyStr Models Database Json.
From stdpp Require Import sorting.
#[local] Notation join := PyStr.join.

Open Scope N_scope.

(** ** Strings *)

(** The value of a hexadecimal digit, lower case. *)
Definition hex_value (c : N) : N := if c <? 97 then c - 48 else c - 87.

(** Reads one escaped character. *)
Definition unescape (s : str) : option (N * str) :=
  match s with
  | 92 :: 117 :: a :: b :: c :: d :: r =>
      Some (((hex_value a * 16 + hex_value b) * 16 + hex_value c) * 16 + hex_value d, r)
  | 92 :: e :: r =>
      match e with
      | 34 => Some (34, r) | 92 => Some (92, r) | 110 => Some (10, r) | 114 => Some (13, r)
      | 116 => Some (9, r) | 102 => Some (12, r) | 98 => Some (8, r)
      | _ => None
      end
  | c :: r => Some (c, r)
  | [] => None
  end.

Lemma short_escape_cases c e : short_escape c = Some e -> c ∈ [34; 92; 10; 13; 9; 12; 8].
Proof.
  intros H. rewrite !elem_of_cons. unfold short_escape in H.
  destruct c as [|p]; [done|]. do 7 (destruct p as [p|p|]; try discriminate H; try tauto).
Qed.

Lemma unescape_plain c r : c <> 92 -> unescape (c :: r) = Some (c, r).
Proof.
  intros Hc. unfold unescape. destruct c as [|p]; [done|].
  do 7 (destruct p as [p|p|]; try reflexivity). congruence.
Qed.

Lemma control_cases c : c < 32 -> c ∈ map N.of_nat (seq 0 32).
Proof. intros H. apply list_elem_of_fmap. exists (N.to_nat c). split; [lia|]. apply elem_of_seq. lia. Qed.

Lemma unescape_escape c r : unescape (escape_char false c ++ r) = Some (c, r).
Proof.
  unfold escape_char. destruct (short_escape c) as [e|] eqn:He.
  - pose proof (short_escape_cases c e He) as Hc. revert He.
    repeat (apply elem_of_cons in Hc as [->|Hc]; [by intros [= <-]|]). by apply not_elem_of_nil in Hc.
  - destruct (c <? 32) eqn:Hlt.
    + apply N.ltb_lt, control_cases in Hlt. clear He. cbn in Hlt.
      repeat (apply elem_of_cons in Hlt as [->|Hlt]; [reflexivity|]). by apply not_elem_of_nil in Hlt.
    + cbn [negb orb app]. apply unescape_plain. intros ->. discriminate He.
Qed.

(** No escaped character starts like the closing quote. *)
Lemma escape_not_quote c r r' : escape_char false c ++ r <> QUOTE :: r'.
Proof.
  intros H. pose proof (unescape_escape c r) as E. rewrite H, unescape_plain in E by done.
  injection E as <- _. discriminate H.
Qed.

Lemma string_inj s s' r r' : dump_string false s ++ r = dump_string false s' ++ r' -> s = s' /\ r = r'.
Proof.
  unfold dump_string. intros H. cbn [app] in H. injection H as H. rewrite <-!app_assoc in H. cbn [app] in H.
  revert s' H. induction s as [|c s IH]; intros [|c' s']; cbn [map concat app]; rewrite <- ?app_assoc.
  - by intros [= <-].
  - intros H. by apply eq_sym, escape_not_quote in H.
  - intros H. by apply escape_not_quote in H.
  - intros H. apply (f_equal unescape) in H. rewrite !unescape_escape in H. injection H as -> H.
    apply IH in H as [-> ->]. done.
Qed.

(** ** Numbers *)

Definition num_char (c : N) : bool := (c =? 45) || (48 <=? c) && (c <=? 57).

(** What follows does not continue a number. *)
Definition stop (r : str) : Prop := match r with c :: _ => num_char c = false | [] => True end.

Lemma digits_num d : Forall (fun c => num_char c = true) (lit (DecimalString.NilEmpty.string_of_uint d)).
Proof. induction d; cbn; [constructor|..]; (constructor; [reflexivity|exact IHd]). Qed.

Lemma number_chars z : Forall (fun c => num_char c = true) (str_of_Z z).
Proof.
  unfold str_of_Z. destruct (Z.to_int z) as [d|d]; cbn.
  - destruct d; cbn [DecimalString.NilZero.string_of_uint]; [by repeat constructor|..]; apply digits_num.
  - constructor; [reflexivity|].
    destruct d; cbn [DecimalString.NilZero.string_of_uint]; [by repeat constructor|..]; apply digits_num.
Qed.

Lemma span_inj (l l' r r' : str) : Forall (fun c => num_char c = true) l -> Forall (fun c => num_char c = true) l' ->
  stop r -> stop r' -> l ++ r = l' ++ r' -> l = l' /\ r = r'.
Proof.
  intros Hl. revert l'. induction Hl as [|c l Hc Hl IH]; intros [|c' l'] Hl' Hr Hr' H; cbn [app] in H.
  - by split.
  - apply Forall_cons in Hl' as [Hc' _]. subst r. cbn in Hr. congruence.
  - subst r'. cbn in Hr'. congruence.
  - apply Forall_cons in Hl' as [_ Hl']. injection H as -> H. destruct (IH l' Hl' Hr Hr' H) as [-> ->]. done.
Qed.

Lemma number_inj z z' r r' : stop r -> stop r' -> str_of_Z z ++ r = str_of_Z z' ++ r' -> z = z' /\ r = r'.
Proof.
  intros Hr Hr' H. apply span_inj in H as [H ->]; [|apply number_chars|apply number_chars|done|done].
  split; [|done]. apply (f_equal int_of_str) in H. rewrite !int_of_str_of_Z in H. by injection H.
Qed.

(** ** Separated items *)

(** An item can be told from what follows it. *)
Definition item_inj {A} (f : A -> str) (a : A) : Prop :=
  forall a' r r', stop r -> stop r' -> f a ++ r = f a' ++ r' -> a = a' /\ r = r'.

Section items.
  Context {A : Type} (f : A -> str) (close : N).
  Context (Hclose : num_char close = false) (Hcomma : close <> COMMA).
  (** Items are not empty and do not begin with the closing bracket. *)
  Context (Hopen : forall a, exists c t, f a = c :: t /\ c <> close).

Lemma item_not_close a r r' : f a ++ r <> close :: r'.
Proof using Hopen. destruct (Hopen a) as (c & t & -> & Hc). intros H. by injection H. Qed.

Lemma join_items_cons a l r : join [COMMA] (map f (a :: l)) ++ r =
  f a ++ match l with [] => r | _ => COMMA :: join [COMMA] (map f l) ++ r end.
Proof using. destruct l as [|b l]; cbn [map join]; [done|]. by rewrite <-!app_assoc. Qed.

Lemma items_inj l : Forall (item_inj f) l -> forall l' r r',
  join [COMMA] (map f l) ++ close :: r = join [COMMA] (map f l') ++ close :: r' -> l = l' /\ r = r'.
Proof using Hclose Hcomma Hopen.
  induction 1 as [|a l Ha Hl IH]; intros [|a' l'] r r' H; rewrite ?join_items_cons in H.
  - by injection H as ->.
  - cbn in H. by apply eq_sym, item_not_close in H.
  - cbn in H. by apply item_not_close in H.
  - assert (forall l r, stop (match l with [] => close :: r | _ => COMMA :: join [COMMA] (map f l) ++ close :: r end)) as Hs
      by (intros [|? ?] ?; done).
    apply Ha in H as [-> H]; [|apply Hs|apply Hs].
    destruct l as [|b l], l' as [|b' l'].
    + by injection H as ->.
    + injection H as H _. done.
    + injection H as H _. congruence.
    + assert (join [COMMA] (map f (b :: l)) ++ close :: r = join [COMMA] (map f (b' :: l')) ++ close :: r') as H'
        by (by injection H).
      apply IH in H' as [-> ->]. done.
Qed.
End items.

(** ** Values *)

Definition field (kv : str * json) : str := dump_string false kv.1 ++ [COLON] ++ print_json false kv.2.

Lemma number_head z : exists c t, str_of_Z z = c :: t /\ num_char c = true.
Proof.
  pose proof (number_chars z) as H. destruct (str_of_Z z) as [|c t] eqn:E.
  - pose proof (int_of_str_of_Z z) as H'. by rewrite E in H'.
  - exists c, t. split; [done|]. by inversion H.
Qed.

(** The first character of a value tells its kind. *)
Definition kind (v : json) : N :=
  match v with
  | JNull => 110 | JBool true => 116 | JBool false => 102 | JNum _ => 0 | JStr _ => QUOTE
  | JList _ => 91 | JObj _ => 123
  end.

Lemma print_head v : exists c t, print_json false v = c :: t /\ (if num_char c then 0 else c) = kind v.
Proof.
  destruct v as [|[]|z|s|l|l]; try (by eexists _, _).
  destruct (number_head z) as (c & t & H & Hc). exists c, t. split; [exact H|]. by rewrite Hc.
Qed.

Lemma print_kind v v' r r' : print_json false v ++ r = print_json false v' ++ r' -> kind v = kind v'.
Proof.
  destruct (print_head v) as (c & t & -> & <-), (print_head v') as (c' & t' & -> & <-).
  intros H. injection H as -> _. done.
Qed.

Lemma print_open v c : c = 93 \/ c = 125 -> exists d t, print_json false v = d :: t /\ d <> c.
Proof.
  intros Hc. destruct (print_head v) as (d & t & H & Hk). exists d, t. split; [exact H|].
  intros ->. destruct v as [|[]|z|s|l|l]; cbn in Hk; destruct Hc as [-> | ->]; discriminate Hk.
Qed.

Lemma print_inj v : item_inj (print_json false) v.
Proof.
  induction v as [|b|z|s|l IH|l IH] using json_ind'; intros v' r r' Hr Hr' H;
    pose proof (print_kind _ _ _ _ H) as Hk.
  - destruct v' as [|[]|?|?|?|?]; try discriminate Hk. by injection H.
  - destruct b, v' as [|[]|?|?|?|?]; try discriminate Hk; by injection H.
  - destruct v' as [|[]|?|?|?|?]; try discriminate Hk. apply number_inj in H as [-> ->]; done.
  - destruct v' as [|[]|?|?|?|?]; try discriminate Hk. apply string_inj in H as [-> ->]; done.
  - destruct v' as [|[]|?|?|l'|?]; try discriminate Hk.
    cbn [print_json app] in H. injection H as H. rewrite <-!app_assoc in H.
    apply (items_inj _ 93) in H as [-> ->]; try done. intros a. apply print_open. by left.
  - destruct v' as [|[]|?|?|?|l']; try discriminate Hk.
    cbn [print_json app] in H. injection H as H. rewrite <-!app_assoc in H.
    apply (items_inj field 125) in H as [-> ->]; try done; [by intros a; eexists _, _|].
    eapply Forall_impl; [exact IH|]. intros [k v] Hv [k' v'] s s' Hs Hs' E. unfold field in E. cbn [fst snd] in *.
    rewrite <-!app_assoc in E. apply string_inj in E as [-> E]. cbn [app] in E. injection E as E.
    apply Hv in E as [-> ->]; done.
Qed.

Lemma canonical_inj v v' b :
  canonical_action_bytes v = Some b -> canonical_action_bytes v' = Some b -> sort_keys v = sort_keys v'.
Proof.
  unfold canonical_action_bytes, dumps. intros Hb Hb'. pose proof (utf8_encode_inj _ _ _ Hb Hb') as H.
  apply (f_equal (fun s => s ++ [])) in H. by apply print_inj in H as [H _].
Qed.

(** The digest of a list of texts determines them. *)
Lemma digest_of_texts_inj (sha : bytes -> str) l l' k :
  (forall a b, sha a = sha b -> a = b) ->
  compute_action_digest sha (JList (map JStr l)) = Some k ->
  compute_action_digest sha (JList (map JStr l')) = Some k -> l = l'.
Proof.
  intros Hsha. unfold compute_action_digest.
  destruct (canonical_action_bytes (JList (map JStr l))) as [b|] eqn:Hb; [|done].
  destruct (canonical_action_bytes (JList (map JStr l'))) as [b'|] eqn:Hb'; [|done].
  generalize _DOMAIN_SEPARATOR. intros dom H1 H2. cbn in H1, H2.
  assert (sha (dom ++ b) = sha (dom ++ b')) as H%Hsha%app_inv_head by congruence. subst b'.
  pose proof (canonical_inj _ _ _ Hb Hb') as H. cbn in H. injection H as H. rewrite !map_map in H. cbn in H.
  clear -H. revert l' H. induction l as [|x l IH]; intros [|x' l']; try done. cbn. intros [= -> H]. by rewrite (IH l' H).
Qed.

(** C27. Two actions have the same canonical bytes exactly when they are the same
    value up to the order of object keys, and the action digest is the SHA-256
    of those bytes behind the domain separator, for every action whose texts can
    be encoded at all: a digest never stands for two different actions unless
    SHA-256 itself collides on them. *)
Theorem canonical_action_bytes_injective (sha256_hex : bytes -> str) v v' b b' :
  canonical_action_bytes v = Some b -> canonical_action_bytes v' = Some b' ->
  (b = b' <-> sort_keys v = sort_keys v') /\
  compute_action_digest sha256_hex v = Some (sha256_hex (_DOMAIN_SEPARATOR ++ b)).
Proof.
  intros Hb Hb'. split; [|unfold compute_action_digest; by rewrite Hb].
  split; [intros <-; by apply (canonical_inj _ _ b)|].
  unfold canonical_action_bytes, dumps in *. intros E. rewrite E in Hb. congruence.
Qed.

Definition sample_action : json := JObj [(lit "b", JNum (-12)); (lit "a", JList [JStr [233]; JNull])].
Definition sample_action' : json := JObj [(lit "a", JList [JStr [233]; JNull]); (lit "b", JNum (-12))].

Lemma canonical_action_bytes_injective_witness :
  canonical_action_bytes sample_action = canonical_action_bytes sample_action' /\ sample_action <> sample_action'.
Proof.
  split; [|discriminate].
  assert (canonical_action_bytes sample_action = Some (default [] (canonical_action_bytes sample_action))) as H
    by (vm_compute; reflexivity).
  assert (canonical_action_bytes sample_action' = Some (default [] (canonical_action_bytes sample_action'))) as H'
    by (vm_compute; reflexivity).
  etrans; [exact H|]. etrans; [|symmetry; exact H'].
  apply (f_equal Some), (canonical_action_bytes_injective (fun b => []) _ _ _ _ H H'). vm_compute. reflexivity.
Defined.
