(* ===== verification/Envelope.v ===== *)
(** * The device tunnel envelope: codito_protocol/envelope.py

    The messages of the tunnel with the validators of pydantic, the text of a
    timestamp, the JSON of an error, and the durable form of a tool result
    (codito_protocol/screenshot.py).  A message arrives as the record of its
    fields; the schemas of the tool inputs are a parameter. *)
From S2P Require Import Prelude Utf8 PyStr Models Paths Database Json.

Open Scope Z_scope.

(** ** Timestamps

    A [datetime] in UTC is its number of microseconds since the epoch. *)

Definition SECOND : Z := 1000000.
Definition DAY : Z := 86400.

(** The proleptic Gregorian date of a day number (day 0 is 1970-01-01). *)
Definition civil_of_days (days : Z) : Z * Z * Z :=
  let z := days + 719468 in
  let era := z / 146097 in
  let doe := z mod 146097 in
  let yoe := (doe - doe / 1460 + doe / 36524 - doe / 146096) / 365 in
  let doy := doe - (365 * yoe + yoe / 4 - yoe / 100) in
  let mp := (5 * doy + 2) / 153 in
  let m := if mp <? 10 then mp + 3 else mp - 9 in
  (yoe + era * 400 + (if m <=? 2 then 1 else 0), m, doy - (153 * mp + 2) / 5 + 1).

(** [f"{n:0{width}}"] *)
Definition zfill (width : nat) (n : Z) : str :=
  let s := str_of_Z n in replicate (width - length s) 48%N ++ s.

(** [datetime.isoformat()] of a UTC time. *)
Definition isoformat (t : Z) : str :=
  let seconds := t / SECOND in
  let micro := t mod SECOND in
  let '(y, m, d) := civil_of_days (seconds / DAY) in
  let s := seconds mod DAY in
  zfill 4 y ++ lit "-" ++ zfill 2 m ++ lit "-" ++ zfill 2 d ++ lit "T" ++
  zfill 2 (s / 3600) ++ lit ":" ++ zfill 2 (s / 60 mod 60) ++ lit ":" ++ zfill 2 (s mod 60) ++
  (if micro =? 0 then [] else lit "." ++ zfill 6 micro) ++ lit "+00:00".

Example isoformat_now : isoformat 1735689599000042 = lit "2024-12-31T23:59:59.000042+00:00".
Proof. reflexivity. Qed.
Example isoformat_leap : isoformat 951782400000000 = lit "2000-02-29T00:00:00+00:00".
Proof. reflexivity. Qed.

(** ** Messages *)

Inductive MessageKind :=
| HELLO | WELCOME | HEARTBEAT | HEARTBEAT_ACK | OPERATION | OPERATION_RECEIVED | OPERATION_STARTED
| OPERATION_PROGRESS | OPERATION_RESULT | OPERATION_CANCEL | TERMINAL_ACK | ERROR | GOODBYE.
#[export] Instance MessageKind_eq_dec : EqDecision MessageKind.
Proof. solve_decision. Defined.

Record TunnelBindings := {
  tb_account_id : str; tb_device_id : str; tb_link_id : option str; tb_grant_id : option str;
  tb_project_id : option str;
}.
#[export] Instance TunnelBindings_eq_dec : EqDecision TunnelBindings.
Proof. solve_decision. Defined.

Record TunnelEnvelope := {
  protocol_version : str; kind : MessageKind; message_id : str; correlation_id : option str;
  sequence : Z; connection_epoch : Z; sent_at : Z; deadline_at : option Z;
  bindings : TunnelBindings; action_digest : option str; payload : list (str * json);
}.

Definition PROTOCOL_VERSION : str := lit "1.0".

Definition operation_kinds : list MessageKind :=
  [OPERATION; OPERATION_RECEIVED; OPERATION_STARTED; OPERATION_PROGRESS; OPERATION_RESULT;
   OPERATION_CANCEL; TERMINAL_ACK].

Definition tool_names : list str :=
  [lit "project_read"; lit "project_apply_patch"; lit "project_shell"; lit "project_manage";
   lit "project_code"; lit "project_frontend"; lit "device_read"; lit "device_screenshot";
   lit "device_desktop"].

(** A field that may be [None]. *)
Definition opt_check {A} (check : A -> res A) (v : option A) : res (option A) :=
  match v with None => Ok None | Some a => r <-? check a ;; Ok (Some r) end.

Definition validate_bindings (b : TunnelBindings) : res TunnelBindings :=
  _validate_opaque_id (tb_account_id b) ;;? _validate_opaque_id (tb_device_id b) ;;?
  opt_check _validate_opaque_id (tb_link_id b) ;;? opt_check _validate_opaque_id (tb_grant_id b) ;;?
  opt_check _validate_opaque_id (tb_project_id b) ;;? Ok b.

Section validators.
  Context (sha256_hex : bytes -> str) (valid_input : str -> json -> bool).

(** [OperationPayload.model_validate]: exactly the two fields, a known tool, an
    object as input, and the schema of the tool. *)
Definition operation_payload (p : list (str * json)) : res (str * list (str * json)) :=
  match obj_get (lit "tool_name") p, obj_get (lit "input") p with
  | Some (JStr tool_name), Some (JObj input) =>
      if (length p =? 2)%nat && bool_decide (tool_name ∈ tool_names) && valid_input tool_name (JObj input)
      then Ok (tool_name, input) else Err (ValueError "operation payload")
  | _, _ => Err (ValueError "operation payload")
  end.

Definition action_json (tool_name : str) (input : list (str * json)) : json :=
  JObj [(lit "tool_name", JStr tool_name); (lit "input", JObj input)].

Definition deadline_follows_send (e : TunnelEnvelope) : res unit :=
  guard_ (match deadline_at e with Some d => d <=? sent_at e | None => false end)
    (ValueError "deadline_at must be later than sent_at") ;;?
  (if bool_decide (kind e ∈ operation_kinds)
   then guard_ (bool_decide (correlation_id e = None) || bool_decide (correlation_id e = Some (message_id e)))
          (ValueError "operation lifecycle messages require a distinct correlation_id") ;;?
        guard_ (bool_decide (action_digest e = None))
          (ValueError "operation lifecycle messages require action_digest")
   else Ok tt) ;;?
  (if bool_decide (kind e = OPERATION)
   then operation <-? operation_payload (payload e) ;;
        guard_ (negb (bool_decide (action_digest e = compute_action_digest sha256_hex
                                     (action_json operation.1 operation.2))))
          (ValueError "action_digest must cover the complete operation payload")
   else Ok tt).

(** The validated message: the digest in lower case, everything else as given. *)
Definition TunnelEnvelope_validate (e : TunnelEnvelope) : res TunnelEnvelope :=
  guard_ (negb (bool_decide (protocol_version e = PROTOCOL_VERSION))) (ValueError "unsupported protocol version") ;;?
  _validate_opaque_id (message_id e) ;;? opt_check _validate_opaque_id (correlation_id e) ;;?
  guard_ (sequence e <? 0) (ValueError "sequence") ;;?
  guard_ (connection_epoch e <? 1) (ValueError "connection_epoch") ;;?
  validate_bindings (bindings e) ;;?
  digest <-? opt_check _validate_sha256 (action_digest e) ;;
  let e' := {| protocol_version := protocol_version e; kind := kind e; message_id := message_id e;
               correlation_id := correlation_id e; sequence := sequence e;
               connection_epoch := connection_epoch e; sent_at := sent_at e;
               deadline_at := deadline_at e; bindings := bindings e; action_digest := digest;
               payload := payload e |} in
  deadline_follows_send e' ;;? Ok e'.

(** ** Results *)

(** [durable_tool_result]: screenshot bytes are replaced by their digest.  [None]:
    the text has no UTF-8 form and [encode] raises. *)
Definition NOT_RETAINED : str :=
  lit "Screenshot bytes are not retained in the durable journal; request a new capture.".

Definition image_base64 (p : list (str * json)) : option str :=
  match obj_get (lit "result") p with
  | Some (JObj result) =>
      match obj_get (lit "image_base64") result with Some (JStr image) => Some image | _ => None end
  | _ => None
  end.

Definition durable_tool_result (p : list (str * json)) : option (list (str * json)) :=
  match image_base64 p with
  | None => Some p
  | Some image =>
      (fun raw => [(lit "ok", JBool false); (lit "text", JStr NOT_RETAINED);
        (lit "error", JObj [(lit "code", JStr (lit "outcome_unknown"));
           (lit "message", JStr NOT_RETAINED); (lit "retryable", JBool true);
           (lit "details", JObj [(lit "image_digest", JStr (sha256_hex raw))])])]) <$> utf8_encode image
  end.
End validators.

Definition error_code_value (c : ErrorCode) : str :=
  lit match c with
  | INVALID_REQUEST => "invalid_request" | UNAUTHENTICATED => "unauthenticated"
  | UNAUTHORIZED => "unauthorized" | RESOURCE_MISMATCH => "resource_mismatch"
  | SCOPE_MISSING => "scope_missing" | RATE_LIMITED => "rate_limited"
  | PROJECT_NOT_FOUND => "project_not_found" | DEVICE_OFFLINE => "device_offline"
  | DEVICE_REVOKED => "device_revoked" | LINK_REVOKED => "link_revoked" | QUEUE_FULL => "queue_full"
  | DEADLINE_EXCEEDED => "deadline_exceeded" | PATH_INVALID => "path_invalid"
  | PATH_OUTSIDE_PROJECT => "path_outside_project" | PATH_CHANGED => "path_changed"
  | REPARSE_POINT_FORBIDDEN => "reparse_point_forbidden"
  | HARDLINK_MUTATION_FORBIDDEN => "hardlink_mutation_forbidden" | FILE_NOT_FOUND => "file_not_found"
  | FILE_TOO_LARGE => "file_too_large" | ENCODING_UNSUPPORTED => "encoding_unsupported"
  | HASH_MISMATCH => "hash_mismatch" | PATCH_INVALID => "patch_invalid"
  | PATCH_CONFLICT => "patch_conflict" | IDEMPOTENCY_CONFLICT => "idempotency_conflict"
  | APPROVAL_REQUIRED => "approval_required" | APPROVAL_DENIED => "approval_denied"
  | APPROVAL_EXPIRED => "approval_expired" | SANDBOX_UNAVAILABLE => "sandbox_unavailable"
  | SHELL_NOT_FOUND => "shell_not_found" | SHELL_NOT_RUNNING => "shell_not_running"
  | OUTPUT_LIMIT_EXCEEDED => "output_limit_exceeded" | EC_OUTCOME_UNKNOWN => "outcome_unknown"
  | SCREENSHOT_UNAVAILABLE => "screenshot_unavailable" | DESKTOP_UNAVAILABLE => "desktop_unavailable"
  | EC_CANCELLED => "cancelled" | INTERNAL_ERROR => "internal_error"
  end.

(** [ToolFailure.model_dump(mode="json", exclude_none=True)] *)
Definition failure_json (f : ToolFailure) : list (str * json) :=
  let e := tf_error f in
  [(lit "ok", JBool (tf_ok f)); (lit "text", JStr (tf_text f));
   (lit "error", JObj ([(lit "code", JStr (error_code_value (te_code e)));
      (lit "message", JStr (te_message e)); (lit "retryable", JBool (te_retryable e))] ++
      (match te_correlation_id e with Some c => [(lit "correlation_id", JStr c)] | None => [] end) ++
      [(lit "details", te_details e)]))].

(** ** What a validated operation guarantees *)

Section validated.
  Context (sha256_hex : bytes -> str) (valid_input : str -> json -> bool).

(** The validated message has a correlation identifier of its own, a known tool
    whose input passed its schema, and the digest of exactly that action. *)
Record operation_valid (e : TunnelEnvelope) (tool_name : str) (input : list (str * json)) : Prop := {
  ov_correlation : exists c, correlation_id e = Some c /\ c <> message_id e;
  ov_tool : tool_name ∈ tool_names;
  ov_input : valid_input tool_name (JObj input) = true;
  ov_digest : exists d, action_digest e = Some d /\
              compute_action_digest sha256_hex (action_json tool_name input) = Some d;
  ov_deadline : forall d, deadline_at e = Some d -> sent_at e < d;
}.

Lemma operation_payload_ok p tool_name input : operation_payload valid_input p = Ok (tool_name, input) ->
  obj_get (lit "tool_name") p = Some (JStr tool_name) /\ obj_get (lit "input") p = Some (JObj input).
Proof. unfold operation_payload. intros H. repeat case_match; try done. by injection H as <- <-. Qed.

Lemma validate_operation raw e :
  TunnelEnvelope_validate sha256_hex valid_input raw = Ok e -> kind e = OPERATION ->
  exists tool_name input, operation_payload valid_input (payload e) = Ok (tool_name, input) /\
    operation_valid e tool_name input.
Proof.
  unfold TunnelEnvelope_validate. intros H Hk.
  do 7 apply rbind_ok in H as (? & _ & H). apply rbind_ok in H as (? & Hv & [= <-]).
  set (e := {| protocol_version := _ |}) in *. unfold deadline_follows_send in Hv.
  apply rbind_ok in Hv as (? & Hs & Hv). rewrite Hk in Hv.
  assert (forall d, deadline_at e = Some d -> sent_at e < d) as Hsend.
  { intros d Hd. rewrite Hd in Hs. unfold guard_ in Hs. destruct (d <=? sent_at e) eqn:E; [done|lia]. }
  clear Hs.
  apply rbind_ok in Hv as (? & Hc & Hv). cbn in Hc. apply rbind_ok in Hc as (? & Hc & Hd).
  apply rbind_ok in Hv as ([tool input] & Hp & Hg). unfold guard_ in *.
  destruct (_ || _) eqn:Ec in Hc; [done|]. destruct (bool_decide _) eqn:Ed in Hd; [done|].
  destruct (negb _) eqn:Eg in Hg; [done|]. reflect_bools. exists tool, input. split; [exact Hp|].
  unfold operation_payload in Hp. repeat case_match; try done. injection Hp as <- <-. reflect_bools.
  split; [|done|done| |].
  - subst e. cbn. destruct (correlation_id raw) as [c|]; [|done]. exists c. split; [done|]. congruence.
  - subst e. cbn in *. destruct x5 as [d|]; [|done]. eauto.
  - exact Hsend.
Qed.
End validated.
