(* ===== verification/Tunnel.v ===== *)
(** * The device end of the tunnel: websocket_client.py

    [DeviceWebSocketClient] as a state machine.  The receive loop and the tasks of
    the operations are cut at their awaits: every database call runs in a thread
    and every send may suspend, so between two segments of one coroutine any
    segment of another may run.  A segment is a computation of the state monad;
    [step] runs one segment, [run] a sequence of them, crashes of the process and
    calls of the rest of the agent to the journal included. *)
From S2P Require Import Prelude Utf8 PyStr Models Paths Database Json Envelope.

Open Scope Z_scope.

(** ** Which actions are never replayed *)

Definition is_str (v : option json) (s : string) : bool :=
  match v with Some (JStr t) => bool_decide (t = lit s) | _ => false end.

Definition _is_uncertain_native_action (tool_name : str) (tool_input : list (str * json)) : bool :=
  bool_decide (tool_name = lit "device_desktop") ||
  (bool_decide (tool_name = lit "project_shell") && is_str (obj_get (lit "action") tool_input) "start") ||
  (bool_decide (tool_name = lit "project_frontend") &&
   (is_str (obj_get (lit "operation") tool_input) "session_start" ||
    is_str (obj_get (lit "operation") tool_input) "act")).

(** ** Time budgets

    Both clocks count microseconds; the monotonic one has its own origin. *)

Record _ExecutionBudget := { local_deadline : Z; monotonic_deadline : Z }.

(** [original]: [None] when not passed, [Some None] when it does not parse. *)
Definition from_envelope (sent deadline received_at received_monotonic : Z)
    (original : option (option Z)) : _ExecutionBudget :=
  let duration := deadline - sent in
  let local := Z.min deadline (received_at + duration) in
  let local := match original with
               | None => local
               | Some None => received_at
               | Some (Some t) => Z.min local (t + duration)
               end in
  {| local_deadline := local; monotonic_deadline := received_monotonic + (local - received_at) |}.

Definition min_budget (a b : _ExecutionBudget) : _ExecutionBudget :=
  {| local_deadline := Z.min (local_deadline a) (local_deadline b);
     monotonic_deadline := Z.min (monotonic_deadline a) (monotonic_deadline b) |}.

(** ** Errors and handler outcomes *)

Record LocalError := { le_code : string; le_message : str; le_retryable : bool; le_details : json }.

Definition local_error (code : string) (message : string) : LocalError :=
  {| le_code := code; le_message := lit message; le_retryable := false; le_details := JObj [] |}.

(** What the operation handler ends with; [HCancelled] is the cancellation of the
    task by [stop]. *)
Inductive outcome :=
| HResponse (structured : json) (text : str)
| HAgentError (e : LocalError)
| HTimeout
| HException
| HCancelled.

(** ** State *)

Record WebSocketTicket := {
  tk_account_id : str; tk_device_id : str; tk_link_id : str; tk_expires_at : Z;
}.

(** What the clocks show when a segment runs, the random token of the message it
    sends, and whether the socket takes that message. *)
Record tick := { now : Z; mono : Z; token : str; send_ok : bool }.

(** A validated operation with the tool call it asks for. *)
Record delivery := {
  dl_envelope : TunnelEnvelope; dl_tool : str; dl_input : list (str * json);
  dl_grant : str; dl_link : str; dl_correlation : str; dl_digest : str; dl_deadline : Z;
}.
Definition dl_id (x : delivery) : str := message_id (dl_envelope x).
Definition native (x : delivery) : bool := _is_uncertain_native_action (dl_tool x) (dl_input x).

(** A message still to be sent by the replay. *)
Record replay := {
  rp_correlation : option str; rp_payload : list (str * json); rp_bindings : TunnelBindings;
  rp_digest : option str;
}.

Inductive receiver :=
| ROffline
| RWelcome                                                    (* awaits the first message *)
| RFence                                                      (* stores the epoch *)
| RHello
| RSnapshot                                                   (* HELLO is sent *)
| RRows (memory : list TunnelEnvelope)                        (* reads the journal *)
| RReplay (todo : list replay)
| RIdle                                                       (* awaits a message *)
| RAck (correlation : str) (a : AckBinding)                   (* [acknowledge_terminal] *)
| RAcked (correlation : str)
| RRecord (x : delivery) (received_at received_monotonic : Z) (* [record_received] *)
| RRecorded (x : delivery) (received_at received_monotonic : Z) (inserted : bool)
| RPrior (x : delivery) (received_at received_monotonic : Z)  (* [get_operation] *)
| RGot (x : delivery) (received_at received_monotonic : Z) (prior : option Operation)
| RTerminalize (x : delivery)                                 (* [transition_operation] *)
| RReport (x : delivery) (p : list (str * json)).

Inductive task_phase :=
| TStart                                                      (* records RUNNING *)
| TReady
| TStarting (checked_now checked_mono : Z)                    (* OPERATION_STARTED is sent *)
| THandling
| TSettle (p : list (str * json)) (s : OperationState)        (* records the result *)
| TReport (p : list (str * json))
| TFinished.

Record Task := {
  ts_delivery : delivery; ts_budget : _ExecutionBudget; ts_reconcile : bool; ts_phase : task_phase;
}.
Definition set_phase (ph : task_phase) (t : Task) : Task :=
  {| ts_delivery := ts_delivery t; ts_budget := ts_budget t; ts_reconcile := ts_reconcile t; ts_phase := ph |}.

(** One call of the operation handler. *)
Record HandlerCall := {
  hc_delivery : delivery; hc_epoch : Z; hc_deadline : Z; hc_reconcile : bool;
  hc_checked_now : Z; hc_checked_mono : Z; hc_budget : _ExecutionBudget;
}.

Record client := {
  database : db;
  ticket : option WebSocketTicket;
  epoch : Z;
  out_sequence : Z;
  socket : bool;
  receiving : receiver;
  tasks : list Task;                          (* the task objects, by number *)
  pending : gset nat;
  operation_tasks : gmap str nat;
  operation_budgets : gmap str _ExecutionBudget;
  terminal_pending : list (str * TunnelEnvelope);
  wire : list TunnelEnvelope;                 (* everything ever sent *)
  calls : list HandlerCall;                   (* every call of the handler *)
}.

Definition M := ST client.

Definition upd_database d s := {| database := d; ticket := ticket s; epoch := epoch s;
  out_sequence := out_sequence s; socket := socket s; receiving := receiving s; tasks := tasks s;
  pending := pending s; operation_tasks := operation_tasks s; operation_budgets := operation_budgets s;
  terminal_pending := terminal_pending s; wire := wire s; calls := calls s |}.
Definition upd_connection t e n b s := {| database := database s; ticket := t; epoch := e;
  out_sequence := n; socket := b; receiving := receiving s; tasks := tasks s;
  pending := pending s; operation_tasks := operation_tasks s; operation_budgets := operation_budgets s;
  terminal_pending := terminal_pending s; wire := wire s; calls := calls s |}.
Definition upd_receiving r s := {| database := database s; ticket := ticket s; epoch := epoch s;
  out_sequence := out_sequence s; socket := socket s; receiving := r; tasks := tasks s;
  pending := pending s; operation_tasks := operation_tasks s; operation_budgets := operation_budgets s;
  terminal_pending := terminal_pending s; wire := wire s; calls := calls s |}.
Definition upd_tasks f s := {| database := database s; ticket := ticket s; epoch := epoch s;
  out_sequence := out_sequence s; socket := socket s; receiving := receiving s; tasks := f (tasks s);
  pending := pending s; operation_tasks := operation_tasks s; operation_budgets := operation_budgets s;
  terminal_pending := terminal_pending s; wire := wire s; calls := calls s |}.
Definition upd_pending f s := {| database := database s; ticket := ticket s; epoch := epoch s;
  out_sequence := out_sequence s; socket := socket s; receiving := receiving s; tasks := tasks s;
  pending := f (pending s); operation_tasks := operation_tasks s; operation_budgets := operation_budgets s;
  terminal_pending := terminal_pending s; wire := wire s; calls := calls s |}.
Definition upd_operation_tasks f s := {| database := database s; ticket := ticket s; epoch := epoch s;
  out_sequence := out_sequence s; socket := socket s; receiving := receiving s; tasks := tasks s;
  pending := pending s; operation_tasks := f (operation_tasks s); operation_budgets := operation_budgets s;
  terminal_pending := terminal_pending s; wire := wire s; calls := calls s |}.
Definition upd_budgets f s := {| database := database s; ticket := ticket s; epoch := epoch s;
  out_sequence := out_sequence s; socket := socket s; receiving := receiving s; tasks := tasks s;
  pending := pending s; operation_tasks := operation_tasks s; operation_budgets := f (operation_budgets s);
  terminal_pending := terminal_pending s; wire := wire s; calls := calls s |}.
Definition upd_terminal_pending f s := {| database := database s; ticket := ticket s; epoch := epoch s;
  out_sequence := out_sequence s; socket := socket s; receiving := receiving s; tasks := tasks s;
  pending := pending s; operation_tasks := operation_tasks s; operation_budgets := operation_budgets s;
  terminal_pending := f (terminal_pending s); wire := wire s; calls := calls s |}.
Definition upd_wire f s := {| database := database s; ticket := ticket s; epoch := epoch s;
  out_sequence := out_sequence s; socket := socket s; receiving := receiving s; tasks := tasks s;
  pending := pending s; operation_tasks := operation_tasks s; operation_budgets := operation_budgets s;
  terminal_pending := terminal_pending s; wire := f (wire s); calls := calls s |}.
Definition upd_calls f s := {| database := database s; ticket := ticket s; epoch := epoch s;
  out_sequence := out_sequence s; socket := socket s; receiving := receiving s; tasks := tasks s;
  pending := pending s; operation_tasks := operation_tasks s; operation_budgets := operation_budgets s;
  terminal_pending := terminal_pending s; wire := wire s; calls := f (calls s) |}.

Definition goto (r : receiver) : M unit := modify (upd_receiving r).
Definition task_goto (n : nat) (ph : task_phase) : M unit := modify (upd_tasks (alter (set_phase ph) n)).
Definition run_db {T} (m : DB T) : M T := fun s =>
  let '(r, d) := m (database s) in (r, upd_database d s).

(** A fresh process over a journal. *)
Definition start (d : db) : client :=
  {| database := d; ticket := None; epoch := 0; out_sequence := 0; socket := false;
     receiving := ROffline; tasks := []; pending := ∅; operation_tasks := ∅;
     operation_budgets := ∅; terminal_pending := []; wire := []; calls := [] |}.

(** [d[k] = v] of a dict kept in insertion order. *)
Fixpoint alist_set (k : str) (v : TunnelEnvelope) (l : list (str * TunnelEnvelope)) : list (str * TunnelEnvelope) :=
  match l with
  | [] => [(k, v)]
  | (k', v') :: r => if decide (k' = k) then (k, v) :: r else (k', v') :: alist_set k v r
  end.
Definition alist_get (k : str) (l : list (str * TunnelEnvelope)) : option TunnelEnvelope :=
  (fun r => r.2.2) <$> list_find (fun kv => kv.1 = k) l.
Definition alist_pop (k : str) (l : list (str * TunnelEnvelope)) : list (str * TunnelEnvelope) :=
  filter (fun kv => kv.1 <> k) l.

(** ** The methods *)

Section client.
  Context (sha256_hex : bytes -> str) (valid_input : str -> json -> bool) (max_pending : nat).

Definition disconnected : M unit :=
  modify (fun s => upd_connection (ticket s) (epoch s) (out_sequence s) false (upd_receiving ROffline s)).

(** *** Sending *)

Definition _send (t : tick) (e : TunnelEnvelope) : M unit :=
  connected <- gets socket ;;
  when connected (if send_ok t then modify (upd_wire (fun l => l ++ [e])) else raise (OSError "ConnectionClosed")).

Definition ticket_bindings (k : WebSocketTicket) : TunnelBindings :=
  {| tb_account_id := tk_account_id k; tb_device_id := tk_device_id k; tb_link_id := Some (tk_link_id k);
     tb_grant_id := None; tb_project_id := None |}.

Definition _send_new (t : tick) (k : MessageKind) (p : list (str * json)) (correlation : option str)
    (b : option TunnelBindings) (digest : option str) (terminal : bool) : M unit :=
  own <- gets ticket ;;
  match own with
  | None => raise (ValueError "assert self._ticket is not None")
  | Some own =>
      modify (fun s => upd_connection (ticket s) (epoch s) (out_sequence s + 1) (socket s) s) ;;;
      s <- gets id ;;
      envelope <- lift (TunnelEnvelope_validate sha256_hex valid_input
        {| protocol_version := PROTOCOL_VERSION; kind := k; message_id := lit "msg_" ++ token t;
           correlation_id := correlation; sequence := out_sequence s; connection_epoch := epoch s;
           sent_at := now t; deadline_at := None; bindings := default (ticket_bindings own) b;
           action_digest := digest; payload := p |}) ;;
      match correlation with
      | Some (c :: r) => when terminal (modify (upd_terminal_pending (alist_set (c :: r) envelope)))
      | _ => ret tt
      end ;;;
      _send t envelope
  end.

Definition error_payload (e : LocalError) (correlation : option str) : list (str * json) :=
  failure_json (to_tool_failure (le_code e) (le_message e) (le_details e) (le_retryable e) correlation).

(** The terminal message about one operation. *)
Definition send_result (t : tick) (e : TunnelEnvelope) (p : list (str * json)) : M unit :=
  _send_new t OPERATION_RESULT p (correlation_id e) (Some (bindings e)) (action_digest e) true.

Definition _send_failure (t : tick) (e : TunnelEnvelope) (error : LocalError) : M unit :=
  send_result t e (error_payload error (correlation_id e)).

Definition _hello (t : tick) (metadata : list json) : M unit :=
  _send_new t HELLO [(lit "projects", JList metadata)] None None None false.

Definition sync_projects (t : tick) (metadata : list json) : M unit :=
  s <- gets id ;;
  when (socket s && bool_decide (ticket s <> None)) (_hello t metadata).

Definition heartbeat (t : tick) : M unit :=
  s <- gets id ;;
  when (socket s) (_send_new t HEARTBEAT [(lit "active_operations", JNum (Z.of_nat (size (pending s))))] None None None false).

(** *** The receive loop *)

Definition mismatch : exn := AgentError "binding_mismatch" false [].

Definition _validate_bindings (e : TunnelEnvelope) : M unit :=
  s <- gets id ;;
  match ticket s with
  | None => raise (AgentError "protocol_error" false [])
  | Some own =>
      raise_if (negb (connection_epoch e =? epoch s)) (AgentError "stale_connection" false []) ;;;
      raise_if (negb (bool_decide (tb_account_id (bindings e) = tk_account_id own))) mismatch ;;;
      raise_if (negb (bool_decide (tb_device_id (bindings e) = tk_device_id own))) mismatch ;;;
      raise_if (negb (bool_decide (kind e = TERMINAL_ACK)) &&
                bool_decide (tb_link_id (bindings e) <> None) &&
                negb (bool_decide (tb_link_id (bindings e) = Some (tk_link_id own)))) mismatch
  end.

Definition pop_terminal (c : str) : M unit := modify (upd_terminal_pending (alist_pop c)).

Definition receive_ack (e : TunnelEnvelope) (c : str) : M unit :=
  memory <- gets terminal_pending ;;
  match alist_get c memory with
  | None => ret tt
  | Some p =>
      raise_if (negb (bool_decide (action_digest e = action_digest p)) ||
                negb (bool_decide (bindings e = bindings p))) mismatch ;;;
      match tb_grant_id (bindings p), tb_link_id (bindings p), action_digest p with
      | Some g, Some l, Some d =>
          goto (RAck c {| ak_correlation_id := c; ak_action_digest := d;
                  ak_account_id := tb_account_id (bindings p); ak_grant_id := g; ak_link_id := l;
                  ak_device_id := tb_device_id (bindings p); ak_project_id := tb_project_id (bindings p) |})
      | _, _, _ => pop_terminal c
      end
  end.

Definition task_done (s : client) (n : nat) : bool :=
  match tasks s !! n with
  | Some t => match ts_phase t with TFinished => true | _ => false end
  | None => true
  end.

Definition active (s : client) (identifier : str) : bool :=
  match operation_tasks s !! identifier with Some n => negb (task_done s n) | None => false end.

(** Budgets that ran out are dropped unless their task still runs. *)
Definition prune (received_monotonic : Z) (s : client) : client :=
  upd_budgets (filter (fun kv => ((received_monotonic <? monotonic_deadline kv.2) || active s kv.1) = true)) s.

Definition queue_full (identifier : str) (s : client) : bool :=
  (max_pending <=? size (pending s))%nat ||
  ((max_pending <=? size (operation_budgets s))%nat &&
   bool_decide (operation_budgets s !! identifier = None)).

Definition foreign_project (input : list (str * json)) (b : TunnelBindings) : bool :=
  match obj_get (lit "project_id") input with
  | None | Some JNull => false
  | Some (JStr p) => negb (bool_decide (tb_project_id b = Some p))
  | Some _ => true
  end.

Definition receive_operation (t : tick) (e : TunnelEnvelope) : M unit :=
  modify (prune (mono t)) ;;;
  s <- gets id ;;
  if queue_full (message_id e) s then
    _send_failure t e {| le_code := "queue_full"; le_message := lit "Device queue is full";
                         le_retryable := true; le_details := JObj [] |}
  else match correlation_id e, deadline_at e with
  | None, _ => _send_failure t e (local_error "invalid_request" "Operation correlation_id is required")
  | _, None => _send_failure t e (local_error "deadline_exceeded" "Operation deadline has elapsed")
  | Some c, Some deadline =>
      if deadline <=? now t then
        _send_failure t e (local_error "deadline_exceeded" "Operation deadline has elapsed")
      else match obj_get (lit "tool_name") (payload e), obj_get (lit "input") (payload e) with
      | Some (JStr tool_name), Some (JObj tool_input) =>
          if foreign_project tool_input (bindings e) then
            _send_failure t e (local_error "binding_mismatch" "Project input does not match the routed binding")
          else match compute_action_digest sha256_hex (action_json tool_name tool_input) with
          | None => raise (ValueError "UnicodeEncodeError")
          | Some d =>
              if negb (bool_decide (action_digest e = Some d)) then
                _send_failure t e (local_error "action_digest_mismatch" "Action digest does not match input")
              else match tb_grant_id (bindings e), tb_link_id (bindings e) with
              | Some g, Some l =>
                  goto (RRecord {| dl_envelope := e; dl_tool := tool_name; dl_input := tool_input;
                          dl_grant := g; dl_link := l; dl_correlation := c; dl_digest := d;
                          dl_deadline := deadline |} (now t) (mono t))
              | _, _ => _send_failure t e (local_error "unauthorized" "OAuth grant or link binding is missing")
              end
          end
      | _, _ => _send_failure t e (local_error "invalid_request" "Tool payload is malformed")
      end
  end.

(** [raw] is the parsed message; [None]: it does not parse. *)
Definition _receive (t : tick) (raw : option TunnelEnvelope) : M unit :=
  match raw with
  | None => raise (AgentError "protocol_error" false [])
  | Some raw =>
      match TunnelEnvelope_validate sha256_hex valid_input raw with
      | Err _ => raise (AgentError "protocol_error" false [])
      | Ok e =>
          _validate_bindings e ;;;
          match kind e, correlation_id e with
          | TERMINAL_ACK, Some c => receive_ack e c
          | HEARTBEAT, _ => _send_new t HEARTBEAT_ACK [] (Some (message_id e)) None None false
          | HEARTBEAT_ACK, _ | WELCOME, _ | OPERATION_CANCEL, _ => ret tt
          | OPERATION, _ => receive_operation t e
          | _, _ => raise (AgentError "protocol_error" false [])
          end
      end
  end.

Definition receipt_of (s : client) (x : delivery) : Receipt :=
  let b := bindings (dl_envelope x) in
  {| rc_operation_id := dl_id x; rc_correlation_id := dl_correlation x;
     rc_account_id := tb_account_id b; rc_grant_id := dl_grant x; rc_link_id := dl_link x;
     rc_device_id := tb_device_id b; rc_project_id := tb_project_id b; rc_capability := dl_tool x;
     rc_action_digest := dl_digest x;
     rc_idempotency_key := match obj_get (lit "idempotency_key") (dl_input x) with
                           | Some (JStr k) => Some k | _ => None end;
     rc_request_digest := dl_digest x; rc_request := Some (JObj (dl_input x));
     rc_connection_epoch := epoch s; rc_deadline_at := isoformat (dl_deadline x) |}.

Definition _start_dispatch (x : delivery) (budget : _ExecutionBudget) (reconcile : bool) : M unit :=
  s <- gets id ;;
  let n := length (tasks s) in
  modify (upd_budgets <[dl_id x := budget]>) ;;;
  modify (upd_tasks (fun l => l ++ [{| ts_delivery := x; ts_budget := budget; ts_reconcile := reconcile;
                                       ts_phase := TStart |}])) ;;;
  modify (upd_pending (fun p => {[n]} ∪ p)) ;;;
  modify (upd_operation_tasks <[dl_id x := n]>).

(** After [record_received]. *)
Definition receive_recorded (t : tick) (x : delivery) (received_at received_monotonic : Z) (inserted : bool) : M unit :=
  _send_new t OPERATION_RECEIVED [(lit "duplicate", JBool (negb inserted))] (Some (dl_correlation x))
    (Some (bindings (dl_envelope x))) (action_digest (dl_envelope x)) false ;;;
  if inserted
  then _start_dispatch x (from_envelope (sent_at (dl_envelope x)) (dl_deadline x) received_at received_monotonic None) false
  else goto (RPrior x received_at received_monotonic).

Definition uncertain_error : LocalError :=
  local_error "outcome_unknown" "A prior native action may have executed; Codito never replays uncertain actions".

(** A duplicate, after [get_operation]. *)
Definition receive_duplicate (t : tick) (x : delivery) (received_at received_monotonic : Z)
    (prior : option Operation) : M unit :=
  match truthy (prior ≫= op_result) with
  | Some (JObj result) => send_result t (dl_envelope x) result
  | Some _ => raise (ValueError "ValidationError")
  | None =>
      s <- gets id ;;
      if active s (dl_id x) then ret tt
      else if native x then goto (RTerminalize x)
      else
        let budget := from_envelope (sent_at (dl_envelope x)) (dl_deadline x) received_at received_monotonic
                        (Some (op_received_at <$> prior)) in
        _start_dispatch x (match operation_budgets s !! dl_id x with
                           | Some original_budget => min_budget budget original_budget
                           | None => budget
                           end) true
  end.

(** *** Connecting and replaying *)

Definition _receive_welcome (raw : option TunnelEnvelope) : M unit :=
  match raw with
  | None => raise (AgentError "protocol_error" false [])
  | Some raw =>
      match TunnelEnvelope_validate sha256_hex valid_input raw with
      | Err _ => raise (AgentError "protocol_error" false [])
      | Ok e =>
          raise_if (negb (bool_decide (kind e = WELCOME))) (AgentError "protocol_error" false []) ;;;
          own <- gets ticket ;;
          match own with
          | None => raise (ValueError "assert self._ticket is not None")
          | Some own =>
              raise_if (negb (bool_decide (tb_account_id (bindings e) = tk_account_id own)) ||
                        negb (bool_decide (tb_device_id (bindings e) = tk_device_id own))) mismatch ;;;
              modify (fun s => upd_connection (ticket s) (connection_epoch e) (out_sequence s) (socket s) s)
          end
      end
  end.

(** The row as a message; only result objects are sent. *)
Definition replay_of_row (o : Operation) : option replay :=
  match op_result o with
  | Some (JObj result) =>
      Some {| rp_correlation := Some (op_correlation_id o); rp_payload := result;
              rp_bindings := {| tb_account_id := op_account_id o; tb_device_id := op_device_id o;
                tb_link_id := Some (op_link_id o); tb_grant_id := Some (op_grant_id o);
                tb_project_id := match op_project_id o with Some (c :: r) => Some (c :: r) | _ => None end |};
              rp_digest := Some (op_action_digest o) |}
  | _ => None
  end.

Definition replay_of_memory (e : TunnelEnvelope) : replay :=
  {| rp_correlation := correlation_id e; rp_payload := payload e; rp_bindings := bindings e;
     rp_digest := action_digest e |}.

(** Journal rows first, then what only the memory knows. *)
Definition replays (rows : list (str * Operation)) (memory : list TunnelEnvelope) : list replay :=
  omap (fun kv => replay_of_row kv.2) rows ++
  map replay_of_memory (filter (fun e =>
    Forall (fun kv => correlation_id e <> Some (op_correlation_id kv.2)) rows) memory).

Definition send_replay (t : tick) (r : replay) : M unit :=
  _send_new t OPERATION_RESULT (rp_payload r) (rp_correlation r) (Some (rp_bindings r)) (rp_digest r) true.

(** One segment of [run] from the current await to the next. *)
Definition receiver_segment (t : tick) (raw : option TunnelEnvelope) (metadata : list json) (r : receiver) : M unit :=
  match r with
  | ROffline => goto ROffline
  | RWelcome => _receive_welcome raw ;;; goto RFence
  | RFence => e <- gets epoch ;; run_db (set_connection_epoch e) ;;; goto RHello
  | RHello =>
      modify (fun s => upd_connection (ticket s) (epoch s) 0 (socket s) s) ;;; _hello t metadata ;;; goto RSnapshot
  | RSnapshot => memory <- gets terminal_pending ;; goto (RRows (map snd memory))
  | RRows memory => rows <- run_db list_unacknowledged_terminals ;; goto (RReplay (replays rows memory))
  | RReplay [] => ret tt
  | RReplay (r :: todo) => send_replay t r ;;; goto (RReplay todo)
  | RIdle => _receive t raw
  | RAck c a => _ <- run_db (acknowledge_terminal (now t) a) ;; goto (RAcked c)
  | RAcked c => pop_terminal c
  | RRecord x ra rm =>
      s <- gets id ;; inserted <- run_db (record_received (now t) (receipt_of s x)) ;; goto (RRecorded x ra rm inserted)
  | RRecorded x ra rm inserted => receive_recorded t x ra rm inserted
  | RPrior x ra rm => prior <- run_db (get_operation (dl_id x)) ;; goto (RGot x ra rm prior)
  | RGot x ra rm prior => receive_duplicate t x ra rm prior
  | RTerminalize x =>
      let p := error_payload uncertain_error (correlation_id (dl_envelope x)) in
      run_db (transition_operation (now t) (dl_id x) OUTCOME_UNKNOWN (Some (JObj p))) ;;; goto (RReport x p)
  | RReport x p => send_result t (dl_envelope x) p
  end.

(** A segment ends at the next await, in the loop, or with the loss of the socket. *)
Definition receive_step (t : tick) (raw : option TunnelEnvelope) (metadata : list json) : M unit :=
  r <- gets receiving ;;
  goto RIdle ;;;
  try_except (receiver_segment t raw metadata r) (fun _ => disconnected).

(** *** The task of an operation *)

Definition deadline_error (native handler_started : bool) : LocalError :=
  if native && handler_started
  then local_error "outcome_unknown" "The native action exceeded its response budget and may have executed; Codito never automatically replays uncertain actions"
  else local_error "deadline_exceeded" "Operation execution budget elapsed".

Definition error_state (code : string) : OperationState :=
  if bool_decide (code = "approval_denied"%string) then DENIED
  else if bool_decide (code = "outcome_unknown"%string) then OUTCOME_UNKNOWN
  else FAILED.

Definition settle_error (n : nat) (x : delivery) (e : LocalError) : M unit :=
  task_goto n (TSettle (error_payload e (correlation_id (dl_envelope x))) (error_state (le_code e))).

Definition internal_error : LocalError := local_error "internal_error" "The device operation failed".

Definition elapsed (t : tick) (b : _ExecutionBudget) : bool :=
  (monotonic_deadline b <=? mono t) || (local_deadline b <=? now t).

Definition dispatch_ready (t : tick) (n : nat) (k : Task) : M unit :=
  let x := ts_delivery k in
  if elapsed t (ts_budget k) then settle_error n x (deadline_error (native x) false)
  else try_except
    (_send_new t OPERATION_STARTED [] (correlation_id (dl_envelope x)) (Some (bindings (dl_envelope x)))
       (action_digest (dl_envelope x)) false ;;;
     task_goto n (TStarting (now t) (mono t)))
    (fun _ => settle_error n x internal_error).

Definition dispatch_enter (n : nat) (k : Task) (checked_now checked_mono : Z) (o : outcome) : M unit :=
  match o with
  | HTimeout => settle_error n (ts_delivery k) (deadline_error (native (ts_delivery k)) false)
  | HException => settle_error n (ts_delivery k) internal_error
  | _ =>
      task_goto n THandling ;;;
      modify (fun s => upd_calls (fun l => l ++ [
        {| hc_delivery := ts_delivery k; hc_epoch := epoch s; hc_deadline := local_deadline (ts_budget k);
           hc_reconcile := ts_reconcile k; hc_checked_now := checked_now; hc_checked_mono := checked_mono;
           hc_budget := ts_budget k |}]) s)
  end.

Definition dispatch_outcome (t : tick) (n : nat) (k : Task) (o : outcome) : M unit :=
  let x := ts_delivery k in
  match o with
  | HResponse structured text =>
      if elapsed t (ts_budget k) then settle_error n x (deadline_error (native x) true)
      else task_goto n (TSettle [(lit "ok", JBool true); (lit "result", structured); (lit "text", JStr text)] SUCCEEDED)
  | HAgentError e =>
      settle_error n x (if bool_decide (le_code e = "deadline_exceeded"%string)
                        then deadline_error (native x) true else e)
  | HTimeout => settle_error n x (deadline_error (native x) true)
  | HException => settle_error n x internal_error
  | HCancelled => task_goto n TFinished
  end.

Definition dispatch_settle (t : tick) (n : nat) (k : Task) (p : list (str * json)) (st : OperationState) : M unit :=
  match durable_tool_result sha256_hex p with
  | None => raise (ValueError "UnicodeEncodeError")
  | Some durable =>
      run_db (transition_operation (now t) (dl_id (ts_delivery k)) st (Some (JObj durable))) ;;;
      task_goto n (TReport p)
  end.

Definition dispatch_report (t : tick) (n : nat) (k : Task) (p : list (str * json)) : M unit :=
  modify (upd_budgets (delete (dl_id (ts_delivery k)))) ;;;
  task_goto n TFinished ;;;
  send_result t (dl_envelope (ts_delivery k)) p.

(** One segment of [_dispatch]; a cancellation ends it at any await. *)
Definition dispatch_segment (t : tick) (n : nat) (k : Task) (o : outcome) : M unit :=
  match ts_phase k with
  | TStart => run_db (transition_operation (now t) (dl_id (ts_delivery k)) RUNNING None) ;;; task_goto n TReady
  | TReady => dispatch_ready t n k
  | TStarting a b => dispatch_enter n k a b o
  | THandling => dispatch_outcome t n k o
  | TSettle p st => dispatch_settle t n k p st
  | TReport p => dispatch_report t n k p
  | TFinished => ret tt
  end.

Definition dispatch_step (t : tick) (n : nat) (o : outcome) : M unit :=
  s <- gets id ;;
  match tasks s !! n with
  | None => ret tt
  | Some k =>
      match o with
      | HCancelled => task_goto n TFinished
      | _ => try_except (dispatch_segment t n k o) (fun _ => task_goto n TFinished)
      end
  end.

(** The callback of a finished task. *)
Definition completed (n : nat) : M unit :=
  s <- gets id ;;
  match tasks s !! n with
  | Some k =>
      when (task_done s n)
        (modify (upd_pending (fun p => p ∖ {[n]})) ;;;
         when (bool_decide (operation_tasks s !! dl_id (ts_delivery k) = Some n))
           (modify (upd_operation_tasks (delete (dl_id (ts_delivery k))))))
  | None => ret tt
  end.

(** *** Histories *)

Inductive event :=
| EConnect (t : tick) (k : WebSocketTicket) (accepted : bool)
| EReceiver (t : tick) (raw : option TunnelEnvelope) (metadata : list json)
| EDisconnect
| EDispatch (t : tick) (n : nat) (o : outcome)
| ECompleted (n : nat)
| EHeartbeat (t : tick)
| ESync (t : tick) (metadata : list json)
| EJournal (at_ : Z) (c : db_call)
| ECrash.

Definition connect (t : tick) (k : WebSocketTicket) (accepted : bool) : M unit :=
  s <- gets id ;;
  when (bool_decide (tk_expires_at k > now t + 30 * SECOND))
    (modify (upd_connection (Some k) (epoch s) (out_sequence s) accepted) ;;;
     when accepted (goto RWelcome)).

Definition step (e : event) (s : client) : client :=
  match e with
  | EConnect t k accepted => match receiving s with ROffline => (connect t k accepted s).2 | _ => s end
  | EReceiver t raw metadata => (receive_step t raw metadata s).2
  | EDisconnect => match receiving s with RIdle | RWelcome => (disconnected s).2 | _ => s end
  | EDispatch t n o => (dispatch_step t n o s).2
  | ECompleted n => (completed n s).2
  | EHeartbeat t => (heartbeat t s).2
  | ESync t metadata => (sync_projects t metadata s).2
  | EJournal at_ c => upd_database (exec at_ c (database s)).2 s
  | ECrash => upd_wire (fun _ => wire s) (upd_calls (fun _ => calls s) (start (database s)))
  end.

Definition run (s : client) (es : list event) : client := foldl (fun s e => step e s) s es.
End client.

(** ** A sample operation *)

Definition sample_sha (b : bytes) : str := replicate 64 48%N.
Definition sample_schema (tool_name : str) (input : json) : bool := true.
Definition sample_ticket : WebSocketTicket :=
  {| tk_account_id := lit "account_00000000000001"; tk_device_id := lit "device_000000000001";
     tk_link_id := lit "link_000000000000001"; tk_expires_at := 100 * SECOND |}.
Definition sample_bindings : TunnelBindings :=
  {| tb_account_id := tk_account_id sample_ticket; tb_device_id := tk_device_id sample_ticket;
     tb_link_id := Some (tk_link_id sample_ticket); tb_grant_id := Some (lit "grant_00000000000001");
     tb_project_id := None |}.
Definition sample_message (k : MessageKind) (i : str) (c : option str) (e : Z) (p : list (str * json)) : TunnelEnvelope :=
  {| protocol_version := PROTOCOL_VERSION; kind := k; message_id := i; correlation_id := c; sequence := 0;
     connection_epoch := e; sent_at := 0; deadline_at := if bool_decide (k = OPERATION) then Some (45 * SECOND) else None;
     bindings := sample_bindings; action_digest := if bool_decide (c = None) then None else Some (sample_sha []);
     payload := p |}.
Definition sample_tick (n : Z) : tick :=
  {| now := n * SECOND; mono := n * SECOND; token := lit "00000000000000000000000" ++ str_of_Z n; send_ok := true |}.
Definition sample_operation (e : Z) (tool_name : str) : TunnelEnvelope :=
  sample_message OPERATION (lit "operation_00000001") (Some (lit "correlation_00000001")) e
    [(lit "tool_name", JStr tool_name); (lit "input", JObj [])].

(** Connecting: the ticket, the WELCOME, its epoch, HELLO and an empty replay. *)
Definition sample_connect (n e : Z) : list event :=
  [EConnect (sample_tick n) sample_ticket true;
   EReceiver (sample_tick n) (Some (sample_message WELCOME (lit "welcome_0000000001") None e [])) []] ++
  replicate 5 (EReceiver (sample_tick n) None []).
(** Receiving an operation: the message, its row, the receipt. *)
Definition sample_receive (n e : Z) (tool_name : str) : list event :=
  EReceiver (sample_tick n) (Some (sample_operation e tool_name)) [] :: replicate 2 (EReceiver (sample_tick n) None []).
(** The task up to the call of the handler. *)
Definition sample_call (n : Z) : list event := replicate 3 (EDispatch (sample_tick n) 0 (HResponse JNull [])).

Notation sample_run es := (run sample_sha sample_schema 1 (start empty_db) es).
