(* ===== verification/TunnelMoves.v ===== *)
(** * The tunnel as a transition system

    Every segment of Tunnel.v, failing ones included, does one of the few [move]s
    below: what it does to the operations in flight is what a move says, the rest
    (messages, clocks, the socket) is open.  The theorems of TunnelHistory.v are
    inductions over moves. *)
From S2P Require Import Prelude Utf8 PyStr Models Paths Database Json Envelope Tunnel.

Open Scope Z_scope.

(** ** Phases *)

(** The operation the receive loop holds. *)
Definition carries (r : receiver) : option delivery :=
  match r with
  | RRecord x _ _ | RRecorded x _ _ _ | RPrior x _ _ | RGot x _ _ _ | RTerminalize x => Some x
  | _ => None
  end.

(** The handler has not been called yet and may still be. *)
Definition live (ph : task_phase) : bool :=
  match ph with TStart | TReady | TStarting _ _ => true | _ => false end.

(** How the phase of a task advances without a call of the handler. *)
Definition advances (b : _ExecutionBudget) (ph ph' : task_phase) : Prop :=
  match ph' with
  | TStart | THandling => False
  | TReady => ph = TStart
  | TStarting n m => ph = TReady /\ n < local_deadline b /\ m < monotonic_deadline b
  | TSettle _ _ | TReport _ => ph <> TFinished
  | TFinished => True
  end.

(** ** What the segments leave alone *)

Record calm (s s' : client) : Prop := {
  cm_tasks : tasks s' = tasks s;
  cm_calls : calls s' = calls s;
  cm_pending : pending s' = pending s;
  cm_running : operation_tasks s' = operation_tasks s;
  cm_ticket : ticket s' = ticket s;
  cm_budgets : operation_budgets s' ⊆ operation_budgets s;
  cm_journal : ops_evolve (database s) (database s');
}.
#[export] Instance calm_preorder : PreOrder calm.
Proof.
  split; [by split|]. intros a b c [A1 A2 A3 A4 A5 A6 A7] [B1 B2 B3 B4 B5 B6 B7].
  split; try congruence; by etransitivity.
Qed.

(** Calm, and the receive loop stays where it is. *)
Record still (s s' : client) : Prop := {
  sl_calm : calm s s';
  sl_receiving : receiving s' = receiving s;
}.
#[export] Instance still_preorder : PreOrder still.
Proof. split; [by split|]. intros a b c [A1 A2] [B1 B2]. split; [by etransitivity|congruence]. Qed.

(** Calm, and the receive loop stays or holds no operation. *)
Record quiet (s s' : client) : Prop := {
  qt_calm : calm s s';
  qt_receiving : receiving s' = receiving s \/ carries (receiving s') = None;
}.
#[export] Instance quiet_preorder : PreOrder quiet.
Proof.
  split; [split; [done|by left]|]. intros a b c [A1 A2] [B1 B2]. split; [by etransitivity|].
  destruct B2 as [B2|B2]; [rewrite B2; naive_solver|by right].
Qed.

Lemma still_quiet s s' : still s s' -> quiet s s'.
Proof. intros [H1 H2]. split; [done|by left]. Qed.
Lemma quiet_still {T} (m : M T) : along still m -> along quiet m.
Proof. intros H s. apply still_quiet, H. Qed.

Lemma still_db {T} (m : DB T) : evolving m -> along still (run_db m).
Proof.
  intros H s. specialize (H (database s)). unfold run_db. destruct (m (database s)) as [r d]. by split.
Qed.
Lemma evolving_epoch v : evolving (set_connection_epoch v).
Proof. unfold set_connection_epoch. evolving_steps. Qed.
Lemma evolving_terminals : evolving list_unacknowledged_terminals.
Proof. apply evolving_gets. Qed.
#[export] Hint Resolve evolving_epoch evolving_terminals : codito.
Lemma still_connection f g b :
  along still (modify (fun s => upd_connection (ticket s) (f s) (g s) (b s) s)).
Proof. intros s. by split. Qed.
Lemma still_terminals f : along still (modify (upd_terminal_pending f)).
Proof. intros s. by split. Qed.
Lemma still_wire f : along still (modify (upd_wire f)).
Proof. intros s. by split. Qed.
Lemma still_prune n : along still (modify (prune n)).
Proof. intros s. split; [split|]; try done. cbn. apply map_filter_subseteq. Qed.
Lemma still_forget i : along still (modify (upd_budgets (delete i))).
Proof. intros s. split; [split|]; try done. cbn. apply delete_subseteq. Qed.
#[export] Hint Extern 1 (along still (modify (fun s => upd_connection _ _ _ _ s))) => apply still_connection : along.
#[export] Hint Extern 1 (along still (modify (upd_terminal_pending _))) => apply still_terminals : along.
#[export] Hint Extern 1 (along still (modify (upd_wire _))) => apply still_wire : along.
#[export] Hint Extern 1 (along still (modify (prune _))) => apply still_prune : along.
#[export] Hint Extern 1 (along still (modify (upd_budgets (delete _)))) => apply still_forget : along.
#[export] Hint Extern 1 (along still (run_db _)) => apply still_db; solve [auto with codito] : along.

Lemma quiet_goto r : carries r = None -> along quiet (goto r).
Proof. intros H s. split; [by split|by right]. Qed.
Lemma quiet_disconnected : along quiet disconnected.
Proof. intros s. split; [by split|by right]. Qed.
#[export] Hint Resolve quiet_disconnected : along.
#[export] Hint Extern 1 (along quiet (goto _)) => apply quiet_goto; reflexivity : along.
#[export] Hint Extern 2 (along quiet _) => apply quiet_still; solve [auto 2 with along] : along.

Section moves.
  Context (sha256_hex : bytes -> str) (valid_input : str -> json -> bool) (max_pending : nat)
    (issued : WebSocketTicket -> Prop).

(** ** Moves *)

(** A validated operation that the relay routed to this device and link, with the
    digest of the very action it carries. *)
Record delivered (own : WebSocketTicket) (x : delivery) : Prop := {
  dv_valid : operation_valid sha256_hex valid_input (dl_envelope x) (dl_tool x) (dl_input x);
  dv_correlation : correlation_id (dl_envelope x) = Some (dl_correlation x);
  dv_digest : compute_action_digest sha256_hex (action_json (dl_tool x) (dl_input x)) = Some (dl_digest x);
  dv_grant : tb_grant_id (bindings (dl_envelope x)) = Some (dl_grant x);
  dv_link : tb_link_id (bindings (dl_envelope x)) = Some (dl_link x);
  dv_deadline : deadline_at (dl_envelope x) = Some (dl_deadline x);
  dv_sent : sent_at (dl_envelope x) < dl_deadline x;
  dv_project : foreign_project (dl_input x) (bindings (dl_envelope x)) = false;
  dv_own : tb_account_id (bindings (dl_envelope x)) = tk_account_id own /\
           tb_device_id (bindings (dl_envelope x)) = tk_device_id own /\ dl_link x = tk_link_id own;
}.

(** The journal row of an operation. *)
Record journaled (x : delivery) (row : Operation) : Prop := {
  jr_capability : op_capability row = dl_tool x;
  jr_digest : op_action_digest row = dl_digest x;
  jr_account : op_account_id row = tb_account_id (bindings (dl_envelope x));
  jr_device : op_device_id row = tb_device_id (bindings (dl_envelope x));
  jr_grant : op_grant_id row = dl_grant x;
  jr_link : op_link_id row = dl_link x;
  jr_correlation : op_correlation_id row = dl_correlation x;
  jr_deadline : op_deadline_at row = isoformat (dl_deadline x);
}.

Definition room (s : client) (x : delivery) : Prop :=
  (size (pending s) < max_pending)%nat /\
  ((size (operation_budgets s) < max_pending)%nat \/ is_Some (operation_budgets s !! dl_id x)).

(** The task that is started, from a new row or from a duplicate. *)
Inductive dispatches (s : client) (x : delivery) (b : _ExecutionBudget) : bool -> Prop :=
| dispatches_new ra rm :
    receiving s = RRecorded x ra rm true ->
    b = from_envelope (sent_at (dl_envelope x)) (dl_deadline x) ra rm None -> dispatches s x b false
| dispatches_again ra rm prior :
    receiving s = RGot x ra rm prior -> native x = false ->
    local_deadline b <= local_deadline
      (from_envelope (sent_at (dl_envelope x)) (dl_deadline x) ra rm (Some (op_received_at <$> prior))) ->
    dispatches s x b true.

Record starts_task (s s' : client) (x : delivery) (b : _ExecutionBudget) (reconcile : bool) : Prop := {
  st_tasks : tasks s' = tasks s ++ [{| ts_delivery := x; ts_budget := b; ts_reconcile := reconcile; ts_phase := TStart |}];
  st_calls : calls s' = calls s;
  st_pending : pending s' = {[length (tasks s)]} ∪ pending s;
  st_ticket : ticket s' = ticket s;
  st_budgets : exists m, m ⊆ operation_budgets s /\ operation_budgets s' = <[dl_id x := b]> m;
  st_journal : ops_evolve (database s) (database s');
  st_receiving : carries (receiving s') = None;
}.

Inductive move (s s' : client) : Prop :=
| mv_quiet : calm s s' -> receiving s' = receiving s \/ carries (receiving s') = None -> move s s'
| mv_connect own : issued own -> tasks s' = tasks s -> calls s' = calls s -> pending s' = pending s ->
    operation_budgets s' = operation_budgets s -> database s' = database s ->
    ticket s' = Some own -> carries (receiving s') = None -> move s s'
| mv_accept own x ra rm : calm s s' -> ticket s = Some own -> delivered own x -> room s' x ->
    receiving s' = RRecord x ra rm -> move s s'
| mv_record x ra rm inserted : calm s s' -> receiving s = RRecord x ra rm ->
    receiving s' = RRecorded x ra rm inserted ->
    (inserted = true -> operations (database s) !! dl_id x = None) ->
    (exists row, operations (database s') !! dl_id x = Some row /\ journaled x row) -> move s s'
| mv_prior x ra rm : calm s s' -> receiving s = RRecorded x ra rm false -> receiving s' = RPrior x ra rm -> move s s'
| mv_got x ra rm : calm s s' -> receiving s = RPrior x ra rm ->
    receiving s' = RGot x ra rm (operations (database s) !! dl_id x) -> move s s'
| mv_terminalize x ra rm prior : calm s s' -> receiving s = RGot x ra rm prior ->
    receiving s' = RTerminalize x -> move s s'
| mv_dispatch x b reconcile : dispatches s x b reconcile -> starts_task s s' x b reconcile -> move s s'
| mv_task (n : nat) k ph : tasks s !! n = Some k -> advances (ts_budget k) (ts_phase k) ph ->
    tasks s' = alter (set_phase ph) n (tasks s) -> calm s (upd_tasks (fun _ => tasks s) s') ->
    receiving s' = receiving s -> move s s'
| mv_enter (n : nat) k a b : tasks s !! n = Some k -> ts_phase k = TStarting a b ->
    tasks s' = alter (set_phase THandling) n (tasks s) ->
    calls s' = calls s ++ [{| hc_delivery := ts_delivery k; hc_epoch := epoch s;
      hc_deadline := local_deadline (ts_budget k); hc_reconcile := ts_reconcile k;
      hc_checked_now := a; hc_checked_mono := b; hc_budget := ts_budget k |}] ->
    calm s (upd_tasks (fun _ => tasks s) (upd_calls (fun _ => calls s) s')) ->
    receiving s' = receiving s -> move s s'
| mv_done : tasks s' = tasks s -> calls s' = calls s -> pending s' ⊆ pending s ->
    (forall n, n ∈ pending s -> n ∉ pending s' -> task_done s n = true) ->
    ticket s' = ticket s -> operation_budgets s' = operation_budgets s ->
    database s' = database s -> receiving s' = receiving s -> move s s'
| mv_crash : s' = upd_wire (fun _ => wire s) (upd_calls (fun _ => calls s) (start (database s))) -> move s s'.

Lemma move_quiet s s' : quiet s s' -> move s s'.
Proof. intros [H1 H2]. by apply mv_quiet. Qed.

(** ** Sends and simple segments *)

Lemma still_send t e : along still (_send t e).
Proof. unfold _send. along_steps. Qed.
#[local] Hint Resolve still_send : along.

Lemma still_send_new t k p c b d terminal : along still (_send_new sha256_hex valid_input t k p c b d terminal).
Proof. unfold _send_new. along_steps. Qed.
#[local] Hint Resolve still_send_new : along.

Lemma still_result t e p : along still (send_result sha256_hex valid_input t e p).
Proof. unfold send_result. auto with along. Qed.
Lemma still_failure t e error : along still (_send_failure sha256_hex valid_input t e error).
Proof. unfold _send_failure, send_result. auto with along. Qed.
Lemma still_hello t metadata : along still (_hello sha256_hex valid_input t metadata).
Proof. unfold _hello. auto with along. Qed.
Lemma still_replay t r : along still (send_replay sha256_hex valid_input t r).
Proof. unfold send_replay. auto with along. Qed.
Lemma still_validate e : along still (_validate_bindings e).
Proof. unfold _validate_bindings. along_steps. Qed.
Lemma still_heartbeat t : along still (heartbeat sha256_hex valid_input t).
Proof.
  unfold heartbeat. apply along_bind; [typeclasses eauto|apply along_gets; typeclasses eauto|]. intros s.
  apply along_when; [typeclasses eauto|]. apply still_send_new.
Qed.
Lemma still_sync t metadata : along still (sync_projects sha256_hex valid_input t metadata).
Proof.
  unfold sync_projects, _hello. apply along_bind; [typeclasses eauto|apply along_gets; typeclasses eauto|]. intros s.
  apply along_when; [typeclasses eauto|]. apply still_send_new.
Qed.
#[local] Hint Resolve still_result still_failure still_hello still_replay still_validate : along.

Lemma quiet_ack e c : along quiet (receive_ack e c).
Proof. unfold receive_ack, pop_terminal. along_steps. Qed.
Lemma quiet_welcome raw : along quiet (_receive_welcome sha256_hex valid_input raw).
Proof. unfold _receive_welcome. along_steps. Qed.
#[local] Hint Resolve quiet_ack quiet_welcome : along.

(** ** The segments of the receive loop *)

Notation idle s := (upd_receiving RIdle s).

Lemma move_idle s s' : quiet (idle s) s' -> move s s'.
Proof.
  intros [[] H]. apply mv_quiet; [by split|]. right. by destruct H as [->|H].
Qed.

(** What a segment may do: a move when it ends, nothing in flight when it raises. *)
Definition segment_moves (s : client) (m : M unit) : Prop :=
  triple (fun s0 => s0 = idle s) m (fun _ s' => move s s') (fun _ s' => quiet (idle s) s').

Lemma quiet_segment s m : along quiet m -> segment_moves s m.
Proof.
  intros H s0 ->. specialize (H (idle s)). destruct (m (idle s)) as [[]?]; [by apply move_idle|done].
Qed.

Lemma validate_bindings_ok e s s' : _validate_bindings e s = (Ok tt, s') ->
  s' = s /\ exists own, ticket s = Some own /\ connection_epoch e = epoch s /\
    tb_account_id (bindings e) = tk_account_id own /\ tb_device_id (bindings e) = tk_device_id own /\
    (kind e <> TERMINAL_ACK -> tb_link_id (bindings e) = None \/ tb_link_id (bindings e) = Some (tk_link_id own)).
Proof.
  unfold _validate_bindings, bind, gets, raise_if, raise, ret. cbn [id].
  destruct (ticket s) as [own|]; [|done].
  destruct (connection_epoch e =? epoch s) eqn:E1; [|done].
  do 2 (case_bool_decide; [|done]). cbn [negb].
  destruct (negb (bool_decide (kind e = TERMINAL_ACK)) && _ && _) eqn:E2; [done|]. intros [= <-].
  split; [done|]. exists own. split_and!; try done; [by apply Z.eqb_eq|]. intros Hk.
  revert E2. case_bool_decide as A; [done|]. cbn [negb andb].
  case_bool_decide as B; [|intros _; left; by destruct (tb_link_id (bindings e)); [destruct B|]].
  case_bool_decide as C; [by right|done].
Qed.

(** A message that passes every check of [_receive] becomes a delivery. *)
Lemma receive_operation_accepts t raw e own s0 :
  TunnelEnvelope_validate sha256_hex valid_input raw = Ok e -> kind e = OPERATION ->
  ticket s0 = Some own -> tb_account_id (bindings e) = tk_account_id own ->
  tb_device_id (bindings e) = tk_device_id own ->
  (tb_link_id (bindings e) = None \/ tb_link_id (bindings e) = Some (tk_link_id own)) ->
  forall r, r = receive_operation sha256_hex valid_input max_pending t e s0 ->
  quiet s0 r.2 \/ (r.1 = Ok tt /\ exists x, calm s0 r.2 /\ delivered own x /\ room r.2 x /\
                   receiving r.2 = RRecord x (now t) (mono t)).
Proof.
  intros Hv Hk Ht Ha Hd Hl r ->. set (s1 := prune (mono t) s0).
  assert (still s0 s1) as H1 by apply (still_prune (mono t)).
  assert (forall e', quiet s0 (_send_failure sha256_hex valid_input t e e' s1).2) as Hf.
  { intros e'. apply still_quiet. etransitivity; [exact H1|]. apply still_failure. }
  destruct (validate_operation _ _ _ _ Hv Hk) as (tool & input & Hp & Hok).
  unfold receive_operation, bind, modify, gets. cbn [id]. fold s1.
  destruct (queue_full max_pending (message_id e) s1) eqn:Hq; [by left|].
  destruct (ov_correlation _ _ _ _ _ Hok) as (c & Hc & _), (ov_digest _ _ _ _ _ Hok) as (d & Hd1 & Hd2).
  apply operation_payload_ok in Hp as [Hp1 Hp2].
  rewrite Hc, Hp1, Hp2. destruct (deadline_at e) as [deadline|] eqn:Hdl; [|by left].
  destruct (deadline <=? now t); [by left|]. destruct (foreign_project _ _) eqn:Hf'; [by left|].
  rewrite Hd2, Hd1, bool_decide_refl. cbn [negb].
  destruct (tb_grant_id (bindings e)) as [g|] eqn:Hg; [|by left].
  destruct (tb_link_id (bindings e)) as [l|] eqn:Hl'; [|by left].
  right. split; [done|]. eexists. split; [|split; [|split; [|reflexivity]]].
  - destruct H1 as [H1 _]. etransitivity; [exact H1|by split].
  - split; try done; [exact (ov_deadline _ _ _ _ _ Hok _ Hdl)|].
    cbn. split_and!; try done. by destruct Hl as [|[=]].
  - unfold queue_full in Hq. apply orb_false_iff in Hq as [Hq1 Hq2]. split; [by apply Nat.leb_gt|].
    apply andb_false_iff in Hq2 as [Hq2|Hq2]; [left; by apply Nat.leb_gt|]. right.
    apply bool_decide_eq_false in Hq2. by apply not_eq_None_Some.
Qed.

Lemma receive_moves s t raw : receiving s = RIdle ->
  segment_moves s (_receive sha256_hex valid_input max_pending t raw).
Proof.
  intros Hi. destruct raw as [raw|]; [|apply quiet_segment; unfold _receive; along_steps].
  unfold _receive. destruct (TunnelEnvelope_validate _ _ raw) as [e|?] eqn:Hv; [|apply quiet_segment; along_steps].
  intros s0 ->. unfold bind at 1. destruct (_validate_bindings e (idle s)) as [[[]|err] s1] eqn:Hb.
  2: { apply still_quiet. pose proof (still_validate e (idle s)) as H. by rewrite Hb in H. }
  apply validate_bindings_ok in Hb as (-> & own & Ht & _ & Ha & Hd & Hl).
  destruct (decide (kind e = OPERATION)) as [Hk|Hk].
  - rewrite Hk. rewrite Hk in Hl. specialize (Hl ltac:(done)).
    destruct (receive_operation_accepts t raw e own (idle s) Hv Hk Ht Ha Hd Hl _ eq_refl) as [Hq|(E & x & Hc & Hx & Hr & Hg)];
      destruct (receive_operation _ _ _ t e (idle s)) as [[[]|err] s1]; cbn in *; try done; [by apply move_idle|].
    by apply (mv_accept _ _ own x (now t) (mono t)); [destruct Hc; split|..].
  - apply (quiet_segment s (match kind e, correlation_id e with
          | TERMINAL_ACK, Some c => receive_ack e c
          | HEARTBEAT, _ => _send_new sha256_hex valid_input t HEARTBEAT_ACK [] (Some (message_id e)) None None false
          | HEARTBEAT_ACK, _ | WELCOME, _ | OPERATION_CANCEL, _ => ret tt
          | OPERATION, _ => receive_operation sha256_hex valid_input max_pending t e
          | _, _ => raise (AgentError "protocol_error" false [])
          end)); [|done].
    destruct (kind e); try done; along_steps.
Qed.

(** [record_received] answers with the row of the operation in place. *)
Lemma record_received_row at_ r d b d' : record_received at_ r d = (Ok b, d') ->
  (b = true -> operations d !! rc_operation_id r = None) /\
  exists row, operations d' !! rc_operation_id r = Some row /\ op_bindings row = rc_bindings r.
Proof.
  unfold record_received, bind, gets, modify, ret. cbn [id].
  destruct (operations d !! rc_operation_id r) as [row|] eqn:E.
  - destruct (_ || _) eqn:E1; [done|]. apply orb_false_iff in E1 as [E1 _].
    apply negb_false_iff, bool_decide_eq_true in E1. unfold when.
    destruct (_ <? _); intros [= <- <-]; (split; [done|]); [|by exists row].
    eexists. split; [apply lookup_insert_eq|done].
  - destruct (references_project d _); intros [= <- <-]. split; [done|].
    eexists. split; [apply lookup_insert_eq|done].
Qed.

Lemma journaled_receipt s x row : op_bindings row = rc_bindings (receipt_of s x) -> journaled x row.
Proof. unfold op_bindings, rc_bindings, receipt_of. cbn. intros [=]. by split. Qed.

Lemma record_moves s t x ra rm : receiving s = RRecord x ra rm ->
  segment_moves s (s <- gets id ;; inserted <- run_db (record_received (now t) (receipt_of s x)) ;;
                   goto (RRecorded x ra rm inserted)).
Proof.
  intros Hi s0 ->. unfold bind, gets, run_db. cbn [id].
  pose proof (evolving_record (now t) (receipt_of (idle s) x) (database (idle s))) as Hev.
  destruct (record_received _ _ _) as [[b|err] d] eqn:E; [|by split; [split|left]].
  apply record_received_row in E as (E1 & row & E2 & E3).
  apply (mv_record _ _ x ra rm b); try done. exists row. split; [done|]. by eapply journaled_receipt.
Qed.

Lemma start_dispatch_starts s s1 x b reconcile : dispatches s x b reconcile -> still (idle s) s1 ->
  move s (_start_dispatch x b reconcile s1).2.
Proof.
  intros H [[] Hr]. eapply mv_dispatch; [exact H|]. split; cbn; try done; [by rewrite cm_tasks0| | |].
  - by rewrite cm_pending0, cm_tasks0.
  - by eexists.
  - by rewrite Hr.
Qed.

Lemma recorded_moves s t x ra rm inserted : receiving s = RRecorded x ra rm inserted ->
  segment_moves s (receive_recorded sha256_hex valid_input t x ra rm inserted).
Proof.
  intros Hi s0 ->. unfold receive_recorded. unfold bind at 1.
  match goal with |- context [_send_new ?a ?b ?c ?d ?e ?f ?g ?h ?i ?s] =>
    pose proof (still_send_new c d e f g h i s) as Hs; destruct (_send_new a b c d e f g h i s) as [[[]|err] s1] end;
    [|by apply still_quiet].
  destruct inserted.
  - apply (start_dispatch_starts s s1 x _ false); [|done]. by eapply dispatches_new.
  - destruct Hs as [[] Hr]. by apply (mv_prior _ _ x ra rm).
Qed.

Lemma duplicate_moves s t x ra rm prior : receiving s = RGot x ra rm prior ->
  segment_moves s (receive_duplicate sha256_hex valid_input t x ra rm prior).
Proof.
  intros Hi. unfold receive_duplicate. destruct (truthy _) as [[]|]; try (apply quiet_segment; along_steps; fail).
  intros s0 ->. unfold bind, gets. cbn [id]. destruct (active _ _); [by apply move_idle|].
  destruct (native x) eqn:Hn; [by apply (mv_terminalize _ _ x ra rm prior)|].
  apply (start_dispatch_starts s (idle s) x _ true); [|done]. eapply dispatches_again; [done|done|].
  destruct (operation_budgets _ !! _); [cbn; lia|done].
Qed.

Lemma segment_is_move s t raw metadata :
  segment_moves s (receiver_segment sha256_hex valid_input max_pending t raw metadata (receiving s)).
Proof.
  destruct (receiving s) eqn:Hr; cbn [receiver_segment];
    try (apply quiet_segment; unfold pop_terminal; along_steps; fail).
  - by apply receive_moves.
  - by apply record_moves.
  - by apply recorded_moves.
  - intros s0 ->. by apply (mv_got _ _ x received_at received_monotonic).
  - by apply duplicate_moves.
Qed.

Lemma receive_step_moves t raw metadata s :
  move s (receive_step sha256_hex valid_input max_pending t raw metadata s).2.
Proof.
  unfold receive_step, bind, gets, goto, modify, try_except.
  pose proof (segment_is_move s t raw metadata (idle s) eq_refl) as H.
  destruct (receiver_segment _ _ _ _ _ _ _ (idle s)) as [[[]|e] s1]; [exact H|].
  destruct (caught e); apply move_idle; [|exact H]. etransitivity; [exact H|apply quiet_disconnected].
Qed.

(** ** The segments of a task *)

Lemma move_task s s1 n k ph : tasks s !! n = Some k -> advances (ts_budget k) (ts_phase k) ph ->
  still s s1 -> move s (task_goto n ph s1).2.
Proof.
  intros Hk Ha [[] Hr]. eapply mv_task; [done|done| |split|]; cbn; try done. by rewrite cm_tasks0.
Qed.

Lemma move_still s s' : still s s' -> move s s'.
Proof. intros H. apply move_quiet. by apply still_quiet. Qed.

(** A still computation followed by the next phase; on an exception [h]. *)
Lemma task_advances {T} (m : M T) n k s ph h :
  tasks s !! n = Some k -> along still m -> advances (ts_budget k) (ts_phase k) ph ->
  (forall s1, still s s1 -> move s (h s1).2) ->
  move s (try_except (_ <- m ;; task_goto n ph) (fun _ => h) s).2.
Proof.
  intros Hk Hm Ha Hh. specialize (Hm s). unfold try_except, bind.
  destruct (m s) as [[v|e] s1]; [by eapply (move_task s s1)|].
  destruct (caught e); [by apply Hh|by apply move_still].
Qed.

Lemma dispatch_report_moves t n k p s : tasks s !! n = Some k ->
  rtc move s (try_except (dispatch_report sha256_hex valid_input t n k p) (fun _ => task_goto n TFinished) s).2.
Proof.
  intros Hk. unfold dispatch_report, try_except, bind at 1 2, modify.
  set (s1 := upd_budgets _ s). set (s2 := (task_goto n TFinished s1).2).
  assert (move s s2) as H2.
  { apply (move_task s s1 n k); [done|done|]. apply (still_forget (dl_id (ts_delivery k)) s). }
  change (task_goto n TFinished s1) with (Ok tt, s2). cbn beta iota.
  pose proof (still_result t (dl_envelope (ts_delivery k)) p s2) as H3.
  destruct (send_result _ _ _ _ _ s2) as [[[]|e] s3]; [eapply rtc_l; [exact H2|]; by apply rtc_once, move_still|].
  eapply rtc_l; [exact H2|]. apply rtc_once. destruct (caught e); [|by apply move_still].
  eapply (move_task s2 s3 n (set_phase TFinished k)); [|done|done].
  cbn. by rewrite list_lookup_alter_eq, Hk.
Qed.

Lemma dispatch_segment_moves t n k o s : tasks s !! n = Some k ->
  rtc move s (try_except (dispatch_segment sha256_hex valid_input t n k o) (fun _ => task_goto n TFinished) s).2.
Proof.
  intros Hk. assert (forall s1, still s s1 -> move s (task_goto n TFinished s1).2) as Hf.
  { intros s1 H1. by apply (move_task s s1 n k). }
  assert (forall s1 x e, ts_phase k <> TFinished -> still s s1 -> move s (settle_error n x e s1).2) as He.
  { intros s1 x e Hp H1. by apply (move_task s s1 n k). }
  assert (still s s) as H0 by reflexivity.
  unfold dispatch_segment. destruct (ts_phase k) eqn:Hp; rewrite ?Hp in He.
  - apply rtc_once, task_advances with (k := k); [done|apply still_db, evolving_transition| |done]. by rewrite Hp.
  - apply rtc_once. unfold dispatch_ready. destruct (elapsed t (ts_budget k)) eqn:Hel.
    { apply (He s (ts_delivery k) (deadline_error (native (ts_delivery k)) false) ltac:(done) H0). }
    unfold try_except, bind.
    match goal with |- context [_send_new ?a ?b ?c ?d ?e ?f ?g ?h ?i s] =>
      pose proof (still_send_new c d e f g h i s) as H; destruct (_send_new a b c d e f g h i s) as [[[]|err] s1] end.
    + apply (move_task s s1 n k); [done| |done]. rewrite Hp. cbn.
      unfold elapsed in Hel. apply orb_false_iff in Hel as [? ?]. split; [done|lia].
    + destruct (caught err) eqn:Hc; [by apply He|]. cbn beta iota. rewrite Hc. by apply move_still.
  - apply rtc_once. unfold dispatch_enter. destruct o; try (apply (He s _ _ ltac:(done) H0); fail);
      (eapply (mv_enter _ _ n k checked_now checked_mono); try done; by split).
  - apply rtc_once. unfold dispatch_outcome. destruct o; try (apply (He s _ _ ltac:(done) H0); fail); [|by apply Hf].
    destruct (elapsed t (ts_budget k)); [apply (He s _ _ ltac:(done) H0)|]. apply (move_task s s n k); by rewrite ?Hp.
  - apply rtc_once. unfold dispatch_settle. destruct (durable_tool_result sha256_hex p) as [durable|]; [|by apply Hf].
    apply task_advances with (k := k); [done|apply still_db, evolving_transition|by rewrite Hp|done].
  - by apply dispatch_report_moves.
  - apply rtc_once. by apply move_still.
Qed.

Lemma dispatch_step_moves t n o s : rtc move s (dispatch_step sha256_hex valid_input t n o s).2.
Proof.
  unfold dispatch_step, bind at 1, gets. cbn [id]. destruct (tasks s !! n) as [k|] eqn:Hk; [|by apply rtc_refl].
  destruct o; try (by apply (dispatch_segment_moves t n k)).
  apply rtc_once. by apply (move_task s s n k).
Qed.

Lemma completed_moves n s : move s (completed n s).2.
Proof.
  unfold completed, bind, gets. cbn [id]. destruct (tasks s !! n) as [k|]; [|by apply mv_done].
  unfold when. destruct (task_done s n) eqn:Hd; [|by apply mv_done]. cbn.
  assert (forall m, m ∈ pending s -> m ∉ pending s ∖ {[n]} -> task_done s m = true) as Hgone.
  { intros m Hm Hn. destruct (decide (m = n)) as [->|Hne]; [done|]. destruct Hn. apply elem_of_difference.
    split; [done|]. by apply not_elem_of_singleton. }
  case_bool_decide; (apply mv_done; [done|done| |exact Hgone|done..]); apply subseteq_difference_l; done.
Qed.

(** ** Every event is a sequence of moves *)

Definition ticket_of (e : event) : option WebSocketTicket :=
  match e with EConnect _ k _ => Some k | _ => None end.

Lemma connect_moves t k accepted s : issued k -> receiving s = ROffline -> move s (connect t k accepted s).2.
Proof.
  intros Hi Hr. unfold connect, bind, gets. cbn [id]. unfold when. case_bool_decide; [|by apply move_still].
  apply (mv_connect _ _ k); try (by destruct accepted). destruct accepted; [done|]. cbn. by rewrite Hr.
Qed.

Lemma step_moves e s : (forall own, ticket_of e = Some own -> issued own) ->
  rtc move s (step sha256_hex valid_input max_pending e s).
Proof.
  intros Ht. destruct e as [t k accepted|t raw metadata| |t n o|n|t|t metadata|at_ c|]; cbn [step].
  - destruct (receiving s) eqn:Hr; try reflexivity. apply rtc_once, connect_moves; [by apply Ht|done].
  - apply rtc_once, receive_step_moves.
  - destruct (receiving s); try reflexivity; apply rtc_once, move_quiet, quiet_disconnected.
  - apply dispatch_step_moves.
  - apply rtc_once, completed_moves.
  - apply rtc_once, move_still, still_heartbeat.
  - apply rtc_once, move_still, still_sync.
  - apply rtc_once, move_still. split; [split|]; try done. apply evolving_exec.
  - by apply rtc_once, mv_crash.
Qed.

(** An invariant of moves holds throughout a history. *)
Lemma moves_run (I : client -> Prop) es s :
  (forall s s', I s -> move s s' -> I s') -> (forall e own, In e es -> ticket_of e = Some own -> issued own) ->
  I s -> I (run sha256_hex valid_input max_pending s es).
Proof.
  intros HI. unfold run. revert s. induction es as [|e es IH]; intros s Hi Hs; [done|]. cbn [foldl].
  apply IH; [intros; eapply Hi; [by right|done]|].
  assert (rtc move s (step sha256_hex valid_input max_pending e s)) as H.
  { apply step_moves. intros own Ho. by apply (Hi e own); [left|]. }
  revert Hs. generalize (step sha256_hex valid_input max_pending e s), H. clear -HI.
  intros s' H. induction H; [done|]. intros Hx. apply IHrtc. by eapply HI.
Qed.
End moves.
