(* ===== verification/TunnelHistory.v ===== *)
(** * Histories of the tunnel

    What holds in every history of connections, redeliveries, crashes and
    interleaved tasks: a native action runs at most once, the handler only sees
    operations that are validated, bound and in time, the queue is bounded, and a
    reconnection sends every unacknowledged result again. *)
From S2P Require Import Prelude Utf8 PyStr Models Paths Database Json Envelope Tunnel TunnelMoves.

Open Scope Z_scope.

(** ** A native action runs at most once *)

Definition native_id (i : str) (x : delivery) : bool := native x && bool_decide (dl_id x = i).

(** The calls of the handler for one native action: made, and still possible. *)
Definition claim_task (i : str) (t : Task) : nat :=
  if native_id i (ts_delivery t) && live (ts_phase t) then 1%nat else 0%nat.
Definition claim_receiver (i : str) (r : receiver) : nat :=
  match r with
  | RRecorded x _ _ true => if native_id i x then 1%nat else 0%nat
  | _ => 0%nat
  end.
Definition native_calls (i : str) (s : client) : list HandlerCall :=
  filter (fun c => native_id i (hc_delivery c) = true) (calls s).
Definition claims (i : str) (s : client) : nat :=
  (claim_receiver i (receiving s) + sum_list_with (claim_task i) (tasks s) + length (native_calls i s))%nat.

Lemma claim_nothing i r : carries r = None -> claim_receiver i r = 0%nat.
Proof. by destruct r. Qed.

Lemma sum_alter (f : Task -> nat) g n l k : l !! n = Some k ->
  (sum_list_with f (alter g n l) + f k = sum_list_with f l + f (g k))%nat.
Proof.
  revert n. induction l as [|a l IH]; intros [|n] H; try done.
  - injection H as ->. cbn. lia.
  - specialize (IH n H). change (alter g (S n) (a :: l)) with (a :: alter g n l). cbn [sum_list_with]. lia.
Qed.

Lemma claims_calm i s s' : calm s s' ->
  (claims i s' + claim_receiver i (receiving s) = claims i s + claim_receiver i (receiving s'))%nat.
Proof. intros []. unfold claims, native_calls. rewrite cm_tasks, cm_calls. lia. Qed.

Section histories.
  Context (sha256_hex : bytes -> str) (valid_input : str -> json -> bool) (max_pending : nat)
    (issued : WebSocketTicket -> Prop).
  Notation move := (move sha256_hex valid_input max_pending issued).
  Notation run := (run sha256_hex valid_input max_pending).

(** Only the first record of an operation adds a claim. *)
Lemma claims_move i s s' : move s s' ->
  (claims i s' <= claims i s)%nat \/
  ((claims i s' <= S (claims i s))%nat /\ operations (database s) !! i = None /\
   is_Some (operations (database s') !! i)).
Proof.
  destruct 1 as [Hc [Hr|Hr]|own Hi Ht Hc Hp Hb Hd Ho Hr|own x ra rm Hc _ _ _ Hr|x ra rm inserted Hc Hr Hr' Hi (row & Hrow & _)
    |x ra rm Hc Hr Hr'|x ra rm Hc Hr Hr'|x ra rm prior Hc Hr Hr'|x b reconcile Hd [Ht Hc _ _ _ _ Hr]
    |n k ph Hk Ha Ht Hc Hr|n k a b Hk Hp Ht Hc' Hc Hr|Ht Hc _ _ _ _ _ Hr| ->].
  - left. pose proof (claims_calm i _ _ Hc). rewrite Hr in *. lia.
  - left. pose proof (claims_calm i _ _ Hc). rewrite (claim_nothing i (receiving s')) in * by done. lia.
  - left. unfold claims, native_calls. rewrite Ht, Hc, (claim_nothing i (receiving s')) by done. lia.
  - left. pose proof (claims_calm i _ _ Hc). rewrite Hr in *. cbn in *. lia.
  - pose proof (claims_calm i _ _ Hc) as H. rewrite Hr, Hr' in H. cbn in H.
    destruct inserted; [|left; lia]. destruct (native_id i x) eqn:E; [|left; lia]. right.
    apply andb_true_iff in E as [_ E%bool_decide_eq_true]. subst i. split; [lia|]. eauto.
  - left. pose proof (claims_calm i _ _ Hc) as H. rewrite Hr, Hr' in H. cbn in H. lia.
  - left. pose proof (claims_calm i _ _ Hc) as H. rewrite Hr, Hr' in H. cbn in H. lia.
  - left. pose proof (claims_calm i _ _ Hc) as H. rewrite Hr, Hr' in H. cbn in H. lia.
  - left. unfold claims, native_calls. rewrite Hc, Ht, (claim_nothing i (receiving s')) by done.
    rewrite sum_list_with_app. cbn. unfold claim_task at 2. cbn. destruct Hd as [ra rm Hd _|ra rm prior Hd Hn _].
    + rewrite Hd. cbn. destruct (native_id i x); cbn; lia.
    + unfold native_id. rewrite Hn. cbn. lia.
  - left. destruct Hc as [_ Hc _ _ _ _ _]. unfold claims, native_calls. rewrite Hr, Ht. cbn in Hc. rewrite Hc.
    pose proof (sum_alter (claim_task i) (set_phase ph) n (tasks s) k Hk) as H.
    enough (claim_task i (set_phase ph k) <= claim_task i k)%nat by lia.
    unfold claim_task. cbn. destruct (native_id _ _); [|done]. cbn. destruct ph; cbn in *; try done; try lia.
    + by rewrite Ha.
    + by rewrite (proj1 Ha).
  - left. unfold claims, native_calls. rewrite Hr, Ht, Hc', filter_app, length_app.
    pose proof (sum_alter (claim_task i) (set_phase THandling) n (tasks s) k Hk) as H.
    unfold claim_task at 2 4 in H. rewrite Hp in H. cbn in H. rewrite andb_true_r, andb_false_r in H.
    rewrite filter_cons, filter_nil. cbn [hc_delivery]. destruct (native_id i (ts_delivery k)) eqn:E.
    + rewrite decide_True by done. cbn. lia.
    + rewrite decide_False by done. cbn. lia.
  - left. unfold claims, native_calls. by rewrite Ht, Hc, Hr.
  - left. unfold claims, native_calls. cbn. lia.
Qed.

Lemma move_journal s s' : move s s' -> ops_evolve (database s) (database s').
Proof.
  destruct 1 as [[]|own ? ? ? ? ? Hd|? ? ? ? []|? ? ? ? []|? ? ? []|? ? ? []|? ? ? ? []|? ? ? ? []
    |? ? ? ? ? ? []|? ? ? ? ? ? ? ? []|? ? ? ? ? ? Hd| ->]; try done; by rewrite Hd.
Qed.

Definition claim_limit (d : db) (i : str) : nat :=
  if bool_decide (is_Some (operations d !! i)) then 0%nat else 1%nat.

(** The invariant: claims within the limit, none without a row. *)
Definition claimed (d : db) (s : client) : Prop :=
  ops_evolve d (database s) /\
  forall i, (claims i s <= claim_limit d i)%nat /\ (operations (database s) !! i = None -> claims i s = 0%nat).

Lemma claimed_move d s s' : claimed d s -> move s s' -> claimed d s'.
Proof.
  intros [He H] Hm. pose proof (move_journal _ _ Hm) as Hj. split; [by transitivity (database s)|]. intros i.
  destruct (H i) as [H1 H2]. destruct (claims_move i _ _ Hm) as [Hc|(Hc & Hn & Hy)].
  - split; [lia|]. intros Hn. assert (operations (database s) !! i = None) as E; [|specialize (H2 E); lia].
    apply eq_None_not_Some. intros [o Ho]. destruct (Hj i o Ho) as (o' & Ho' & _). congruence.
  - split; [|intros E; by rewrite E in Hy; destruct Hy]. unfold claim_limit.
    case_bool_decide as Hs; [|specialize (H2 Hn); lia].
    destruct Hs as [o Ho]. destruct (He i o Ho) as (o' & Ho' & _). congruence.
Qed.

(** ** The handler sees only bound operations *)

Definition budget_bound (row : Operation) (x : delivery) (b : _ExecutionBudget) (reconcile : bool) : Prop :=
  local_deadline b <= dl_deadline x /\
  (reconcile = true -> local_deadline b <= op_received_at row + (dl_deadline x - sent_at (dl_envelope x))).

(** A delivery for this device with its row in the journal. *)
Definition on_record (d : db) (x : delivery) (P : Operation -> Prop) : Prop :=
  exists own row, issued own /\ delivered sha256_hex valid_input own x /\
    operations d !! dl_id x = Some row /\ journaled x row /\ P row.

Definition task_bound (d : db) (t : Task) : Prop :=
  on_record d (ts_delivery t) (fun row => budget_bound row (ts_delivery t) (ts_budget t) (ts_reconcile t)) /\
  match ts_phase t with
  | TStarting n m => n < local_deadline (ts_budget t) /\ m < monotonic_deadline (ts_budget t)
  | _ => True
  end.

Definition call_bound (d : db) (c : HandlerCall) : Prop :=
  on_record d (hc_delivery c) (fun row => budget_bound row (hc_delivery c) (hc_budget c) (hc_reconcile c)) /\
  hc_deadline c = local_deadline (hc_budget c) /\
  hc_checked_now c < hc_deadline c /\ hc_checked_mono c < monotonic_deadline (hc_budget c).

Definition receiver_bound (d : db) (r : receiver) : Prop :=
  match r with
  | RRecord x _ _ => exists own, issued own /\ delivered sha256_hex valid_input own x
  | RRecorded x _ _ _ | RPrior x _ _ | RTerminalize x => on_record d x (fun _ => True)
  | RGot x _ _ prior => on_record d x (fun row => exists o, prior = Some o /\ op_received_at o = op_received_at row)
  | _ => True
  end.

Record bound (s : client) : Prop := {
  bd_ticket : forall own, ticket s = Some own -> issued own;
  bd_receiver : receiver_bound (database s) (receiving s);
  bd_tasks : Forall (task_bound (database s)) (tasks s);
  bd_calls : Forall (call_bound (database s)) (calls s);
}.

Lemma journaled_evolves x row row' : op_evolves row row' -> journaled x row ->
  journaled x row' /\ op_received_at row' = op_received_at row.
Proof.
  intros [Hf _ _ _] []. unfold op_fixed in Hf. injection Hf as E1 E2 E3 E4 E5 E6 E7 E8 E9 E10 E11.
  split; [|done]. split; congruence.
Qed.

Lemma on_record_mono d d' x (P Q : Operation -> Prop) : ops_evolve d d' ->
  (forall row row', op_received_at row' = op_received_at row -> P row -> Q row') ->
  on_record d x P -> on_record d' x Q.
Proof.
  intros He HP (own & row & H1 & H2 & H3 & H4 & H5). destruct (He _ _ H3) as (row' & H6 & H7).
  destruct (journaled_evolves _ _ _ H7 H4) as [H8 H9]. exists own, row'. eauto 10.
Qed.

Lemma budget_bound_mono x b reconcile row row' :
  op_received_at row' = op_received_at row -> budget_bound row x b reconcile -> budget_bound row' x b reconcile.
Proof. unfold budget_bound. by intros ->. Qed.

Lemma task_bound_mono d d' t : ops_evolve d d' -> task_bound d t -> task_bound d' t.
Proof. intros He [H1 H2]. split; [|done]. eapply on_record_mono; [done| |done]. apply budget_bound_mono. Qed.
Lemma call_bound_mono d d' c : ops_evolve d d' -> call_bound d c -> call_bound d' c.
Proof. intros He [H1 H2]. split; [|done]. eapply on_record_mono; [done| |done]. apply budget_bound_mono. Qed.
Lemma receiver_bound_mono d d' r : ops_evolve d d' -> receiver_bound d r -> receiver_bound d' r.
Proof.
  intros He. destruct r; cbn; try done; apply on_record_mono; try done.
  intros row row' E (o & -> & H). exists o. split; [done|congruence].
Qed.
Lemma receiver_bound_idle d r : carries r = None -> receiver_bound d r.
Proof. by destruct r. Qed.

(** A calm change keeps what it does not mention. *)
Lemma bound_calm s s' : bound s -> calm s s' -> receiver_bound (database s') (receiving s') -> bound s'.
Proof.
  intros [H1 H2 H3 H4] [] Hr. split; [by rewrite cm_ticket|done| |].
  - rewrite cm_tasks. eapply Forall_impl; [done|]. intros t. by apply task_bound_mono.
  - rewrite cm_calls. eapply Forall_impl; [done|]. intros t. by apply call_bound_mono.
Qed.

Lemma dispatched_bound s x b reconcile : bound s -> dispatches s x b reconcile ->
  on_record (database s) x (fun row => budget_bound row x b reconcile).
Proof.
  intros [_ H _ _] [ra rm E ->|ra rm prior E _ Hb]; rewrite E in H; cbn in H;
    destruct H as (own & row & H1 & H2 & H3 & H4 & H5); exists own, row; split_and!; try done.
  - split; [cbn; lia|done].
  - destruct H5 as (o & -> & H5). change (op_received_at <$> Some o) with (Some (op_received_at o)) in Hb.
    unfold from_envelope in Hb. cbn in Hb. split; [|intros _]; lia.
Qed.

Lemma Forall_alter {A} (P : A -> Prop) f n (l : list A) k : Forall P l -> l !! n = Some k -> P (f k) -> Forall P (alter f n l).
Proof.
  intros Hl. revert n. induction Hl as [|a l Ha Hl IH]; intros [|n] Hn Hf; try done.
  - injection Hn as ->. by constructor.
  - change (Forall P (a :: alter f n l)). constructor; [done|]. by apply IH.
Qed.

Lemma bound_move s s' : bound s -> move s s' -> bound s'.
Proof.
  intros Hb Hm. pose proof (move_journal _ _ Hm) as He. pose proof Hb as [B1 B2 B3 B4].
  destruct Hm as [Hc Hr|own Hi Ht Hc Hp Hbd Hd Ho Hr|own x ra rm Hc Ht Hx _ Hr|x ra rm inserted Hc Hr Hr' Hi (row & Hrow & Hj)
    |x ra rm Hc Hr Hr'|x ra rm Hc Hr Hr'|x ra rm prior Hc Hr Hr'|x b reconcile Hd [Ht Hc _ Htk _ _ Hr]
    |n k ph Hk Ha Ht Hc Hr|n k a b Hk Hp Ht Hc' Hc Hr|Ht Hc _ _ Htk _ Hd Hr| ->].
  - apply (bound_calm s); [done..|]. destruct Hr as [->|Hr]; [by eapply receiver_bound_mono|by apply receiver_bound_idle].
  - split; [|by apply receiver_bound_idle|by rewrite Ht, Hd|by rewrite Hc, Hd].
    rewrite Ho. by intros ? [= <-].
  - apply (bound_calm s); [done..|]. rewrite Hr. exists own. split; [by apply B1|done].
  - apply (bound_calm s); [done..|]. rewrite Hr'. rewrite Hr in B2. destruct B2 as (own & H1 & H2). by exists own, row.
  - apply (bound_calm s); [done..|]. rewrite Hr'. rewrite Hr in B2. by eapply on_record_mono.
  - apply (bound_calm s); [done..|]. rewrite Hr'. rewrite Hr in B2. destruct B2 as (own & row & H1 & H2 & H3 & H4 & _).
    destruct (He _ _ H3) as (row' & H6 & H7). destruct (journaled_evolves _ _ _ H7 H4) as [H8 H9].
    exists own, row'. split_and!; try done. by exists row.
  - apply (bound_calm s); [done..|]. rewrite Hr'. rewrite Hr in B2. by eapply on_record_mono.
  - split; [by rewrite Htk|by apply receiver_bound_idle| |].
    + rewrite Ht. apply Forall_app. split; [eapply Forall_impl; [done|]; intros t; by apply task_bound_mono|].
      constructor; [|done]. split; [|done]. cbn. eapply on_record_mono; [done| |by apply dispatched_bound].
      apply budget_bound_mono.
    + rewrite Hc. eapply Forall_impl; [done|]. intros c. by apply call_bound_mono.
  - destruct Hc as [_ Hc _ _ Htk _ _]. cbn in Hc, Htk. split; [by rewrite Htk| | |].
    + rewrite Hr. by eapply receiver_bound_mono.
    + rewrite Ht. assert (Forall (task_bound (database s')) (tasks s)) as Hall.
      { eapply Forall_impl; [exact B3|]. intros t. by apply task_bound_mono. }
      eapply Forall_alter; [done|done|]. destruct (proj1 (Forall_lookup _ _) Hall _ _ Hk) as [H1 H2].
      split; [done|]. cbn. destruct ph; try done. by destruct Ha.
    + rewrite Hc. eapply Forall_impl; [done|]. intros c. by apply call_bound_mono.
  - destruct Hc as [_ _ _ _ Htk _ _]. cbn in Htk.
    assert (Forall (task_bound (database s')) (tasks s)) as Hall.
    { eapply Forall_impl; [exact B3|]. intros t. by apply task_bound_mono. }
    destruct (proj1 (Forall_lookup _ _) Hall _ _ Hk) as [H1 H2]. rewrite Hp in H2. split; [by rewrite Htk| | |].
    + rewrite Hr. by eapply receiver_bound_mono.
    + rewrite Ht. by eapply Forall_alter.
    + rewrite Hc'. apply Forall_app. split; [eapply Forall_impl; [done|]; intros c; by apply call_bound_mono|].
      by constructor.
  - rewrite Hd in *. split; rewrite ?Hd, ?Htk, ?Hr, ?Ht, ?Hc; done.
  - split; done.
Qed.

(** ** The queue is bounded *)

Record queue_bound (s : client) : Prop := {
  qb_pending : (size (pending s) <= max_pending)%nat;
  qb_budgets : (size (operation_budgets s) <= max_pending)%nat;
  qb_room : forall x, carries (receiving s) = Some x -> room max_pending s x;
}.

Lemma room_kept s s' x : pending s' = pending s -> operation_budgets s' ⊆ operation_budgets s ->
  (size (operation_budgets s) <= max_pending)%nat -> room max_pending s x -> room max_pending s' x.
Proof.
  intros Hp Hb Hs [H1 H2]. split; [by rewrite Hp|]. pose proof (map_subseteq_size _ _ Hb) as Hsize.
  destruct (operation_budgets s' !! dl_id x) eqn:E; [right; done|left]. destruct H2 as [H2|[b H2]]; [lia|].
  enough (size (operation_budgets s') < size (operation_budgets s))%nat by lia.
  apply map_subset_size. split; [done|]. intros Hb'. pose proof (lookup_weaken _ _ _ _ H2 Hb'). congruence.
Qed.

Lemma room_calm s s' x : calm s s' -> (size (operation_budgets s) <= max_pending)%nat ->
  room max_pending s x -> room max_pending s' x.
Proof. intros []. by apply room_kept. Qed.

Lemma queue_calm s s' : queue_bound s -> calm s s' ->
  (forall x, carries (receiving s') = Some x -> room max_pending s' x) -> queue_bound s'.
Proof.
  intros [H1 H2 H3] Hc Hr. split; [by rewrite (cm_pending _ _ Hc)| |done].
  pose proof (map_subseteq_size _ _ (cm_budgets _ _ Hc)). lia.
Qed.

Lemma queue_move s s' : queue_bound s -> move s s' -> queue_bound s'.
Proof.
  intros Hq Hm. pose proof Hq as [Q1 Q2 Q3].
  assert (forall x, carries (receiving s) = Some x -> calm s s' -> carries (receiving s') = Some x -> queue_bound s') as Hkeep.
  { intros x E Hc E'. apply (queue_calm s); [done..|]. intros y Hy. rewrite E' in Hy. injection Hy as <-.
    by apply (room_calm s); [..|apply Q3]. }
  destruct Hm as [Hc [Hr|Hr]|own Hi Ht Hc Hp Hbd Hd Ho Hr|own x ra rm Hc Ht _ Hx Hr|x ra rm inserted Hc Hr Hr' Hi _
    |x ra rm Hc Hr Hr'|x ra rm Hc Hr Hr'|x ra rm prior Hc Hr Hr'|x b reconcile Hd [Ht Hc Hp Htk (m & Hm & Hb) _ Hr]
    |n k ph Hk Ha Ht Hc Hr|n k a b Hk Hp Ht Hc' Hc Hr|Ht Hc Hp Hgone Htk Hb Hd Hr| ->].
  - apply (queue_calm s); [done..|]. intros x Hx. rewrite Hr in Hx. by apply (room_calm s); [..|apply Q3].
  - apply (queue_calm s); [done..|]. by rewrite Hr.
  - split; [by rewrite Hp|by rewrite Hbd|by rewrite Hr].
  - apply (queue_calm s); [done..|]. rewrite Hr. cbn. by intros ? [= <-].
  - by apply (Hkeep x); rewrite ?Hr, ?Hr'.
  - by apply (Hkeep x); rewrite ?Hr, ?Hr'.
  - by apply (Hkeep x); rewrite ?Hr, ?Hr'.
  - by apply (Hkeep x); rewrite ?Hr, ?Hr'.
  - assert (room max_pending s x) as [R1 R2] by (apply Q3; by destruct Hd as [? ? E|? ? ? E]; rewrite E).
    split; [| |by rewrite Hr].
    + rewrite Hp. pose proof (size_union_alt {[length (tasks s)]} (pending s)).
      assert (size ({[length (tasks s)]} ∪ pending s) <= 1 + size (pending s))%nat; [|lia].
      rewrite size_union_alt, size_singleton. pose proof (subseteq_size (pending s ∖ {[length (tasks s)]}) (pending s) ltac:(set_solver)). lia.
    + rewrite Hb. pose proof (map_subseteq_size _ _ Hm). destruct (m !! dl_id x) eqn:E.
      * rewrite map_size_insert_Some by done. lia.
      * rewrite map_size_insert_None by done. destruct R2 as [R2|[b' R2]]; [lia|].
        enough (size m < size (operation_budgets s))%nat by lia.
        apply map_subset_size. split; [done|]. intros Hb'. pose proof (lookup_weaken _ _ _ _ R2 Hb'). congruence.
  - destruct Hc as [_ _ Hp _ _ Hb _]. cbn in Hp, Hb. pose proof (map_subseteq_size _ _ Hb).
    split; [by rewrite Hp|lia|]. rewrite Hr. intros x Hx. by apply (room_kept s); [..|apply Q3].
  - destruct Hc as [_ _ Hp' _ _ Hb _]. cbn in Hp', Hb. pose proof (map_subseteq_size _ _ Hb).
    split; [by rewrite Hp'|lia|]. rewrite Hr. intros x Hx. by apply (room_kept s); [..|apply Q3].
  - pose proof (subseteq_size _ _ Hp). split; [lia|by rewrite Hb|]. rewrite Hr. intros x Hx.
    destruct (Q3 x Hx) as [R1 R2]. split; [lia|]. by rewrite Hb.
  - split; cbn; [rewrite size_empty; lia|rewrite map_size_empty; lia|done].
Qed.

(** Every unfinished task counts as pending. *)
Definition live_pending (s : client) : Prop :=
  forall n k, tasks s !! n = Some k -> ts_phase k <> TFinished -> n ∈ pending s.

Lemma live_alter s s' n k ph : live_pending s -> tasks s !! n = Some k ->
  (ph <> TFinished -> ts_phase k <> TFinished) -> tasks s' = alter (set_phase ph) n (tasks s) ->
  pending s' = pending s -> live_pending s'.
Proof.
  intros H Hk Hph Ht Hp m k' Hm Hf. rewrite Hp. rewrite Ht in Hm. destruct (decide (m = n)) as [->|Hne].
  - rewrite list_lookup_alter_eq, Hk in Hm. injection Hm as <-. eapply H; [done|]. by apply Hph.
  - rewrite list_lookup_alter_ne in Hm by done. by eapply H.
Qed.

Lemma live_move s s' : live_pending s -> move s s' -> live_pending s'.
Proof.
  intros H. assert (calm s s' -> live_pending s') as Hcalm.
  { intros [] n k. rewrite cm_tasks, cm_pending. apply H. }
  destruct 1 as [|own Hi Ht Hc Hp| | | | | |x b reconcile Hd [Ht Hc Hp _ _ _ _]
    |n k ph Hk Ha Ht [_ _ Hp _ _ _ _] Hr|n k a b Hk Hph Ht Hc' [_ _ Hp _ _ _ _] Hr|Ht Hc Hp Hgone _ _ _ _| ->]; auto.
  - intros n k. rewrite Ht, Hp. apply H.
  - intros n k Hn Hf. rewrite Hp. rewrite Ht in Hn. apply lookup_app_Some in Hn as [Hn|[Hn Hs]].
    + apply elem_of_union_r. by eapply H.
    + apply lookup_lt_Some in Hs. cbn in Hs. replace n with (length (tasks s)) by lia. set_solver.
  - apply (live_alter s s' n k ph); try done. intros Hn. destruct ph; cbn in Ha; try done; [by rewrite Ha|by rewrite (proj1 Ha)].
  - apply (live_alter s s' n k THandling); try done. intros _. by rewrite Hph.
  - intros n k Hn Hf. rewrite Ht in Hn. destruct (decide (n ∈ pending s')) as [|Hm]; [done|].
    specialize (Hgone n (H _ _ Hn Hf) Hm). unfold task_done in Hgone. rewrite Hn in Hgone. by destruct (ts_phase k).
  - done.
Qed.
End histories.

(** The unfinished tasks. *)
Definition unfinished (s : client) : gset nat :=
  filter (fun n => task_done s n = false) (set_seq 0 (length (tasks s))).

Lemma unfinished_pending s : live_pending s -> unfinished s ⊆ pending s.
Proof.
  intros H n [Hd Hn]%elem_of_filter. unfold task_done in Hd. destruct (tasks s !! n) as [k|] eqn:E; [|done].
  apply (H n k E). by destruct (ts_phase k).
Qed.

(** ** The theorems *)

Section theorems.
  Context (sha256_hex : bytes -> str) (valid_input : str -> json -> bool) (max_pending : nat).
  Notation run := (run sha256_hex valid_input max_pending).

(** The tickets of the connections of a history. *)
Definition tickets (es : list event) : list WebSocketTicket := omap ticket_of es.

Lemma ticket_issued es e own : In e es -> ticket_of e = Some own -> own ∈ tickets es.
Proof.
  intros He Ho. apply list_elem_of_omap. exists e. split; [by apply list_elem_of_In|done].
Qed.

(** C3. However often an operation is delivered, over whatever connections, crashes
    and interleavings of the tasks, the handler is called at most once for a
    native action, and not at all when its row was already in the journal when the
    history began. *)
Theorem native_action_once es d i :
  (length (filter (fun c => native (hc_delivery c) = true /\ dl_id (hc_delivery c) = i)
     (calls (run (start d) es))) <= if bool_decide (is_Some (operations d !! i)) then 0 else 1)%nat.
Proof.
  assert (claimed d (run (start d) es)) as [_ H].
  { apply (moves_run _ _ _ (fun own => own ∈ tickets es)); [intros; by eapply claimed_move|by apply ticket_issued|].
    split; [done|]. intros j. cbn. lia. }
  destruct (H i) as [Hi _]. unfold claims, native_calls, claim_limit in Hi.
  erewrite (list_filter_iff _ (fun c => native_id i (hc_delivery c) = true)); [lia|].
  intros c. unfold native_id. by rewrite andb_true_iff, bool_decide_eq_true.
Qed.

(** C12. Every call of the handler, in every history, is for an operation that the
    relay sent with the digest of exactly this tool call, for the account, device
    and link of a ticket of this device and for the project its input names; its
    row with the same bindings is in the journal; it was checked against both
    clocks before the call; and its deadline is neither after the one of the relay
    nor, for a redelivery, later than the first receipt allows. *)
Theorem handler_calls_are_bound es d c :
  In c (calls (run (start d) es)) ->
  exists own row, own ∈ tickets es /\ delivered sha256_hex valid_input own (hc_delivery c) /\
    operations (database (run (start d) es)) !! dl_id (hc_delivery c) = Some row /\
    journaled (hc_delivery c) row /\
    hc_checked_now c < hc_deadline c <= dl_deadline (hc_delivery c) /\
    hc_checked_mono c < monotonic_deadline (hc_budget c) /\
    (hc_reconcile c = true -> hc_deadline c <=
       op_received_at row + (dl_deadline (hc_delivery c) - sent_at (dl_envelope (hc_delivery c)))).
Proof.
  intros Hc. assert (bound sha256_hex valid_input (fun own => own ∈ tickets es) (run (start d) es)) as [_ _ _ H].
  { apply (moves_run _ _ _ (fun own => own ∈ tickets es)); [intros; by eapply bound_move|by apply ticket_issued|done]. }
  rewrite List.Forall_forall in H. destruct (H c Hc) as [(own & row & H1 & H2 & H3 & H4 & H5 & H6) (H7 & H8 & H9)].
  exists own, row. rewrite H7 in *. auto 10.
Qed.

(** The device never holds more operations than its queue allows: pending
    tasks, budgets and unfinished tasks are at most [max_pending], in every
    history. *)
Theorem queue_is_bounded es d :
  (size (pending (run (start d) es)) <= max_pending)%nat /\
  (size (operation_budgets (run (start d) es)) <= max_pending)%nat /\
  (size (unfinished (run (start d) es)) <= max_pending)%nat.
Proof.
  assert (queue_bound max_pending (run (start d) es) /\ live_pending (run (start d) es)) as [[H1 H2 _] H3].
  { apply (moves_run sha256_hex valid_input max_pending (fun own => own ∈ tickets es)
      (fun s => queue_bound max_pending s /\ live_pending s)); [|by apply ticket_issued|].
    - intros s s' [Hq Hl] Hm. split; [by eapply queue_move|by eapply live_move].
    - split; [split; cbn; [rewrite size_empty; lia|rewrite map_size_empty; lia|done]|done]. }
  split_and!; [done|done|]. pose proof (subseteq_size _ _ (unfinished_pending _ H3)). lia.
Qed.
End theorems.

(** ** Samples *)

Definition sample_history : list event :=
  sample_connect 1 7 ++ sample_receive 2 7 (lit "device_desktop") ++ replicate 2 (EDispatch (sample_tick 3) 0 HException) ++
  [EDispatch (sample_tick 4) 0 (HResponse (JObj []) [])].

Example sample_history_calls : map hc_checked_now (calls (sample_run sample_history)) = [3 * SECOND].
Proof. vm_compute. reflexivity. Qed.

Lemma handler_calls_are_bound_witness : exists c own row,
  calls (sample_run sample_history) = [c] /\ own ∈ tickets sample_history /\
  operations (database (sample_run sample_history)) !! lit "operation_00000001" = Some row /\
  op_state row = RUNNING /\ journaled (hc_delivery c) row /\ hc_deadline c <= 45 * SECOND.
Proof.
  edestruct (handler_calls_are_bound sample_sha sample_schema 1 sample_history empty_db)
    as (own & row & H1 & H2 & H3 & H4 & H5 & _); [vm_compute; left; reflexivity|].
  eexists _, own, row. split; [vm_compute; reflexivity|]. split; [exact H1|]. split; [exact H3|].
  split; [|split; [exact H4|exact (proj2 H5)]].
  vm_compute in H3. injection H3 as <-. reflexivity.
Defined.

(** A redelivery of an operation that still runs is answered with a terminal
    [queue_full] failure when the queue is full, by the operation itself if need be. *)
Definition full_queue_history : list event :=
  sample_connect 1 7 ++ sample_receive 2 7 (lit "project_read") ++ sample_call 3 ++ [EDisconnect] ++
  sample_connect 4 8 ++ [EReceiver (sample_tick 5) (Some (sample_operation 8 (lit "project_read"))) []].

Lemma full_queue_denies_running :
  let s := sample_run full_queue_history in
  map (fun t => ts_phase t) (tasks s) = [THandling] /\
  (op_state <$> operations (database s) !! lit "operation_00000001") = Some RUNNING /\
  exists e, last (wire s) = Some e /\ kind e = OPERATION_RESULT /\
    correlation_id e = Some (lit "correlation_00000001") /\ obj_get (lit "ok") (payload e) = Some (JBool false).
Proof. vm_compute. split; [done|]. split; [done|]. eexists. by split_and!. Qed.

(** A task that survived a disconnection sends its result on the next socket as
    soon as it is open, before the WELCOME and under the old epoch. *)
Definition early_result_history : list event :=
  sample_connect 1 7 ++ sample_receive 2 7 (lit "project_read") ++ sample_call 3 ++
  [EDisconnect; EConnect (sample_tick 4) sample_ticket true] ++
  replicate 3 (EDispatch (sample_tick 5) 0 (HResponse (JObj []) [])).

Lemma result_before_welcome :
  let s := sample_run early_result_history in
  receiving s = RWelcome /\
  exists e, last (wire s) = Some e /\ kind e = OPERATION_RESULT /\ connection_epoch e = 7.
Proof. vm_compute. split; [done|]. eexists. by split_and!. Qed.
