(* ===== verification/TunnelReplay.v ===== *)
(** * Results survive the loss of the connection

    After the WELCOME of a new connection the client reads the unacknowledged
    results of the journal and sends each of them again under the new fence,
    whatever the tasks of running operations do meanwhile. *)
From S2P Require Import Prelude Utf8 PyStr Models Paths Database Json Envelope Tunnel.
From stdpp Require Import sorting.

Open Scope Z_scope.

(** ** What the rest of the client does to a connection *)

Record linked (s s' : client) : Prop := {
  lk_receiving : receiving s' = receiving s;
  lk_ticket : ticket s' = ticket s;
  lk_epoch : epoch s' = epoch s;
  lk_socket : socket s' = socket s;
  lk_sequence : out_sequence s <= out_sequence s';
  lk_wire : wire s `prefix_of` wire s';
}.
#[export] Instance linked_preorder : PreOrder linked.
Proof.
  split; [split; done || lia|]. intros a b c [A1 A2 A3 A4 A5 A6] [B1 B2 B3 B4 B5 B6].
  split; try congruence; [lia|by etransitivity].
Qed.

Lemma linked_same s s' : receiving s' = receiving s -> ticket s' = ticket s -> epoch s' = epoch s ->
  socket s' = socket s -> out_sequence s' = out_sequence s -> wire s' = wire s -> linked s s'.
Proof. intros ? ? ? ? E F. split; rewrite ?E, ?F; done || lia. Qed.

Lemma linked_modify f : (forall s, linked s (f s)) -> along linked (modify f).
Proof. intros H s. apply H. Qed.
Lemma linked_db {T} (m : DB T) : along linked (run_db m).
Proof. intros s. unfold run_db. destruct (m (database s)). by apply linked_same. Qed.
Lemma linked_task n ph : along linked (task_goto n ph).
Proof. intros s. by apply linked_same. Qed.
Lemma linked_append e : along linked (modify (upd_wire (fun l => l ++ [e]))).
Proof. intros s. split; try done. by apply prefix_app_r. Qed.
Lemma linked_count :
  along linked (modify (fun s => upd_connection (ticket s) (epoch s) (out_sequence s + 1) (socket s) s)).
Proof. intros s. split; try done. cbn. lia. Qed.
#[export] Hint Resolve linked_db linked_task linked_append linked_count : along.
#[export] Hint Extern 2 (along linked (modify _)) => apply linked_modify; intros; by apply linked_same : along.

Section replay.
  Context (sha256_hex : bytes -> str) (valid_input : str -> json -> bool) (max_pending : nat).
  Notation step := (step sha256_hex valid_input max_pending).
  Notation run := (run sha256_hex valid_input max_pending).

(** The events that do not touch the connection. *)
Definition background (e : event) : Prop :=
  match e with EDispatch _ _ _ | ECompleted _ | EHeartbeat _ | ESync _ _ | EJournal _ _ => True | _ => False end.

Lemma linked_send_new t k p c b d terminal : along linked (_send_new sha256_hex valid_input t k p c b d terminal).
Proof. unfold _send_new, _send. along_steps. Qed.
#[local] Hint Resolve linked_send_new : along.

Lemma linked_segment t n k o : along linked (dispatch_segment sha256_hex valid_input t n k o).
Proof.
  unfold dispatch_segment, dispatch_ready, dispatch_enter, dispatch_outcome, dispatch_settle, dispatch_report,
    settle_error, send_result. along_steps.
Qed.
#[local] Hint Resolve linked_segment : along.

Lemma background_linked e s : background e -> linked s (step e s).
Proof.
  destruct e as [t k accepted|t raw metadata| |t n o|n|t|t metadata|at_ c|]; try done; intros _; cbn [Tunnel.step].
  - revert s. change (along linked (dispatch_step sha256_hex valid_input t n o)). unfold dispatch_step.
    along_steps.
  - revert s. change (along linked (completed n)). unfold completed. along_steps.
  - revert s. change (along linked (heartbeat sha256_hex valid_input t)). unfold heartbeat. along_steps.
  - revert s. change (along linked (sync_projects sha256_hex valid_input t metadata)).
    unfold sync_projects, _hello. along_steps.
Qed.

(** ** One message of the replay *)

(** The parts of the message are well formed, as those of a validated operation are. *)
Definition replayable (r : replay) : Prop :=
  exists c d, rp_correlation r = Some c /\ c <> [] /\ _validate_opaque_id c = Ok c /\
    validate_bindings (rp_bindings r) = Ok (rp_bindings r) /\
    rp_digest r = Some d /\ _validate_sha256 d = Ok d.

(** The socket takes the message, whose fresh identifier is no correlation. *)
Definition takes (rs : list replay) (t : tick) : Prop :=
  send_ok t = true /\ _validate_opaque_id (lit "msg_" ++ token t) = Ok (lit "msg_" ++ token t) /\
  Forall (fun r => rp_correlation r <> Some (lit "msg_" ++ token t)) rs.

Definition on_wire (s : client) (r : replay) : Prop :=
  exists e, In e (wire s) /\ kind e = OPERATION_RESULT /\ connection_epoch e = epoch s /\
    correlation_id e = rp_correlation r /\ payload e = rp_payload r /\ bindings e = rp_bindings r /\
    action_digest e = rp_digest r.

Definition connected (s : client) : Prop :=
  socket s = true /\ ticket s <> None /\ 1 <= epoch s /\ 0 <= out_sequence s.

Lemma connected_linked s s' : linked s s' -> connected s -> connected s'.
Proof. intros [] (H1 & H2 & H3 & H4). split_and!; try congruence; lia. Qed.

Lemma on_wire_linked s s' r : linked s s' -> on_wire s r -> on_wire s' r.
Proof.
  intros [] (e & H & H'). exists e. split; [|by rewrite lk_epoch0]. destruct lk_wire0 as [l ->].
  apply in_or_app. by left.
Qed.

Lemma result_validates e c d : protocol_version e = PROTOCOL_VERSION -> kind e = OPERATION_RESULT ->
  _validate_opaque_id (message_id e) = Ok (message_id e) -> correlation_id e = Some c ->
  _validate_opaque_id c = Ok c -> c <> message_id e -> 0 <= sequence e -> 1 <= connection_epoch e ->
  deadline_at e = None -> validate_bindings (bindings e) = Ok (bindings e) -> action_digest e = Some d ->
  _validate_sha256 d = Ok d -> TunnelEnvelope_validate sha256_hex valid_input e = Ok e.
Proof.
  destruct e as [pv k mid corr sq ep sent dl b dg pl]. cbn. intros -> -> H1 -> H2 H3 H4 H5 -> H6 -> H7. unfold TunnelEnvelope_validate. cbn [message_id
    protocol_version correlation_id sequence connection_epoch bindings action_digest opt_check].
  rewrite H1, H2, H6, H7, (proj2 (Z.ltb_ge _ _) H4), (proj2 (Z.ltb_ge _ _) H5), bool_decide_refl. cbn.
  rewrite (bool_decide_eq_false_2 (Some c = Some _)) by congruence. done.
Qed.

Lemma send_replay_ok t r s : connected s -> replayable r -> takes [r] t ->
  exists s', send_replay sha256_hex valid_input t r s = (Ok tt, s') /\ linked s s' /\ on_wire s' r.
Proof.
  intros (Hs & Ht & He & Hq) (c & d & Hc & Hn & Hcv & Hb & Hd & Hdv) (Hk & Hf & Hne).
  assert (c <> lit "msg_" ++ token t) as Hcf.
  { inversion_clear Hne as [|? ? H _]. intros ->. by rewrite Hc in H. }
  destruct (ticket s) as [own|] eqn:Hown; [|done].
  set (s1 := upd_connection (ticket s) (epoch s) (out_sequence s + 1) (socket s) s).
  set (e := {| protocol_version := PROTOCOL_VERSION; kind := OPERATION_RESULT; message_id := lit "msg_" ++ token t;
    correlation_id := rp_correlation r; sequence := out_sequence s1; connection_epoch := epoch s1; sent_at := now t;
    deadline_at := None; bindings := rp_bindings r; action_digest := rp_digest r; payload := rp_payload r |}).
  assert (TunnelEnvelope_validate sha256_hex valid_input e = Ok e) as Hv.
  { eapply result_validates; try done; cbn; lia. }
  pose (s2 := upd_wire (fun l => l ++ [e]) (upd_terminal_pending (alist_set c e) s1)).
  assert (send_replay sha256_hex valid_input t r s = (Ok tt, s2)) as E.
  { unfold send_replay, _send_new, bind, gets, lift, modify. rewrite Hown. cbn [id default].
    fold s1. fold e. rewrite Hv, Hc. destruct c as [|c0 cs]; [done|]. unfold when, _send, bind, gets.
    cbn. by rewrite Hs, Hk. }
  exists s2. split; [exact E|]. pose proof (linked_send_new t OPERATION_RESULT (rp_payload r) (rp_correlation r)
    (Some (rp_bindings r)) (rp_digest r) true s) as Hl.
  change (_send_new sha256_hex valid_input t OPERATION_RESULT (rp_payload r) (rp_correlation r)
    (Some (rp_bindings r)) (rp_digest r) true s) with (send_replay sha256_hex valid_input t r s) in Hl.
  rewrite E in Hl. split; [exact Hl|]. exists e. split_and!; try done. apply in_or_app. right. by left.
Qed.

(** ** The whole replay *)

(** A segment of the receive loop whose message the socket takes. *)
Definition sends (rs : list replay) (e : event) : Prop :=
  match e with EReceiver t _ _ => takes rs t | _ => False end.
Definition is_receiver (e : event) : bool := match e with EReceiver _ _ _ => true | _ => false end.

Lemma takes_one rs r t : r ∈ rs -> takes rs t -> takes [r] t.
Proof. intros Hr (H1 & H2 & H3). split_and!; try done. constructor; [|done]. by eapply Forall_forall in H3. Qed.

Lemma replay_segment t raw metadata r todo s : receiving s = RReplay (r :: todo) -> connected s -> replayable r ->
  takes [r] t -> let s' := step (EReceiver t raw metadata) s in
  receiving s' = RReplay todo /\ connected s' /\ on_wire s' r /\ forall r', on_wire s r' -> on_wire s' r'.
Proof.
  intros Hr Hc Hv Ht. cbn [Tunnel.step]. unfold receive_step, bind, gets, goto, modify. rewrite Hr. cbn [receiver_segment].
  assert (connected (upd_receiving RIdle s)) as Hi by exact Hc.
  destruct (send_replay_ok t r _ Hi Hv Ht) as (s1 & E & Hl & Hw).
  unfold try_except, bind, goto, modify. rewrite E. cbn [snd]. split; [done|]. split.
  - exact (connected_linked _ _ Hl Hi).
  - split; [exact Hw|]. intros r' Hr'. apply (on_wire_linked _ _ r' Hl). exact Hr'.
Qed.

Lemma replay_runs rs es : forall todo s, receiving s = RReplay todo -> connected s ->
  Forall replayable todo -> todo ⊆ rs -> Forall (fun e => background e \/ sends rs e) es ->
  length (filter (fun e => is_receiver e = true) es) = length todo ->
  receiving (run s es) = RReplay [] /\ Forall (on_wire (run s es)) todo /\
  forall r, on_wire s r -> on_wire (run s es) r.
Proof.
  induction es as [|e es IH]; intros todo s Hr Hc Hv Hsub Hes Hlen.
  { destruct todo; [|done]. done. }
  inversion_clear Hes as [|? ? He Hes']. change (run s (e :: es)) with (run (step e s) es).
  destruct He as [He|He].
  - assert (is_receiver e = false) as Hn by (by destruct e). rewrite filter_cons, decide_False in Hlen by congruence.
    pose proof (background_linked e s He) as Hl.
    destruct (IH todo (step e s)) as (I1 & I2 & I3); try done.
    + by rewrite (lk_receiving _ _ Hl).
    + by eapply connected_linked.
    + split_and!; try done. intros r Hw. apply I3. by eapply on_wire_linked.
  - destruct e as [|t raw metadata| | | | | | |]; try done. rewrite filter_cons, decide_True in Hlen by done.
    destruct todo as [|r todo]; [done|]. inversion_clear Hv as [|? ? Hv1 Hv2].
    destruct (replay_segment t raw metadata r todo s Hr Hc Hv1) as (R1 & R2 & R3 & R4).
    { eapply takes_one; [|exact He]. apply Hsub. by left. }
    destruct (IH todo (step (EReceiver t raw metadata) s)) as (I1 & I2 & I3); try done.
    + intros x Hx. apply Hsub. by right.
    + cbn in Hlen. lia.
    + split_and!; [done| |auto]. constructor; [by apply I3|done].
Qed.

Definition unacknowledged_rows (d : db) : list (str * Operation) :=
  merge_sort op_le (filter (fun kv => unacknowledged kv.2 = true) (map_to_list (operations d))).

Lemma unacknowledged_listed d i o : operations d !! i = Some o -> unacknowledged o = true -> (i, o) ∈ unacknowledged_rows d.
Proof.
  intros Ho Hu. unfold unacknowledged_rows. rewrite merge_sort_Permutation, list_elem_of_filter.
  split; [done|]. by apply elem_of_map_to_list.
Qed.

End replay.

(** ** A sample: the process dies between the journal and the socket *)

Definition crash_history : list event :=
  sample_connect 1 7 ++ sample_receive 2 7 (lit "project_read") ++ sample_call 3 ++
  replicate 2 (EDispatch (sample_tick 4) 0 (HResponse (JObj []) [])) ++ [ECrash] ++
  take 5 (sample_connect 5 8).

Notation crashed := (sample_run crash_history).

