(* ===== verification/Relay.v ===== *)
(** * The relay: its tables, device tickets and access tokens

    The rows of core/models.py as finite maps, the one-time tickets of devices
    (websocket.py, views.py), the presence of devices, revocation, and the
    authentication of MCP requests (authz.py).  What the relay takes from
    elsewhere (SHA-256, signature verification, the pydantic schemas of tool inputs
    and results, its settings) is the class [Contracts]. *)
From S2P Require Import Prelude Utf8 PyStr Models Json Envelope.

Open Scope Z_scope.

(** ** What the relay is given *)

Class Contracts := {
  sha256_hex : bytes -> str;
  verify_device_signature : json -> bytes -> str -> bool;
  valid_input : str -> json -> bool;                                   (* schemas of the envelope *)
  argument_schema : str -> list (str * json) -> option (list (str * json));
  result_schema : str -> json -> option json;
  failure_schema : list (str * json) -> option (list (str * json));
  urlsplit : str -> option (str * option str * option Z);  (* scheme, hostname, port; [None]: ValueError *)
  casefold : str -> str;
  uuid_of : str -> option str;                     (* [UUID(...)]: the canonical text, [None] if refused *)
  repr_json : json -> str;                         (* [repr] of lists and dicts *)
  signing_dumps : json -> str;                     (* django.core.signing *)
  signing_loads : Z -> str -> option json;         (* at a time; [None]: bad or expired *)
  PUBLIC_BASE_URL : str;
  DEVICE_QUEUE_LIMIT : nat;
  DEVICE_STREAM_MAXLEN : nat;
  OPERATION_TIMEOUT_SECONDS : Z;
  FRONTEND_START_TIMEOUT_SECONDS : Z;
  DEVICE_OFFLINE_AFTER_SECONDS : Z;
  WS_TICKET_TTL_SECONDS : Z;
}.

(** ** Rows *)

Module DeviceStatus.
Inductive t := ENROLLING | ONLINE | OFFLINE | REVOKED.
#[global] Instance eq_dec : EqDecision t.
Proof. solve_decision. Defined.
End DeviceStatus.

Module ProjectStatus.
Inductive t := AVAILABLE | UNAVAILABLE | REVOKED.
#[global] Instance eq_dec : EqDecision t.
Proof. solve_decision. Defined.
End ProjectStatus.

Module Status.
Inductive t := ACCEPTED | DISPATCHED | RECEIVED | RUNNING | SUCCEEDED | FAILED | CANCELLED | EXPIRED | OUTCOME_UNKNOWN.
#[global] Instance eq_dec : EqDecision t.
Proof. solve_decision. Defined.
End Status.

Record Device := {
  dev_account : Z; dev_public_key : json; dev_status : DeviceStatus.t; dev_epoch : Z;
  dev_last_seen_at : option Z; dev_revoked_at : option Z;
}.
Record DeviceLink := { dl_link_id : str; dl_account : Z; dl_device : str; dl_revoked_at : option Z }.
Record RelayProject := {
  pj_account : Z; pj_device : str; pj_title : str; pj_root_fingerprint : str; pj_mode : str;
  pj_status : ProjectStatus.t;
}.
Record GrantBinding := {
  gb_account : Z; gb_device_link : str; gb_resource : str; gb_grant_id : str; gb_revoked_at : option Z;
}.
Record AccessToken := {
  at_pk : Z; at_user : option Z; at_expires : Z; at_resource : list str; at_scope : str;
  at_binding : option GrantBinding;
}.
Record ConnectionTicket := { ct_device : str; ct_challenge : str; ct_expires_at : Z; ct_used_at : option Z }.

(** The columns of an operation that never change. *)
Record OperationRequest := {
  rq_account : Z; rq_grant : str; rq_device : str; rq_device_link : str; rq_project : option str;
  rq_kind : str; rq_message_id : str; rq_correlation_id : str; rq_idempotency_key : str;
  rq_action_digest : str; rq_request_digest : str; rq_payload : list (str * json);
  rq_deadline_at : Z; rq_created_at : Z;
}.
Record OperationRow := {
  ro_request : OperationRequest;
  ro_status : Status.t;
  ro_epoch : Z;
  ro_delivery_attempted_at : option Z;
  ro_sent_at : option (Z * Z);                      (* [sent_at] with [sent_epoch] *)
  ro_last_sequence : Z;
  ro_last_sequence_epoch : Z;
  ro_error_code : str;
  ro_result : option (list (str * json));
}.
Record AuditEvent := {
  ae_account : Z; ae_actor_type : str; ae_actor_id : str; ae_event_type : str; ae_operation : option str;
  ae_metadata : json; ae_occurred_at : Z;
}.

Record relay := {
  devices : gmap str Device;
  links : gmap str DeviceLink;                      (* by primary key *)
  relay_projects : gmap str RelayProject;
  access_tokens : gmap str AccessToken;             (* by checksum *)
  connection_tickets : gmap str ConnectionTicket;   (* by token hash *)
  relay_operations : gmap str OperationRow;
  audit : list AuditEvent;
}.

Definition M := ST relay.

Definition upd_devices f s := {| devices := f (devices s); links := links s; relay_projects := relay_projects s;
  access_tokens := access_tokens s; connection_tickets := connection_tickets s;
  relay_operations := relay_operations s; audit := audit s |}.
Definition upd_links f s := {| devices := devices s; links := f (links s); relay_projects := relay_projects s;
  access_tokens := access_tokens s; connection_tickets := connection_tickets s;
  relay_operations := relay_operations s; audit := audit s |}.
Definition upd_projects f s := {| devices := devices s; links := links s; relay_projects := f (relay_projects s);
  access_tokens := access_tokens s; connection_tickets := connection_tickets s;
  relay_operations := relay_operations s; audit := audit s |}.
Definition upd_tokens f s := {| devices := devices s; links := links s; relay_projects := relay_projects s;
  access_tokens := f (access_tokens s); connection_tickets := connection_tickets s;
  relay_operations := relay_operations s; audit := audit s |}.
Definition upd_tickets f s := {| devices := devices s; links := links s; relay_projects := relay_projects s;
  access_tokens := access_tokens s; connection_tickets := f (connection_tickets s);
  relay_operations := relay_operations s; audit := audit s |}.
Definition upd_operations f s := {| devices := devices s; links := links s; relay_projects := relay_projects s;
  access_tokens := access_tokens s; connection_tickets := connection_tickets s;
  relay_operations := f (relay_operations s); audit := audit s |}.
Definition record_audit e s := {| devices := devices s; links := links s; relay_projects := relay_projects s;
  access_tokens := access_tokens s; connection_tickets := connection_tickets s;
  relay_operations := relay_operations s; audit := audit s ++ [e] |}.

Definition Device_active (d : Device) : bool :=
  bool_decide (dev_revoked_at d = None) && negb (bool_decide (dev_status d = DeviceStatus.REVOKED)).

Definition with_presence (st : DeviceStatus.t) (epoch : Z) (seen revoked : option Z) (d : Device) : Device :=
  {| dev_account := dev_account d; dev_public_key := dev_public_key d; dev_status := st; dev_epoch := epoch;
     dev_last_seen_at := seen; dev_revoked_at := revoked |}.

(** ** Account names on the wire: [f"account_{account:016x}"] *)

Definition hex_digit (n : Z) : N := if n <? 10 then Z.to_N (48 + n) else Z.to_N (87 + n).
Fixpoint hex16 (digits : nat) (n : Z) : str :=
  match digits with
  | O => []
  | S k => hex16 k (n / 16) ++ [hex_digit (n mod 16)]
  end.
Definition account_wire (account : Z) : str := lit "account_" ++ hex16 16 account.

Definition hex_value (c : N) : Z := if (c <=? 57)%N then Z.of_N c - 48 else Z.of_N c - 87.
(** [int(wire.removeprefix("account_"), 16)] *)
Definition account_of_wire (wire : str) : Z :=
  fold_left (fun a c => a * 16 + hex_value c) (drop (length (lit "account_")) wire) 0.

Lemma hex_value_digit n : 0 <= n < 16 -> hex_value (hex_digit n) = n.
Proof. intros H. unfold hex_value, hex_digit. destruct (n <? 10) eqn:E; case_match; lia. Qed.

Lemma hex16_value k n a : 0 <= n < 16 ^ Z.of_nat k ->
  fold_left (fun a c => a * 16 + hex_value c) (hex16 k n) a = a * 16 ^ Z.of_nat k + n.
Proof.
  revert n a. induction k as [|k IH]; intros n a Hn; cbn [hex16].
  - cbn in *. lia.
  - rewrite fold_left_app. rewrite Nat2Z.inj_succ, Z.pow_succ_r in Hn |- * by lia. rewrite IH.
    + cbn. rewrite hex_value_digit by (apply Z.mod_pos_bound; lia). pose proof (Z_div_mod_eq_full n 16). nia.
    + split; [apply Z.div_pos; lia|apply Z.div_lt_upper_bound; lia].
Qed.

Lemma account_wire_roundtrip account : 0 <= account < 2 ^ 63 -> account_of_wire (account_wire account) = account.
Proof.
  intros H. unfold account_of_wire, account_wire. rewrite drop_app_length. rewrite hex16_value; [cbn; lia|].
  split; [lia|]. eapply Z.lt_trans; [apply H|]. reflexivity.
Qed.

Section relay.
  Context {contracts : Contracts}.

(** ** Tickets and presence *)

(** [None]: no UTF-8 form, [encode] raises. *)
Definition hash_secret (value : str) : option str := sha256_hex <$> utf8_encode value.

Definition websocket_proof_message (ticket challenge : str) : option bytes :=
  match utf8_encode ticket, utf8_encode challenge with
  | Some t, Some c => Some (map Z.of_N (lit "codito-ws-proof-v1") ++ [0] ++ t ++ [0] ++ c)
  | _, _ => None
  end.

Record DeviceConnection := { cn_device_id : str; cn_account_wire_id : str; cn_epoch : Z }.

Definition usable (now : Z) (t : ConnectionTicket) (d : Device) : bool :=
  bool_decide (ct_used_at t = None) && (now <? ct_expires_at t) && Device_active d.

Definition unauthenticated {A} : M A := raise (DeviceAuthenticationError "ticket").

Definition _consume_ticket (now : Z) (raw_ticket signature : str) : M DeviceConnection := transaction (
  s <- gets id ;;
  match hash_secret raw_ticket with
  | None => raise (ValueError "UnicodeEncodeError")
  | Some hash =>
      match connection_tickets s !! hash with
      | None => unauthenticated
      | Some ticket =>
          match devices s !! ct_device ticket with
          | None => raise DoesNotExist
          | Some device =>
              match websocket_proof_message raw_ticket (ct_challenge ticket) with
              | None => raise (ValueError "UnicodeEncodeError")
              | Some message =>
                  if negb (usable now ticket device) then unauthenticated
                  else if negb (verify_device_signature (dev_public_key device) message signature) then unauthenticated
                  else
                    modify (upd_tickets <[hash := {| ct_device := ct_device ticket; ct_challenge := ct_challenge ticket;
                              ct_expires_at := ct_expires_at ticket; ct_used_at := Some now |}]>) ;;;
                    modify (upd_devices <[ct_device ticket := with_presence DeviceStatus.OFFLINE (dev_epoch device + 1)
                              (dev_last_seen_at device) (dev_revoked_at device) device]>) ;;;
                    ret {| cn_device_id := ct_device ticket; cn_account_wire_id := account_wire (dev_account device);
                           cn_epoch := dev_epoch device + 1 |}
              end
          end
      end
  end).

(** [DeviceConnectionTicket.issue]; [raw] and [challenge] are fresh. *)
Definition issue_ticket (now : Z) (device raw challenge : str) : M unit :=
  match hash_secret raw with
  | None => raise (ValueError "UnicodeEncodeError")
  | Some hash =>
      s <- gets connection_tickets ;;
      if bool_decide (is_Some (s !! hash)) then raise IntegrityError
      else modify (upd_tickets <[hash := {| ct_device := device; ct_challenge := challenge;
             ct_expires_at := now + WS_TICKET_TTL_SECONDS * SECOND; ct_used_at := None |}]>)
  end.

(** [Device.objects.filter(pk=..., connection_epoch=..., ...).update(...)] *)
Definition update_device (device : str) (p : Device -> bool) (f : Device -> Device) : M unit :=
  modify (upd_devices (alter (fun d => if p d then f d else d) device)).

Definition current (c : DeviceConnection) (d : Device) : bool := dev_epoch d =? cn_epoch c.

Definition _mark_online (now : Z) (c : DeviceConnection) : M unit :=
  update_device (cn_device_id c) (fun d => current c d && bool_decide (dev_revoked_at d = None))
    (fun d => with_presence DeviceStatus.ONLINE (dev_epoch d) (Some now) (dev_revoked_at d) d).
Definition _touch (now : Z) (c : DeviceConnection) : M unit :=
  update_device (cn_device_id c) (fun d => current c d && bool_decide (dev_revoked_at d = None))
    (fun d => with_presence (dev_status d) (dev_epoch d) (Some now) (dev_revoked_at d) d).
Definition _mark_offline (c : DeviceConnection) : M unit :=
  update_device (cn_device_id c) (fun d => current c d && negb (bool_decide (dev_status d = DeviceStatus.REVOKED)))
    (fun d => with_presence DeviceStatus.OFFLINE (dev_epoch d) (dev_last_seen_at d) (dev_revoked_at d) d).

(** ** Revocation (views.py) *)

Definition revoke_link (now : Z) (l : DeviceLink) : DeviceLink :=
  {| dl_link_id := dl_link_id l; dl_account := dl_account l; dl_device := dl_device l; dl_revoked_at := Some now |}.
Definition revoke_links (now : Z) (device : str) : M unit :=
  modify (upd_links (fmap (fun l => if bool_decide (dl_device l = device) && bool_decide (dl_revoked_at l = None)
                                    then revoke_link now l else l))).

Definition revoke_binding (now : Z) (b : GrantBinding) : GrantBinding :=
  {| gb_account := gb_account b; gb_device_link := gb_device_link b; gb_resource := gb_resource b;
     gb_grant_id := gb_grant_id b; gb_revoked_at := Some now |}.
Definition with_binding (b : option GrantBinding) (t : AccessToken) : AccessToken :=
  {| at_pk := at_pk t; at_user := at_user t; at_expires := at_expires t; at_resource := at_resource t;
     at_scope := at_scope t; at_binding := b |}.

(** The grants of the links of a device. *)
Definition revoke_grants (now : Z) (device : str) : M unit :=
  s <- gets links ;;
  modify (upd_tokens (fmap (fun t =>
    match at_binding t with
    | Some b => if bool_decide (dl_device <$> s !! gb_device_link b = Some device) && bool_decide (gb_revoked_at b = None)
                then with_binding (Some (revoke_binding now b)) t else t
    | None => t
    end))).

Definition audit_user (now account : Z) (actor_type event_type : string) : AuditEvent :=
  {| ae_account := account; ae_actor_type := lit actor_type; ae_actor_id := []; ae_event_type := lit event_type;
     ae_operation := None; ae_metadata := JObj []; ae_occurred_at := now |}.

Definition revoke_device (now : Z) (account : Z) (device : str) : M unit := transaction (
  s <- gets devices ;;
  match s !! device with
  | Some d =>
      if negb (dev_account d =? account) then raise DoesNotExist
      else
        modify (upd_devices <[device := with_presence DeviceStatus.REVOKED (dev_epoch d + 1)
                               (dev_last_seen_at d) (Some now) d]>) ;;;
        revoke_links now device ;;; revoke_grants now device ;;;
        modify (record_audit (audit_user now account "user" "device.revoked"))
  | None => raise DoesNotExist
  end).

(** [pk] and [link_id] are fresh. *)
Definition rotate_device_link (now : Z) (account : Z) (device pk link_id : str) : M unit := transaction (
  s <- gets id ;;
  match devices s !! device with
  | Some d =>
      if negb (dev_account d =? account) || bool_decide (dev_revoked_at d <> None) then raise DoesNotExist
      else if bool_decide (is_Some (links s !! pk)) then raise IntegrityError
      else
        revoke_links now device ;;;
        modify (upd_links <[pk := {| dl_link_id := link_id; dl_account := account; dl_device := device;
                                     dl_revoked_at := None |}]>) ;;;
        modify (record_audit (audit_user now account "user" "device_link.rotated"))
  | None => raise DoesNotExist
  end).

(** ** authz.py *)

Record MCPPrincipal := {
  mp_account_id : Z; mp_oauth_grant_id : str; mp_access_token_id : Z; mp_device_id : str;
  mp_device_link_id : str; mp_link_id : str; mp_resource : str; mp_scopes : list str;
}.

Definition require (p : MCPPrincipal) (scope : str) : res unit :=
  if bool_decide (scope ∈ mp_scopes p) then Ok tt else Err (AuthorizationFailure "insufficient_scope" 403).

Definition resource_of (l : DeviceLink) : str := PUBLIC_BASE_URL ++ lit "/mcp/d/" ++ dl_link_id l.

(** [s.split()] without the empty words. *)
Fixpoint words_go (word s : str) : list str :=
  match s with
  | [] => match word with [] => [] | _ => [rev word] end
  | c :: r => if is_space c then match word with [] => words_go [] r | _ => rev word :: words_go [] r end
              else words_go (c :: word) r
  end.
Definition words (s : str) : list str := words_go [] s.

Definition fail_auth {A} (code : string) (status : Z) : M A := raise (AuthorizationFailure code status).

Definition _authenticate (now : Z) (raw_token link_id : str) : M MCPPrincipal :=
  s <- gets id ;;
  match hash_secret raw_token with
  | None => raise (ValueError "UnicodeEncodeError")
  | Some checksum =>
      match access_tokens s !! checksum with
      | None => fail_auth "invalid_token" 401
      | Some token =>
          if (at_expires token <=? now) || bool_decide (at_user token = None) then fail_auth "invalid_token" 401
          else match at_binding token with
          | None => fail_auth "invalid_token" 401
          | Some binding =>
              match links s !! gb_device_link binding with
              | None => raise DoesNotExist
              | Some link =>
                  match devices s !! dl_device link with
                  | None => raise DoesNotExist
                  | Some device =>
                      if negb (bool_decide (gb_revoked_at binding = None)) || negb (bool_decide (dl_revoked_at link = None)) ||
                         negb (Device_active device) then fail_auth "invalid_token" 401
                      else if negb (bool_decide (dl_link_id link = link_id)) then fail_auth "invalid_target" 403
                      else if negb (bool_decide (at_user token = Some (gb_account binding))) ||
                              negb (gb_account binding =? dl_account link) then fail_auth "invalid_token" 401
                      else if negb (bool_decide (gb_resource binding = resource_of link)) then fail_auth "invalid_target" 403
                      else if negb (bool_decide (at_resource token = [gb_resource binding])) then fail_auth "invalid_target" 403
                      else ret {| mp_account_id := gb_account binding; mp_oauth_grant_id := gb_grant_id binding;
                                  mp_access_token_id := at_pk token; mp_device_id := dl_device link;
                                  mp_device_link_id := gb_device_link binding; mp_link_id := dl_link_id link;
                                  mp_resource := gb_resource binding; mp_scopes := words (at_scope token) |}
                  end
              end
          end
      end
  end.

(** [authorization.partition(" ")]; [None]: no separator. *)
Fixpoint partition_space (s : str) : option (str * str) :=
  match s with
  | [] => None
  | c :: r => if (c =? 32)%N then Some ([], r) else (fun x => (c :: x.1, x.2)) <$> partition_space r
  end.

Definition _bearer (authorization : str) : res str :=
  match partition_space authorization with
  | Some (scheme, value) =>
      match strip value with
      | [] => Err (AuthorizationFailure "invalid_token" 401)
      | token => if bool_decide (ascii_lower scheme = lit "bearer") then Ok token
                 else Err (AuthorizationFailure "invalid_token" 401)
      end
  | None => Err (AuthorizationFailure "invalid_token" 401)
  end.

(** [authorization]: the header, empty when it is missing. *)
Definition authenticate_mcp (now : Z) (authorization link_id_text : str) : M MCPPrincipal :=
  match uuid_of link_id_text with
  | None => fail_auth "invalid_target" 404
  | Some link_id => raw_token <- lift (_bearer authorization) ;; _authenticate now raw_token link_id
  end.
End relay.
