(* ===== verification/RelayDispatch.v ===== *)
(** * Dispatching a tool call: core/dispatch.py

    Which results are accepted for a request, which scopes a call needs, the route
    to a device and project, the admission of operations with their idempotency
    keys and the queue of a device, and the updates of an operation by the request
    that waits for it. *)
From S2P Require Import Prelude Utf8 PyStr Models Json Envelope Relay.
From stdpp Require Import sorting.

Open Scope Z_scope.

(** ** Helpers on JSON *)

(** The truth value of a Python object. *)
Definition truthy_json (v : option json) : bool :=
  match v with
  | None | Some JNull | Some (JBool false) | Some (JNum 0) | Some (JStr []) | Some (JList []) | Some (JObj []) => false
  | Some _ => true
  end.
(** [True] and [False] are the integers 1 and 0 to a comparison. *)
Fixpoint as_numbers (v : json) : json :=
  match v with
  | JBool b => JNum (if b then 1 else 0)
  | JList l => JList (map as_numbers l)
  | JObj l => JObj (map (fun kv => (kv.1, as_numbers kv.2)) l)
  | _ => v
  end.
(** [==] of two JSON values: objects compare without regard to order. *)
Definition same_json (a b : json) : bool := bool_decide (sort_keys (as_numbers a) = sort_keys (as_numbers b)).
Definition str_at (k : string) (l : list (str * json)) : str :=
  match obj_get (lit k) l with Some (JStr s) => s | _ => [] end.
Definition is_str_value (v : option json) (t : str) : bool :=
  match v with Some (JStr s) => bool_decide (s = t) | _ => false end.
Definition is_text (k v : string) (l : list (str * json)) : bool :=
  match obj_get (lit k) l with Some (JStr s) => bool_decide (s = lit v) | _ => false end.

(** ** Statuses *)

Definition terminal_statuses (s : Status.t) : bool :=
  match s with
  | Status.SUCCEEDED | Status.FAILED | Status.CANCELLED | Status.EXPIRED | Status.OUTCOME_UNKNOWN => true
  | _ => false
  end.
(** The statuses that count against the queue of a device. *)
Definition pending_status (s : Status.t) : bool :=
  match s with Status.ACCEPTED | Status.DISPATCHED | Status.RECEIVED | Status.RUNNING => true | _ => false end.

Definition with_status (s : Status.t) (r : OperationRow) : OperationRow :=
  {| ro_request := ro_request r; ro_status := s; ro_epoch := ro_epoch r;
     ro_delivery_attempted_at := ro_delivery_attempted_at r; ro_sent_at := ro_sent_at r;
     ro_last_sequence := ro_last_sequence r; ro_last_sequence_epoch := ro_last_sequence_epoch r;
     ro_error_code := ro_error_code r; ro_result := ro_result r |}.
Definition with_error (e : str) (r : OperationRow) : OperationRow :=
  {| ro_request := ro_request r; ro_status := ro_status r; ro_epoch := ro_epoch r;
     ro_delivery_attempted_at := ro_delivery_attempted_at r; ro_sent_at := ro_sent_at r;
     ro_last_sequence := ro_last_sequence r; ro_last_sequence_epoch := ro_last_sequence_epoch r;
     ro_error_code := e; ro_result := ro_result r |}.
Definition with_result (v : option (list (str * json))) (r : OperationRow) : OperationRow :=
  {| ro_request := ro_request r; ro_status := ro_status r; ro_epoch := ro_epoch r;
     ro_delivery_attempted_at := ro_delivery_attempted_at r; ro_sent_at := ro_sent_at r;
     ro_last_sequence := ro_last_sequence r; ro_last_sequence_epoch := ro_last_sequence_epoch r;
     ro_error_code := ro_error_code r; ro_result := v |}.
Definition with_epoch (e : Z) (r : OperationRow) : OperationRow :=
  {| ro_request := ro_request r; ro_status := ro_status r; ro_epoch := e;
     ro_delivery_attempted_at := ro_delivery_attempted_at r; ro_sent_at := ro_sent_at r;
     ro_last_sequence := ro_last_sequence r; ro_last_sequence_epoch := ro_last_sequence_epoch r;
     ro_error_code := ro_error_code r; ro_result := ro_result r |}.
Definition with_sequence (n e : Z) (r : OperationRow) : OperationRow :=
  {| ro_request := ro_request r; ro_status := ro_status r; ro_epoch := ro_epoch r;
     ro_delivery_attempted_at := ro_delivery_attempted_at r; ro_sent_at := ro_sent_at r;
     ro_last_sequence := n; ro_last_sequence_epoch := e;
     ro_error_code := ro_error_code r; ro_result := ro_result r |}.
Definition with_delivery (attempted : option Z) (sent : option (Z * Z)) (r : OperationRow) : OperationRow :=
  {| ro_request := ro_request r; ro_status := ro_status r; ro_epoch := ro_epoch r;
     ro_delivery_attempted_at := attempted; ro_sent_at := sent;
     ro_last_sequence := ro_last_sequence r; ro_last_sequence_epoch := ro_last_sequence_epoch r;
     ro_error_code := ro_error_code r; ro_result := ro_result r |}.

(** [Operation.objects.filter(pk=..., ...).update(...)] *)
Definition update_operation (pk : str) (p : OperationRow -> bool) (f : OperationRow -> OperationRow) : M unit :=
  modify (upd_operations (alter (fun r => if p r then f r else r) pk)).

(** [filter(...)], by primary key. *)
Definition rows_where (p : OperationRow -> bool) (s : relay) : list (str * OperationRow) :=
  merge_sort key_le (filter (fun kv => p kv.2 = true) (map_to_list (relay_operations s))).

(** [operation.request_payload.get("input", {})] *)
Definition operation_input (r : OperationRow) : json := default (JObj []) (obj_get (lit "input") (rq_payload (ro_request r))).

Section dispatch.
  Context {contracts : Contracts}.

(** ** Results *)

Definition dispatch_fail {A} (code : string) : res A := Err (ToolDispatchError code false).

Definition _validate_device_result (tool_name : str) (p : list (str * json)) : res (list (str * json)) :=
  match obj_get (lit "ok") p, obj_get (lit "result") p with
  | Some (JBool false), _ =>
      match failure_schema p with Some f => Ok f | None => dispatch_fail "protocol_error" end
  | Some (JBool true), Some (JObj result) =>
      match result_schema tool_name (JObj result) with
      | Some validated => Ok (dict_set (lit "result") validated p)
      | None => dispatch_fail "protocol_error"
      end
  | _, _ => dispatch_fail "protocol_error"
  end.

Definition _RESULT_ECHO_FIELDS : list str :=
  [lit "operation"; lit "action"; lit "project_id"; lit "session_id"; lit "snapshot_id"; lit "element_id";
   lit "job_id"; lit "idempotency_key"; lit "path"; lit "scope_path"; lit "browser"; lit "url"; lit "display";
   lit "viewport"; lit "dry_run"; lit "title"].

Definition echoes (arguments result : list (str * json)) : bool :=
  forallb (fun field => match obj_get field arguments, obj_get field result with
                        | Some a, Some b => same_json a b
                        | _, _ => true
                        end) _RESULT_ECHO_FIELDS.

Definition _normalized_http_origin (value : str) : option (str * str * Z) :=
  match urlsplit value with
  | None => None
  | Some (scheme, hostname, port) =>
      match hostname with
      | None | Some [] => None
      | Some hostname =>
          if negb (bool_decide (casefold scheme = lit "http")) then None
          else
            let hostname := casefold hostname in
            if ends_with (lit "..") hostname then None
            else Some (lit "http",
                       if ends_with (lit ".") hostname then take (length hostname - 1) hostname else hostname,
                       match port with None | Some 0 => 80 | Some p => p end)
      end
  end.

(** What a result of project_frontend must repeat. *)
Definition frontend_binding (arguments result : list (str * json)) : bool :=
  if is_text "operation" "session_start" arguments then
    match obj_get (lit "base_url") result, obj_get (lit "url") result with
    | Some (JStr base_url), Some (JStr page_url) =>
        match _normalized_http_origin base_url with
        | Some base_origin => bool_decide (_normalized_http_origin page_url = Some base_origin)
        | None => false
        end
    | _, _ => false
    end
  else if is_text "operation" "inspect" arguments then
    match obj_get (lit "element_id") arguments with
    | Some (JStr element_id) =>
        match obj_get (lit "element") result with
        | Some (JObj element) => is_str_value (obj_get (lit "element_id") element) element_id
        | _ => false
        end
    | _ => true
    end
  else true.

Definition _validate_device_result_for_request (tool_name : str) (arguments p : list (str * json))
    : res (list (str * json)) :=
  normalized <-? _validate_device_result tool_name p ;;
  match obj_get (lit "ok") normalized, obj_get (lit "result") normalized with
  | Some (JBool true), Some (JObj result) =>
      if echoes arguments result && (negb (bool_decide (tool_name = lit "project_frontend")) || frontend_binding arguments result)
      then Ok normalized else dispatch_fail "protocol_error"
  | Some (JBool true), _ => dispatch_fail "protocol_error"
  | _, _ => Ok normalized
  end.

(** ** Scopes and arguments *)

Definition _required_scopes (tool_name operation : str) : res (list str) :=
  let tool v := bool_decide (tool_name = lit v) in
  let op v := bool_decide (operation = lit v) in
  if tool "device_desktop" then Ok [lit "shell:execute"]
  else if tool "device_screenshot" then Ok [lit "screen:read"]
  else if tool "device_read" then Ok [lit "files:read"]
  else if tool "project_read" then
    Ok (if op "list_projects" then [lit "projects:read"] else [lit "projects:read"; lit "files:read"])
  else if tool "project_apply_patch" then Ok [lit "projects:read"; lit "files:read"; lit "files:write"]
  else if tool "project_shell" then Ok [lit "projects:read"; lit "shell:execute"]
  else if tool "project_manage" then
    Ok (if op "get_projects" then [lit "projects:read"] else [lit "projects:read"; lit "projects:write"])
  else if tool "project_code" then
    Ok ([lit "projects:read"; lit "files:read"] ++
        (if op "code_intelligence_status" || op "code_workspace_summary" then [] else [lit "shell:execute"]))
  else if tool "project_frontend" then
    Ok ([lit "projects:read"] ++
        (if op "session_start" then [lit "frontend:interact"; lit "shell:execute"]
         else if op "snapshot" || op "inspect" then [lit "frontend:read"]
         else if op "source" then [lit "frontend:read"; lit "files:read"]
         else if op "act" || op "session_stop" then [lit "frontend:interact"]
         else []))
  else dispatch_fail "unknown_tool".

Definition locally_controlled : list str :=
  [lit "approved"; lit "trusted"; lit "absolute_path"; lit "project_path"; lit "root_path"].

(** An unknown tool keeps its arguments; its scopes refuse it. *)
Definition _validate_arguments (tool_name : str) (arguments : list (str * json)) : res (list (str * json)) :=
  if existsb (fun kv => bool_decide (kv.1 ∈ locally_controlled)) arguments then dispatch_fail "invalid_request"
  else if bool_decide (tool_name ∈ tool_names) then
    match argument_schema tool_name arguments with Some a => Ok a | None => dispatch_fail "invalid_request" end
  else Ok arguments.

Definition _is_replay_unsafe (tool_name : str) (arguments : list (str * json)) : bool :=
  bool_decide (tool_name = lit "device_desktop") ||
  (bool_decide (tool_name = lit "project_shell") && is_text "action" "start" arguments) ||
  (bool_decide (tool_name = lit "project_frontend") &&
   (is_text "operation" "session_start" arguments || is_text "operation" "act" arguments)).

(** The scopes of a call: those of the tool, and to read projects when one is named. *)
Definition call_scopes (tool_name : str) (arguments : list (str * json)) : res (list str) :=
  scopes <-? _required_scopes tool_name (str_at "operation" arguments) ;;
  Ok (scopes ++ if truthy_json (obj_get (lit "project_id") arguments) then [lit "projects:read"] else []).

Fixpoint require_all (p : MCPPrincipal) (scopes : list str) : res unit :=
  match scopes with
  | [] => Ok tt
  | scope :: r => match require p scope with Ok _ => require_all p r | Err _ => dispatch_fail "insufficient_scope" end
  end.

(** ** The route *)

Definition device_tool (tool_name : str) : bool :=
  bool_decide (tool_name ∈ [lit "device_read"; lit "device_screenshot"; lit "device_desktop"]).

Definition without_project (tool_name operation : str) : bool :=
  (bool_decide (tool_name = lit "project_read") && bool_decide (operation = lit "list_projects")) ||
  (bool_decide (tool_name = lit "project_manage") &&
   bool_decide (operation ∈ [lit "get_projects"; lit "request_add_project"])).

Definition _lookup_route (p : MCPPrincipal) (tool_name : str) (arguments : list (str * json))
    : M (Device * option str) :=
  s <- gets id ;;
  match devices s !! mp_device_id p with
  | Some device =>
      if negb (dev_account device =? mp_account_id p) || negb (bool_decide (dev_revoked_at device = None))
      then lift (dispatch_fail "device_not_found")
      else if device_tool tool_name && negb (truthy_json (obj_get (lit "project_id") arguments)) then ret (device, None)
      else if without_project tool_name (str_at "operation" arguments) then ret (device, None)
      else match obj_get (lit "project_id") arguments with
      | Some (JStr (c :: r)) =>
          match relay_projects s !! (c :: r) with
          | Some project =>
              if (pj_account project =? mp_account_id p) && bool_decide (pj_device project = mp_device_id p) &&
                 bool_decide (pj_status project = ProjectStatus.AVAILABLE)
              then ret (device, Some (c :: r)) else lift (dispatch_fail "project_not_found")
          | None => lift (dispatch_fail "project_not_found")
          end
      | _ => lift (dispatch_fail "invalid_request")
      end
  | None => lift (dispatch_fail "device_not_found")
  end.

(** Heard from lately. *)
Definition online (now : Z) (d : Device) : bool :=
  bool_decide (dev_status d = DeviceStatus.ONLINE) &&
  match dev_last_seen_at d with
  | Some seen => now - seen <=? DEVICE_OFFLINE_AFTER_SECONDS * SECOND
  | None => false
  end.

(** ** The list of projects *)

Definition available_projects (p : MCPPrincipal) (s : relay) : list (str * RelayProject) :=
  merge_sort key_le (filter (fun kv => (pj_account kv.2 =? mp_account_id p) &&
    bool_decide (pj_device kv.2 = mp_device_id p) && bool_decide (pj_status kv.2 = ProjectStatus.AVAILABLE) = true)
    (map_to_list (relay_projects s))).

Definition cursor_binding (p : MCPPrincipal) : json :=
  JList [JNum (mp_account_id p); JStr (mp_device_id p); JStr (mp_link_id p)].

(** The identifier a cursor continues after; [None]: from the start. *)
Definition cursor_start (now : Z) (p : MCPPrincipal) (arguments : list (str * json)) : res (option str) :=
  if negb (truthy_json (obj_get (lit "cursor") arguments)) then Ok None
  else match obj_get (lit "cursor") arguments with
  | Some (JStr cursor) =>
      match signing_loads now cursor with
      | Some (JObj decoded) =>
          match obj_get (lit "binding") decoded, obj_get (lit "id") decoded with
          | Some binding, Some (JStr start) =>
              if same_json binding (cursor_binding p) then Ok (Some start) else dispatch_fail "invalid_request"
          | _, _ => dispatch_fail "invalid_request"
          end
      | _ => dispatch_fail "invalid_request"
      end
  | _ => dispatch_fail "invalid_request"
  end.

Definition project_json (is_online : bool) (kv : str * RelayProject) : json :=
  JObj [(lit "project_id", JStr kv.1); (lit "title", JStr (pj_title kv.2)); (lit "device_id", JStr (pj_device kv.2));
        (lit "mode", JStr (pj_mode kv.2)); (lit "online", JBool is_online)].

Definition projects_after (start : option str) (l : list (str * RelayProject)) : list (str * RelayProject) :=
  match start with
  | None => l
  | Some start => filter (fun kv => negb (str_leb kv.1 start) = true) l
  end.

Definition page_limit (arguments : list (str * json)) : nat :=
  match obj_get (lit "limit") arguments with Some (JNum n) => Z.to_nat n | _ => 50 end.

(** The cursor after a page, when there is more. *)
Definition continuation_of (p : MCPPrincipal) (limit : nat) (page : list (str * RelayProject)) : json :=
  if (limit <? length page)%nat then
    match page !! (limit - 1)%nat with
    | Some last => JObj [(lit "cursor", JStr (signing_dumps (JObj [(lit "binding", cursor_binding p); (lit "id", JStr last.1)])))]
    | None => JNull
    end
  else JNull.

Definition _list_projects (now : Z) (operation : string) (p : MCPPrincipal) (arguments : list (str * json))
    : M (list (str * json)) :=
  start <- lift (cursor_start now p arguments) ;;
  s <- gets id ;;
  let limit := page_limit arguments in
  let page := take (limit + 1) (projects_after start (available_projects p s)) in
  match devices s !! mp_device_id p with
  | Some device =>
      if negb (dev_account device =? mp_account_id p) then raise DoesNotExist
      else
        ret [(lit "operation", JStr (lit operation));
             (lit "projects", JList (map (project_json (online now device)) (take limit page)));
             (lit "continuation", continuation_of p limit page)]
  | None => raise DoesNotExist
  end.

(** The calls the relay answers itself. *)
Definition local_result (now : Z) (p : MCPPrincipal) (tool_name : str) (arguments : list (str * json))
    : option (M (list (str * json))) :=
  let operation := str_at "operation" arguments in
  if bool_decide (tool_name = lit "project_read") && bool_decide (operation = lit "list_projects")
  then Some (_list_projects now "list_projects" p arguments)
  else if bool_decide (tool_name = lit "project_manage") && bool_decide (operation = lit "get_projects")
  then Some (_list_projects now "get_projects" p arguments)
  else None.

(** ** Admission *)

(** The identifiers drawn for a new row. *)
Record fresh_ids := { fr_pk : str; fr_message_id : str; fr_correlation_id : str }.

Definition in_scope (p : MCPPrincipal) (device : str) (project : option str) (tool_name key : str) (r : OperationRow) : bool :=
  let q := ro_request r in
  (rq_account q =? mp_account_id p) && bool_decide (rq_grant q = mp_oauth_grant_id p) &&
  bool_decide (rq_device_link q = mp_device_link_id p) && bool_decide (rq_device q = device) &&
  bool_decide (rq_project q = project) && bool_decide (rq_kind q = tool_name) &&
  bool_decide (rq_idempotency_key q = key).

Definition existing_operation (digest : str) (row : str * OperationRow) : M (str * OperationRow * bool) :=
  if bool_decide (rq_action_digest (ro_request row.2) = digest) then ret (row, false)
  else lift (dispatch_fail "idempotency_conflict").

Definition pending_rows (device : str) (s : relay) : list (str * OperationRow) :=
  rows_where (fun r => bool_decide (rq_device (ro_request r) = device) && pending_status (ro_status r)) s.

Definition new_row (now : Z) (f : fresh_ids) (p : MCPPrincipal) (device : str) (epoch : Z) (project : option str)
    (tool_name : str) (arguments : list (str * json)) (digest request_digest : str) (timeout : Z) : OperationRow :=
  {| ro_request := {| rq_account := mp_account_id p; rq_grant := mp_oauth_grant_id p; rq_device := device;
       rq_device_link := mp_device_link_id p; rq_project := project; rq_kind := tool_name;
       rq_message_id := fr_message_id f; rq_correlation_id := fr_correlation_id f;
       rq_idempotency_key := str_at "idempotency_key" arguments; rq_action_digest := digest;
       rq_request_digest := request_digest;
       rq_payload := [(lit "tool_name", JStr tool_name); (lit "input", JObj arguments)];
       rq_deadline_at := now + timeout * SECOND; rq_created_at := now |};
     ro_status := Status.ACCEPTED; ro_epoch := epoch; ro_delivery_attempted_at := None; ro_sent_at := None;
     ro_last_sequence := 0; ro_last_sequence_epoch := 0; ro_error_code := []; ro_result := None |}.

Definition accepted_event (now : Z) (p : MCPPrincipal) (pk tool_name digest : str) : AuditEvent :=
  {| ae_account := mp_account_id p; ae_actor_type := lit "oauth_grant"; ae_actor_id := mp_oauth_grant_id p;
     ae_event_type := lit "operation.accepted"; ae_operation := Some pk;
     ae_metadata := JObj [(lit "kind", JStr tool_name); (lit "action_digest", JStr digest)];
     ae_occurred_at := now |}.

(** The row breaks no unique constraint on identifiers. *)
Definition unique_ids (f : fresh_ids) (s : relay) : bool :=
  bool_decide (relay_operations s !! fr_pk f = None) &&
  bool_decide (rows_where (fun r => bool_decide (rq_message_id (ro_request r) = fr_message_id f)) s = []).

(** The transaction that admits a call, under the lock of its device. *)
Definition admission (now : Z) (f : fresh_ids) (p : MCPPrincipal) (device : str) (epoch : Z)
    (project : option str) (tool_name : str) (arguments : list (str * json)) (digest : str) (timeout : Z)
    : M (str * OperationRow * bool) := transaction (
  let key := str_at "idempotency_key" arguments in
  s <- gets id ;;
  match devices s !! device with
  | None => raise DoesNotExist
  | Some locked_device =>
      if negb (dev_account locked_device =? mp_account_id p) then raise DoesNotExist
      else match rows_where (in_scope p device project tool_name key) s, key with
      | row :: _, _ :: _ => existing_operation digest row
      | _, _ =>
          if (DEVICE_QUEUE_LIMIT <=? length (pending_rows device s))%nat
          then raise (ToolDispatchError "device_queue_full" true)
          else match sha256_hex <$> utf8_encode (dumps false (JObj arguments)) with
          | None => raise (ValueError "UnicodeEncodeError")
          | Some request_digest =>
              if negb (unique_ids f s) then raise IntegrityError
              else
                let row := new_row now f p device epoch project tool_name arguments digest request_digest timeout in
                modify (upd_operations <[fr_pk f := row]>) ;;;
                modify (record_audit (accepted_event now p (fr_pk f) tool_name digest)) ;;;
                ret (fr_pk f, row, true)
          end
      end
  end).

Definition _create_operation (now : Z) (f : fresh_ids) (p : MCPPrincipal) (device : str) (epoch : Z)
    (project : option str) (tool_name : str) (arguments : list (str * json)) (digest : str) (timeout : Z)
    : M (str * OperationRow * bool) :=
  let key := str_at "idempotency_key" arguments in
  s <- gets id ;;
  match rows_where (in_scope p device project tool_name key) s, key with
  | row :: _, _ :: _ => existing_operation digest row
  | _, _ =>
      try_except (admission now f p device epoch project tool_name arguments digest timeout) (fun e =>
        match e, key with
        | IntegrityError, _ :: _ =>
            s <- gets id ;;
            match rows_where (in_scope p device project tool_name key) s with
            | row :: _ => existing_operation digest row
            | [] => raise DoesNotExist
            end
        | _, _ => raise e
        end)
  end.

(** ** The waiting request *)

Definition _mark_dispatched (pk : str) : M unit :=
  update_operation pk (fun r => bool_decide (ro_status r = Status.ACCEPTED)) (with_status Status.DISPATCHED).

Definition _finish (pk : str) (result : list (str * json)) : M unit :=
  match durable_tool_result sha256_hex result with
  | None => raise (ValueError "UnicodeEncodeError")
  | Some durable =>
      update_operation pk (fun r => pending_status (ro_status r)) (fun r =>
        with_status (if truthy_json (obj_get (lit "error") result) then Status.FAILED else Status.SUCCEEDED)
          (with_result (Some durable) r))
  end.

Definition _mark_delivery_failure (pk : str) (code : string) : M unit :=
  update_operation pk (fun r => pending_status (ro_status r)) (fun r =>
    with_status (if bool_decide (code = "outcome_unknown"%string) then Status.OUTCOME_UNKNOWN else Status.FAILED)
      (with_error (lit code) r)).

(** [max(1, int(min(timeout, ...)))] is the wait; this is the budget of the row. *)
Definition timeout_for (tool_name : str) (arguments : list (str * json)) : Z :=
  if bool_decide (tool_name = lit "project_frontend") && is_text "operation" "session_start" arguments then
    let ready_timeout := match obj_get (lit "ready_timeout_seconds") arguments with Some (JNum n) => n | _ => 30 end in
    Z.max OPERATION_TIMEOUT_SECONDS (Z.min (Z.max (FRONTEND_START_TIMEOUT_SECONDS + ready_timeout) 60) 420)
  else OPERATION_TIMEOUT_SECONDS.

(** [dispatch_tool] up to the route of the call. *)
Definition dispatch_route (p : MCPPrincipal) (tool_name : str) (raw_arguments : list (str * json))
    : M (list (str * json) * Device * option str) :=
  arguments <- lift (_validate_arguments tool_name raw_arguments) ;;
  scopes <- lift (call_scopes tool_name arguments) ;;
  lift (require_all p scopes) ;;;
  route <- _lookup_route p tool_name arguments ;;
  ret (arguments, route.1, route.2).

(** ... and its admission, with the device as the route read it. *)
Definition dispatch_admit (now : Z) (f : fresh_ids) (p : MCPPrincipal) (tool_name : str) (arguments : list (str * json))
    (device : Device) (project : option str) : M (str * OperationRow * bool) :=
  if negb (online now device) then raise (ToolDispatchError "device_offline" true)
  else match compute_action_digest sha256_hex (action_json tool_name arguments) with
  | None => raise (ValueError "UnicodeEncodeError")
  | Some digest =>
      _create_operation now f p (mp_device_id p) (dev_epoch device) project tool_name arguments digest
        (timeout_for tool_name arguments)
  end.

(** The answer to a call whose key already has a row. *)
Definition text_of (s : str) : string := String.string_of_list_ascii (map Ascii.ascii_of_N s).

Definition terminal_code (row : OperationRow) : string :=
  match ro_status row with
  | Status.CANCELLED => "cancelled"
  | Status.EXPIRED => "operation_timeout"
  | Status.OUTCOME_UNKNOWN => "outcome_unknown"
  | _ => match ro_error_code row with [] => "protocol_error" | code => text_of code end
  end.

Definition prior_answer (row : OperationRow) : res (list (str * json)) :=
  match ro_result row with
  | Some result => Ok result
  | None =>
      if terminal_statuses (ro_status row)
      then Err (ToolDispatchError (terminal_code row)
             (bool_decide (terminal_code row ∈ ["device_offline"; "operation_timeout"]%string)))
      else Err (ToolDispatchError "operation_in_progress" true)
  end.

(** The operation as a message. *)
Definition operation_envelope (now epoch : Z) (account_wire_id link_id : str) (row : OperationRow) : TunnelEnvelope :=
  let q := ro_request row in
  {| protocol_version := PROTOCOL_VERSION; kind := OPERATION; message_id := rq_message_id q;
     correlation_id := Some (rq_correlation_id q); sequence := 0; connection_epoch := epoch; sent_at := now;
     deadline_at := Some (rq_deadline_at q);
     bindings := {| tb_account_id := account_wire_id; tb_device_id := rq_device q; tb_link_id := Some link_id;
                    tb_grant_id := Some (rq_grant q); tb_project_id := rq_project q |};
     action_digest := Some (rq_action_digest q); payload := rq_payload q |}.

(** One message of the result stream, as [publish_and_wait] checks it: [None]
    means that it waits on. *)
Definition read_result (sent : TunnelEnvelope) (device_id : str) (r : TunnelEnvelope)
    : M (option (list (str * json))) :=
  if negb (bool_decide (correlation_id r = correlation_id sent)) ||
     negb (bool_decide (tb_device_id (bindings r) = device_id)) ||
     negb (bool_decide (action_digest r = action_digest sent)) ||
     negb (bool_decide (tb_account_id (bindings r) = tb_account_id (bindings sent))) ||
     negb (bool_decide (tb_link_id (bindings r) = tb_link_id (bindings sent))) ||
     negb (bool_decide (tb_grant_id (bindings r) = tb_grant_id (bindings sent))) ||
     negb (bool_decide (tb_project_id (bindings r) = tb_project_id (bindings sent)))
  then lift (dispatch_fail "protocol_error")
  else if bool_decide (kind r = OPERATION_RESULT) then
    s <- gets id ;;
    match rows_where (fun row => bool_decide (Some (rq_correlation_id (ro_request row)) = correlation_id sent)) s with
    | [] => raise DoesNotExist
    | [(_, row)] =>
        if connection_epoch r =? ro_epoch row then ret (Some (payload r)) else lift (dispatch_fail "protocol_error")
    | _ :: _ :: _ => raise MultipleObjectsReturned
    end
  else ret None.

(** How an exception of the transport is reported for an operation. *)
Definition delivery_error (unsafe : bool) (e : exn) : exn :=
  match e with
  | ToolDispatchError code _ =>
      if unsafe && negb (bool_decide (code = "device_offline"%string)) then ToolDispatchError "outcome_unknown" false else e
  | _ => if unsafe then ToolDispatchError "outcome_unknown" false else ToolDispatchError "relay_unavailable" true
  end.
Definition error_code_of (e : exn) : string :=
  match e with ToolDispatchError code _ => code | _ => "" end.
End dispatch.

(** ** Errors to the caller *)

Definition _RELAY_ERROR_CODE_MAP : list (string * ErrorCode) := [
  ("authorization_context_missing", UNAUTHENTICATED); ("device_not_found", DEVICE_REVOKED);
  ("device_offline", DEVICE_OFFLINE); ("device_queue_full", QUEUE_FULL);
  ("idempotency_conflict", IDEMPOTENCY_CONFLICT); ("insufficient_scope", SCOPE_MISSING);
  ("invalid_request", INVALID_REQUEST); ("operation_in_progress", RATE_LIMITED);
  ("operation_timeout", DEADLINE_EXCEEDED); ("project_not_found", PROJECT_NOT_FOUND);
  ("protocol_error", INTERNAL_ERROR); ("relay_unavailable", INTERNAL_ERROR); ("unknown_tool", INVALID_REQUEST)]%string.

Definition all_error_codes : list ErrorCode :=
  [INVALID_REQUEST; UNAUTHENTICATED; UNAUTHORIZED; RESOURCE_MISMATCH; SCOPE_MISSING; RATE_LIMITED; PROJECT_NOT_FOUND;
   DEVICE_OFFLINE; DEVICE_REVOKED; LINK_REVOKED; QUEUE_FULL; DEADLINE_EXCEEDED; PATH_INVALID; PATH_OUTSIDE_PROJECT;
   PATH_CHANGED; REPARSE_POINT_FORBIDDEN; HARDLINK_MUTATION_FORBIDDEN; FILE_NOT_FOUND; FILE_TOO_LARGE;
   ENCODING_UNSUPPORTED; HASH_MISMATCH; PATCH_INVALID; PATCH_CONFLICT; IDEMPOTENCY_CONFLICT; APPROVAL_REQUIRED;
   APPROVAL_DENIED; APPROVAL_EXPIRED; SANDBOX_UNAVAILABLE; SHELL_NOT_FOUND; SHELL_NOT_RUNNING; OUTPUT_LIMIT_EXCEEDED;
   EC_OUTCOME_UNKNOWN; SCREENSHOT_UNAVAILABLE; DESKTOP_UNAVAILABLE; EC_CANCELLED; INTERNAL_ERROR].

(** [ErrorCode(code)] *)
Definition error_code_named (code : string) : option ErrorCode :=
  (fun r => r.2) <$> list_find (fun c => error_code_value c = lit code) all_error_codes.

Definition public_code (code : string) : ErrorCode :=
  match error_code_named code with
  | Some c => c
  | None => match list_find (fun kv => kv.1 = code) _RELAY_ERROR_CODE_MAP with Some (_, (_, c)) => c | None => INTERNAL_ERROR end
  end.

Definition error_tool_result (code : string) (message : str) (retryable : bool) (details : json) : json :=
  JObj [(lit "content", JList [JObj [(lit "type", JStr (lit "text")); (lit "text", JStr message)]]);
        (lit "structuredContent", JObj (failure_json {| tf_ok := false; tf_text := message;
           tf_error := {| te_code := public_code code; te_message := message; te_retryable := retryable;
                          te_correlation_id := None; te_details := details |} |}));
        (lit "isError", JBool true)].

(** Every code has its name and no other. *)
Lemma error_code_named_value c : error_code_named (text_of (error_code_value c)) = Some c.
Proof. by destruct c. Qed.
