(* ===== verification/Gateway.v ===== *)
(** * The device gateway: core/websocket.py

    What the relay does with the messages of a device: the binding checks, the
    life cycle of an operation as the device reports it, late results, the
    preparation of a dispatch, and the synchronisation of projects.  A function
    that runs in one database transaction is one computation here; RelayWorld
    interleaves them. *)
From S2P Require Import Prelude Utf8 PyStr Models Paths Database Json Envelope Relay RelayDispatch.
From stdpp Require Import sorting.

Open Scope Z_scope.

(** [str(v)] *)
Definition text_of_json (repr : json -> str) (v : json) : str :=
  match v with
  | JStr s => s
  | JNum z => str_of_Z z
  | JBool true => lit "True"
  | JBool false => lit "False"
  | JNull => lit "None"
  | JList _ | JObj _ => repr v
  end.

Definition with_payload (p : list (str * json)) (e : TunnelEnvelope) : TunnelEnvelope :=
  {| protocol_version := protocol_version e; kind := kind e; message_id := message_id e;
     correlation_id := correlation_id e; sequence := sequence e; connection_epoch := connection_epoch e;
     sent_at := sent_at e; deadline_at := deadline_at e; bindings := bindings e;
     action_digest := action_digest e; payload := p |}.

Record PreparedDispatch := {
  operation_id : str; outbound : option TunnelEnvelope; terminal : option TunnelEnvelope;
}.

(** What the clock shows and the random part of the next message identifier. *)
Record clock := { now : Z; stamp : Z; token : str }.

Definition refuse {A} (what : string) : M A := raise (ValueError what).

(** The account of a connection. *)
Definition account_of (c : DeviceConnection) : Z := account_of_wire (cn_account_wire_id c).

Definition replay_unsafe (row : OperationRow) : bool :=
  match operation_input row with
  | JObj input => _is_replay_unsafe (rq_kind (ro_request row)) input
  | _ => false
  end.

Definition reconcilable_errors : list str :=
  [lit "device_offline"; lit "operation_timeout"; lit "outcome_unknown"; lit "relay_unavailable"].

(** The statuses ordered by the progress of the operation; unknown ones count 0. *)
Definition state_rank (s : Status.t) : nat :=
  match s with
  | Status.ACCEPTED => 0 | Status.DISPATCHED => 1 | Status.RECEIVED => 2 | Status.RUNNING => 3
  | Status.SUCCEEDED | Status.FAILED | Status.OUTCOME_UNKNOWN => 4
  | Status.CANCELLED | Status.EXPIRED => 0
  end.

Section gateway.
  Context {contracts : Contracts}.

(** ** The binding of a message *)

(** The operations a correlation identifier names on a connection. *)
Definition bound_rows (c : DeviceConnection) (correlation : str) (s : relay) : list (str * OperationRow) :=
  rows_where (fun r => let q := ro_request r in
    bool_decide (rq_correlation_id q = correlation) && (rq_account q =? account_of c) &&
    bool_decide (rq_device q = cn_device_id c)) s.

Definition epoch_of (device : str) (s : relay) : option Z := dev_epoch <$> devices s !! device.

Definition _validate_operation_binding (c : DeviceConnection) (e : TunnelEnvelope) : M (str * OperationRow) :=
  s <- gets id ;;
  let b := bindings e in
  if negb (bool_decide (tb_account_id b = cn_account_wire_id c)) then refuse "account substitution"
  else if negb (bool_decide (tb_device_id b = cn_device_id c)) || negb (connection_epoch e =? cn_epoch c)
  then refuse "device or epoch substitution"
  else match correlation_id e with
  | None | Some [] => refuse "correlation_id is required"
  | Some correlation =>
      match uuid_of correlation with
      | None => raise ValidationError
      | Some correlation =>
          match (if bool_decide (epoch_of (cn_device_id c) s = Some (cn_epoch c))
                 then bound_rows c correlation s else []) with
          | [] => raise DoesNotExist
          | _ :: _ :: _ => raise MultipleObjectsReturned
          | [(pk, row)] =>
              let q := ro_request row in
              match links s !! rq_device_link q with
              | None => raise DoesNotExist
              | Some link =>
                  if negb (bool_decide (tb_project_id b = rq_project q)) then refuse "project substitution"
                  else if negb (bool_decide (tb_grant_id b = Some (rq_grant q))) then refuse "grant substitution"
                  else if negb (bool_decide (tb_link_id b = Some (dl_link_id link))) then refuse "link substitution"
                  else if negb (bool_decide (action_digest e = Some (rq_action_digest q)))
                  then refuse "action digest substitution"
                  else ret (pk, row)
              end
          end
      end
  end.

(** ** Results *)

Definition _failure_payload (code : ErrorCode) (message : string) (correlation : str) (retryable : bool)
    : list (str * json) :=
  failure_json {| tf_ok := false; tf_text := lit message;
    tf_error := {| te_code := code; te_message := lit message; te_retryable := retryable;
                   te_correlation_id := Some correlation; te_details := JObj [] |} |}.

Definition _uncertainty_message (tool_name : str) (arguments : list (str * json)) : string :=
  if bool_decide (tool_name = lit "device_desktop")
  then "The browser action may have executed; do not automatically retry it"
  else if bool_decide (tool_name = lit "project_frontend") && is_text "operation" "session_start" arguments
  then "The frontend session may have started; do not automatically start it again"
  else if bool_decide (tool_name = lit "project_frontend")
  then "The browser interaction may have executed; do not automatically retry it"
  else "The shell command may have started; do not automatically resubmit it".

Definition input_fields (row : OperationRow) : list (str * json) :=
  match operation_input row with JObj input => input | _ => [] end.

(** The result of a device as it is checked against its request. *)
Definition checked_result (row : OperationRow) (p : list (str * json)) : res (list (str * json)) :=
  match operation_input row with
  | JObj input => _validate_device_result_for_request (rq_kind (ro_request row)) input p
  | _ => Err (ValueError "operation input is unavailable")
  end.

Definition _normalize_operation_terminal (row : OperationRow) (unsafe : bool) (p : list (str * json))
    : list (str * json) :=
  match checked_result row p with
  | Ok checked => checked
  | Err _ =>
      let correlation := rq_correlation_id (ro_request row) in
      if unsafe
      then _failure_payload EC_OUTCOME_UNKNOWN
             ("The device returned an invalid result. " ++
              _uncertainty_message (rq_kind (ro_request row)) (input_fields row))%string correlation false
      else _failure_payload INTERNAL_ERROR
             "The device returned an invalid or request-mismatched result; it was discarded" correlation false
  end.

Definition durable (p : list (str * json)) : res (list (str * json)) :=
  match durable_tool_result sha256_hex p with
  | Some d => Ok d
  | None => Err (ValueError "UnicodeEncodeError")
  end.

(** [operation.result == durable_tool_result(payload)] *)
Definition same_result (row : OperationRow) (p : list (str * json)) : res bool :=
  d <-? durable p ;;
  Ok match ro_result row with Some r => same_json (JObj r) (JObj d) | None => false end.

Definition device_error (p : list (str * json)) : option (list (str * json)) :=
  match obj_get (lit "error") p with Some (JObj d) => Some d | _ => None end.
Definition device_error_code (p : list (str * json)) : str :=
  match device_error p with
  | Some d => match obj_get (lit "code") d with Some v => text_of_json repr_json v | None => lit "device_error" end
  | None => []
  end.
Definition uncertain_unknown (unsafe : bool) (p : list (str * json)) : bool :=
  unsafe && match device_error p with
            | Some d => is_str_value (obj_get (lit "code") d) (lit "outcome_unknown")
            | None => false
            end.
Definition reports_failure (p : list (str * json)) : bool :=
  match obj_get (lit "ok") p with Some (JBool false) => true | _ => false end ||
  truthy_json (obj_get (lit "error") p).
Definition result_status (uncertain : bool) (p : list (str * json)) : Status.t :=
  if uncertain then Status.OUTCOME_UNKNOWN
  else if reports_failure p then Status.FAILED else Status.SUCCEEDED.

(** ** The life cycle as the device reports it *)

Definition save_operation (pk : str) (row : OperationRow) : M unit := modify (upd_operations <[pk := row]>).

(** The columns every accepted message writes. *)
Definition reported (c : DeviceConnection) (e : TunnelEnvelope) (row : OperationRow) : OperationRow :=
  with_epoch (cn_epoch c) (with_sequence (sequence e) (cn_epoch c) row).

Definition stale_sequence (c : DeviceConnection) (e : TunnelEnvelope) (row : OperationRow) : bool :=
  (ro_last_sequence_epoch row =? cn_epoch c) && (sequence e <=? ro_last_sequence row).

Definition status_value (s : Status.t) : str :=
  lit match s with
  | Status.ACCEPTED => "accepted" | Status.DISPATCHED => "dispatched" | Status.RECEIVED => "received"
  | Status.RUNNING => "running" | Status.SUCCEEDED => "succeeded" | Status.FAILED => "failed"
  | Status.CANCELLED => "cancelled" | Status.EXPIRED => "expired" | Status.OUTCOME_UNKNOWN => "outcome_unknown"
  end.

Definition reconciled_event (n : Z) (c : DeviceConnection) (pk : str) (prior after : OperationRow) : AuditEvent :=
  {| ae_account := rq_account (ro_request prior); ae_actor_type := lit "device"; ae_actor_id := cn_device_id c;
     ae_event_type := lit "operation.late_terminal_reconciled"; ae_operation := Some pk;
     ae_metadata := JObj [(lit "prior_status", JStr (status_value (ro_status prior)));
       (lit "prior_error_code", JStr (ro_error_code prior));
       (lit "resolved_status", JStr (status_value (ro_status after)))]; ae_occurred_at := n |}.

(** A result that arrives for an operation that has already ended. *)
Definition late_result (n : Z) (c : DeviceConnection) (e : TunnelEnvelope) (pk : str) (row : OperationRow)
    (uncertain : bool) : M OperationRow :=
  same <- lift (same_result row (payload e)) ;;
  if same then ret row
  else if bool_decide (ro_result row = None) && bool_decide (ro_error_code row ∈ reconcilable_errors) then
    match checked_result row (payload e) with
    | Err _ => refuse "late terminal failed its tool result contract"
    | Ok checked =>
        d <- lift (durable checked) ;;
        let row' := reported c e (with_status (result_status uncertain checked)
                      (with_error (device_error_code checked) (with_result (Some d) row))) in
        save_operation pk row' ;;;
        modify (record_audit (reconciled_event n c pk row row')) ;;;
        ret row'
    end
  else refuse "terminal result substitution".

(** The status a message announces; [None]: none. *)
Definition announced (k : MessageKind) (row : OperationRow) (uncertain : bool) (p : list (str * json)) : option Status.t :=
  match k with
  | OPERATION_RECEIVED => Some Status.RECEIVED
  | OPERATION_STARTED => Some Status.RUNNING
  | OPERATION_RESULT => Some (result_status uncertain p)
  | TERMINAL_ACK => Some (ro_status row)
  | _ => None
  end.

Definition progress (c : DeviceConnection) (e : TunnelEnvelope) (pk : str) (row : OperationRow) (uncertain : bool)
    : M OperationRow :=
  let moved := match announced (kind e) row uncertain (payload e) with
               | Some s => if (state_rank (ro_status row) <=? state_rank s)%nat then with_status s row else row
               | None => row
               end in
  if bool_decide (kind e = OPERATION_RESULT) then
    d <- lift (durable (payload e)) ;;
    let row' := reported c e (with_error (device_error_code (payload e)) (with_result (Some d) moved)) in
    save_operation pk row' ;;; ret row'
  else let row' := reported c e moved in save_operation pk row' ;;; ret row'.

(** The operation and the message, whose payload the function may replace. *)
Definition _record_device_message (n : Z) (c : DeviceConnection) (e : TunnelEnvelope)
    : M (OperationRow * TunnelEnvelope) := transaction (
  found <- _validate_operation_binding c e ;;
  let pk := found.1 in
  let row := found.2 in
  let unsafe := replay_unsafe row in
  let result := bool_decide (kind e = OPERATION_RESULT) in
  let e' := if result then with_payload (_normalize_operation_terminal row unsafe (payload e)) e else e in
  if stale_sequence c e row then
    if terminal_statuses (ro_status row) && result then
      same <- lift (same_result row (payload e')) ;;
      if same then ret (row, e') else refuse "stale operation lifecycle sequence"
    else refuse "stale operation lifecycle sequence"
  else
    let uncertain := uncertain_unknown unsafe (payload e') in
    if terminal_statuses (ro_status row) then
      if result then row' <- late_result n c e' pk row uncertain ;; ret (row', e') else ret (row, e')
    else row' <- progress c e' pk row uncertain ;; ret (row', e')).

(** ** Dispatching an operation *)

Definition operation_bindings (c : DeviceConnection) (link : DeviceLink) (q : OperationRequest) : TunnelBindings :=
  {| tb_account_id := cn_account_wire_id c; tb_device_id := cn_device_id c; tb_link_id := Some (dl_link_id link);
     tb_grant_id := Some (rq_grant q); tb_project_id := rq_project q |}.

Definition _new_message_id (k : clock) : str := lit "relay_" ++ token k.

(** [TunnelEnvelope(...)] of the relay, with the validators of the class. *)
Definition relay_envelope : TunnelEnvelope -> res TunnelEnvelope := TunnelEnvelope_validate sha256_hex valid_input.

Definition _terminal_result_envelope (k : clock) (c : DeviceConnection) (link : DeviceLink) (row : OperationRow)
    (p : list (str * json)) : res TunnelEnvelope :=
  let q := ro_request row in
  relay_envelope {| protocol_version := PROTOCOL_VERSION; kind := OPERATION_RESULT; message_id := _new_message_id k;
    correlation_id := Some (rq_correlation_id q); sequence := 0; connection_epoch := cn_epoch c;
    sent_at := stamp k; deadline_at := None; bindings := operation_bindings c link q;
    action_digest := Some (rq_action_digest q); payload := p |}.

(** Why an operation is not sent: status, error and the answer to the caller. *)
Definition undeliverable (n : Z) (link : DeviceLink) (row : OperationRow)
    : option (Status.t * string * list (str * json)) :=
  let q := ro_request row in
  if rq_deadline_at q <=? n then
    Some (Status.EXPIRED, "operation_timeout"%string,
          _failure_payload DEADLINE_EXCEEDED "The operation deadline elapsed before device delivery"
            (rq_correlation_id q) true)
  else if negb (bool_decide (dl_revoked_at link = None)) then
    Some (Status.FAILED, "link_revoked"%string,
          _failure_payload LINK_REVOKED "The OAuth device link was revoked before delivery" (rq_correlation_id q) false)
  else if negb (bool_decide (ro_delivery_attempted_at row = None)) && replay_unsafe row then
    Some (Status.OUTCOME_UNKNOWN, "outcome_unknown"%string,
          _failure_payload EC_OUTCOME_UNKNOWN (_uncertainty_message (rq_kind q) (input_fields row))
            (rq_correlation_id q) false)
  else None.

(** The durable slot stays empty where a later result of the device may fill it. *)
Definition terminal_slot (error : string) (p : list (str * json)) : option (list (str * json)) :=
  if bool_decide (error ∈ ["operation_timeout"; "outcome_unknown"]%string) then None else Some p.

Definition dispatch_envelope (k : clock) (c : DeviceConnection) (link : DeviceLink) (row : OperationRow) : TunnelEnvelope :=
  let q := ro_request row in
  {| protocol_version := PROTOCOL_VERSION; kind := OPERATION; message_id := rq_message_id q;
     correlation_id := Some (rq_correlation_id q); sequence := 0; connection_epoch := cn_epoch c;
     sent_at := stamp k; deadline_at := Some (rq_deadline_at q); bindings := operation_bindings c link q;
     action_digest := Some (rq_action_digest q); payload := rq_payload q |}.

Definition _prepare_operation_dispatch (k : clock) (c : DeviceConnection) (correlation : str)
    : M (option PreparedDispatch) := transaction (
  s <- gets id ;;
  match uuid_of correlation with
  | None => raise ValidationError
  | Some correlation =>
      match bound_rows c correlation s with
      | [] => ret None
      | (pk, row) :: _ =>
          match devices s !! rq_device (ro_request row), links s !! rq_device_link (ro_request row) with
          | Some device, Some link =>
              if negb (dev_epoch device =? cn_epoch c) then refuse "connection was fenced while dispatching"
              else if terminal_statuses (ro_status row) then ret None
              else match undeliverable (now k) link row with
              | Some (status, error, p) =>
                  save_operation pk (with_epoch (cn_epoch c) (with_status status (with_error (lit error)
                    (with_result (terminal_slot error p) row)))) ;;;
                  e <- lift (_terminal_result_envelope k c link row p) ;;
                  ret (Some {| operation_id := pk; outbound := None; terminal := Some e |})
              | None =>
                  save_operation pk (with_epoch (cn_epoch c) (with_delivery (Some (now k)) None row)) ;;;
                  e <- lift (relay_envelope (dispatch_envelope k c link row)) ;;
                  ret (Some {| operation_id := pk; outbound := Some e; terminal := None |})
              end
          | _, _ => ret None
          end
      end
  end).

Definition _mark_operation_sent (n : Z) (pk : str) (c : DeviceConnection) : M unit :=
  update_operation pk (fun r => bool_decide (rq_device (ro_request r) = cn_device_id c) &&
                                (ro_epoch r =? cn_epoch c) && bool_decide (ro_sent_at r = None))
    (fun r => with_delivery (ro_delivery_attempted_at r) (Some (n, cn_epoch c)) r).

(** The order of [order_by("created_at")], rows of one instant by primary key. *)
Definition created_le (x y : str * OperationRow) : Prop :=
  rq_created_at (ro_request x.2) <= rq_created_at (ro_request y.2).
#[export] Instance created_le_dec : RelDecision created_le.
Proof. intros x y. unfold created_le. apply _. Defined.

Definition recoverable_status (s : Status.t) : bool :=
  match s with Status.DISPATCHED | Status.RECEIVED | Status.RUNNING => true | _ => false end.

Definition _recoverable_operation_correlations (c : DeviceConnection) : M (list str) :=
  gets (fun s => take 100 (map (fun kv => rq_correlation_id (ro_request kv.2))
    (merge_sort created_le (rows_where (fun r => (rq_account (ro_request r) =? account_of c) &&
       bool_decide (rq_device (ro_request r) = cn_device_id c) && recoverable_status (ro_status r)) s)))).

Definition _terminal_ack (k : clock) (c : DeviceConnection) (row : OperationRow) (e : TunnelEnvelope)
    : res TunnelEnvelope :=
  relay_envelope {| protocol_version := PROTOCOL_VERSION; kind := TERMINAL_ACK; message_id := _new_message_id k;
    correlation_id := correlation_id e; sequence := sequence e + 1; connection_epoch := cn_epoch c;
    sent_at := stamp k; deadline_at := None; bindings := bindings e;
    action_digest := Some (rq_action_digest (ro_request row)); payload := [(lit "persisted", JBool true)] |}.

(** ** Projects of a device *)

Definition Mode_values : list str :=
  [lit "isolated"; lit "native_approval"; lit "native_trusted"; lit "full_access"; lit "native_project"].

(** [str(item.get(key, default))] *)
Definition text_field (key default : string) (item : list (str * json)) : str :=
  match obj_get (lit key) item with Some v => text_of_json repr_json v | None => lit default end.

Definition saved_project (account : Z) (device title fingerprint mode : str) : RelayProject :=
  {| pj_account := account; pj_device := device; pj_title := title; pj_root_fingerprint := fingerprint;
     pj_mode := mode; pj_status := ProjectStatus.AVAILABLE |}.

(** Another project of the device has this fingerprint. *)
Definition fingerprint_taken (device project fingerprint : str) (s : relay) : bool :=
  existsb (fun kv => negb (bool_decide (kv.1 = project)) && bool_decide (pj_device kv.2 = device) &&
                     bool_decide (pj_root_fingerprint kv.2 = fingerprint)) (map_to_list (relay_projects s)).

Definition synchronize_project (c : DeviceConnection) (v : json) : M unit :=
  match v with
  | JObj item =>
      let project := text_field "project_id" "" item in
      let title := text_field "title" "" item in
      let fingerprint := text_field "root_fingerprint" "" item in
      let mode := text_field "mode" "isolated" item in
      if negb (is_ok (_validate_opaque_id project) && ((1 <=? length title)%nat && (length title <=? 160)%nat) &&
               ((32 <=? length fingerprint)%nat && (length fingerprint <=? 128)%nat))
      then refuse "invalid project identifiers"
      else if negb (bool_decide (mode ∈ Mode_values)) then refuse "invalid project mode"
      else
        s <- gets id ;;
        if match relay_projects s !! project with
           | Some row => negb (pj_account row =? account_of c) || negb (bool_decide (pj_device row = cn_device_id c))
           | None => false
           end then refuse "cross-account or cross-device project substitution"
        else if fingerprint_taken (cn_device_id c) project fingerprint s then raise IntegrityError
        else modify (upd_projects <[project := saved_project (account_of c) (cn_device_id c) title fingerprint mode]>)
  | _ => refuse "invalid project entry"
  end.

Definition named_project (v : json) : str :=
  match v with JObj item => text_field "project_id" "" item | _ => [] end.

Definition with_project_status (st : ProjectStatus.t) (p : RelayProject) : RelayProject :=
  {| pj_account := pj_account p; pj_device := pj_device p; pj_title := pj_title p;
     pj_root_fingerprint := pj_root_fingerprint p; pj_mode := pj_mode p; pj_status := st |}.

Definition withdraw (c : DeviceConnection) (seen : list str) : M unit :=
  modify (upd_projects (map_imap (fun project row =>
    Some (if (pj_account row =? account_of c) && bool_decide (pj_device row = cn_device_id c) &&
             negb (bool_decide (project ∈ seen))
          then with_project_status ProjectStatus.UNAVAILABLE row else row)))).

Definition _synchronize_projects (c : DeviceConnection) (p : list (str * json)) : M unit :=
  match obj_get (lit "projects") p with
  | Some (JList items) =>
      if (1000 <? length items)%nat then refuse "invalid project synchronization payload"
      else transaction (for_each items (synchronize_project c) ;;; withdraw c (map named_project items))
  | _ => refuse "invalid project synchronization payload"
  end.
End gateway.
