(* ===== verification/RelayWorld.v ===== *)
(** * The relay as a whole: tool calls, device connections, administration

    The coroutines of dispatch.py and websocket.py cut at their awaits, over one
    database.  A database function runs in one transaction; between two of them
    any segment of another coroutine may run.  Redis is the log of everything
    ever added to it: a reader may be given any entry of its stream, in any order
    and more than once, and may miss entries.  [step] runs one segment, [run] a
    sequence of them. *)
From S2P Require Import Prelude Utf8 PyStr Models Paths Database Json Envelope Relay RelayDispatch Gateway.

Open Scope Z_scope.

(** ** Coroutines *)

(** [_dispatch_loop], after the handshake of [device_websocket]. *)
Inductive dispatcher :=
| DAccepted                                             (* sends WELCOME *)
| DWelcomed                                             (* [_mark_online] *)
| DRecover                                              (* [_recoverable_operation_correlations] *)
| DDeliver (todo : list str)                            (* [_prepare_operation_dispatch]; none left: polls *)
| DSend (pk : str) (e : TunnelEnvelope) (todo : list str)
| DSent (pk : str) (todo : list str)                    (* [_mark_operation_sent] *)
| DPublish (correlation : str) (e : TunnelEnvelope) (todo : list str).

(** [_receive_loop]. *)
Inductive answering :=
| AReceive
| APublish (row : OperationRow) (e : TunnelEnvelope)
| AAck (row : OperationRow) (e : TunnelEnvelope)
| AReply (e : TunnelEnvelope)                           (* HEARTBEAT_ACK *)
| ATouch.

Record socket := {
  so_connection : DeviceConnection; so_open : bool; so_offline : bool;   (* [_mark_offline] ran *)
  so_dispatch : dispatcher; so_answer : answering;
}.

(** [dispatch_tool]. *)
Inductive tool_call :=
| QCalled (tool_name : str) (raw_arguments : list (str * json))
| QRouted (tool_name : str) (arguments : list (str * json)) (device : Device) (project : option str)
| QCreated (pk : str) (row : OperationRow) (device_epoch : Z) (arguments : list (str * json))
| QMarked (pk : str) (row : OperationRow) (e : TunnelEnvelope) (arguments : list (str * json))
| QWaiting (pk : str) (row : OperationRow) (e : TunnelEnvelope) (arguments : list (str * json))
| QResult (pk : str) (row : OperationRow) (arguments p : list (str * json))
| QFailed (pk : str) (error : exn)                      (* [_mark_delivery_failure] *)
| QAnswered (r : res (list (str * json))).

Record request := { rt_principal : MCPPrincipal; rt_call : tool_call }.

Record world := {
  store : relay;
  sockets : list socket;
  requests : list request;
  dispatch_stream : list (str * str);                   (* device, correlation *)
  result_stream : list (str * TunnelEnvelope);          (* correlation, message *)
  sent : list (str * TunnelEnvelope);                   (* device, every message it was sent *)
  drawn : list str;                                     (* every identifier drawn *)
}.

Definition W := ST world.

Definition upd_store r s := {| store := r; sockets := sockets s; requests := requests s;
  dispatch_stream := dispatch_stream s; result_stream := result_stream s; sent := sent s; drawn := drawn s |}.
Definition upd_sockets f s := {| store := store s; sockets := f (sockets s); requests := requests s;
  dispatch_stream := dispatch_stream s; result_stream := result_stream s; sent := sent s; drawn := drawn s |}.
Definition upd_requests f s := {| store := store s; sockets := sockets s; requests := f (requests s);
  dispatch_stream := dispatch_stream s; result_stream := result_stream s; sent := sent s; drawn := drawn s |}.
Definition upd_dispatch_stream f s := {| store := store s; sockets := sockets s; requests := requests s;
  dispatch_stream := f (dispatch_stream s); result_stream := result_stream s; sent := sent s; drawn := drawn s |}.
Definition upd_result_stream f s := {| store := store s; sockets := sockets s; requests := requests s;
  dispatch_stream := dispatch_stream s; result_stream := f (result_stream s); sent := sent s; drawn := drawn s |}.
Definition upd_sent f s := {| store := store s; sockets := sockets s; requests := requests s;
  dispatch_stream := dispatch_stream s; result_stream := result_stream s; sent := f (sent s); drawn := drawn s |}.
Definition upd_drawn f s := {| store := store s; sockets := sockets s; requests := requests s;
  dispatch_stream := dispatch_stream s; result_stream := result_stream s; sent := sent s; drawn := f (drawn s) |}.

Definition set_socket (is_open offline : bool) (d : dispatcher) (a : answering) (k : socket) : socket :=
  {| so_connection := so_connection k; so_open := is_open; so_offline := offline; so_dispatch := d; so_answer := a |}.
Definition to_dispatch (d : dispatcher) (k : socket) : socket := set_socket (so_open k) (so_offline k) d (so_answer k) k.
Definition to_answer (a : answering) (k : socket) : socket := set_socket (so_open k) (so_offline k) (so_dispatch k) a k.
Definition shut (k : socket) : socket := set_socket false (so_offline k) (so_dispatch k) (so_answer k) k.
Definition set_call (q : tool_call) (r : request) : request := {| rt_principal := rt_principal r; rt_call := q |}.

(** The loops run once the device is online. *)
Definition looping (d : dispatcher) : bool :=
  match d with DAccepted | DWelcomed => false | _ => true end.

Section world.
  Context {contracts : Contracts}.

(** A database function, with what it returns or raises. *)
Definition on_store {T} (m : M T) : W (res T) := fun s =>
  let '(r, db) := m (store s) in (Ok r, upd_store db s).

Definition dispatch_goto (n : nat) (d : dispatcher) : W unit := modify (upd_sockets (alter (to_dispatch d) n)).
Definition answer_goto (n : nat) (a : answering) : W unit := modify (upd_sockets (alter (to_answer a) n)).
Definition close (n : nat) : W unit := modify (upd_sockets (alter shut n)).
Definition call_goto (n : nat) (q : tool_call) : W unit := modify (upd_requests (alter (set_call q) n)).
Definition answer_call (n : nat) (r : res (list (str * json))) : W unit := call_goto n (QAnswered r).

(** [send_json]; a dead socket raises and the loops end. *)
Definition send_to (n : nat) (c : DeviceConnection) (delivered : bool) (e : TunnelEnvelope) (k : W unit) : W unit :=
  if delivered then modify (upd_sent (fun l => l ++ [(cn_device_id c, e)])) ;;; k else close n.

(** ** The device websocket *)

Definition accept (t : Z) (raw_ticket signature : str) : W unit :=
  r <- on_store (_consume_ticket t raw_ticket signature) ;;
  match r with
  | Ok c => modify (upd_sockets (fun l => l ++ [{| so_connection := c; so_open := true; so_offline := false;
                                                   so_dispatch := DAccepted; so_answer := AReceive |}]))
  | Err _ => ret tt
  end.

Definition own_bindings (c : DeviceConnection) : TunnelBindings :=
  {| tb_account_id := cn_account_wire_id c; tb_device_id := cn_device_id c; tb_link_id := None;
     tb_grant_id := None; tb_project_id := None |}.

(** [f"{n:08x}"] of a number below 16^8. *)
Definition hex8 (n : Z) : str := hex16 8 n.

Definition welcome (k : clock) (c : DeviceConnection) : TunnelEnvelope :=
  {| protocol_version := PROTOCOL_VERSION; kind := WELCOME;
     message_id := lit "welcome_" ++ hex8 (cn_epoch c) ++ lit "_00000000"; correlation_id := None; sequence := 0;
     connection_epoch := cn_epoch c; sent_at := stamp k; deadline_at := None; bindings := own_bindings c;
     action_digest := None;
     payload := [(lit "heartbeat_interval_seconds", JNum 30); (lit "offline_after_seconds", JNum 75);
                 (lit "queue_limit", JNum (Z.of_nat DEVICE_QUEUE_LIMIT))] |}.

(** One segment of the dispatch loop of socket [n]. *)
Definition dispatch_segment (n : nat) (k : clock) (delivered : bool) (c : DeviceConnection) (d : dispatcher) : W unit :=
  match d with
  | DAccepted => send_to n c delivered (welcome k c) (dispatch_goto n DWelcomed)
  | DWelcomed => on_store (_mark_online (now k) c) ;;; dispatch_goto n DRecover
  | DRecover =>
      r <- on_store (_recoverable_operation_correlations c) ;;
      match r with Ok todo => dispatch_goto n (DDeliver todo) | Err _ => close n end
  | DDeliver [] => ret tt
  | DDeliver (correlation :: todo) =>
      r <- on_store (_prepare_operation_dispatch k c correlation) ;;
      match r with
      | Err _ => close n
      | Ok None => dispatch_goto n (DDeliver todo)
      | Ok (Some prepared) =>
          match terminal prepared, outbound prepared with
          | Some e, _ => dispatch_goto n (DPublish correlation e todo)
          | None, Some e => dispatch_goto n (DSend (operation_id prepared) e todo)
          | None, None => dispatch_goto n (DDeliver todo)
          end
      end
  | DSend pk e todo => send_to n c delivered e (dispatch_goto n (DSent pk todo))
  | DSent pk todo => on_store (_mark_operation_sent (now k) pk c) ;;; dispatch_goto n (DDeliver todo)
  | DPublish correlation e todo =>
      modify (upd_result_stream (fun l => l ++ [(correlation, e)])) ;;; dispatch_goto n (DDeliver todo)
  end.

(** The loop reads its stream: the entries it is given. *)
Definition poll (n : nat) (c : DeviceConnection) (d : dispatcher) (entries : list nat) : W unit :=
  s <- gets id ;;
  match d with
  | DDeliver [] =>
      dispatch_goto n (DDeliver (omap (fun i =>
        match dispatch_stream s !! i with
        | Some (device, correlation) => if decide (device = cn_device_id c) then Some correlation else None
        | None => None
        end) entries))
  | _ => ret tt
  end.

(** A frame of the device, as the record of its fields; [None]: no such frame. *)
Definition receive (n : nat) (k : clock) (c : DeviceConnection) (frame : option TunnelEnvelope) : W unit :=
  match frame with
  | None => close n
  | Some raw =>
      match TunnelEnvelope_validate sha256_hex valid_input raw with
      | Err _ => close n
      | Ok e =>
          if negb (connection_epoch e =? cn_epoch c) ||
             negb (bool_decide (tb_account_id (bindings e) = cn_account_wire_id c)) ||
             negb (bool_decide (tb_device_id (bindings e) = cn_device_id c)) then close n
          else if bool_decide (kind e = HELLO) && bool_decide (is_Some (obj_get (lit "projects") (payload e))) then
            r <- on_store (_synchronize_projects c (payload e)) ;;
            match r with Ok _ => answer_goto n ATouch | Err _ => close n end
          else if bool_decide (kind e ∈ [OPERATION_RECEIVED; OPERATION_STARTED; OPERATION_PROGRESS;
                                         OPERATION_RESULT; TERMINAL_ACK]) then
            r <- on_store (_record_device_message (now k) c e) ;;
            match r with
            | Err _ => close n
            | Ok (row, e') =>
                if bool_decide (kind e ∈ [OPERATION_PROGRESS; OPERATION_RESULT])
                then answer_goto n (APublish row e') else answer_goto n ATouch
            end
          else if bool_decide (kind e = HEARTBEAT) then answer_goto n (AReply e)
          else answer_goto n ATouch
      end
  end.

Definition heartbeat_ack (k : clock) (c : DeviceConnection) (e : TunnelEnvelope) : TunnelEnvelope :=
  {| protocol_version := PROTOCOL_VERSION; kind := HEARTBEAT_ACK; message_id := _new_message_id k;
     correlation_id := Some (message_id e); sequence := sequence e; connection_epoch := cn_epoch c;
     sent_at := stamp k; deadline_at := None; bindings := own_bindings c; action_digest := None; payload := [] |}.

(** One segment of the receive loop after a frame. *)
Definition answer_segment (n : nat) (k : clock) (delivered : bool) (c : DeviceConnection) (a : answering) : W unit :=
  match a with
  | AReceive => ret tt
  | APublish row e =>
      match correlation_id e with
      | Some correlation => modify (upd_result_stream (fun l => l ++ [(correlation, e)]))
      | None => ret tt
      end ;;;
      answer_goto n (if bool_decide (kind e = OPERATION_RESULT) then AAck row e else ATouch)
  | AAck row e =>
      match _terminal_ack k c row e with
      | Ok ack => send_to n c delivered ack (answer_goto n ATouch)
      | Err _ => close n
      end
  | AReply e =>
      match relay_envelope (heartbeat_ack k c e) with
      | Ok reply => send_to n c delivered reply (answer_goto n ATouch)
      | Err _ => close n
      end
  | ATouch => on_store (_touch (now k) c) ;;; answer_goto n AReceive
  end.

(** [_heartbeat_loop] *)
Definition heartbeat (n : nat) (k : clock) (delivered : bool) (c : DeviceConnection) (count : Z) : W unit :=
  match relay_envelope
    {| protocol_version := PROTOCOL_VERSION; kind := HEARTBEAT;
       message_id := lit "heartbeat_" ++ hex8 (cn_epoch c) ++ lit "_" ++ hex8 count; correlation_id := None;
       sequence := count; connection_epoch := cn_epoch c; sent_at := stamp k; deadline_at := None;
       bindings := own_bindings c; action_digest := None; payload := [] |} with
  | Ok e => send_to n c delivered e (ret tt)
  | Err _ => close n
  end.

(** The [finally] of [device_websocket]. *)
Definition finish (n : nat) (c : DeviceConnection) : W unit :=
  on_store (_mark_offline c) ;;;
  modify (upd_sockets (alter (fun k => set_socket false true (so_dispatch k) (so_answer k) k) n)).

(** ** A tool call *)

Definition arrive (t : Z) (raw_token link_id tool_name : str) (raw_arguments : list (str * json)) : W unit :=
  r <- on_store (_authenticate t raw_token link_id) ;;
  match r with
  | Ok p => modify (upd_requests (fun l => l ++ [{| rt_principal := p; rt_call := QCalled tool_name raw_arguments |}]))
  | Err _ => ret tt
  end.

Definition route (n : nat) (k : clock) (p : MCPPrincipal) (tool_name : str) (raw_arguments : list (str * json)) : W unit :=
  r <- on_store (dispatch_route p tool_name raw_arguments) ;;
  match r with
  | Ok (arguments, device, project) =>
      match local_result (now k) p tool_name arguments with
      | Some m => r <- on_store m ;; answer_call n r
      | None => call_goto n (QRouted tool_name arguments device project)
      end
  | Err e => answer_call n (Err e)
  end.

(** Identifiers are drawn at random and do not repeat. *)
Definition unused (f : fresh_ids) (l : list str) : bool :=
  bool_decide (fr_pk f ∉ l) && bool_decide (fr_message_id f ∉ l) && bool_decide (fr_correlation_id f ∉ l) &&
  bool_decide (fr_pk f <> fr_message_id f) && bool_decide (fr_pk f <> fr_correlation_id f) &&
  bool_decide (fr_message_id f <> fr_correlation_id f).

Definition create (n : nat) (k : clock) (f : fresh_ids) (p : MCPPrincipal) (tool_name : str)
    (arguments : list (str * json)) (device : Device) (project : option str) : W unit :=
  s <- gets id ;;
  if negb (unused f (drawn s)) then ret tt
  else
    modify (upd_drawn (fun l => [fr_pk f; fr_message_id f; fr_correlation_id f] ++ l)) ;;;
    r <- on_store (dispatch_admit (now k) f p tool_name arguments device project) ;;
    match r with
    | Ok (pk, row, true) => call_goto n (QCreated pk row (dev_epoch device) arguments)
    | Ok (_, row, false) => answer_call n (prior_answer row)
    | Err e => answer_call n (Err e)
    end.

(** The message is built, and the operation marked. *)
Definition mark (n : nat) (k : clock) (p : MCPPrincipal) (pk : str) (row : OperationRow) (device_epoch : Z)
    (arguments : list (str * json)) : W unit :=
  match relay_envelope
          (operation_envelope (stamp k) device_epoch (account_wire (mp_account_id p)) (mp_link_id p) row) with
  | Err _ => call_goto n (QFailed pk (ToolDispatchError "protocol_error" false))
  | Ok e => on_store (_mark_dispatched pk) ;;; call_goto n (QMarked pk row e arguments)
  end.

Definition publish (n : nat) (p : MCPPrincipal) (pk : str) (row : OperationRow) (e : TunnelEnvelope)
    (arguments : list (str * json)) : W unit :=
  modify (upd_dispatch_stream (fun l => l ++ [(mp_device_id p, rq_correlation_id (ro_request row))])) ;;;
  call_goto n (QWaiting pk row e arguments).

(** [except ToolDispatchError] and [except Exception] around the transport and
    around the result. *)
Definition transport_failed (n : nat) (pk : str) (row : OperationRow) (arguments : list (str * json)) (e : exn) : W unit :=
  call_goto n (QFailed pk (delivery_error (_is_replay_unsafe (rq_kind (ro_request row)) arguments) e)).
Definition result_refused (n : nat) (pk : str) (row : OperationRow) (arguments : list (str * json)) (e : exn) : W unit :=
  call_goto n (QFailed pk (if _is_replay_unsafe (rq_kind (ro_request row)) arguments
                           then ToolDispatchError "outcome_unknown" false else e)).

(** The call reads an entry of its result stream. *)
Definition read_stream (n : nat) (p : MCPPrincipal) (pk : str) (row : OperationRow) (sent_envelope : TunnelEnvelope)
    (arguments : list (str * json)) (entry : nat) : W unit :=
  s <- gets id ;;
  match result_stream s !! entry with
  | None => ret tt
  | Some (correlation, e) =>
      if negb (bool_decide (correlation = rq_correlation_id (ro_request row))) then ret tt
      else
        r <- on_store (read_result sent_envelope (mp_device_id p) e) ;;
        match r with
        | Err e => transport_failed n pk row arguments e
        | Ok None => ret tt
        | Ok (Some result) =>
            match _validate_device_result_for_request (rq_kind (ro_request row)) arguments result with
            | Ok checked => call_goto n (QResult pk row arguments checked)
            | Err e => result_refused n pk row arguments e
            end
        end
  end.

Definition conclude (n : nat) (pk : str) (p : list (str * json)) : W unit :=
  r <- on_store (_finish pk p) ;;
  answer_call n (match r with Ok _ => Ok p | Err e => Err e end).

Definition fail_call (n : nat) (pk : str) (e : exn) : W unit :=
  on_store (_mark_delivery_failure pk (error_code_of e)) ;;; answer_call n (Err e).

(** One segment of a call; [entry] is the position it reads, [failure] an exception
    of the transport in place of it. *)
Definition call_segment (n : nat) (k : clock) (f : fresh_ids) (entry : nat) (failure : option exn)
    (p : MCPPrincipal) (q : tool_call) : W unit :=
  match q with
  | QCalled tool_name raw => route n k p tool_name raw
  | QRouted tool_name arguments device project => create n k f p tool_name arguments device project
  | QCreated pk row epoch arguments => mark n k p pk row epoch arguments
  | QMarked pk row e arguments =>
      match failure with
      | Some x => transport_failed n pk row arguments x
      | None => publish n p pk row e arguments
      end
  | QWaiting pk row e arguments =>
      match failure with
      | Some x => transport_failed n pk row arguments x
      | None => read_stream n p pk row e arguments entry
      end
  | QResult pk row arguments checked => conclude n pk checked
  | QFailed pk e => fail_call n pk e
  | QAnswered _ => ret tt
  end.

(** ** Administration *)

Definition enroll (device : str) (d : Device) : M unit :=
  s <- gets devices ;;
  if bool_decide (is_Some (s !! device)) then raise IntegrityError
  else modify (upd_devices <[device := with_presence DeviceStatus.OFFLINE 0 None None d]>).

(** [manage.py cleanup_codito] *)
Definition RETENTION : Z := 30 * 86400 * SECOND.
Definition cleanup (t : Z) : M unit :=
  modify (upd_tickets (filter (fun kv => negb (ct_expires_at kv.2 <? t) = true))) ;;;
  modify (upd_operations (filter (fun kv => negb (rq_created_at (ro_request kv.2) <? t - RETENTION) = true))) ;;;
  modify (fun s => {| devices := devices s; links := links s; relay_projects := relay_projects s;
    access_tokens := access_tokens s; connection_tickets := connection_tickets s;
    relay_operations := relay_operations s;
    audit := filter (fun e => negb (ae_occurred_at e <? t - RETENTION) = true) (audit s) |}).

Inductive administration :=
| AIssueTicket (t : Z) (device raw challenge : str)
| AEnroll (device : str) (d : Device)
| ARevoke (t account : Z) (device : str)
| ARotate (t account : Z) (device pk link_id : str)
| ATokens (l : gmap str AccessToken)                    (* logins, refreshes and expiry *)
| ACleanup (t : Z).

Definition administer (a : administration) : M unit :=
  match a with
  | AIssueTicket t device raw challenge => issue_ticket t device raw challenge
  | AEnroll device d => enroll device d
  | ARevoke t account device => revoke_device t account device
  | ARotate t account device pk link_id => rotate_device_link t account device pk link_id
  | ATokens l => modify (upd_tokens (fun _ => l))
  | ACleanup t => cleanup t
  end.

(** ** Histories *)

Inductive event :=
| EConnect (t : Z) (raw_ticket signature : str)
| EDispatch (n : nat) (k : clock) (delivered : bool)
| EPoll (n : nat) (entries : list nat)
| EReceive (n : nat) (k : clock) (frame : option TunnelEnvelope)
| EAnswer (n : nat) (k : clock) (delivered : bool)
| EHeartbeat (n : nat) (k : clock) (delivered : bool) (count : Z)
| EClose (n : nat)                                      (* fence, silence, disconnection, cancellation *)
| EFinish (n : nat)
| ECall (t : Z) (raw_token link_id tool_name : str) (raw_arguments : list (str * json))
| ESegment (n : nat) (k : clock) (f : fresh_ids) (entry : nat) (failure : option exn)
| ECancel (n : nat)                                     (* the caller went away *)
| EAdminister (a : administration).

(** A segment of an open socket. *)
Definition with_socket (n : nat) (body : socket -> W unit) : W unit :=
  s <- gets sockets ;;
  match s !! n with Some k => when (so_open k) (body k) | None => ret tt end.

Definition handle (e : event) : W unit :=
  match e with
  | EConnect t raw_ticket signature => accept t raw_ticket signature
  | EDispatch n k delivered =>
      with_socket n (fun so => dispatch_segment n k delivered (so_connection so) (so_dispatch so))
  | EPoll n entries => with_socket n (fun so => poll n (so_connection so) (so_dispatch so) entries)
  | EReceive n k frame =>
      with_socket n (fun so => when (looping (so_dispatch so))
        (match so_answer so with AReceive => receive n k (so_connection so) frame | _ => ret tt end))
  | EAnswer n k delivered =>
      with_socket n (fun so => when (looping (so_dispatch so))
        (answer_segment n k delivered (so_connection so) (so_answer so)))
  | EHeartbeat n k delivered count =>
      with_socket n (fun so => when (looping (so_dispatch so)) (heartbeat n k delivered (so_connection so) count))
  | EClose n => close n
  | EFinish n =>
      s <- gets sockets ;;
      match s !! n with
      | Some so => when (negb (so_open so) && negb (so_offline so)) (finish n (so_connection so))
      | None => ret tt
      end
  | ECall t raw_token link_id tool_name raw_arguments => arrive t raw_token link_id tool_name raw_arguments
  | ESegment n k f entry failure =>
      s <- gets requests ;;
      match s !! n with
      | Some r => call_segment n k f entry failure (rt_principal r) (rt_call r)
      | None => ret tt
      end
  | ECancel n => answer_call n (Err CancelledError)
  | EAdminister a => on_store (administer a) ;;; ret tt
  end.

Definition step (e : event) (s : world) : world := (handle e s).2.
Definition run (es : list event) (s : world) : world := fold_left (fun s e => step e s) es s.
End world.

(** A relay before its first operation: devices, links, projects, tokens and
    tickets of any kind. *)
Definition boot (ds : gmap str Device) (ls : gmap str DeviceLink) (ps : gmap str RelayProject)
    (ts : gmap str AccessToken) (ks : gmap str ConnectionTicket) : world :=
  {| store := {| devices := ds; links := ls; relay_projects := ps; access_tokens := ts; connection_tickets := ks;
                 relay_operations := ∅; audit := [] |};
     sockets := []; requests := []; dispatch_stream := []; result_stream := []; sent := []; drawn := [] |}.
