(* ===== verification/RelayRows.v ===== *)
(** * How the rows of the relay evolve

    The order in which an operation may change, and that every function of the
    relay but admission and cleanup keeps to it. *)
From S2P Require Import Prelude Utf8 PyStr Models Paths Database Json Envelope Relay RelayDispatch Gateway RelayWorld.
From stdpp Require Import sorting.

Open Scope Z_scope.

(** ** The order of rows *)

Definition stage (s : Status.t) : nat :=
  match s with
  | Status.ACCEPTED => 0 | Status.DISPATCHED => 1 | Status.RECEIVED => 2 | Status.RUNNING => 3
  | _ => 4
  end.

(** An operation that has ended and whose answer no late result may replace. *)
Definition settled (r : OperationRow) : bool :=
  terminal_statuses (ro_status r) &&
  negb (bool_decide (ro_result r = None) && bool_decide (ro_error_code r ∈ reconcilable_errors)).

(** A success must name what its request named; a failure promises nothing. *)
Definition fits (tool_name : str) (arguments v : list (str * json)) : bool :=
  match obj_get (lit "ok") v with
  | Some (JBool true) =>
      match obj_get (lit "result") v with Some (JObj result) => echoes arguments result | _ => false end
  | _ => true
  end.
Definition row_fits (r : OperationRow) : bool :=
  match ro_result r with
  | Some v => fits (rq_kind (ro_request r)) (input_fields r) v
  | None => true
  end.

Record row_evolves (r r' : OperationRow) : Prop := {
  re_request : ro_request r' = ro_request r;
  re_attempted : is_Some (ro_delivery_attempted_at r) -> is_Some (ro_delivery_attempted_at r');
  re_stage : (stage (ro_status r) <= stage (ro_status r'))%nat;
  re_settled : settled r = true ->
    ro_status r' = ro_status r /\ ro_error_code r' = ro_error_code r /\ ro_result r' = ro_result r;
  re_fits : ro_result r' = ro_result r \/ row_fits r' = true;
}.

Lemma stage_terminal s : terminal_statuses s = (4 <=? stage s)%nat.
Proof. by destruct s. Qed.
Lemma pending_stage s : pending_status s = negb (terminal_statuses s).
Proof. by destruct s. Qed.

Lemma row_fits_same r r' : ro_request r' = ro_request r -> ro_result r' = ro_result r -> row_fits r' = row_fits r.
Proof. intros E1 E2. unfold row_fits, input_fields, operation_input. by rewrite E1, E2. Qed.

#[export] Instance row_evolves_preorder : PreOrder row_evolves.
Proof.
  split.
  - intros r. split; try done. by left.
  - intros a b c [H1 H2 H3 H4 H5] [K1 K2 K3 K4 K5]. split; [congruence|auto|lia| |].
    + intros H. destruct (H4 H) as (E1 & E2 & E3). unfold settled in K4. rewrite E1, E2, E3 in K4.
      destruct (K4 H) as (-> & -> & ->). done.
    + destruct K5 as [E|]; [|by right]. destruct H5 as [|H5]; [left; congruence|].
      right. by rewrite (row_fits_same b c).
Qed.

(** The rows are the same but for their evolution. *)
Definition rows_move (s s' : relay) : Prop := forall pk,
  match relay_operations s !! pk, relay_operations s' !! pk with
  | Some r, Some r' => row_evolves r r'
  | None, None => True
  | _, _ => False
  end.

#[export] Instance rows_move_preorder : PreOrder rows_move.
Proof.
  split.
  - intros s pk. destruct (_ !! pk); reflexivity || done.
  - intros a b c H K pk. specialize (H pk). specialize (K pk).
    destruct (relay_operations a !! pk), (relay_operations b !! pk), (relay_operations c !! pk); try done.
    by etransitivity.
Qed.

Lemma rows_move_same s s' : relay_operations s' = relay_operations s -> rows_move s s'.
Proof. intros E pk. rewrite E. destruct (_ !! pk); reflexivity. Qed.

Notation keeps_rows := (along rows_move).

Lemma keeps_other f : (forall s, relay_operations (f s) = relay_operations s) -> keeps_rows (modify f).
Proof. intros H s. apply rows_move_same, H. Qed.

Lemma keeps_update pk p f : (forall r, p r = true -> row_evolves r (f r)) -> keeps_rows (update_operation pk p f).
Proof.
  intros H s pk'. cbn. destruct (decide (pk = pk')) as [->|Hne].
  - rewrite lookup_alter_eq. destruct (relay_operations s !! pk') as [r|]; cbn; [|done].
    destruct (p r) eqn:E; [by apply H|reflexivity].
  - rewrite lookup_alter_ne by done. destruct (_ !! pk'); reflexivity || done.
Qed.

Lemma save_moves s pk r r' : relay_operations s !! pk = Some r -> row_evolves r r' ->
  rows_move s (save_operation pk r' s).2.
Proof.
  intros Hr He pk'. cbn. destruct (decide (pk = pk')) as [->|Hne].
  - by rewrite lookup_insert_eq, Hr.
  - rewrite lookup_insert_ne by done. destruct (_ !! pk'); reflexivity || done.
Qed.

(** ** Columns *)

Lemma row_evolves_same r r' : ro_request r' = ro_request r -> ro_status r' = ro_status r ->
  ro_error_code r' = ro_error_code r -> ro_result r' = ro_result r ->
  (is_Some (ro_delivery_attempted_at r) -> is_Some (ro_delivery_attempted_at r')) -> row_evolves r r'.
Proof. intros E1 E2 E3 E4 H. split; [done|done|by rewrite E2|done|by left]. Qed.

(** A row that has not ended may do anything but go back. *)
Lemma row_evolves_pending r r' : terminal_statuses (ro_status r) = false -> ro_request r' = ro_request r ->
  (stage (ro_status r) <= stage (ro_status r'))%nat ->
  (is_Some (ro_delivery_attempted_at r) -> is_Some (ro_delivery_attempted_at r')) ->
  ro_result r' = ro_result r \/ row_fits r' = true -> row_evolves r r'.
Proof. intros Ht Hq Hs Ha Hf. split; [done|done|done| |done]. unfold settled. by rewrite Ht. Qed.

Lemma row_evolves_reconciled r r' : terminal_statuses (ro_status r) = true -> settled r = false ->
  terminal_statuses (ro_status r') = true -> ro_request r' = ro_request r ->
  (is_Some (ro_delivery_attempted_at r) -> is_Some (ro_delivery_attempted_at r')) -> row_fits r' = true ->
  row_evolves r r'.
Proof.
  intros Ht Hs Ht' Hq Ha Hf. split; [done|done| |congruence|by right].
  rewrite stage_terminal in *. destruct (ro_status r), (ro_status r'); cbn in *; lia.
Qed.

Lemma result_status_terminal uncertain p : terminal_statuses (result_status uncertain p) = true.
Proof. unfold result_status. by repeat case_match. Qed.

Lemma stage_top s : (stage s <= 4)%nat.
Proof. destruct s; cbn; lia. Qed.

Lemma rows_where_spec p s kv : kv ∈ rows_where p s <-> relay_operations s !! kv.1 = Some kv.2 /\ p kv.2 = true.
Proof.
  unfold rows_where. rewrite merge_sort_Permutation, list_elem_of_filter. destruct kv as [k v]. rewrite elem_of_map_to_list. cbn. tauto.
Qed.

Lemma rows_where_head p s kv l : rows_where p s = kv :: l -> relay_operations s !! kv.1 = Some kv.2 /\ p kv.2 = true.
Proof. intros H. apply rows_where_spec. rewrite H. apply elem_of_cons. by left. Qed.

Section rows.
  Context {contracts : Contracts}.
  #[local] Set Default Proof Using "Type*".

(** ** The binding of a message *)

(** What a message must repeat of the operation it is about. *)
Record message_bound (c : DeviceConnection) (e : TunnelEnvelope) (row : OperationRow) (s : relay) : Prop := {
  mb_account : tb_account_id (bindings e) = cn_account_wire_id c /\ rq_account (ro_request row) = account_of c;
  mb_device : tb_device_id (bindings e) = cn_device_id c /\ rq_device (ro_request row) = cn_device_id c;
  mb_epoch : connection_epoch e = cn_epoch c /\ epoch_of (cn_device_id c) s = Some (cn_epoch c);
  mb_correlation : exists w, correlation_id e = Some w /\ uuid_of w = Some (rq_correlation_id (ro_request row));
  mb_project : tb_project_id (bindings e) = rq_project (ro_request row);
  mb_grant : tb_grant_id (bindings e) = Some (rq_grant (ro_request row));
  mb_link : exists link, links s !! rq_device_link (ro_request row) = Some link /\
                         tb_link_id (bindings e) = Some (dl_link_id link);
  mb_digest : action_digest e = Some (rq_action_digest (ro_request row));
}.

Lemma validate_binding_ok c e s pk row : (_validate_operation_binding c e s).1 = Ok (pk, row) ->
  relay_operations s !! pk = Some row /\ message_bound c e row s.
Proof.
  unfold _validate_operation_binding. cbn [bind gets]. unfold bind, gets, id. cbn.
  destruct (negb (bool_decide (tb_account_id _ = _))) eqn:E1; [done|].
  destruct (_ || _) eqn:E2; [done|]. destruct (correlation_id e) as [[|x w]|] eqn:Ec; [done| |done].
  destruct (uuid_of _) as [u|] eqn:Eu; [|done].
  destruct (bool_decide (epoch_of _ _ = _)) eqn:E3; [|done].
  destruct (bound_rows c u s) as [|[pk' r'] [|]] eqn:Eb; [done| |done].
  destruct (links s !! _) as [link|] eqn:El; [|done].
  destruct (negb (bool_decide (tb_project_id _ = _))) eqn:E4; [done|].
  destruct (negb (bool_decide (tb_grant_id _ = _))) eqn:E5; [done|].
  destruct (negb (bool_decide (tb_link_id _ = _))) eqn:E6; [done|].
  destruct (negb (bool_decide (action_digest _ = _))) eqn:E7; [done|].
  intros [= -> ->]. apply rows_where_head in Eb as [Hr Hp]. cbn in Hr, Hp. split; [done|].
  reflect_bools. repeat match goal with H : (_ =? _) = true |- _ => apply Z.eqb_eq in H end.
  split; eauto. exists (x :: w). by subst u.
Qed.

Lemma validate_binding_state c e s : (_validate_operation_binding c e s).2 = s.
Proof. unfold _validate_operation_binding, bind, gets, refuse, raise, ret. cbn. repeat case_match; done. Qed.

(** ** Results fit their requests *)

Lemma validated_fits tool arguments v checked : _validate_device_result_for_request tool arguments v = Ok checked ->
  fits tool arguments checked = true.
Proof.
  unfold _validate_device_result_for_request. intros H. apply rbind_ok in H as (x & _ & H). unfold fits.
  destruct (obj_get (lit "ok") x) as [[|[]| | | |]|] eqn:Eo;
    try (injection H as <-; rewrite Eo; done). destruct (obj_get (lit "result") x) as [[| | | | |result]|] eqn:Er; try done.
  destruct (_ && _) eqn:E; [|done]. injection H as <-. rewrite Eo, Er. by apply andb_true_iff in E as [-> _].
Qed.

Lemma checked_fits row p q : checked_result row p = Ok q -> fits (rq_kind (ro_request row)) (input_fields row) q = true.
Proof.
  unfold checked_result, input_fields. destruct (operation_input row); try done. apply validated_fits.
Qed.

Lemma durable_fits tool arguments q v : durable q = Ok v -> fits tool arguments q = true -> fits tool arguments v = true.
Proof.
  unfold durable, durable_tool_result. destruct (image_base64 q) as [image|]; [|by intros [= <-]].
  destruct (utf8_encode image) as [raw|]; [|done]. by intros [= <-] _.
Qed.

Lemma failure_fits tool arguments code message correlation b :
  fits tool arguments (_failure_payload code message correlation b) = true.
Proof. done. Qed.

Lemma normalize_fits row unsafe p :
  fits (rq_kind (ro_request row)) (input_fields row) (_normalize_operation_terminal row unsafe p) = true.
Proof.
  unfold _normalize_operation_terminal. destruct (checked_result row p) eqn:E; [by apply checked_fits in E|].
  destruct unsafe; apply failure_fits.
Qed.

Lemma slot_fits tool arguments error p v :
  terminal_slot error p = Some v -> fits tool arguments p = true -> fits tool arguments v = true.
Proof. unfold terminal_slot. case_match; [done|]. by intros [= <-]. Qed.

(** ** Device messages *)

Lemma late_result_moves n c e pk row uncertain s : relay_operations s !! pk = Some row ->
  terminal_statuses (ro_status row) = true -> rows_move s (late_result n c e pk row uncertain s).2.
Proof.
  intros Hr Ht. unfold late_result, bind, lift, refuse, raise, ret. destruct (same_result _ _) as [[]|]; [done|..|done].
  destruct (_ && _) eqn:E; [|done]. destruct (checked_result _ _) as [checked|] eqn:Ec; [|done].
  destruct (durable checked) as [d|] eqn:Ed; [|done]. cbn.
  refine (transitivity (y := (save_operation pk _ s).2) (save_moves s pk row _ Hr _) _); [|by apply rows_move_same].
  apply row_evolves_reconciled; [done| |apply result_status_terminal|done|done|].
  - unfold settled. by rewrite Ht, E.
  - exact (durable_fits _ _ _ _ Ed (checked_fits _ _ _ Ec)).
Qed.

Lemma announced_stage k row uncertain p s : terminal_statuses (ro_status row) = false ->
  announced k row uncertain p = Some s -> (state_rank (ro_status row) <= state_rank s)%nat ->
  (stage (ro_status row) <= stage s)%nat.
Proof.
  intros Ht Ha Hle. destruct k; cbn in Ha; try done; injection Ha as <-; [| |pose proof (result_status_terminal uncertain p)|done].
  all: destruct (ro_status row); cbn in *; try lia; try done.
  all: rewrite stage_terminal in *; lia.
Qed.

Lemma progress_moves c e pk row uncertain s : relay_operations s !! pk = Some row ->
  terminal_statuses (ro_status row) = false ->
  (kind e = OPERATION_RESULT -> fits (rq_kind (ro_request row)) (input_fields row) (payload e) = true) ->
  rows_move s (progress c e pk row uncertain s).2.
Proof.
  intros Hr Ht Hf. unfold progress. set (moved := match announced _ _ _ _ with Some s => _ | None => row end).
  assert (ro_request moved = ro_request row /\
          ro_delivery_attempted_at moved = ro_delivery_attempted_at row /\ ro_result moved = ro_result row /\
          (stage (ro_status row) <= stage (ro_status moved))%nat) as (Hq & Hd & Hv & Hs).
  { subst moved. destruct (announced _ _ _ _) as [s0|] eqn:Ea; [|by repeat split; try reflexivity].
    destruct (_ <=? _)%nat eqn:E; [|by repeat split; try reflexivity]. apply Nat.leb_le in E.
    pose proof (announced_stage _ _ _ _ _ Ht Ea E) as Hs.
    by repeat split. }
  clearbody moved. unfold bind, lift, ret. case_bool_decide as Hk.
  - destruct (durable _) as [d|] eqn:Ed; [|done]. apply (save_moves s pk row); [done|].
    apply row_evolves_pending; [done|done|done|cbn; by rewrite Hd|]. right.
    unfold row_fits, input_fields, operation_input. cbn. rewrite Hq. exact (durable_fits _ _ _ _ Ed (Hf Hk)).
  - apply (save_moves s pk row); [done|]. apply row_evolves_pending; [done|done|done|cbn; by rewrite Hd|by left].
Qed.

Lemma record_keeps n c e : keeps_rows (_record_device_message n c e).
Proof.
  apply along_transaction; [apply _|]. intros s. unfold bind at 1.
  pose proof (validate_binding_state c e s) as Hs. pose proof (validate_binding_ok c e s) as Hok.
  destruct (_validate_operation_binding c e s) as [[[pk row]|x] s'] eqn:Ev; cbn in Hs; subst s'; [|done].
  destruct (Hok pk row eq_refl) as [Hr _]. cbn [fst snd].
  set (e' := if bool_decide _ then _ else e).
  assert (kind e' = OPERATION_RESULT -> fits (rq_kind (ro_request row)) (input_fields row) (payload e') = true) as Hf.
  { subst e'. case_bool_decide as Hk; [|done]. intros _. apply normalize_fits. }
  clearbody e'.
  destruct (stale_sequence c e row); [unfold bind, lift, refuse, raise, ret; repeat case_match; done|].
  destruct (terminal_statuses _) eqn:Ht.
  - case_bool_decide; [|done]. unfold bind.
    pose proof (late_result_moves n c e' pk row (uncertain_unknown (replay_unsafe row) (payload e')) s Hr Ht) as Hm.
    destruct (late_result _ _ _ _ _ _ s) as [[]?]; done.
  - unfold bind. pose proof (progress_moves c e' pk row (uncertain_unknown (replay_unsafe row) (payload e')) s Hr Ht Hf) as Hm.
    destruct (progress _ _ _ _ _ s) as [[]?]; done.
Qed.

(** What one message may change: its operation, which takes its sequence number. *)
Record one_row (c : DeviceConnection) (e : TunnelEnvelope) (pk : str) (row : OperationRow) (s s' : relay) : Prop := {
  or_row : exists row', relay_operations s' = <[pk := row']> (relay_operations s) /\ row_evolves row row' /\
           ro_last_sequence row' = sequence e /\ ro_last_sequence_epoch row' = cn_epoch c /\ ro_epoch row' = cn_epoch c;
  or_devices : devices s' = devices s /\ links s' = links s /\ relay_projects s' = relay_projects s /\
               access_tokens s' = access_tokens s /\ connection_tickets s' = connection_tickets s;
}.

Lemma evolves_of_move s s' pk row row' : relay_operations s !! pk = Some row ->
  relay_operations s' = <[pk := row']> (relay_operations s) -> rows_move s s' -> row_evolves row row'.
Proof. intros Hr E Hm. specialize (Hm pk). by rewrite E, Hr, lookup_insert_eq in Hm. Qed.

Lemma late_result_one n c e pk row uncertain s : relay_operations s !! pk = Some row ->
  terminal_statuses (ro_status row) = true ->
  (late_result n c e pk row uncertain s).2 = s \/ one_row c e pk row s (late_result n c e pk row uncertain s).2.
Proof.
  intros Hr Ht. pose proof (late_result_moves n c e pk row uncertain s Hr Ht) as Hm. revert Hm.
  unfold late_result, bind, lift, refuse, raise, ret. destruct (same_result _ _) as [[]|]; [by left| |by left].
  destruct (_ && _); [|by left]. destruct (checked_result _ _) as [checked|]; [|by left].
  destruct (durable checked) as [d|]; [|by left]. intros Hm. right. split; [|done].
  eexists. split; [reflexivity|]. split; [|done]. refine (evolves_of_move _ _ _ _ _ Hr _ Hm); reflexivity.
Qed.

Lemma progress_one c e pk row uncertain s : relay_operations s !! pk = Some row ->
  terminal_statuses (ro_status row) = false ->
  (kind e = OPERATION_RESULT -> fits (rq_kind (ro_request row)) (input_fields row) (payload e) = true) ->
  (progress c e pk row uncertain s).2 = s \/ one_row c e pk row s (progress c e pk row uncertain s).2.
Proof.
  intros Hr Ht Hf. pose proof (progress_moves c e pk row uncertain s Hr Ht Hf) as Hm. revert Hm.
  unfold progress, bind, lift, ret. case_bool_decide; [destruct (durable _); [|by left]|].
  all: intros Hm; right; (split; [|done]); eexists; (split; [reflexivity|]).
  all: (split; [|done]); refine (evolves_of_move _ _ _ _ _ Hr _ Hm); reflexivity.
Qed.

Lemma one_row_payload c e p pk row s s' : one_row c (with_payload p e) pk row s s' -> one_row c e pk row s s'.
Proof. by intros []. Qed.

(** C24. A message of a device changes nothing but the one operation it names, and
    only when the connection is the current one of that device and the message
    repeats the operation's account, device, project, grant, link and action digest
    and is newer than the last message of this connection about it. *)
Theorem device_message_is_bound n c e s s' r : _record_device_message n c e s = (r, s') -> s' <> s ->
  exists pk row, relay_operations s !! pk = Some row /\ message_bound c e row s /\ one_row c e pk row s s' /\
    (ro_last_sequence_epoch row = cn_epoch c -> ro_last_sequence row < sequence e).
Proof.
  unfold _record_device_message, transaction. intros H Hne. unfold bind at 1 in H.
  pose proof (validate_binding_state c e s) as Hs. pose proof (validate_binding_ok c e s) as Hok.
  destruct (_validate_operation_binding c e s) as [[[pk row]|x] s0]; cbn in Hs; subst s0; [|by injection H as _ <-].
  destruct (Hok pk row eq_refl) as [Hr Hb]. exists pk, row. split; [done|]. split; [done|]. cbn [fst snd] in H. revert H.
  set (e' := if bool_decide _ then _ else e).
  assert (kind e' = OPERATION_RESULT -> fits (rq_kind (ro_request row)) (input_fields row) (payload e') = true) as Hf.
  { subst e'. case_bool_decide as Hk; [|done]. intros _. apply normalize_fits. }
  assert (forall s1, one_row c e' pk row s s1 -> one_row c e pk row s s1) as Ho.
  { subst e'. case_bool_decide; [|done]. intros s1. apply one_row_payload. }
  clearbody e'. destruct (stale_sequence c e row) eqn:Est.
  { unfold bind, lift, refuse, raise, ret. intros H. exfalso. repeat case_match; simplify_eq; done. }
  assert (ro_last_sequence_epoch row = cn_epoch c -> ro_last_sequence row < sequence e) as Hnew
    by (unfold stale_sequence in Est; lia).
  destruct (terminal_statuses _) eqn:Ht.
  - case_bool_decide; [|by intros [= _ <-]]. unfold bind.
    pose proof (late_result_one n c e' pk row (uncertain_unknown (replay_unsafe row) (payload e')) s Hr Ht) as Hone.
    destruct (late_result _ _ _ _ _ _ s) as [[]?]; intros [= <- <-]; [|done]; cbn in Hone.
    destruct Hone as [Hone|Hone]; [done|auto].
  - unfold bind. pose proof (progress_one c e' pk row (uncertain_unknown (replay_unsafe row) (payload e')) s Hr Ht Hf) as Hone.
    destruct (progress _ _ _ _ _ s) as [[]?]; intros [= <- <-]; [|done]; cbn in Hone.
    destruct Hone as [Hone|Hone]; [done|auto].
Qed.

(** ** Dispatching *)

Lemma bound_rows_head c correlation s pk row l : bound_rows c correlation s = (pk, row) :: l ->
  relay_operations s !! pk = Some row /\ rq_correlation_id (ro_request row) = correlation /\
  rq_account (ro_request row) = account_of c /\ rq_device (ro_request row) = cn_device_id c.
Proof.
  intros Hb. apply rows_where_head in Hb as [Hr Hp]. cbn [fst snd] in *. reflect_bools.
  repeat match goal with E : (_ =? _) = true |- _ => apply Z.eqb_eq in E end. done.
Qed.

Lemma prepare_keeps k c correlation : keeps_rows (_prepare_operation_dispatch k c correlation).
Proof.
  apply along_transaction; [apply _|]. intros s. unfold bind at 1. cbn [gets].
  destruct (uuid_of _) as [u|]; [|done]. cbn [id fst snd].
  destruct (bound_rows c u _) as [|[pk row] l] eqn:Eb; [done|]. apply bound_rows_head in Eb as (Hr & _).
  destruct (devices s !! _) as [device|]; [|done]. destruct (links s !! _) as [link|]; [|done].
  destruct (negb _); [done|]. destruct (terminal_statuses _) eqn:Ht; [done|].
  destruct (undeliverable _ _ _) as [[[status error] p]|] eqn:Eu.
  - pose proof (save_moves s pk row (with_epoch (cn_epoch c) (with_status status (with_error (lit error)
      (with_result (terminal_slot error p) row)))) Hr) as Hm.
    assert (stage status = 4%nat) as Es by (unfold undeliverable in Eu; repeat case_match; simplify_eq; done).
    assert (fits (rq_kind (ro_request row)) (input_fields row) p = true) as Hf
      by (unfold undeliverable in Eu; repeat case_match; simplify_eq; apply failure_fits).
    assert (row_evolves row (with_epoch (cn_epoch c) (with_status status (with_error (lit error)
      (with_result (terminal_slot error p) row))))) as He.
    { apply row_evolves_pending; [done|done|cbn; rewrite Es; apply stage_top|done|]. right. unfold row_fits. cbn.
      destruct (terminal_slot error p) as [v|] eqn:Ev; [|done]. exact (slot_fits _ _ _ _ _ Ev Hf). }
    unfold bind, lift. cbn in *. destruct (_terminal_result_envelope _ _ _ _ _); cbn; by apply Hm.
  - pose proof (save_moves s pk row (with_epoch (cn_epoch c) (with_delivery (Some (now k)) None row)) Hr) as Hm.
    assert (row_evolves row (with_epoch (cn_epoch c) (with_delivery (Some (now k)) None row))) as He
      by (apply row_evolves_pending; [done|done|done|done|by left]).
    unfold bind, lift. cbn in *. destruct (relay_envelope _); cbn; by apply Hm.
Qed.

Lemma mark_sent_keeps n pk c : keeps_rows (_mark_operation_sent n pk c).
Proof. apply keeps_update. intros r _. by apply row_evolves_same. Qed.

Lemma mark_dispatched_keeps pk : keeps_rows (_mark_dispatched pk).
Proof.
  apply keeps_update. intros r H. reflect_bools. apply row_evolves_pending; cbn; try done; [by rewrite H|rewrite H; cbn; lia|by left].
Qed.

(** The only function that writes a result it is given. *)
Lemma finish_moves pk p s :
  (forall r, relay_operations s !! pk = Some r -> fits (rq_kind (ro_request r)) (input_fields r) p = true) ->
  rows_move s (_finish pk p s).2.
Proof.
  intros Hf. unfold _finish. destruct (durable_tool_result sha256_hex p) as [d|] eqn:Ed; [|reflexivity].
  assert (durable p = Ok d) as Ed' by (unfold durable; by rewrite Ed). intros pk'. cbn.
  destruct (decide (pk = pk')) as [->|Hne].
  - rewrite lookup_alter_eq. destruct (relay_operations s !! pk') as [r|] eqn:Er; cbn; [|done].
    destruct (pending_status _) eqn:Hr; [|reflexivity]. rewrite pending_stage in Hr. apply negb_true_iff in Hr.
    apply row_evolves_pending; [done|done|cbn|done|].
    + etransitivity; [apply stage_top|]. by case_match.
    + right. exact (durable_fits _ _ _ _ Ed' (Hf r eq_refl)).
  - rewrite lookup_alter_ne by done. destruct (_ !! pk'); reflexivity || done.
Qed.

Lemma delivery_failure_keeps pk code : keeps_rows (_mark_delivery_failure pk code).
Proof.
  apply keeps_update. intros r Hr. rewrite pending_stage in Hr. apply negb_true_iff in Hr.
  apply row_evolves_pending; [done|done| |done|by left]. cbn. etransitivity; [apply stage_top|]. by case_match.
Qed.

(** ** Everything that does not write operations *)

#[local] Hint Extern 1 (along rows_move (modify _)) => apply keeps_other; reflexivity : along.
#[local] Hint Extern 1 (along rows_move (update_device _ _ _)) => apply keeps_other; reflexivity : along.

Lemma consume_keeps t raw signature : keeps_rows (_consume_ticket t raw signature).
Proof. unfold _consume_ticket, unauthenticated. along_steps. Qed.
Lemma online_keeps t c : keeps_rows (_mark_online t c).
Proof. unfold _mark_online. along_steps. Qed.
Lemma touch_keeps t c : keeps_rows (_touch t c).
Proof. unfold _touch. along_steps. Qed.
Lemma offline_keeps c : keeps_rows (_mark_offline c).
Proof. unfold _mark_offline. along_steps. Qed.
Lemma recoverable_keeps c : keeps_rows (_recoverable_operation_correlations c).
Proof. apply along_gets, _. Qed.
Lemma authenticate_keeps t token link : keeps_rows (_authenticate t token link).
Proof. unfold _authenticate, fail_auth. along_steps. Qed.
Lemma route_keeps p tool raw : keeps_rows (dispatch_route p tool raw).
Proof. unfold dispatch_route, _lookup_route. along_steps. Qed.
Lemma list_keeps t op p arguments : keeps_rows (_list_projects t op p arguments).
Proof. unfold _list_projects. along_steps. Qed.
Lemma read_keeps e d r : keeps_rows (read_result e d r).
Proof. unfold read_result. along_steps. Qed.

Lemma for_each_keeps {A} (l : list A) body : (forall a, keeps_rows (body a)) -> keeps_rows (for_each l body).
Proof. intros H. induction l as [|a l IH]; cbn; along_steps. Qed.

Lemma synchronize_keeps c p : keeps_rows (_synchronize_projects c p).
Proof.
  unfold _synchronize_projects, refuse, withdraw. along_steps. apply for_each_keeps. intros v.
  unfold synchronize_project, refuse. along_steps.
Qed.

Lemma revoke_keeps t account device : keeps_rows (revoke_device t account device).
Proof. unfold revoke_device, revoke_links, revoke_grants. along_steps. Qed.
Lemma rotate_keeps t account device pk link : keeps_rows (rotate_device_link t account device pk link).
Proof. unfold rotate_device_link, revoke_links. along_steps. Qed.
Lemma issue_keeps t device raw challenge : keeps_rows (issue_ticket t device raw challenge).
Proof. unfold issue_ticket. along_steps. Qed.
Lemma enroll_keeps device d : keeps_rows (enroll device d).
Proof. unfold enroll. along_steps. Qed.
End rows.

#[export] Hint Resolve record_keeps prepare_keeps mark_sent_keeps mark_dispatched_keeps
  delivery_failure_keeps consume_keeps online_keeps touch_keeps offline_keeps recoverable_keeps
  authenticate_keeps route_keeps list_keeps read_keeps synchronize_keeps revoke_keeps rotate_keeps
  issue_keeps enroll_keeps : along.
