(* ===== verification/RelayMoves.v ===== *)
(** * The moves of the relay

    What one event of RelayWorld may do, as a relation: nothing of consequence, a
    tool call that goes on, an operation admitted, prepared, sent or concluded, and
    the cleanup. *)
From S2P Require Import Prelude Utf8 PyStr Models Paths Database Json Envelope Relay RelayDispatch Gateway RelayWorld RelayRows.

Open Scope Z_scope.

(** ** Lists *)

Lemma omap_alter {A B} (g : A -> option B) f n (l : list A) k : l !! n = Some k ->
  exists l1 l2, omap g l = l1 ++ option_list (g k) ++ l2 /\ omap g (alter f n l) = l1 ++ option_list (g (f k)) ++ l2.
Proof.
  revert n. induction l as [|a l IH]; intros [|n] H; try done.
  - injection H as ->. exists [], (omap g l). split.
    + cbn. by destruct (g k).
    + change (alter f 0%nat (k :: l)) with (f k :: l). cbn. by destruct (g (f k)).
  - destruct (IH n H) as (l1 & l2 & E1 & E2). change (alter f (S n) (a :: l)) with (a :: alter f n l).
    cbn. rewrite E1, E2. destruct (g a) as [b|]; [exists (b :: l1), l2|exists l1, l2]; by split.
Qed.

Lemma alter_missing {A} (f : A -> A) n (l : list A) : l !! n = None -> alter f n l = l.
Proof.
  revert n. induction l as [|a l IH]; intros [|n] H; try done.
  change (alter f (S n) (a :: l)) with (a :: alter f n l). f_equal. by apply IH.
Qed.

Lemma omap_alter_forgets {A B} (g : A -> option B) f n (l : list A) :
  (forall k, g (f k) = None \/ g (f k) = g k) -> omap g (alter f n l) `sublist_of` omap g l.
Proof.
  intros H. destruct (l !! n) as [k|] eqn:E; [|by rewrite alter_missing].
  destruct (omap_alter g f n l k E) as (l1 & l2 & -> & ->). destruct (H k) as [->| ->]; [|done].
  apply sublist_app; [done|]. cbn. apply sublist_inserts_l. done.
Qed.

(** ** What changes *)

(** The operation a socket is about to send, with its device. *)
Definition sending (k : socket) : option (str * TunnelEnvelope) :=
  match so_dispatch k with DSend _ e _ => Some (cn_device_id (so_connection k), e) | _ => None end.
Definition outgoing (w : world) : list (str * TunnelEnvelope) := omap sending (sockets w).

Definition no_operation (x : str * TunnelEnvelope) : Prop := kind x.2 <> OPERATION.

Section moves.
  Context {contracts : Contracts}.
  #[local] Set Default Proof Using "Type*".

(** No operation is admitted, prepared or sent, and no call goes on. *)
Record calm (w w' : world) : Prop := {
  ca_rows : rows_move (store w) (store w');
  ca_outgoing : outgoing w' `sublist_of` outgoing w;
  ca_sent : exists l, sent w' = sent w ++ l /\ Forall no_operation l;
  ca_drawn : drawn w ⊆ drawn w';
  ca_requests : requests w' = requests w;
}.

#[export] Instance calm_preorder : PreOrder calm.
Proof.
  split.
  - intros w. split; try done. exists []. by rewrite app_nil_r.
  - intros a b c [H1 H2 (l & H3 & Hl) H4 H5] [K1 K2 (m & K3 & Hm) K4 K5].
    split; [by etransitivity|by etransitivity| |by etransitivity|by etransitivity].
    exists (l ++ m). rewrite K3, H3, (assoc_L app). split; [done|]. by apply Forall_app.
Qed.

Notation calmly := (along calm).

Lemma calm_store {T} (m : M T) : along rows_move m -> calmly (on_store m).
Proof.
  intros H s. unfold on_store. specialize (H (store s)). destruct (m (store s)) as [r db].
  split; try done. exists []. by rewrite app_nil_r.
Qed.

Lemma calm_sockets f : (forall l, omap sending (f l) `sublist_of` omap sending l) -> calmly (modify (upd_sockets f)).
Proof. intros H s. split; try done; [apply H|]. exists []. by rewrite app_nil_r. Qed.

Lemma calm_answer n a : calmly (answer_goto n a).
Proof. apply calm_sockets. intros l. apply omap_alter_forgets. intros k. by right. Qed.
Lemma calm_close n : calmly (close n).
Proof. apply calm_sockets. intros l. apply omap_alter_forgets. intros k. by right. Qed.
Lemma calm_dispatch n d : match d with DSend _ _ _ => False | _ => True end -> calmly (dispatch_goto n d).
Proof. intros H. apply calm_sockets. intros l. apply omap_alter_forgets. intros k. left. by destruct d. Qed.

Lemma calm_results f : calmly (modify (upd_result_stream f)).
Proof. intros s. split; try done. exists []. by rewrite app_nil_r. Qed.
Lemma calm_drawn l : calmly (modify (upd_drawn (fun d => l ++ d))).
Proof. intros s. split; try done; [exists []; by rewrite app_nil_r|]. cbn. set_solver. Qed.

Lemma calm_send n c delivered e k : kind e <> OPERATION -> calmly k -> calmly (send_to n c delivered e k).
Proof.
  intros He Hk. unfold send_to. destruct delivered; [|apply calm_close]. apply along_bind; [apply _| |done].
  intros s. split; try done. exists [(cn_device_id c, e)]. split; [done|]. by constructor.
Qed.

#[local] Hint Resolve calm_store calm_answer calm_close calm_results calm_drawn : along.
#[local] Hint Extern 1 (along calm (dispatch_goto _ _)) => apply calm_dispatch; exact I : along.

(** *** The websocket *)

Lemma relay_envelope_kind e e' : relay_envelope e = Ok e' -> kind e' = kind e.
Proof.
  unfold relay_envelope, TunnelEnvelope_validate. intros H.
  do 7 apply rbind_ok in H as (? & _ & H). by apply rbind_ok in H as (? & _ & [= <-]).
Qed.

Lemma calm_poll n c d entries : calmly (poll n c d entries).
Proof. unfold poll. along_steps. Qed.

Lemma calm_receive n k c frame : calmly (receive n k c frame).
Proof. unfold receive. along_steps. Qed.

Lemma calm_answering n k delivered c a : calmly (answer_segment n k delivered c a).
Proof.
  destruct a; cbn; along_steps.
  - apply relay_envelope_kind in H. apply calm_send; [by rewrite H|]. along_steps.
  - apply relay_envelope_kind in H. apply calm_send; [by rewrite H|]. along_steps.
Qed.

Lemma calm_heartbeat n k delivered c count : calmly (heartbeat n k delivered c count).
Proof.
  unfold heartbeat. destruct (relay_envelope _) as [e|] eqn:E; [|apply calm_close].
  apply relay_envelope_kind in E. apply calm_send; [by rewrite E|]. along_steps.
Qed.

Lemma calm_finish n c : calmly (finish n c).
Proof.
  unfold finish. along_steps. apply calm_sockets. intros l. apply omap_alter_forgets. intros k. by right.
Qed.

Lemma calm_accept t raw signature : calmly (accept t raw signature).
Proof.
  unfold accept. along_steps. apply calm_sockets. intros l. rewrite omap_app. cbn. by rewrite app_nil_r.
Qed.

(** ** Admission *)

(** The row [row] is new: its identifiers are, its key is, and the queue has room. *)
Record admitted (f : fresh_ids) (row : OperationRow) (s s' : relay) : Prop := {
  ad_rows : relay_operations s' = <[fr_pk f := row]> (relay_operations s);
  ad_new : relay_operations s !! fr_pk f = None;
  ad_room : (length (pending_rows (rq_device (ro_request row)) s) < DEVICE_QUEUE_LIMIT)%nat;
  ad_key : rq_idempotency_key (ro_request row) = [] \/
           forall pk r, relay_operations s !! pk = Some r ->
             forall p, in_scope p (rq_device (ro_request row)) (rq_project (ro_request row)) (rq_kind (ro_request row))
                         (rq_idempotency_key (ro_request row)) row = true ->
                       in_scope p (rq_device (ro_request row)) (rq_project (ro_request row)) (rq_kind (ro_request row))
                         (rq_idempotency_key (ro_request row)) r = false;
}.

Lemma rows_where_none p s : rows_where p s = [] -> forall pk r, relay_operations s !! pk = Some r -> p r = false.
Proof.
  intros H pk r Hr. destruct (p r) eqn:E; [|done]. assert ((pk, r) ∈ rows_where p s) as Hin by by apply rows_where_spec.
  rewrite H in Hin. by apply elem_of_nil in Hin.
Qed.

Lemma in_scope_equal p p' device project tool key row :
  in_scope p device project tool key row = true -> in_scope p' device project tool key row = true ->
  forall r, in_scope p device project tool key r = in_scope p' device project tool key r.
Proof.
  unfold in_scope. intros H H' r. reflect_bools. repeat match goal with E : (_ =? _) = true |- _ => apply Z.eqb_eq in E end.
  assert (mp_account_id p = mp_account_id p') as -> by congruence.
  assert (mp_oauth_grant_id p = mp_oauth_grant_id p') as -> by congruence.
  by assert (mp_device_link_id p = mp_device_link_id p') as -> by congruence.
Qed.

Lemma admit_ok t f p device epoch project tool arguments digest timeout s r s' :
  admission t f p device epoch project tool arguments digest timeout s = (r, s') ->
  (relay_operations s' = relay_operations s /\ forall pk row, r <> Ok (pk, row, true)) \/
  (exists rdigest, let row := new_row t f p device epoch project tool arguments digest rdigest timeout in
     r = Ok (fr_pk f, row, true) /\ admitted f row s s').
Proof.
  unfold admission, transaction. unfold bind at 1. cbn [gets id fst snd].
  destruct (devices s !! device) as [d|]; [|intros [= <- <-]; by left]. destruct (negb _); [intros [= <- <-]; by left|].
  pose (key := str_at "idempotency_key" arguments). fold key.
  assert (key = str_at "idempotency_key" arguments) as Hkey by done. clearbody key.
  assert (forall found, match existing_operation digest found s with
                  | (Ok v, s') => (Ok v, s') | (Err e, _) => (Err e, s) end = (r, s') ->
          relay_operations s' = relay_operations s /\ forall pk row, r <> Ok (pk, row, true)) as Hex.
  { intros found. unfold existing_operation, ret, lift. destruct (bool_decide _); intros [= <- <-]; done. }
  destruct (rows_where (in_scope p device project tool key) s) as [|found l] eqn:Ew.
  2: destruct key as [|c0 key0] eqn:Ek; [|intros H; left; by apply (Hex found)].
  all: destruct (_ <=? _)%nat eqn:Eq; [intros [= <- <-]; by left|].
  all: destruct (sha256_hex <$> _) as [rdigest|]; [|intros [= <- <-]; by left].
  all: destruct (negb (unique_ids f s)) eqn:Eu; [intros [= <- <-]; by left|].
  all: unfold bind, modify, ret; intros [= <- <-]; right; exists rdigest; split; [done|].
  all: apply negb_false_iff in Eu; apply andb_true_iff in Eu as [Eu _]; apply bool_decide_eq_true in Eu.
  all: apply Nat.leb_gt in Eq; split; [done|done|exact Eq|].
  - right. intros pk r Hr p' Hp'. rewrite Hkey in Ew.
    cbn [new_row ro_request rq_device rq_project rq_kind rq_idempotency_key] in *.
    match type of Hp' with in_scope _ _ _ _ _ ?row = true =>
      rewrite <- (in_scope_equal p p' device project tool _ row); [| |exact Hp'] end.
    + exact (rows_where_none _ _ Ew pk r Hr).
    + unfold in_scope. cbn [new_row ro_request rq_account rq_grant rq_device rq_device_link rq_project rq_kind rq_idempotency_key].
      by rewrite Z.eqb_refl, !bool_decide_refl.
  - left. cbn [new_row ro_request rq_idempotency_key]. congruence.
Qed.

Lemma create_ok t f p device epoch project tool arguments digest timeout s r s' :
  _create_operation t f p device epoch project tool arguments digest timeout s = (r, s') ->
  (relay_operations s' = relay_operations s /\ forall pk row, r <> Ok (pk, row, true)) \/
  (exists rdigest, let row := new_row t f p device epoch project tool arguments digest rdigest timeout in
     r = Ok (fr_pk f, row, true) /\ admitted f row s s').
Proof.
  unfold _create_operation. unfold bind at 1. cbn [gets id fst snd].
  pose (key := str_at "idempotency_key" arguments). fold key. clearbody key.
  assert (forall found s1, relay_operations s1 = relay_operations s -> existing_operation digest found s1 = (r, s') ->
          relay_operations s' = relay_operations s /\ forall pk row, r <> Ok (pk, row, true)) as Hex.
  { intros found s1 E. unfold existing_operation, ret, lift. destruct (bool_decide _); intros [= <- <-]; done. }
  assert (try_except (admission t f p device epoch project tool arguments digest timeout) (fun e =>
        match e, key with
        | IntegrityError, _ :: _ =>
            s <- gets id ;;
            match rows_where (in_scope p device project tool key) s with
            | row :: _ => existing_operation digest row
            | [] => raise DoesNotExist
            end
        | _, _ => raise e
        end) s = (r, s') -> 
    (relay_operations s' = relay_operations s /\ forall pk row, r <> Ok (pk, row, true)) \/
    (exists rdigest, let row := new_row t f p device epoch project tool arguments digest rdigest timeout in
       r = Ok (fr_pk f, row, true) /\ admitted f row s s')) as Hadmit.
  { unfold try_except. destruct (admission _ _ _ _ _ _ _ _ _ _ s) as [r1 s1] eqn:Ea. apply admit_ok in Ea as [[E Hn]|(rdigest & -> & Ha)].
    - destruct r1 as [v|x]; [intros [= <- <-]; by left|]. destruct (caught x); [|intros [= <- <-]; by left].
      intros H. left. destruct x; try (injection H as <- <-; done). destruct key; [injection H as <- <-; done|].
      unfold bind in H. cbn [gets id] in H. destruct (rows_where _ s1) as [|found l]; [injection H as <- <-; done|].
      by apply (Hex found s1).
    - intros [= <- <-]. right. by exists rdigest. }
  destruct (rows_where (in_scope p device project tool key) s) as [|found l]; [exact Hadmit|].
  destruct key as [|c0 key0]; [exact Hadmit|]. intros H. left. by apply (Hex found s).
Qed.

Lemma dispatch_admit_ok t f p tool arguments device project s r s' :
  dispatch_admit t f p tool arguments device project s = (r, s') ->
  (relay_operations s' = relay_operations s /\ forall pk row, r <> Ok (pk, row, true)) \/
  (exists digest rdigest, let row := new_row t f p (mp_device_id p) (dev_epoch device) project tool arguments digest rdigest
       (timeout_for tool arguments) in
     compute_action_digest sha256_hex (action_json tool arguments) = Some digest /\
     r = Ok (fr_pk f, row, true) /\ admitted f row s s').
Proof.
  unfold dispatch_admit. destruct (negb _); [intros [= <- <-]; by left|].
  destruct (compute_action_digest _ _) as [digest|]; [|intros [= <- <-]; by left].
  intros H. apply create_ok in H as [H|(rdigest & -> & H)]; [by left|]. right. by exists digest, rdigest.
Qed.

(** ** Preparation *)

(** The operation [row] is prepared for the connection [c] as the message [e]. *)
Record prepared (k : clock) (c : DeviceConnection) (pk : str) (row : OperationRow) (link : DeviceLink)
    (e : TunnelEnvelope) (s s' : relay) : Prop := {
  pr_row : relay_operations s !! pk = Some row;
  pr_account : rq_account (ro_request row) = account_of c;
  pr_device : rq_device (ro_request row) = cn_device_id c;
  pr_link : links s !! rq_device_link (ro_request row) = Some link;
  pr_epoch : epoch_of (cn_device_id c) s = Some (cn_epoch c);
  pr_live : terminal_statuses (ro_status row) = false;
  pr_deliverable : undeliverable (now k) link row = None;
  pr_rows : relay_operations s' = <[pk := with_epoch (cn_epoch c) (with_delivery (Some (now k)) None row)]> (relay_operations s);
  pr_envelope : relay_envelope (dispatch_envelope k c link row) = Ok e;
}.

Lemma prepare_ok k c correlation s x s' : _prepare_operation_dispatch k c correlation s = (Ok (Some x), s') ->
  terminal x = None -> exists row link e, outbound x = Some e /\ prepared k c (operation_id x) row link e s s'.
Proof.
  unfold _prepare_operation_dispatch, transaction. unfold bind at 1. cbn [gets id fst snd].
  destruct (uuid_of _) as [u|]; [|done].
  destruct (bound_rows c u s) as [|[pk row] l] eqn:Eb; [done|]. apply bound_rows_head in Eb as (Hr & _ & Ha & Hd).
  destruct (devices s !! _) as [device|] eqn:Ed; [|done]. destruct (links s !! _) as [link|] eqn:El; [|done].
  destruct (negb (dev_epoch device =? _)) eqn:Ee; [done|]. destruct (terminal_statuses _) eqn:Ht; [done|].
  destruct (undeliverable _ _ _) as [[[status error] p]|] eqn:Eu; unfold bind, lift.
  - cbn. destruct (_terminal_result_envelope _ _ _ _ _); [|done]. by intros [= <- <-].
  - cbn. destruct (relay_envelope _) as [e|] eqn:Ev; [|done]. intros [= <- <-] _. exists row, link, e. split; [done|].
    split; try done. unfold epoch_of. rewrite <- Hd, Ed. cbn. f_equal. lia.
Qed.

Lemma prepared_moves k c pk row link e s s' : prepared k c pk row link e s s' -> rows_move s s'.
Proof.
  intros Hp pk'. rewrite (pr_rows _ _ _ _ _ _ _ _ Hp). destruct (decide (pk = pk')) as [->|Hne].
  - rewrite lookup_insert_eq, (pr_row _ _ _ _ _ _ _ _ Hp).
    apply row_evolves_pending; [exact (pr_live _ _ _ _ _ _ _ _ Hp)|done|done|done|by left].
  - rewrite lookup_insert_ne by done. destruct (_ !! pk'); reflexivity || done.
Qed.

(** ** Moves *)

(** How a call goes on. *)
Inductive call_next (w : world) (p : MCPPrincipal) : tool_call -> tool_call -> Prop :=
| NRouted tool raw arguments device project :
    (dispatch_route p tool raw (store w)).1 = Ok (arguments, device, project) ->
    call_next w p (QCalled tool raw) (QRouted tool arguments device project)
| NMarked pk row epoch arguments e : call_next w p (QCreated pk row epoch arguments) (QMarked pk row e arguments)
| NWaiting pk row e arguments : call_next w p (QMarked pk row e arguments) (QWaiting pk row e arguments)
| NResult pk row e arguments v checked :
    _validate_device_result_for_request (rq_kind (ro_request row)) arguments v = Ok checked ->
    call_next w p (QWaiting pk row e arguments) (QResult pk row arguments checked)
| NFailed q pk e : call_next w p q (QFailed pk e)
| NAnswered q r : call_next w p q (QAnswered r).

Inductive move (w w' : world) : Prop :=
| MCalm : calm w w' -> move w w'
| MArrive p tool raw t token link w1 : (_authenticate t token link (store w)).1 = Ok p -> calm w w1 ->
    w' = upd_requests (fun l => l ++ [{| rt_principal := p; rt_call := QCalled tool raw |}]) w1 -> move w w'
| MCall n r q w1 : requests w !! n = Some r -> call_next w (rt_principal r) (rt_call r) q -> calm w w1 ->
    w' = upd_requests (alter (set_call q) n) w1 -> move w w'
| MAdmit n r f t tool arguments device project digest rdigest :
    let row := new_row t f (rt_principal r) (mp_device_id (rt_principal r)) (dev_epoch device) project tool arguments
                 digest rdigest (timeout_for tool arguments) in
    requests w !! n = Some r -> rt_call r = QRouted tool arguments device project ->
    unused f (drawn w) = true -> compute_action_digest sha256_hex (action_json tool arguments) = Some digest ->
    admitted f row (store w) (store w') -> outgoing w' = outgoing w -> sent w' = sent w ->
    drawn w' = [fr_pk f; fr_message_id f; fr_correlation_id f] ++ drawn w ->
    requests w' = alter (set_call (QCreated (fr_pk f) row (dev_epoch device) arguments)) n (requests w) -> move w w'
| MPrepare n so k pk row link e : sockets w !! n = Some so ->
    prepared k (so_connection so) pk row link e (store w) (store w') ->
    outgoing w' ≡ₚ (cn_device_id (so_connection so), e) :: outgoing w -> sent w' = sent w -> drawn w' = drawn w -> requests w' = requests w -> move w w'
| MSend x : outgoing w ≡ₚ x :: outgoing w' -> sent w' = sent w ++ [x] ->
    store w' = store w -> drawn w' = drawn w -> requests w' = requests w -> move w w'
| MConclude n r pk row arguments checked answer : requests w !! n = Some r -> rt_call r = QResult pk row arguments checked ->
    store w' = (_finish pk checked (store w)).2 -> outgoing w' = outgoing w -> sent w' = sent w ->
    drawn w' = drawn w -> requests w' = alter (set_call (QAnswered answer)) n (requests w) -> move w w'
| MCleanup t : relay_operations (store w') =
      filter (fun kv => negb (rq_created_at (ro_request kv.2) <? t - RETENTION) = true) (relay_operations (store w)) ->
    outgoing w' = outgoing w -> sent w' = sent w -> drawn w' = drawn w -> requests w' = requests w -> move w w'.

Lemma move_refl w : move w w.
Proof. apply MCalm. reflexivity. Qed.

Lemma outgoing_alter f n w so : sockets w !! n = Some so -> exists l1 l2,
  outgoing w = l1 ++ option_list (sending so) ++ l2 /\
  outgoing (upd_sockets (alter f n) w) = l1 ++ option_list (sending (f so)) ++ l2.
Proof. intros H. by apply omap_alter. Qed.

(** *** The dispatch loop *)

Lemma deliver_move n k so correlation todo delivered w : sockets w !! n = Some so ->
  so_dispatch so = DDeliver (correlation :: todo) ->
  move w (dispatch_segment n k delivered (so_connection so) (DDeliver (correlation :: todo)) w).2.
Proof.
  intros Hn Hd. cbn [dispatch_segment]. unfold bind at 1. unfold on_store at 1.
  pose proof (prepare_keeps k (so_connection so) correlation (store w)) as Hk.
  destruct (_prepare_operation_dispatch k (so_connection so) correlation (store w)) as [r db] eqn:Ep. cbn [snd] in Hk.
  assert (calm w (upd_store db w)) as Hc by (split; try done; exists []; by rewrite app_nil_r).
  assert (forall m : W unit, along calm m -> move w (m (upd_store db w)).2) as Hm.
  { intros m Hm. apply MCalm. etransitivity; [exact Hc|apply Hm]. }
  destruct r as [[x|]|]; [|apply Hm; auto with along|apply Hm; auto with along].
  destruct (terminal x) eqn:Et; [apply Hm; auto with along|].
  apply prepare_ok in Ep as (row & link & e & Ee & Ep); [|done]. rewrite Ee.
  destruct (outgoing_alter (to_dispatch (DSend (operation_id x) e todo)) n (upd_store db w) so Hn) as (l1 & l2 & E1 & E2).
  eapply MPrepare; [exact Hn|exact Ep| |done|done|done].
  change (outgoing (upd_sockets (alter (to_dispatch (DSend (operation_id x) e todo)) n) (upd_store db w)) ≡ₚ
          (cn_device_id (so_connection so), e) :: outgoing (upd_store db w)). rewrite E2, E1.
  unfold sending. rewrite Hd. cbn. by rewrite Permutation_middle.
Qed.

Lemma dispatch_move n k so delivered w : sockets w !! n = Some so ->
  move w (dispatch_segment n k delivered (so_connection so) (so_dispatch so) w).2.
Proof.
  intros Hn. destruct (so_dispatch so) as [| | |[|correlation todo]|pk e todo|pk todo|correlation e todo] eqn:Ed.
  4: apply move_refl. 4: by apply deliver_move. 4: cbn [dispatch_segment]; unfold send_to; destruct delivered.
  4: { destruct (outgoing_alter (to_dispatch (DSent pk todo)) n w so Hn) as (l1 & l2 & E1 & E2).
    eapply (MSend _ _ (cn_device_id (so_connection so), e)); [|done|done|done|done].
    change (outgoing w ≡ₚ (cn_device_id (so_connection so), e) :: outgoing (upd_sockets (alter (to_dispatch (DSent pk todo)) n) w)). rewrite E2, E1.
    unfold sending at 1. rewrite Ed. cbn. by rewrite Permutation_middle. }
  all: apply MCalm; revert w Hn; intros w _; revert w; cbn [dispatch_segment].
  1: change (calmly (send_to n (so_connection so) delivered (welcome k (so_connection so)) (dispatch_goto n DWelcomed))).
  1: apply calm_send; [done|auto with along].
  2: change (calmly (r <- on_store (_recoverable_operation_correlations (so_connection so)) ;;
               match r with Ok todo => dispatch_goto n (DDeliver todo) | Err _ => close n end)).
  all: along_steps. exact (calm_close n).
Qed.

(** *** Tool calls *)

(** A call that goes on after a calm computation. *)
Lemma call_move n r q w (m : W unit) : requests w !! n = Some r -> call_next w (rt_principal r) (rt_call r) q ->
  along calm m -> (m w).1 = Ok tt -> move w (bind m (fun _ => call_goto n q) w).2.
Proof.
  intros Hr Hq Hm Hok. unfold bind. specialize (Hm w). destruct (m w) as [[[]|x] w1]; [|done].
  by eapply MCall.
Qed.

Lemma goto_move n r q w : requests w !! n = Some r -> call_next w (rt_principal r) (rt_call r) q ->
  move w (call_goto n q w).2.
Proof. intros Hr Hq. eapply MCall; [exact Hr|exact Hq|reflexivity|done]. Qed.

(** A database function whose result decides how the call goes on. *)
Lemma store_call_move {T} n r w (m : M T) (next : res T -> tool_call) : requests w !! n = Some r -> along rows_move m ->
  call_next w (rt_principal r) (rt_call r) (next (m (store w)).1) ->
  move w (bind (on_store m) (fun x => call_goto n (next x)) w).2.
Proof.
  intros Hr Hm Hq. pose proof (calm_store m Hm w) as Hc. unfold bind, on_store in *. destruct (m (store w)) as [x db].
  by eapply MCall.
Qed.

Lemma route_move n k r tool raw w : requests w !! n = Some r -> rt_call r = QCalled tool raw ->
  move w (route n k (rt_principal r) tool raw w).2.
Proof.
  intros Hr Hq. set (p := rt_principal r). unfold route. unfold bind at 1. unfold on_store at 1.
  pose proof (route_keeps p tool raw (store w)) as Hk.
  destruct (dispatch_route p tool raw (store w)) as [x db] eqn:Ed. cbn [snd] in Hk.
  assert (calm w (upd_store db w)) as Hc by (split; try done; exists []; by rewrite app_nil_r).
  destruct x as [[[arguments device] project]|x]; [|eapply MCall; [exact Hr|apply NAnswered|exact Hc|done]].
  destruct (local_result (now k) p tool arguments) as [m|] eqn:El.
  - assert (along rows_move m) as Hm.
    { unfold local_result in El. repeat case_match; simplify_eq; auto with along. }
    pose proof (calm_store m Hm (upd_store db w)) as Hc2. unfold bind, on_store in *. destruct (m _) as [y db2].
    eapply MCall; [exact Hr|apply NAnswered|etransitivity; [exact Hc|exact Hc2]|done].
  - eapply MCall; [exact Hr| |exact Hc|done]. rewrite Hq. eapply NRouted. fold p. by rewrite Ed.
Qed.

Lemma create_move n k f r tool arguments device project w : requests w !! n = Some r ->
  rt_call r = QRouted tool arguments device project ->
  move w (create n k f (rt_principal r) tool arguments device project w).2.
Proof.
  intros Hr Hq. unfold create. unfold bind at 1. cbn [gets id]. destruct (negb _) eqn:Eu; [apply move_refl|].
  apply negb_false_iff in Eu. unfold bind at 1. cbn [modify]. set (w0 := upd_drawn _ w). unfold bind, on_store.
  assert (calm w w0) as H0 by exact (calm_drawn [fr_pk f; fr_message_id f; fr_correlation_id f] w).
  destruct (dispatch_admit _ _ _ _ _ _ _ (store w0)) as [x db] eqn:Ed. apply dispatch_admit_ok in Ed as [[E Hn]|(digest & rdigest & Hd & -> & Ha)].
  - assert (calm w0 (upd_store db w0)) as H1.
    { split; try done; [by apply rows_move_same|]. exists []. by rewrite app_nil_r. }
    destruct x as [[[pk row] []]|x]; [by destruct (Hn pk row)|..].
    all: (eapply MCall; [exact Hr|apply NAnswered|etransitivity; [exact H0|exact H1]|done]).
  - by eapply (MAdmit _ _ n r f (now k) tool arguments device project digest rdigest).
Qed.

Lemma read_stream_move n r pk row e arguments entry w : requests w !! n = Some r ->
  rt_call r = QWaiting pk row e arguments -> move w (read_stream n (rt_principal r) pk row e arguments entry w).2.
Proof.
  intros Hr Hq. unfold read_stream. unfold bind at 1. cbn [gets id].
  destruct (result_stream w !! entry) as [[correlation x]|]; [|apply move_refl].
  destruct (negb _); [apply move_refl|].
  pose proof (calm_store _ (read_keeps e (mp_device_id (rt_principal r)) x) w) as Hc. unfold bind, on_store in *.
  destruct (read_result e _ x (store w)) as [y db]. cbn [snd] in Hc.
  destruct y as [[v|]|y]; [|by apply MCalm|by eapply MCall; [exact Hr|apply NFailed|exact Hc|]].
  destruct (_validate_device_result_for_request _ _ v) as [checked|y] eqn:Ev.
  - eapply MCall; [exact Hr| |exact Hc|done]. rewrite Hq. by eapply NResult.
  - by eapply MCall; [exact Hr|apply NFailed|exact Hc|].
Qed.

Lemma segment_move n k f entry failure r w : requests w !! n = Some r ->
  move w (call_segment n k f entry failure (rt_principal r) (rt_call r) w).2.
Proof.
  intros Hr. destruct (rt_call r) as [tool raw|tool arguments device project|pk row epoch arguments|pk row e arguments
    |pk row e arguments|pk row arguments checked|pk x|y] eqn:Hq; cbn [call_segment].
  - by apply route_move.
  - by apply create_move.
  - unfold mark. destruct (relay_envelope _) as [e|]; [|apply (goto_move n r); [done|apply NFailed]].
    apply (store_call_move n r w (_mark_dispatched pk) (fun _ => QMarked pk row e arguments)); [done|auto with along|].
    rewrite Hq. apply NMarked.
  - destruct failure; [apply (goto_move n r); [done|apply NFailed]|]. unfold publish.
    apply (call_move n r); [done|rewrite Hq; apply NWaiting| |done].
    intros s. split; try done. exists []. by rewrite app_nil_r.
  - destruct failure; [apply (goto_move n r); [done|apply NFailed]|]. by apply read_stream_move.
  - unfold conclude, bind, on_store. destruct (_finish pk checked (store w)) as [x db] eqn:Ef.
    eapply (MConclude _ _ n r); [exact Hr|exact Hq| |done|done|done|done]. by rewrite Ef.
  - unfold fail_call. apply (store_call_move n r w _ (fun _ => QAnswered (Err x))); [done|auto with along|apply NAnswered].
  - apply move_refl.
Qed.

Lemma quiet_store (m : M unit) w : along rows_move m -> calm w ((on_store m ;;; ret tt) w).2.
Proof.
  intros H. enough (calmly (on_store m ;;; ret tt)) as Hc by apply Hc.
  apply along_bind; [apply _|by apply calm_store|intros; apply along_ret, _].
Qed.

Lemma administer_move a w : move w ((on_store (administer a) ;;; ret tt) w).2.
Proof.
  destruct a as [t device raw challenge|device d|t account device|t account device pk link|l|t].
  6: by apply (MCleanup _ _ t).
  all: apply MCalm, quiet_store; cbn [administer]; auto with along.
  by apply keeps_other.
Qed.

(** Every event of a history is a move. *)
Lemma step_move e w : move w (step e w).
Proof.
  unfold step. destruct e as [t raw signature|n k delivered|n entries|n k frame|n k delivered|n k delivered count|n|n
    |t raw link tool arguments|n k f entry failure|n|a]; cbn [handle].
  1: apply MCalm, calm_accept.
  1-5: unfold with_socket, bind at 1; cbn [gets]; destruct (sockets w !! n) as [so|] eqn:Hn; [|apply move_refl];
    destruct (so_open so); [|apply move_refl]; cbn [when].
  - by apply dispatch_move.
  - apply MCalm, calm_poll.
  - destruct (looping _); [|apply move_refl]. destruct (so_answer so); try apply move_refl. apply MCalm, calm_receive.
  - destruct (looping _); [|apply move_refl]. apply MCalm, calm_answering.
  - destruct (looping _); [|apply move_refl]. apply MCalm, calm_heartbeat.
  - apply MCalm, calm_close.
  - unfold bind at 1. cbn [gets]. destruct (sockets w !! n) as [so|]; [|apply move_refl].
    destruct (_ && _); [|apply move_refl]. apply MCalm, calm_finish.
  - unfold arrive. pose proof (calm_store _ (authenticate_keeps t raw link) w) as Hc. unfold bind, on_store in *.
    destruct (_authenticate t raw link (store w)) as [[p|x] db] eqn:Ea; [|by apply MCalm].
    eapply (MArrive _ _ p tool arguments t raw link); [by rewrite Ea|exact Hc|done].
  - unfold bind at 1. cbn [gets]. destruct (requests w !! n) as [r|] eqn:Hr; [|apply move_refl]. by apply segment_move.
  - unfold answer_call. destruct (requests w !! n) as [r|] eqn:Hr; [apply (goto_move n r); [done|apply NAnswered]|].
    apply MCalm. split; try done; [exists []; by rewrite app_nil_r|]. by apply alter_missing.
  - apply administer_move.
Qed.
End moves.
