(* ===== verification/RelayHistory.v ===== *)
(** * Histories of the relay

    What holds however tool calls, device connections, revocations and lost
    messages interleave: an action that must not be repeated is sent once, every
    operation was asked for by an authenticated caller with its scopes, answers fit
    their requests and do not change, and the queue of a device is bounded. *)
From S2P Require Import Prelude Utf8 PyStr Models Paths Database Json Envelope Relay RelayDispatch Gateway RelayWorld RelayRows RelayMoves.
From stdpp Require Import sorting.

Open Scope Z_scope.

(** ** Counting rows *)

Lemma rows_where_keys_NoDup p s : NoDup (rows_where p s).*1.
Proof.
  unfold rows_where. rewrite (Permutation_map fst (merge_sort_Permutation _ _)).
  eapply sublist_NoDup; [apply (NoDup_fst_map_to_list (relay_operations s))|]. apply fmap_sublist, sublist_filter.
Qed.

Lemma rows_where_bound p s (l : list str) :
  (forall pk r, relay_operations s !! pk = Some r -> p r = true -> pk ∈ l) -> (length (rows_where p s) <= length l)%nat.
Proof.
  intros H. rewrite <- (length_map fst). apply submseteq_length. apply NoDup_submseteq; [apply rows_where_keys_NoDup|].
  intros pk Hpk. apply list_elem_of_fmap in Hpk as (kv & -> & Hin). apply rows_where_spec in Hin as [Hr Hp]. eauto.
Qed.

Lemma rows_where_mono p q s s' :
  (forall pk r', relay_operations s' !! pk = Some r' -> p r' = true -> exists r, relay_operations s !! pk = Some r /\ q r = true) ->
  (length (rows_where p s') <= length (rows_where q s))%nat.
Proof.
  intros H. rewrite <- (length_map fst (rows_where q s)). apply rows_where_bound. intros pk r' Hr' Hp.
  destruct (H pk r' Hr' Hp) as (r & Hr & Hq). apply (list_elem_of_fmap_2' fst _ (pk, r)); [by apply rows_where_spec|done].
Qed.

(** ** Messages that must not be sent twice *)

Definition unsafe_message (e : TunnelEnvelope) : bool :=
  bool_decide (kind e = OPERATION) &&
  match obj_get (lit "tool_name") (payload e), obj_get (lit "input") (payload e) with
  | Some (JStr tool_name), Some (JObj input) => _is_replay_unsafe tool_name input
  | _, _ => false
  end.
Definition unsafe_id (m : str) (e : TunnelEnvelope) : bool := unsafe_message e && bool_decide (message_id e = m).

(** The messages with one identifier: sent, and about to be. *)
Definition claims (m : str) (l : list TunnelEnvelope) : nat := length (filter (fun e => unsafe_id m e = true) l).
Definition world_claims (m : str) (w : world) : nat := (claims m (map snd (outgoing w)) + claims m (map snd (sent w)))%nat.

Lemma claims_app m l l' : claims m (l ++ l') = (claims m l + claims m l')%nat.
Proof. unfold claims. by rewrite filter_app, length_app. Qed.
Lemma claims_perm m l l' : l ≡ₚ l' -> claims m l = claims m l'.
Proof. intros H. unfold claims. by rewrite H. Qed.
Lemma claims_cons m e l : claims m (e :: l) = ((if unsafe_id m e then 1 else 0) + claims m l)%nat.
Proof.
  unfold claims. rewrite filter_cons. destruct (unsafe_id m e); [by rewrite decide_True|by rewrite decide_False].
Qed.
Lemma claims_sublist m l l' : l `sublist_of` l' -> (claims m l <= claims m l')%nat.
Proof. intros H. induction H as [|e l l' H IH|e l l' H IH]; rewrite ?claims_cons; [done|lia|lia]. Qed.
Lemma claims_other m (l : list (str * TunnelEnvelope)) : Forall no_operation l -> claims m (map snd l) = 0%nat.
Proof.
  induction 1 as [|x l Hx Hl IH]; [done|]. cbn [map]. rewrite claims_cons, IH.
  unfold unsafe_id, unsafe_message. by rewrite bool_decide_eq_false_2.
Qed.

Lemma calm_claims {contracts : Contracts} w w' : calm w w' -> forall m, (world_claims m w' <= world_claims m w)%nat.
Proof.
  intros [_ Ho (l & Es & Hl) _ _] m. unfold world_claims. rewrite Es, map_app, claims_app, (claims_other m l Hl).
  assert (claims m (map snd (outgoing w')) <= claims m (map snd (outgoing w)))%nat as H
    by (apply claims_sublist; exact (fmap_sublist snd _ _ Ho)). lia.
Qed.

Section histories.
  Context {contracts : Contracts} (past : world -> Prop).
  #[local] Set Default Proof Using "Type*".

(** ** The invariant *)

(** The caller showed a token that was good at that moment. *)
Definition authentic (p : MCPPrincipal) : Prop :=
  exists w t token link, past w /\ (_authenticate t token link (store w)).1 = Ok p.

(** The call had the scopes of its tool, and a route. *)
Definition routed (p : MCPPrincipal) (tool : str) (arguments : list (str * json)) (project : option str) : Prop :=
  exists w raw device, past w /\ (dispatch_route p tool raw (store w)).1 = Ok (arguments, device, project).

Record authorised (p : MCPPrincipal) (r : OperationRow) (arguments : list (str * json)) : Prop := {
  au_authentic : authentic p;
  au_routed : routed p (rq_kind (ro_request r)) arguments (rq_project (ro_request r));
  au_account : rq_account (ro_request r) = mp_account_id p;
  au_grant : rq_grant (ro_request r) = mp_oauth_grant_id p;
  au_device : rq_device (ro_request r) = mp_device_id p;
  au_link : rq_device_link (ro_request r) = mp_device_link_id p;
  au_payload : rq_payload (ro_request r) =
    [(lit "tool_name", JStr (rq_kind (ro_request r))); (lit "input", JObj arguments)];
  au_digest : compute_action_digest sha256_hex (action_json (rq_kind (ro_request r)) arguments) =
    Some (rq_action_digest (ro_request r));
}.

Definition row_ok (r : OperationRow) : Prop := (exists p arguments, authorised p r arguments) /\ row_fits r = true.

(** The row a call is about. *)
Record call_row (w : world) (pk : str) (row : OperationRow) (arguments : list (str * json)) : Prop := {
  cr_drawn : pk ∈ drawn w;
  cr_input : input_fields row = arguments;
  cr_stored : forall r, relay_operations (store w) !! pk = Some r -> ro_request r = ro_request row;
}.

Definition call_ok (w : world) (p : MCPPrincipal) (q : tool_call) : Prop :=
  match q with
  | QRouted tool arguments device project => routed p tool arguments project
  | QCreated pk row _ arguments | QMarked pk row _ arguments | QWaiting pk row _ arguments => call_row w pk row arguments
  | QResult pk row arguments checked =>
      call_row w pk row arguments /\ fits (rq_kind (ro_request row)) arguments checked = true
  | QCalled _ _ | QFailed _ _ | QAnswered _ => True
  end.

Definition same_key (a b : OperationRequest) : Prop :=
  rq_account a = rq_account b /\ rq_grant a = rq_grant b /\ rq_device_link a = rq_device_link b /\
  rq_device a = rq_device b /\ rq_project a = rq_project b /\ rq_kind a = rq_kind b /\
  rq_idempotency_key a = rq_idempotency_key b.

(** The operations of the database, with the identifiers drawn so far. *)
Record ledger (d : list str) (s : relay) : Prop := {
  lg_ids : forall pk r, relay_operations s !! pk = Some r -> pk ∈ d /\ rq_message_id (ro_request r) ∈ d;
  lg_unique : forall pk r pk' r', relay_operations s !! pk = Some r -> relay_operations s !! pk' = Some r' ->
    rq_message_id (ro_request r) = rq_message_id (ro_request r') -> pk = pk';
  lg_rows : forall pk r, relay_operations s !! pk = Some r -> row_ok r;
  lg_queue : forall device, (length (pending_rows device s) <= DEVICE_QUEUE_LIMIT)%nat;
  lg_keys : forall pk r pk' r', relay_operations s !! pk = Some r -> relay_operations s !! pk' = Some r' ->
    rq_idempotency_key (ro_request r) <> [] -> same_key (ro_request r) (ro_request r') -> pk = pk';
}.

(** An operation message was prepared from a row of the ledger. *)
Definition message_ok (x : str * TunnelEnvelope) : Prop := kind x.2 = OPERATION ->
  exists w db k c pk row link p arguments, past w /\ x.1 = cn_device_id c /\
    prepared k c pk row link x.2 (store w) db /\ authorised p row arguments.

Record sound (w : world) : Prop := {
  sn_messages : Forall message_ok (outgoing w ++ sent w);
  sn_ledger : ledger (drawn w) (store w);
  sn_calls : forall n r, requests w !! n = Some r -> authentic (rt_principal r) /\ call_ok w (rt_principal r) (rt_call r);
  sn_claims : forall m, (world_claims m w <= 1)%nat /\ ((0 < world_claims m w)%nat -> m ∈ drawn w /\
    forall pk r, relay_operations (store w) !! pk = Some r -> rq_message_id (ro_request r) = m ->
      is_Some (ro_delivery_attempted_at r));
}.

(** ** The ledger *)

Lemma rows_move_back s s' pk r' : rows_move s s' -> relay_operations s' !! pk = Some r' ->
  exists r, relay_operations s !! pk = Some r /\ row_evolves r r'.
Proof. intros H Hr'. specialize (H pk). rewrite Hr' in H. destruct (relay_operations s !! pk) as [r|]; [eauto|done]. Qed.

Lemma row_ok_evolves r r' : row_evolves r r' -> row_ok r -> row_ok r'.
Proof.
  intros [Hq _ _ _ Hf] [(p & arguments & Ha) Hr]. split.
  - exists p, arguments. destruct Ha. split; by rewrite ?Hq.
  - destruct Hf as [E|]; [|done]. by rewrite (row_fits_same r r').
Qed.

Lemma pending_evolves r r' : row_evolves r r' -> pending_status (ro_status r') = true -> pending_status (ro_status r) = true.
Proof. intros H. pose proof (re_stage _ _ H) as Hs. rewrite !pending_stage, !stage_terminal. lia. Qed.

Lemma ledger_move d d' s s' : ledger d s -> rows_move s s' -> d ⊆ d' -> ledger d' s'.
Proof.
  intros [H1 H2 H3 H4 H5] Hm Hd. split.
  - intros pk r' Hr'. destruct (rows_move_back _ _ _ _ Hm Hr') as (r & Hr & He). destruct (H1 pk r Hr) as [? ?].
    rewrite (re_request _ _ He). auto.
  - intros pk r' pk' q' Hr' Hq'. destruct (rows_move_back _ _ _ _ Hm Hr') as (r & Hr & He).
    destruct (rows_move_back _ _ _ _ Hm Hq') as (q & Hq & Hf). rewrite (re_request _ _ He), (re_request _ _ Hf). eauto.
  - intros pk r' Hr'. destruct (rows_move_back _ _ _ _ Hm Hr') as (r & Hr & He). eapply row_ok_evolves; eauto.
  - intros device. etransitivity; [|apply (H4 device)]. apply rows_where_mono. intros pk r' Hr' Hp.
    destruct (rows_move_back _ _ _ _ Hm Hr') as (r & Hr & He). exists r. split; [done|].
    apply andb_true_iff in Hp as [Hp1 Hp2]. rewrite (re_request _ _ He) in Hp1. by rewrite Hp1, (pending_evolves _ _ He Hp2).
  - intros pk r' pk' q' Hr' Hq'. destruct (rows_move_back _ _ _ _ Hm Hr') as (r & Hr & He).
    destruct (rows_move_back _ _ _ _ Hm Hq') as (q & Hq & Hf). rewrite (re_request _ _ He), (re_request _ _ Hf). eauto.
Qed.

Lemma ledger_filter d s s' P `{!forall x, Decision (P x)} : ledger d s ->
  relay_operations s' = filter P (relay_operations s) -> ledger d s'.
Proof.
  intros [H1 H2 H3 H4 H5] E.
  assert (forall pk r, relay_operations s' !! pk = Some r -> relay_operations s !! pk = Some r) as Hs.
  { intros pk r. rewrite E. by intros [? _]%map_lookup_filter_Some. }
  split; [by eauto|by eauto|by eauto| |by eauto].
  intros device. etransitivity; [|apply (H4 device)]. apply rows_where_mono. intros pk r Hr Hp. eauto.
Qed.

(** The admitted row has the scope of its own call. *)
Lemma own_scope p f t device epoch project tool arguments digest rdigest timeout :
  let row := new_row t f p device epoch project tool arguments digest rdigest timeout in
  in_scope p device project tool (rq_idempotency_key (ro_request row)) row = true.
Proof. intros row. unfold in_scope. subst row. cbn [new_row ro_request rq_account rq_grant rq_device rq_device_link
  rq_project rq_kind rq_idempotency_key]. by rewrite Z.eqb_refl, !bool_decide_refl. Qed.

Lemma same_key_scope p a b : same_key (ro_request a) (ro_request b) ->
  in_scope p (rq_device (ro_request a)) (rq_project (ro_request a)) (rq_kind (ro_request a))
    (rq_idempotency_key (ro_request a)) a = true ->
  in_scope p (rq_device (ro_request a)) (rq_project (ro_request a)) (rq_kind (ro_request a))
    (rq_idempotency_key (ro_request a)) b = true.
Proof. intros (E1 & E2 & E3 & E4 & E5 & E6 & E7). unfold in_scope. by rewrite E1, E2, E3, E4, E5, E6, E7. Qed.

Lemma ledger_admit d s s' f p row : ledger d s -> unused f d = true -> admitted f row s s' -> row_ok row ->
  rq_message_id (ro_request row) = fr_message_id f ->
  in_scope p (rq_device (ro_request row)) (rq_project (ro_request row)) (rq_kind (ro_request row))
    (rq_idempotency_key (ro_request row)) row = true ->
  ledger ([fr_pk f; fr_message_id f; fr_correlation_id f] ++ d) s'.
Proof.
  intros [H1 H2 H3 H4 H5] Hu [A1 A2 A3 A4] Hok Em Hp.
  assert (forall pk r, relay_operations s' !! pk = Some r -> (pk = fr_pk f /\ r = row) \/ relay_operations s !! pk = Some r) as Hs.
  { intros pk r. rewrite A1. intros [[<- <-]|[? ?]]%lookup_insert_Some; auto. }
  assert (fr_message_id f ∉ d) as Hfresh.
  { unfold unused in Hu. reflect_bools. done. }
  assert (forall pk r, relay_operations s !! pk = Some r -> rq_idempotency_key (ro_request row) <> [] ->
            same_key (ro_request row) (ro_request r) -> False) as Hk.
  { intros pk r Hr Hne Hsk. destruct A4 as [?|A4]; [done|]. specialize (A4 pk r Hr p Hp).
    rewrite (same_key_scope p row r Hsk Hp) in A4. done. }
  split.
  - intros pk r Hr. destruct (Hs pk r Hr) as [[-> ->]|Hr0]; [rewrite Em|destruct (H1 pk r Hr0)]; set_solver.
  - intros pk r pk' r' Hr Hr'. destruct (Hs pk r Hr) as [[-> ->]|Hr0], (Hs pk' r' Hr') as [[-> ->]|Hr0']; [done|..|by eauto].
    all: rewrite Em; intros E; exfalso.
    + destruct (H1 pk' r' Hr0'). by rewrite <- E in *.
    + destruct (H1 pk r Hr0). by rewrite E in *.
  - intros pk r Hr. destruct (Hs pk r Hr) as [[-> ->]|Hr0]; eauto.
  - intros device. destruct (decide (device = rq_device (ro_request row))) as [->|Hne].
    + etransitivity; [apply (rows_where_bound _ s' (fr_pk f :: (pending_rows (rq_device (ro_request row)) s).*1))|].
      * intros pk r Hr Hpr. destruct (Hs pk r Hr) as [[-> _]|Hr0]; [by left|]. right.
        apply (list_elem_of_fmap_2' fst _ (pk, r)); [by apply rows_where_spec|done].
      * cbn. rewrite length_map. lia.
    + etransitivity; [|apply (H4 device)]. apply rows_where_mono. intros pk r Hr Hpr.
      destruct (Hs pk r Hr) as [[-> ->]|Hr0]; [|eauto]. apply andb_true_iff in Hpr as [Hpr _]. by apply bool_decide_eq_true in Hpr.
  - intros pk r pk' r' Hr Hr' Hne Hsk. destruct (Hs pk r Hr) as [[-> ->]|Hr0], (Hs pk' r' Hr') as [[-> ->]|Hr0']; [done|..|by eauto].
    + by destruct (Hk pk' r').
    + exfalso. apply (Hk pk r Hr0).
      * destruct Hsk as (_ & _ & _ & _ & _ & _ & E). by rewrite <- E.
      * unfold same_key in *. naive_solver.
Qed.

(** ** The invariant is kept *)

(** Rows known by an identifier already drawn are old rows. *)
Definition persist (d : list str) (s s' : relay) : Prop := forall pk r',
  relay_operations s' !! pk = Some r' -> pk ∈ d \/ rq_message_id (ro_request r') ∈ d ->
  exists r, relay_operations s !! pk = Some r /\ ro_request r' = ro_request r /\
    (is_Some (ro_delivery_attempted_at r) -> is_Some (ro_delivery_attempted_at r')).

Lemma persist_move d s s' : rows_move s s' -> persist d s s'.
Proof.
  intros H pk r' Hr' _. destruct (rows_move_back _ _ _ _ H Hr') as (r & Hr & [Hq Ha _ _ _]). eauto.
Qed.

Lemma persist_filter d s s' P `{!forall x, Decision (P x)} :
  relay_operations s' = filter P (relay_operations s) -> persist d s s'.
Proof. intros E pk r. rewrite E. intros [? _]%map_lookup_filter_Some _. eauto. Qed.

Lemma persist_admit d s s' f row : unused f d = true -> admitted f row s s' ->
  rq_message_id (ro_request row) = fr_message_id f -> persist d s s'.
Proof.
  intros Hu [A1 _ _ _] Em pk r'. rewrite A1. intros [[<- <-]|[? ?]]%lookup_insert_Some; [|eauto].
  intros Hin. exfalso. unfold unused in Hu. reflect_bools. rewrite Em in Hin. by destruct Hin.
Qed.

Lemma call_row_persist w w' pk row arguments : persist (drawn w) (store w) (store w') -> drawn w ⊆ drawn w' ->
  call_row w pk row arguments -> call_row w' pk row arguments.
Proof.
  intros Hp Hd [H1 H2 H3]. split; [auto|done|]. intros r' Hr'.
  destruct (Hp pk r' Hr' (or_introl H1)) as (r & Hr & E & _). rewrite E. auto.
Qed.

Lemma call_ok_persist w w' p q : persist (drawn w) (store w) (store w') -> drawn w ⊆ drawn w' ->
  call_ok w p q -> call_ok w' p q.
Proof.
  intros Hp Hd. destruct q; cbn; try done; try (apply call_row_persist; done).
  intros [? ?]. split; [|done]. by eapply call_row_persist.
Qed.

Lemma call_ok_next w w1 p q q' : past w -> persist (drawn w) (store w) (store w1) -> drawn w ⊆ drawn w1 ->
  call_ok w p q -> call_next w p q q' -> call_ok w1 p q'.
Proof.
  intros Hw Hp Hd Hok Hn. apply (call_ok_persist w w1 p q' Hp Hd). destruct Hn; cbn in *; try done.
  - exists w, raw, device. by split.
  - split; [done|]. by eapply validated_fits.
Qed.

Lemma calls_keep w w' : persist (drawn w) (store w) (store w') -> drawn w ⊆ drawn w' -> requests w' = requests w ->
  (forall n r, requests w !! n = Some r -> authentic (rt_principal r) /\ call_ok w (rt_principal r) (rt_call r)) ->
  forall n r, requests w' !! n = Some r -> authentic (rt_principal r) /\ call_ok w' (rt_principal r) (rt_call r).
Proof.
  intros Hp Hd E H n r Hr. rewrite E in Hr. destruct (H n r Hr). split; [done|]. by eapply call_ok_persist.
Qed.

Lemma calls_set w w' n0 q : persist (drawn w) (store w) (store w') -> drawn w ⊆ drawn w' ->
  requests w' = alter (set_call q) n0 (requests w) ->
  (forall n r, requests w !! n = Some r -> authentic (rt_principal r) /\ call_ok w (rt_principal r) (rt_call r)) ->
  (forall r, requests w !! n0 = Some r -> call_ok w' (rt_principal r) q) ->
  forall n r, requests w' !! n = Some r -> authentic (rt_principal r) /\ call_ok w' (rt_principal r) (rt_call r).
Proof.
  intros Hp Hd E H Hq n r Hr. rewrite E in Hr. destruct (decide (n0 = n)) as [->|Hne].
  - rewrite list_lookup_alter_eq in Hr. destruct (requests w !! n) as [r0|] eqn:E0; [|done]. injection Hr as <-.
    destruct (H n r0 E0). split; [done|]. cbn. auto.
  - rewrite list_lookup_alter_ne in Hr by done. destruct (H n r Hr). split; [done|]. by eapply call_ok_persist.
Qed.

(** Claims that do not grow. *)
Lemma claims_keep w w' m : persist (drawn w) (store w) (store w') -> drawn w ⊆ drawn w' ->
  (world_claims m w' <= world_claims m w)%nat -> sound w ->
  (world_claims m w' <= 1)%nat /\ ((0 < world_claims m w')%nat -> m ∈ drawn w' /\
    forall pk r, relay_operations (store w') !! pk = Some r -> rq_message_id (ro_request r) = m ->
      is_Some (ro_delivery_attempted_at r)).
Proof.
  intros Hp Hd Hc Hs. destruct (sn_claims w Hs m) as [H1 H2]. split; [lia|]. intros H0.
  destruct H2 as [Hm Ha]; [lia|]. split; [auto|]. intros pk r' Hr' E.
  destruct (Hp pk r' Hr') as (r & Hr & Eq & Hatt); [right; by rewrite E|]. apply Hatt, (Ha pk r Hr). by rewrite <- Eq.
Qed.

Lemma messages_calm w w' : calm w w' -> Forall message_ok (outgoing w ++ sent w) -> Forall message_ok (outgoing w' ++ sent w').
Proof.
  intros [_ Ho (l & -> & Hl) _ _] H. apply Forall_app in H as [H1 H2]. rewrite !Forall_app. split; [|split; [done|]].
  - apply Forall_forall. intros x Hx. rewrite Forall_forall in H1. apply H1. by eapply sublist_subseteq.
  - eapply Forall_impl; [exact Hl|]. intros x Hx Hk. by destruct Hx.
Qed.

Lemma sound_calm w w' : sound w -> calm w w' -> sound w'.
Proof.
  intros Hs Hc. pose proof (ca_rows _ _ Hc) as Hr. pose proof (ca_drawn _ _ Hc) as Hd.
  pose proof (persist_move (drawn w) _ _ Hr) as Hp. split.
  - apply (messages_calm w); [done|apply (sn_messages _ Hs)].
  - eapply ledger_move; [apply (sn_ledger _ Hs)|done|done].
  - eapply calls_keep; [exact Hp|exact Hd|apply (ca_requests _ _ Hc)|apply (sn_calls _ Hs)].
  - intros m. apply (claims_keep w); [done|done|by apply calm_claims|done].
Qed.

Lemma sound_requests w f : sound w ->
  (forall n r, f (requests w) !! n = Some r -> authentic (rt_principal r) /\ call_ok w (rt_principal r) (rt_call r)) ->
  sound (upd_requests f w).
Proof.
  intros [H0 H1 H2 H3] H. split; [done|done| |done]. intros n r Hr. destruct (H n r Hr). split; [done|].
  apply (call_ok_persist w); [|done|done]. by apply persist_move.
Qed.

Lemma sound_arrive w p tool raw t token link : sound w -> past w ->
  forall w1, (_authenticate t token link (store w)).1 = Ok p -> calm w w1 ->
  sound (upd_requests (fun l => l ++ [{| rt_principal := p; rt_call := QCalled tool raw |}]) w1).
Proof.
  intros Hs Hw w1 Ha Hc. pose proof (sound_calm _ _ Hs Hc) as Hs1. apply sound_requests; [done|].
  intros n r [Hr|[_ Hr]]%lookup_app_Some; [by apply (sn_calls _ Hs1 n)|].
  apply list_lookup_singleton_Some in Hr as [_ <-]. split; [|done]. by exists w, t, token, link.
Qed.

Lemma sound_call w n r q w1 : sound w -> past w -> requests w !! n = Some r ->
  call_next w (rt_principal r) (rt_call r) q -> calm w w1 -> sound (upd_requests (alter (set_call q) n) w1).
Proof.
  intros Hs Hw Hr Hq Hc. pose proof (sound_calm _ _ Hs Hc) as Hs1. apply sound_requests; [done|].
  intros n' r' Hr'. destruct (decide (n = n')) as [<-|Hne].
  - rewrite list_lookup_alter_eq, (ca_requests _ _ Hc), Hr in Hr'. injection Hr' as <-. cbn.
    destruct (sn_calls _ Hs n r Hr) as [Ha Hok]. split; [done|].
    eapply call_ok_next; [exact Hw|apply persist_move, (ca_rows _ _ Hc)|apply (ca_drawn _ _ Hc)|exact Hok|exact Hq].
  - rewrite list_lookup_alter_ne in Hr' by done. by apply (sn_calls _ Hs1 n').
Qed.

Lemma sound_admit w w' n r f t tool arguments device project digest rdigest : sound w -> past w ->
  let row := new_row t f (rt_principal r) (mp_device_id (rt_principal r)) (dev_epoch device) project tool arguments
               digest rdigest (timeout_for tool arguments) in
  requests w !! n = Some r -> rt_call r = QRouted tool arguments device project ->
  unused f (drawn w) = true -> compute_action_digest sha256_hex (action_json tool arguments) = Some digest ->
  admitted f row (store w) (store w') -> outgoing w' = outgoing w -> sent w' = sent w ->
  drawn w' = [fr_pk f; fr_message_id f; fr_correlation_id f] ++ drawn w ->
  requests w' = alter (set_call (QCreated (fr_pk f) row (dev_epoch device) arguments)) n (requests w) -> sound w'.
Proof.
  intros Hs Hw row Hr Hq Hu Hd Ha Eo Es Ed Er. pose proof (persist_admit _ _ _ f row Hu Ha eq_refl) as Hp.
  assert (drawn w ⊆ drawn w') as Hd' by (rewrite Ed; set_solver).
  destruct (sn_calls _ Hs n r Hr) as [Hauth Hok]. rewrite Hq in Hok. split.
  - rewrite Eo, Es. apply (sn_messages _ Hs).
  - rewrite Ed. eapply (ledger_admit _ _ _ f (rt_principal r) row (sn_ledger _ Hs) Hu Ha); [|done|by apply own_scope].
    split; [|done]. exists (rt_principal r), arguments. by split.
  - eapply calls_set; [exact Hp|exact Hd'|exact Er|apply (sn_calls _ Hs)|]. intros r0 Hr0. cbn. split.
    + rewrite Ed. by left.
    + done.
    + intros x Hx. rewrite (ad_rows _ _ _ _ Ha), lookup_insert_eq in Hx. by injection Hx as <-.
  - intros m. apply (claims_keep w); [done|done| |done]. unfold world_claims. by rewrite Eo, Es.
Qed.

Lemma unsafe_dispatch k c link row p arguments e : authorised p row arguments ->
  relay_envelope (dispatch_envelope k c link row) = Ok e -> unsafe_message e = replay_unsafe row /\
  message_id e = rq_message_id (ro_request row).
Proof.
  intros Ha H. assert (kind e = OPERATION /\ payload e = rq_payload (ro_request row) /\
                       message_id e = rq_message_id (ro_request row)) as (E1 & E2 & E3).
  { unfold relay_envelope, TunnelEnvelope_validate in H. do 7 apply rbind_ok in H as (? & _ & H).
    by apply rbind_ok in H as (? & _ & [= <-]). }
  split; [|done]. unfold unsafe_message, replay_unsafe, operation_input. rewrite E1, E2, (au_payload _ _ _ Ha). done.
Qed.

Lemma sound_prepare w w' n so k pk row link e : sound w -> past w -> sockets w !! n = Some so ->
  prepared k (so_connection so) pk row link e (store w) (store w') ->
  outgoing w' ≡ₚ (cn_device_id (so_connection so), e) :: outgoing w -> sent w' = sent w -> drawn w' = drawn w ->
  requests w' = requests w -> sound w'.
Proof.
  intros Hs Hw _ Hp Eo Es Ed Er. pose proof (pr_row _ _ _ _ _ _ _ _ Hp) as Hr. set (c := so_connection so) in *.
  pose proof (prepared_moves _ _ _ _ _ _ _ _ Hp) as Hm.
  pose proof (persist_move (drawn w) _ _ Hm) as Hpe. assert (drawn w ⊆ drawn w') as Hd by by rewrite Ed.
  pose proof (sn_ledger _ Hs) as Hl. destruct (lg_rows _ _ Hl pk row Hr) as [(p & arguments & Ha) _].
  destruct (unsafe_dispatch k c link row p arguments e Ha (pr_envelope _ _ _ _ _ _ _ _ Hp)) as [Eu Em]. split.
  - rewrite Eo, Es. apply Forall_cons. split; [|apply (sn_messages _ Hs)]. intros _.
    exists w, (store w'), k, c, pk, row, link, p, arguments. done.
  - eapply ledger_move; [exact Hl|exact Hm|exact Hd].
  - eapply calls_keep; [exact Hpe|exact Hd|exact Er|apply (sn_calls _ Hs)].
  - intros m. destruct (sn_claims _ Hs m) as [H1 H2].
    assert (world_claims m w' = (if unsafe_id m e then 1 else 0) + world_claims m w)%nat as E.
    { unfold world_claims. rewrite (claims_perm m _ _ (Permutation_map snd Eo)), Es. cbn [map snd]. rewrite claims_cons. lia. }
    destruct (unsafe_id m e) eqn:Ei.
    + apply andb_true_iff in Ei as [Ei1 Ei2%bool_decide_eq_true]. rewrite Em in Ei2. rewrite Eu in Ei1.
      pose proof (pr_deliverable _ _ _ _ _ _ _ _ Hp) as Hu. unfold undeliverable in Hu.
      destruct (_ <=? _); [done|]. destruct (negb _); [done|]. rewrite Ei1, andb_true_r in Hu.
      destruct (negb _) eqn:En; [done|]. apply negb_false_iff, bool_decide_eq_true in En.
      assert (world_claims m w = 0%nat) as E0.
      { destruct (world_claims m w) as [|x]; [done|]. destruct H2 as [_ H2]; [lia|].
        destruct (H2 pk row Hr Ei2) as [x' Hx]. congruence. }
      split; [lia|]. intros _. split; [rewrite Ed, <- Ei2; apply (lg_ids _ _ Hl pk row Hr)|].
      intros pk' r' Hr' Em'. destruct (rows_move_back _ _ _ _ Hm Hr') as (r & Hr0 & Hev).
      assert (pk = pk') as <-.
      { apply (lg_unique _ _ Hl pk row pk' r); [done|done|]. rewrite Ei2, <- Em'. by rewrite (re_request _ _ Hev). }
      rewrite (pr_rows _ _ _ _ _ _ _ _ Hp), lookup_insert_eq in Hr'. injection Hr' as <-. cbn. eauto.
    + apply (claims_keep w); [done|done|lia|done].
Qed.

Lemma sound_send w w' x : sound w -> outgoing w ≡ₚ x :: outgoing w' -> sent w' = sent w ++ [x] ->
  store w' = store w -> drawn w' = drawn w -> requests w' = requests w -> sound w'.
Proof.
  intros Hs Eo Es Est Ed Er. assert (persist (drawn w) (store w) (store w')) as Hp by (rewrite Est; by apply persist_move).
  assert (drawn w ⊆ drawn w') as Hd by by rewrite Ed. split.
  - pose proof (sn_messages _ Hs) as H. rewrite Eo in H. rewrite Es, (assoc_L app), Forall_app. inversion_clear H as [|? ? Hx Hr].
    split; [done|by constructor].
  - rewrite Est, Ed. apply (sn_ledger _ Hs).
  - eapply calls_keep; [exact Hp|exact Hd|exact Er|apply (sn_calls _ Hs)].
  - intros m. apply (claims_keep w); [done|done| |done]. unfold world_claims.
    rewrite (claims_perm m _ _ (Permutation_map snd Eo)), Es, map_app, claims_app. cbn [map snd]. rewrite !claims_cons. cbn. lia.
Qed.

Lemma conclude_moves w w' n r pk row arguments checked : sound w -> requests w !! n = Some r ->
  rt_call r = QResult pk row arguments checked -> store w' = (_finish pk checked (store w)).2 ->
  rows_move (store w) (store w').
Proof.
  intros Hs Hr Hq Est. destruct (sn_calls _ Hs n r Hr) as [_ Hok]. rewrite Hq in Hok. destruct Hok as [[H1 H2 H3] Hf].
  rewrite Est. apply finish_moves. intros x Hx. specialize (H3 x Hx). unfold input_fields, operation_input in *.
  rewrite H3. by rewrite H2.
Qed.

Lemma sound_conclude w w' n r pk row arguments checked answer : sound w -> requests w !! n = Some r ->
  rt_call r = QResult pk row arguments checked -> store w' = (_finish pk checked (store w)).2 ->
  outgoing w' = outgoing w -> sent w' = sent w -> drawn w' = drawn w ->
  requests w' = alter (set_call (QAnswered answer)) n (requests w) -> sound w'.
Proof.
  intros Hs Hr Hq Est Eo Es Ed Er. pose proof (conclude_moves w w' n r pk row arguments checked Hs Hr Hq Est) as Hm.
  pose proof (persist_move (drawn w) _ _ Hm) as Hp. assert (drawn w ⊆ drawn w') as Hd by by rewrite Ed. split.
  - rewrite Eo, Es. apply (sn_messages _ Hs).
  - eapply ledger_move; [apply (sn_ledger _ Hs)|exact Hm|exact Hd].
  - eapply calls_set; [exact Hp|exact Hd|exact Er|apply (sn_calls _ Hs)|done].
  - intros m. apply (claims_keep w); [done|done| |done]. unfold world_claims. by rewrite Eo, Es.
Qed.

Lemma sound_cleanup w w' t : sound w -> relay_operations (store w') =
    filter (fun kv => negb (rq_created_at (ro_request kv.2) <? t - RETENTION) = true) (relay_operations (store w)) ->
  outgoing w' = outgoing w -> sent w' = sent w -> drawn w' = drawn w -> requests w' = requests w -> sound w'.
Proof.
  intros Hs E Eo Es Ed Er. pose proof (persist_filter (drawn w) _ _ _ E) as Hp.
  assert (drawn w ⊆ drawn w') as Hd by by rewrite Ed. split.
  - rewrite Eo, Es. apply (sn_messages _ Hs).
  - rewrite Ed. eapply ledger_filter; [apply (sn_ledger _ Hs)|exact E].
  - eapply calls_keep; [exact Hp|exact Hd|exact Er|apply (sn_calls _ Hs)].
  - intros m. apply (claims_keep w); [done|done| |done]. unfold world_claims. by rewrite Eo, Es.
Qed.

Lemma sound_move w w' : sound w -> past w -> move w w' -> sound w'.
Proof.
  intros Hs Hw [Hc|p tool raw t token link w1 Ha Hc ->|n r q w1 Hr Hq Hc ->|n r f t tool arguments device project digest rdigest
    row Hr Hq Hu Hd Ha Eo Es Ed Er|n so k pk row link e Hn Hp Eo Es Ed Er|x Eo Es Est Ed Er
    |n r pk row arguments checked answer Hr Hq Est Eo Es Ed Er|t E Eo Es Ed Er].
  - by eapply sound_calm.
  - by eapply sound_arrive.
  - by eapply sound_call.
  - by eapply sound_admit.
  - by eapply sound_prepare.
  - by eapply sound_send.
  - by eapply sound_conclude.
  - by eapply sound_cleanup.
Qed.

Lemma sound_boot ds ls ps ts ks : sound (boot ds ls ps ts ks).
Proof.
  split; [constructor|split|done|]; cbn [boot store relay_operations]; try done.
  - intros device. unfold pending_rows, rows_where. cbn [relay_operations]. rewrite map_to_list_empty. cbn. lia.
  - intros m. split; [cbn; lia|]. cbn. lia.
Qed.
End histories.
