(* ===== verification/RelayGuarantees.v ===== *)
(** * What the relay guarantees

    The theorems about every history of the relay from its first operation on,
    with what a bearer token, a route and a prepared message mean spelled out. *)
From S2P Require Import Prelude Utf8 PyStr Models Paths Database Json Envelope Tunnel Relay RelayDispatch Gateway RelayWorld RelayRows RelayMoves RelayHistory.

Open Scope Z_scope.

(** ** Both ends agree on the actions that must not be repeated *)

Lemma replay_unsafe_agrees tool arguments :
  RelayDispatch._is_replay_unsafe tool arguments = Tunnel._is_uncertain_native_action tool arguments.
Proof. done. Qed.

(** ** What a principal and a route mean *)

Section meanings.
  Context {contracts : Contracts}.
  #[local] Set Default Proof Using "Type*".

(** The token of a caller at time [t]: known, in time, of an account whose grant,
    link and device are alive, and for exactly this resource. *)
Definition good_token (t : Z) (link_id : str) (p : MCPPrincipal) (s : relay) : Prop :=
  exists checksum token binding link device,
    access_tokens s !! checksum = Some token /\ t < at_expires token /\ at_user token = Some (mp_account_id p) /\
    at_binding token = Some binding /\ gb_revoked_at binding = None /\ gb_account binding = mp_account_id p /\
    gb_grant_id binding = mp_oauth_grant_id p /\ gb_device_link binding = mp_device_link_id p /\
    links s !! mp_device_link_id p = Some link /\ dl_revoked_at link = None /\ dl_account link = mp_account_id p /\
    dl_link_id link = link_id /\ dl_device link = mp_device_id p /\ at_resource token = [resource_of link] /\
    devices s !! mp_device_id p = Some device /\ Device_active device = true /\ mp_scopes p = words (at_scope token).

Lemma authenticate_sound t token link_id p s : (_authenticate t token link_id s).1 = Ok p -> good_token t link_id p s.
Proof.
  unfold _authenticate, bind, gets, id, fail_auth, raise, ret. destruct (hash_secret token) as [checksum|]; [|done].
  destruct (access_tokens s !! checksum) as [row|] eqn:Et; [|done]. destruct (_ || _) eqn:E1; [done|].
  destruct (at_binding row) as [b|] eqn:Eb; [|done]. destruct (links s !! gb_device_link b) as [link|] eqn:El; [|done].
  destruct (devices s !! dl_device link) as [device|] eqn:Ed; [|done].
  repeat match goal with |- context [if ?c then _ else _] => let E := fresh "E" in destruct c eqn:E; [done|] end.
  cbn [fst]. intros [= <-]. reflect_bools. cbn.
  repeat match goal with E : (_ =? _) = true |- _ => apply Z.eqb_eq in E | E : (_ <=? _) = false |- _ => apply Z.leb_gt in E end.
  exists checksum, row, b, link, device. repeat split; first [done|congruence].
Qed.

(** A call with the scopes of its tool, to a live device of the caller's account
    and, where it needs one, to an available project of that device. *)
Definition allowed (p : MCPPrincipal) (tool : str) (arguments : list (str * json)) (project : option str) (s : relay) : Prop :=
  (exists scopes, call_scopes tool arguments = Ok scopes /\ forall scope, scope ∈ scopes -> scope ∈ mp_scopes p) /\
  (exists device, devices s !! mp_device_id p = Some device /\ dev_account device = mp_account_id p /\
                  dev_revoked_at device = None) /\
  match project with
  | Some id => exists row, relay_projects s !! id = Some row /\ pj_account row = mp_account_id p /\
                           pj_device row = mp_device_id p /\ pj_status row = ProjectStatus.AVAILABLE
  | None => True
  end.

Lemma require_all_ok p scopes : require_all p scopes = Ok tt -> forall scope, scope ∈ scopes -> scope ∈ mp_scopes p.
Proof.
  induction scopes as [|x scopes IH]; intros H scope Hs; [by apply elem_of_nil in Hs|]. cbn in H. unfold require in H.
  destruct (bool_decide _) eqn:E; [|done]. apply bool_decide_eq_true in E.
  apply elem_of_cons in Hs as [->|Hs]; [done|]. by apply IH.
Qed.

Lemma lookup_route_sound p tool arguments device project s :
  (_lookup_route p tool arguments s).1 = Ok (device, project) ->
  (exists device, devices s !! mp_device_id p = Some device /\ dev_account device = mp_account_id p /\
                  dev_revoked_at device = None) /\
  match project with
  | Some id => exists row, relay_projects s !! id = Some row /\ pj_account row = mp_account_id p /\
                           pj_device row = mp_device_id p /\ pj_status row = ProjectStatus.AVAILABLE
  | None => True
  end.
Proof.
  unfold _lookup_route, bind, gets, id, lift, ret. destruct (devices s !! _) as [d|] eqn:Ed; [|done].
  destruct (_ || _) eqn:E1; [done|]. intros H. split.
  - exists d. reflect_bools. repeat match goal with E : (_ =? _) = true |- _ => apply Z.eqb_eq in E end. done.
  - destruct project as [id|]; [|done]. destruct (_ && _); [done|]. destruct (without_project _ _); [done|].
    destruct (obj_get (lit "project_id") arguments) as [[| | |[|c r]| |]|]; try done.
    destruct (relay_projects s !! (c :: r)) as [row|] eqn:Er; [|done]. destruct (_ && _) eqn:E2; [|done].
    injection H as _ <-. exists row. reflect_bools.
    repeat match goal with E : (_ =? _) = true |- _ => apply Z.eqb_eq in E end. done.
Qed.

Lemma dispatch_route_sound p tool raw arguments device project s :
  (dispatch_route p tool raw s).1 = Ok (arguments, device, project) -> allowed p tool arguments project s.
Proof.
  unfold dispatch_route. unfold bind at 1. cbn [lift]. destruct (_validate_arguments tool raw) as [a|]; [|done].
  unfold bind at 1. cbn [lift]. destruct (call_scopes tool a) as [scopes|] eqn:Es; [|done].
  unfold bind at 1. cbn [lift]. destruct (require_all p scopes) as [[]|] eqn:Er; [|done].
  unfold bind. pose proof (lookup_route_sound p tool a) as Hl.
  destruct (_lookup_route p tool a s) as [[[d pr]|] s'] eqn:E; [|done]. cbn. intros [= -> -> ->]. split.
  - exists scopes. split; [done|]. by apply require_all_ok.
  - apply (Hl device project s). by rewrite E.
Qed.

(** ** Histories *)

Lemma run_app es es' w : run (es ++ es') w = run es' (run es w).
Proof. unfold run. by rewrite fold_left_app. Qed.

(** A moment of the history [es] from [w0]. *)
Definition passed (es : list event) (w0 w : world) : Prop := exists es1 es2, es = es1 ++ es2 /\ w = run es1 w0.

Lemma sound_prefix es1 es2 ds ls ps ts ks :
  sound (passed (es1 ++ es2) (boot ds ls ps ts ks)) (run es1 (boot ds ls ps ts ks)).
Proof.
  revert es2. induction es1 as [|e es1 IH] using rev_ind; intros es2; [apply sound_boot|].
  rewrite run_app, <- (assoc_L app). eapply sound_move; [apply IH| |apply step_move]. by exists es1, ([e] ++ es2).
Qed.

Lemma sound_history es ds ls ps ts ks : sound (passed es (boot ds ls ps ts ks)) (run es (boot ds ls ps ts ks)).
Proof. pose proof (sound_prefix es [] ds ls ps ts ks) as H. by rewrite app_nil_r in H. Qed.

(** Rows evolve, and a deleted row does not come back. *)
Definition steady (w w' : world) : Prop := drawn w ⊆ drawn w' /\ forall pk r',
  pk ∈ drawn w -> relay_operations (store w') !! pk = Some r' ->
  exists r, relay_operations (store w) !! pk = Some r /\ row_evolves r r'.

Lemma steady_rows w w' : drawn w ⊆ drawn w' -> rows_move (store w) (store w') -> steady w w'.
Proof. intros Hd Hm. split; [done|]. intros pk r' _ Hr'. by apply (rows_move_back (store w) (store w')). Qed.

Lemma steady_move past w w' : sound past w -> move w w' -> steady w w'.
Proof.
  intros Hs [Hc|p tool raw t token link w1 Ha Hc ->|n r q w1 Hr Hq Hc ->|n r f t tool arguments device project digest rdigest
    row Hr Hq Hu Hd Ha Eo Es Ed Er|n so k pk row link e Hn Hp Eo Es Ed Er|x Eo Es Est Ed Er
    |n r pk row arguments checked answer Hr Hq Est Eo Es Ed Er|t E Eo Es Ed Er].
  - apply steady_rows; [apply (ca_drawn _ _ Hc)|apply (ca_rows _ _ Hc)].
  - apply steady_rows; [apply (ca_drawn _ _ Hc)|apply (ca_rows _ _ Hc)].
  - apply steady_rows; [apply (ca_drawn _ _ Hc)|apply (ca_rows _ _ Hc)].
  - split; [rewrite Ed; set_solver|]. intros pk r' Hpk. rewrite (ad_rows _ _ _ _ Ha).
    intros [[<- <-]|[_ Hr']]%lookup_insert_Some; [|by exists r'].
    unfold unused in Hu. reflect_bools. done.
  - apply steady_rows; [by rewrite Ed|]. eapply prepared_moves; exact Hp.
  - apply steady_rows; [by rewrite Ed|]. by rewrite Est.
  - apply steady_rows; [by rewrite Ed|]. eapply conclude_moves; [exact Hs|exact Hr|exact Hq|exact Est].
  - split; [by rewrite Ed|]. intros pk r' _. rewrite E. intros [? _]%map_lookup_filter_Some. by exists r'.
Qed.

Lemma steady_run past es w : (forall es1 es2, es = es1 ++ es2 -> sound past (run es1 w)) -> steady w (run es w).
Proof.
  intros H. enough (forall es1 es2, es = es1 ++ es2 -> steady w (run es1 w)) as Hs by (apply (Hs es []); by rewrite app_nil_r).
  intros es1. induction es1 as [|e es1 IH] using rev_ind; intros es2 E.
  - split; [done|]. intros pk r' _ Hr'. by exists r'.
  - rewrite <- (assoc_L app) in E. destruct (IH (e :: es2) E) as [Hd Hr]. rewrite run_app.
    destruct (steady_move past _ _ (H es1 _ E) (step_move e _)) as [Hd' Hr'].
    split; [by etransitivity|]. intros pk r2 Hpk H2. destruct (Hr' pk r2 (Hd pk Hpk) H2) as (r1 & H1 & E1).
    destruct (Hr pk r1 Hpk H1) as (r0 & H0 & E0). exists r0. split; [done|]. by etransitivity.
Qed.

(** ** The device accepts what it is sent *)

Lemma lower_char_again c : lower_char (lower_char c) = lower_char c.
Proof. unfold lower_char. destruct ((65 <=? c)%N && (c <=? 90)%N) eqn:E; [|by rewrite E]. destruct ((65 <=? c + 32)%N && _) eqn:E2; lia. Qed.

Lemma validate_sha256_again v d : _validate_sha256 v = Ok d -> _validate_sha256 d = Ok d.
Proof.
  unfold _validate_sha256. destruct (_ && _) eqn:E; [|done]. intros [= <-].
  assert (ascii_lower (ascii_lower v) = ascii_lower v) as ->; [|by rewrite E].
  unfold ascii_lower. rewrite List.map_map. apply List.map_ext. apply lower_char_again.
Qed.

Lemma relay_envelope_again e e' : relay_envelope e = Ok e' -> relay_envelope e' = Ok e'.
Proof.
  unfold relay_envelope, TunnelEnvelope_validate. intros H.
  apply rbind_ok in H as (? & H1 & H). apply rbind_ok in H as (? & H2 & H). apply rbind_ok in H as (? & H3 & H).
  apply rbind_ok in H as (? & H4 & H). apply rbind_ok in H as (? & H5 & H). apply rbind_ok in H as (? & H6 & H).
  apply rbind_ok in H as (digest & H7 & H). apply rbind_ok in H as ([] & H8 & [= <-]).
  cbn [protocol_version kind message_id correlation_id sequence connection_epoch sent_at deadline_at bindings action_digest
       payload].
  rewrite H1, H2, H3, H4, H5, H6. cbn [rbind].
  assert (opt_check _validate_sha256 digest = Ok digest) as ->.
  { destruct (action_digest e) as [v|]; cbn in H7; [|by injection H7 as <-].
    apply rbind_ok in H7 as (d & Hd & [= <-]). cbn. by rewrite (validate_sha256_again _ _ Hd). }
  cbn [rbind]. by rewrite H8.
Qed.

(** ** Guarantees *)

(** C4. However connections are made, fenced and lost, messages of Redis repeated
    and calls interleaved, an operation whose action must not be repeated (a
    desktop action, a shell command that starts, a frontend session or interaction)
    is sent to a device at most once. *)
Theorem native_operation_sent_once es ds ls ps ts ks m :
  (length (filter (fun x => unsafe_id m x.2 = true) (sent (run es (boot ds ls ps ts ks)))) <= 1)%nat.
Proof.
  destruct (sn_claims _ _ (sound_history es ds ls ps ts ks) m) as [H _]. unfold world_claims in H.
  assert (claims m (map snd (sent (run es (boot ds ls ps ts ks)))) =
          length (filter (fun x => unsafe_id m x.2 = true) (sent (run es (boot ds ls ps ts ks))))) as E.
  { generalize (sent (run es (boot ds ls ps ts ks))). intros l. clear. induction l as [|x l IH]; [done|].
    cbn [map]. rewrite claims_cons, IH, filter_cons. destruct (unsafe_id m x.2);
      [by rewrite decide_True|by rewrite decide_False]. }
  lia.
Qed.

(** C5. Every operation in the database was asked for by a caller who, at some
    earlier moment of the history, showed a token in time of the operation's
    account, whose grant, link and device were alive and whose resource is that
    link; and then had every scope of the tool, with the device unrevoked and the
    project available on it; and its digest covers exactly the action it carries. *)
Theorem operation_is_authorised es ds ls ps ts ks pk r : let w0 := boot ds ls ps ts ks in let q := ro_request r in
  relay_operations (store (run es w0)) !! pk = Some r -> exists p arguments,
    (exists w t link_id, passed es w0 w /\ good_token t link_id p (store w)) /\
    (exists w, passed es w0 w /\ allowed p (rq_kind q) arguments (rq_project q) (store w)) /\
    rq_account q = mp_account_id p /\ rq_grant q = mp_oauth_grant_id p /\ rq_device q = mp_device_id p /\
    rq_device_link q = mp_device_link_id p /\
    rq_payload q = [(lit "tool_name", JStr (rq_kind q)); (lit "input", JObj arguments)] /\
    compute_action_digest sha256_hex (action_json (rq_kind q) arguments) = Some (rq_action_digest q).
Proof.
  intros w0 q Hr. destruct (lg_rows _ _ _ (sn_ledger _ _ (sound_history es ds ls ps ts ks)) pk r Hr)
    as [(p & arguments & [(w & t & token & link & Hw & Ha) (w' & raw & device & Hw' & Hd) H1 H2 H3 H4 H5 H6]) _].
  exists p, arguments. split; [exists w, t, link; split; [done|by eapply authenticate_sound]|].
  split; [exists w'; split; [done|by eapply dispatch_route_sound]|]. done.
Qed.

(** C16. Whatever happens later, an operation keeps its request and never goes back;
    once it has ended with an answer, or with an error no late result may replace,
    neither status nor error nor answer changes; and an answer that reports success
    repeats every identity its request names. *)
Theorem answers_are_final es es' ds ls ps ts ks pk r r' : let w0 := boot ds ls ps ts ks in
  relay_operations (store (run es w0)) !! pk = Some r ->
  relay_operations (store (run (es ++ es') w0)) !! pk = Some r' ->
  ro_request r' = ro_request r /\ (stage (ro_status r) <= stage (ro_status r'))%nat /\
  (settled r = true -> ro_status r' = ro_status r /\ ro_error_code r' = ro_error_code r /\ ro_result r' = ro_result r) /\
  row_fits r' = true.
Proof.
  intros w0 Hr Hr'. rewrite run_app in Hr'.
  pose proof (sound_history es ds ls ps ts ks) as Hs. fold w0 in Hs.
  assert (steady (run es w0) (run es' (run es w0))) as [_ Hst].
  { apply (steady_run (passed (es ++ es') w0)). intros es1 es2 ->.
    rewrite <- run_app, (assoc_L app). apply sound_prefix. }
  destruct (Hst pk r') as (r0 & H0 & He); [apply (lg_ids _ _ _ (sn_ledger _ _ Hs) pk r Hr)|done|].
  rewrite Hr in H0. injection H0 as <-. destruct He as [H1 _ H3 H4 _]. split; [done|]. split; [done|]. split; [done|].
  pose proof (sound_history (es ++ es') ds ls ps ts ks) as Hs'. fold w0 in Hs'. rewrite run_app in Hs'.
  apply (lg_rows _ _ _ (sn_ledger _ _ Hs') pk r' Hr').
Qed.

(** C29. In every history the operations of a device that have not ended never exceed
    its queue, and there is at most one operation for each idempotency key of a
    caller. *)
Theorem device_queue_is_bounded es ds ls ps ts ks device p project tool c key :
  let s := store (run es (boot ds ls ps ts ks)) in
  (length (pending_rows device s) <= DEVICE_QUEUE_LIMIT)%nat /\
  (length (rows_where (in_scope p device project tool (c :: key)) s) <= 1)%nat.
Proof.
  intros s. pose proof (sn_ledger _ _ (sound_history es ds ls ps ts ks)) as Hl. fold s in Hl.
  split; [apply (lg_queue _ _ _ Hl)|].
  destruct (rows_where (in_scope p device project tool (c :: key)) s) as [|[pk r] l] eqn:E; [cbn; lia|].
  rewrite <- E. apply (rows_where_bound _ _ [pk]). intros pk' r' Hr' Hp'. apply rows_where_head in E as [Hr Hp].
  cbn [fst snd] in *. apply elem_of_cons. left. symmetry.
  assert (forall x, in_scope p device project tool (c :: key) x = true ->
            rq_idempotency_key (ro_request x) = c :: key /\ rq_account (ro_request x) = mp_account_id p /\
            rq_grant (ro_request x) = mp_oauth_grant_id p /\ rq_device_link (ro_request x) = mp_device_link_id p /\
            rq_device (ro_request x) = device /\ rq_project (ro_request x) = project /\ rq_kind (ro_request x) = tool) as Hscope.
  { intros x Hx. unfold in_scope in Hx. reflect_bools.
    repeat match goal with H : (_ =? _) = true |- _ => apply Z.eqb_eq in H end. done. }
  destruct (Hscope r Hp) as (K1 & K2 & K3 & K4 & K5 & K6 & K7). destruct (Hscope r' Hp') as (L1 & L2 & L3 & L4 & L5 & L6 & L7).
  apply (lg_keys _ _ _ Hl pk r pk' r' Hr Hr'); [by rewrite K1|]. unfold same_key. repeat split; congruence.
Qed.

(** C15. Every operation message a device is sent was prepared, at an earlier moment,
    from an operation of that device that had not ended and whose deadline had not
    passed, over a link that was not revoked and the current connection of the
    device; it carries the operation's action and digest under the account, link,
    grant and project of the operation, and the validation of the device accepts it
    unchanged. *)
Theorem operations_sent_are_live es ds ls ps ts ks x : let w0 := boot ds ls ps ts ks in
  x ∈ sent (run es w0) -> kind x.2 = OPERATION -> exists w pk r link t,
    passed es w0 w /\ relay_operations (store w) !! pk = Some r /\ rq_device (ro_request r) = x.1 /\
    terminal_statuses (ro_status r) = false /\ t < rq_deadline_at (ro_request r) /\
    links (store w) !! rq_device_link (ro_request r) = Some link /\ dl_revoked_at link = None /\
    epoch_of x.1 (store w) = Some (connection_epoch x.2) /\
    payload x.2 = rq_payload (ro_request r) /\ message_id x.2 = rq_message_id (ro_request r) /\
    deadline_at x.2 = Some (rq_deadline_at (ro_request r)) /\
    account_of_wire (tb_account_id (bindings x.2)) = rq_account (ro_request r) /\
    tb_device_id (bindings x.2) = x.1 /\ tb_link_id (bindings x.2) = Some (dl_link_id link) /\
    tb_grant_id (bindings x.2) = Some (rq_grant (ro_request r)) /\ tb_project_id (bindings x.2) = rq_project (ro_request r) /\
    TunnelEnvelope_validate sha256_hex valid_input x.2 = Ok x.2.
Proof.
  intros w0 Hx Hk. pose proof (sn_messages _ _ (sound_history es ds ls ps ts ks)) as H. fold w0 in H.
  rewrite Forall_app, (Forall_forall (message_ok _) (sent _)) in H. destruct H as [_ H].
  destruct (H x Hx Hk) as (w & db & k & c & pk & r & link & p & arguments & Hw & Ed & Hp & _). rewrite Ed.
  destruct Hp as [P1 P2 P3 P4 P5 P6 P7 _ P9]. exists w, pk, r, link, (now k).
  pose proof (relay_envelope_again _ _ P9) as Hagain.
  assert (forall e e', relay_envelope e = Ok e' -> connection_epoch e' = connection_epoch e /\ payload e' = payload e /\
            message_id e' = message_id e /\ deadline_at e' = deadline_at e /\ bindings e' = bindings e) as Hsame.
  { unfold relay_envelope, TunnelEnvelope_validate. intros e e' He. do 7 apply rbind_ok in He as (? & _ & He).
    by apply rbind_ok in He as (? & _ & [= <-]). }
  destruct (Hsame _ _ P9) as (-> & -> & -> & -> & ->). unfold undeliverable in P7.
  destruct (_ <=? _) eqn:E1; [done|]. destruct (negb (bool_decide (dl_revoked_at _ = _))) eqn:E2; [done|].
  apply negb_false_iff, bool_decide_eq_true in E2. apply Z.leb_gt in E1. cbn. rewrite P2, P3. done.
Qed.
End meanings.

(** ** A history *)

Module Sample.
Definition contracts : Contracts := {|
  sha256_hex := fun _ => replicate 64 48%N; verify_device_signature := fun _ _ _ => true; valid_input := fun _ _ => true;
  argument_schema := fun _ a => Some a; result_schema := fun _ v => Some v; failure_schema := fun v => Some v;
  urlsplit := fun _ => None; casefold := fun s => s; uuid_of := fun s => Some s; repr_json := fun _ => []; signing_dumps := fun _ => [];
  signing_loads := fun _ _ => None; PUBLIC_BASE_URL := lit "https://relay"; DEVICE_QUEUE_LIMIT := 4;
  DEVICE_STREAM_MAXLEN := 100; OPERATION_TIMEOUT_SECONDS := 120; FRONTEND_START_TIMEOUT_SECONDS := 120;
  DEVICE_OFFLINE_AFTER_SECONDS := 75; WS_TICKET_TTL_SECONDS := 60 |}.
#[export] Existing Instance contracts.

Definition device_id : str := lit "device_000000001".
Definition link_id : str := lit "link_0000000000001".
Definition project_id : str := lit "project_000000001".
Definition hash : str := replicate 64 48%N.

Definition devices : gmap str Device :=
  {[ device_id := {| dev_account := 7; dev_public_key := JNull; dev_status := DeviceStatus.OFFLINE; dev_epoch := 0;
                     dev_last_seen_at := None; dev_revoked_at := None |} ]}.
Definition links : gmap str DeviceLink :=
  {[ lit "link_row" := {| dl_link_id := link_id; dl_account := 7; dl_device := device_id; dl_revoked_at := None |} ]}.
Definition projects : gmap str RelayProject :=
  {[ project_id := {| pj_account := 7; pj_device := device_id; pj_title := lit "demo"; pj_root_fingerprint := hash;
                      pj_mode := lit "isolated"; pj_status := ProjectStatus.AVAILABLE |} ]}.
Definition resource : str := lit "https://relay/mcp/d/" ++ link_id.
Definition tokens : gmap str AccessToken :=
  {[ hash := {| at_pk := 1; at_user := Some 7; at_expires := 1000 * SECOND; at_resource := [resource];
                at_scope := lit "projects:read shell:execute";
                at_binding := Some {| gb_account := 7; gb_device_link := lit "link_row"; gb_resource := resource;
                                      gb_grant_id := lit "grant_00000000001"; gb_revoked_at := None |} |} ]}.
Definition tickets : gmap str ConnectionTicket :=
  {[ hash := {| ct_device := device_id; ct_challenge := lit "challenge"; ct_expires_at := 60 * SECOND; ct_used_at := None |} ]}.
Notation start := (boot devices links projects tokens tickets).

Definition at_ (n : Z) : clock := {| now := n * SECOND; stamp := n * SECOND; token := lit "abcdefghijkl" |}.
Definition ids : fresh_ids :=
  {| fr_pk := lit "pk"; fr_message_id := lit "message_000000001"; fr_correlation_id := lit "correlation_00001" |}.
Definition arguments : list (str * json) :=
  [(lit "action", JStr (lit "start")); (lit "project_id", JStr project_id); (lit "idempotency_key", JStr (lit "key"))].

(** The device connects, a shell command is called, published and sent. *)
Definition until_sent : list event :=
  [EConnect SECOND (lit "ticket") []; EDispatch 0 (at_ 1) true; EDispatch 0 (at_ 1) true; EDispatch 0 (at_ 1) true;
   ECall (2 * SECOND) (lit "token") link_id (lit "project_shell") arguments;
   ESegment 0 (at_ 2) ids 0 None; ESegment 0 (at_ 2) ids 0 None; ESegment 0 (at_ 2) ids 0 None; ESegment 0 (at_ 2) ids 0 None;
   EPoll 0 [0%nat]; EDispatch 0 (at_ 3) true; EDispatch 0 (at_ 3) true; EDispatch 0 (at_ 3) true].

(** The device answers. *)
Definition answer : TunnelEnvelope :=
  {| protocol_version := PROTOCOL_VERSION; kind := OPERATION_RESULT; message_id := lit "msg_000000000001";
     correlation_id := Some (lit "correlation_00001"); sequence := 5; connection_epoch := 1; sent_at := 4 * SECOND;
     deadline_at := None;
     bindings := {| tb_account_id := account_wire 7; tb_device_id := device_id; tb_link_id := Some link_id;
                    tb_grant_id := Some (lit "grant_00000000001"); tb_project_id := Some project_id |};
     action_digest := Some hash;
     payload := [(lit "ok", JBool true); (lit "result", JObj [(lit "action", JStr (lit "start"))])] |}.
Definition until_answered : list event := until_sent ++ [EReceive 0 (at_ 4) (Some answer)].
Definition afterwards : list event :=
  [EAnswer 0 (at_ 4) true; EAnswer 0 (at_ 4) true; EAnswer 0 (at_ 4) true;
   ESegment 0 (at_ 4) ids 0 None; ESegment 0 (at_ 4) ids 0 None; EAdminister (ARevoke (5 * SECOND) 7 device_id)].
End Sample.

Import Sample.

Lemma sample_row : is_Some (relay_operations (store (run until_answered start)) !! lit "pk").
Proof. vm_compute. eauto. Qed.

Lemma operation_is_authorised_witness : exists r,
  relay_operations (store (run until_answered start)) !! lit "pk" = Some r /\ exists p w,
    passed until_answered start w /\ allowed p (lit "project_shell") arguments (Some project_id) (store w).
Proof.
  destruct sample_row as [r Hr]. exists r. split; [exact Hr|].
  destruct (operation_is_authorised until_answered devices links projects tokens tickets (lit "pk") r Hr)
    as (p & args & _ & (w & Hw & Ha) & _ & _ & _ & _ & Hp & _).
  exists p, w. split; [exact Hw|]. vm_compute in Hr. injection Hr as <-. injection Hp as <-. exact Ha.
Defined.

Lemma answers_are_final_witness : exists r r',
  relay_operations (store (run until_answered start)) !! lit "pk" = Some r /\
  relay_operations (store (run (until_answered ++ afterwards) start)) !! lit "pk" = Some r' /\
  ro_status r' = Status.SUCCEEDED /\ ro_result r' = ro_result r /\ is_Some (ro_result r) /\ row_fits r' = true.
Proof.
  destruct sample_row as [r Hr]. exists r.
  assert (is_Some (relay_operations (store (run (until_answered ++ afterwards) start)) !! lit "pk")) as [r' Hr'] by (vm_compute; eauto).
  exists r'. split; [exact Hr|]. split; [exact Hr'|].
  destruct (answers_are_final until_answered afterwards devices links projects tokens tickets (lit "pk") r r' Hr Hr') as (_ & _ & Hs & Hf).
  assert (settled r = true /\ ro_status r = Status.SUCCEEDED /\ is_Some (ro_result r)) as (H1 & H2 & H3)
    by (vm_compute in Hr; injection Hr as <-; vm_compute; eauto).
  destruct (Hs H1) as (-> & _ & ->). repeat split; assumption.
Defined.

Lemma operations_sent_are_live_witness : exists x, x ∈ sent (run until_sent start) /\ kind x.2 = OPERATION /\
  exists w pk r, passed until_sent start w /\ relay_operations (store w) !! pk = Some r /\ rq_device (ro_request r) = device_id /\
    payload x.2 = rq_payload (ro_request r).
Proof.
  assert (exists x, sent (run until_sent start) !! 1%nat = Some x /\ kind x.2 = OPERATION /\ x.1 = device_id) as (x & Hx & Hk & Hd)
    by (vm_compute; eauto).
  apply list_elem_of_lookup_2 in Hx. exists x. split; [exact Hx|]. split; [exact Hk|].
  destruct (operations_sent_are_live until_sent devices links projects tokens tickets x Hx Hk)
    as (w & pk & r & link & t & Hw & Hr & Hdev & _ & _ & _ & _ & _ & Hp & _).
  exists w, pk, r. split; [exact Hw|]. split; [exact Hr|]. split; [congruence|exact Hp].
Defined.

Lemma device_message_is_bound_witness : exists c s, let s' := (_record_device_message 4 c answer s).2 in
  exists pk row, relay_operations s !! pk = Some row /\ message_bound c answer row s /\ one_row c answer pk row s s'.
Proof.
  set (c := {| cn_device_id := device_id; cn_account_wire_id := account_wire 7; cn_epoch := 1 |}).
  exists c, (store (run until_sent start)).
  destruct (device_message_is_bound 4 c answer (store (run until_sent start)) _ _ (surjective_pairing _)) as (pk & row & H1 & H2 & H3 & _).
  - intros E. apply (f_equal (fun s => ro_status <$> relay_operations s !! lit "pk")) in E. vm_compute in E. discriminate E.
  - exists pk, row. split; [exact H1|]. split; [exact H2|exact H3].
Defined.

(** ** What the histories show *)

Definition status_after (es : list event) : option Status.t :=
  ro_status <$> relay_operations (store (run es start)) !! lit "pk".
Definition open_after (es : list event) : list bool := map so_open (sockets (run es start)).

(** Once the device has denied an operation (a full queue denies a redelivery of
    one that runs), its real result is refused and closes the connection; the
    journal of the device sends it again on every later one. *)
Definition denial : TunnelEnvelope := with_payload
  (failure_json (to_tool_failure "queue_full" (lit "queue") (JObj []) true (Some (lit "correlation_00001")))) answer.
Definition later_answer : TunnelEnvelope :=
  {| protocol_version := PROTOCOL_VERSION; kind := OPERATION_RESULT; message_id := lit "msg_000000000002";
     correlation_id := correlation_id answer; sequence := 6; connection_epoch := 1; sent_at := 5 * SECOND; deadline_at := None;
     bindings := bindings answer; action_digest := action_digest answer; payload := payload answer |}.
Definition until_denied : list event :=
  until_sent ++ [EReceive 0 (at_ 4) (Some denial); EAnswer 0 (at_ 4) true; EAnswer 0 (at_ 4) true; EAnswer 0 (at_ 4) true].

Lemma result_after_denial_closes :
  status_after until_denied = Some Status.FAILED /\ open_after until_denied = [true] /\
  let es := until_denied ++ [EReceive 0 (at_ 5) (Some later_answer)] in
  status_after es = Some Status.FAILED /\ open_after es = [false].
Proof. by vm_compute. Qed.

(** A call published between [_mark_online] and the recovery of the same
    connection is delivered by the recovery and then found in the stream, which is
    read from its start: a native action that was sent once is reported as
    uncertain while the device runs it. *)
Definition recovered_and_polled : list event :=
  [EConnect SECOND (lit "ticket") []; EDispatch 0 (at_ 1) true; EDispatch 0 (at_ 1) true;
   ECall (2 * SECOND) (lit "token") link_id (lit "project_shell") arguments;
   ESegment 0 (at_ 2) ids 0 None; ESegment 0 (at_ 2) ids 0 None; ESegment 0 (at_ 2) ids 0 None; ESegment 0 (at_ 2) ids 0 None;
   EDispatch 0 (at_ 3) true; EDispatch 0 (at_ 3) true; EDispatch 0 (at_ 3) true; EDispatch 0 (at_ 3) true;
   EPoll 0 [0%nat]; EDispatch 0 (at_ 3) true].

Lemma delivered_once_reported_uncertain :
  length (filter (fun x => bool_decide (kind x.2 = OPERATION) = true) (sent (run recovered_and_polled start))) = 1%nat /\
  open_after recovered_and_polled = [true] /\ status_after recovered_and_polled = Some Status.OUTCOME_UNKNOWN.
Proof. by vm_compute. Qed.

(** A caller that goes away between the admission of its operation and
    [_mark_dispatched] leaves an operation that no connection recovers and no
    deadline ends; it counts against the queue of the device until the retention. *)
Definition cancelled_early : list event :=
  [EConnect SECOND (lit "ticket") []; EDispatch 0 (at_ 1) true; EDispatch 0 (at_ 1) true;
   ECall (2 * SECOND) (lit "token") link_id (lit "project_shell") arguments;
   ESegment 0 (at_ 2) ids 0 None; ESegment 0 (at_ 2) ids 0 None; ECancel 0;
   EDispatch 0 (at_ 500) true; EDispatch 0 (at_ 500) true].

Lemma accepted_operation_leaks :
  status_after cancelled_early = Some Status.ACCEPTED /\
  map so_dispatch (sockets (run cancelled_early start)) = [DDeliver []] /\
  length (pending_rows device_id (store (run cancelled_early start))) = 1%nat.
Proof. by vm_compute. Qed.

(** A device that registers a known folder under a new identifier cannot
    synchronise: the row of the old identifier keeps the fingerprint. *)
Definition renamed_project : list (str * json) :=
  [(lit "projects", JList [JObj [(lit "project_id", JStr (lit "project_000000002")); (lit "title", JStr (lit "demo"));
                                 (lit "root_fingerprint", JStr hash); (lit "mode", JStr (lit "isolated"))]])].
Definition first_connection : DeviceConnection :=
  {| cn_device_id := device_id; cn_account_wire_id := account_wire 7; cn_epoch := 1 |}.

Lemma renamed_project_is_refused :
  (_synchronize_projects first_connection renamed_project (store (run until_sent start))).1 = Err IntegrityError.
Proof. by vm_compute. Qed.
