(* ===== verification/Approvals.v ===== *)
(** * Local consent: approvals.py and access_policy.py

    The approval manager keeps session grants, saved permissions (in the journal
    database) and a security generation that every revocation and every loss of
    trust advances.  [request] waits for the user in the middle: it is
    [request_begin], whatever else happens meanwhile, [request_decide], again
    whatever happens meanwhile (the lock is dropped), and [_add_session_grant].
    Instants are microseconds; a deadline without a time zone is [None]. *)
From S2P Require Import Prelude Utf8 PyStr Models Database Json JsonInjective.

Open Scope N_scope.

(** ** Data *)

Inductive ApprovalDecision :=
| DENY | ALLOW_ONCE | ALLOW_SESSION | ALLOW_ALWAYS_READ | ALLOW_ALWAYS_SHELL | ALLOW_ALWAYS_SCREEN.
#[export] Instance ApprovalDecision_eq_dec : EqDecision ApprovalDecision.
Proof. solve_decision. Defined.

Inductive ApprovalRisk := READ | WRITE | DELETE | NATIVE_EXECUTION | EXTERNAL_ACCESS.
#[export] Instance ApprovalRisk_eq_dec : EqDecision ApprovalRisk.
Proof. solve_decision. Defined.

Record ApprovalRequest := {
  request_id : str; account_id : str; grant_id : str; link_id : str; device_id : str;
  ar_project_id : str; project_title : str; capability : str; ar_action_digest : str;
  connection_epoch : Z; deadline_at : option Z; risk : ApprovalRisk; summary : str;
  command : option json; ar_patch : option str; working_directory : option str;
  environment_differences : option (list (str * str)); requested_network : bool;
  requested_external_paths : list str; session_eligible : bool; persistent_read_eligible : bool;
  persistent_shell_eligible : bool; persistent_screen_eligible : bool;
}.

Record _SessionGrant := {
  g_account_id : str; g_grant_id : str; g_link_id : str; g_device_id : str; g_project_id : str;
  g_capability : str; g_action_digest : str; g_connection_epoch : Z;
  created_at : Z; last_used_at : Z;
}.

Definition SESSION_MAX : Z := (30 * 60 * 1000000)%Z.
Definition SESSION_IDLE : Z := (10 * 60 * 1000000)%Z.

(** The manager. *)
Record approvals := { a_database : option db; _grants : list _SessionGrant; _security_generation : nat }.
Definition A := ST approvals.

Definition set_grants (f : list _SessionGrant -> list _SessionGrant) (s : approvals) : approvals :=
  {| a_database := a_database s; _grants := f (_grants s); _security_generation := _security_generation s |}.
Definition bump_generation (s : approvals) : approvals :=
  {| a_database := a_database s; _grants := _grants s; _security_generation := S (_security_generation s) |}.

(** A call of the database under the lock; without one ([None]) the caller has
    checked before. *)
Definition on_database {T} (m : DB T) : A T := fun s =>
  match a_database s with
  | None => (Err (ValueError "no database"), s)
  | Some d => let '(r, d') := m d in
      (r, {| a_database := Some d'; _grants := _grants s; _security_generation := _security_generation s |})
  end.

Definition eligible (sess read shell screen : bool) (r : ApprovalRequest) : ApprovalRequest :=
  {| request_id := request_id r; account_id := account_id r; grant_id := grant_id r;
     link_id := link_id r; device_id := device_id r; ar_project_id := ar_project_id r;
     project_title := project_title r; capability := capability r; ar_action_digest := ar_action_digest r;
     connection_epoch := connection_epoch r; deadline_at := deadline_at r; risk := risk r;
     summary := summary r; command := command r; ar_patch := ar_patch r;
     working_directory := working_directory r; environment_differences := environment_differences r;
     requested_network := requested_network r; requested_external_paths := requested_external_paths r;
     session_eligible := sess; persistent_read_eligible := read; persistent_shell_eligible := shell;
     persistent_screen_eligible := screen |}.

(** The scopes a caller may offer to remember. *)
Record scopes := {
  read_scope : option (str * str);
  shell_scope : option (str * str);
  screen_scope : option (str * str * str);
}.
Definition no_scopes : scopes := {| read_scope := None; shell_scope := None; screen_scope := None |}.

Definition fail {T} (code : string) : A T := raise (AgentError code false []).

Definition _ensure_before_deadline (now : Z) (r : ApprovalRequest) : A unit :=
  match deadline_at r with
  | Some d => raise_if (d <=? now)%Z (AgentError "approval_expired" false [])
  | None => fail "approval_expired"
  end.

(** ** Session grants *)

Definition fresh (now : Z) (g : _SessionGrant) : bool :=
  (now - created_at g <=? SESSION_MAX)%Z && (now - last_used_at g <=? SESSION_IDLE)%Z.

Definition grant_matches (g : _SessionGrant) (r : ApprovalRequest) : bool :=
  bool_decide (g_account_id g = account_id r) && bool_decide (g_grant_id g = grant_id r) &&
  bool_decide (g_link_id g = link_id r) && bool_decide (g_device_id g = device_id r) &&
  bool_decide (g_project_id g = ar_project_id r) && bool_decide (g_capability g = capability r) &&
  bool_decide (g_action_digest g = ar_action_digest r) &&
  bool_decide (g_connection_epoch g = connection_epoch r).

Definition used_at (now : Z) (g : _SessionGrant) : _SessionGrant :=
  {| g_account_id := g_account_id g; g_grant_id := g_grant_id g; g_link_id := g_link_id g;
     g_device_id := g_device_id g; g_project_id := g_project_id g; g_capability := g_capability g;
     g_action_digest := g_action_digest g; g_connection_epoch := g_connection_epoch g;
     created_at := created_at g; last_used_at := now |}.

(** The first match is marked as used. *)
Fixpoint use_grant (now : Z) (r : ApprovalRequest) (l : list _SessionGrant) : bool * list _SessionGrant :=
  match l with
  | [] => (false, [])
  | g :: rest =>
      if grant_matches g r then (true, used_at now g :: rest)
      else let '(found, rest') := use_grant now r rest in (found, g :: rest')
  end.

Definition _has_session_grant (now : Z) (r : ApprovalRequest) : A bool := fun s =>
  let '(found, grants) := use_grant now r (List.filter (fresh now) (_grants s)) in
  (Ok found, set_grants (fun _ => grants) s).

Definition _add_session_grant (now : Z) (r : ApprovalRequest) : A unit :=
  modify (set_grants (fun l => l ++ [{|
    g_account_id := account_id r; g_grant_id := grant_id r; g_link_id := link_id r;
    g_device_id := device_id r; g_project_id := ar_project_id r; g_capability := capability r;
    g_action_digest := ar_action_digest r; g_connection_epoch := connection_epoch r;
    created_at := now; last_used_at := now |}])).

(** ** Security events *)

Definition clear : A nat :=
  count <- gets (fun s => length (_grants s)) ;;
  modify (fun s => bump_generation (set_grants (fun _ => []) s)) ;;;
  ret count.

Definition invalidate_pending : A unit := modify bump_generation.

Definition generation : A nat := gets _security_generation.

(** A deadline without time zone cannot be compared. *)
Definition ensure_current (now : Z) (gen : nat) (deadline : option Z) : A unit :=
  g <- gets _security_generation ;;
  if negb (gen =? g)%nat then fail "approval_expired"
  else match deadline with
       | Some d => raise_if (d <=? now)%Z (AgentError "approval_expired" false [])
       | None => raise (ValueError "TypeError")
       end.

Definition if_database {T} (m : DB T) (dflt : T) : A T :=
  d <- gets a_database ;;
  match d with Some _ => on_database m | None => ret dflt end.

Definition revoke_read_permissions : A Z :=
  modify bump_generation ;;; if_database Database.revoke_read_permissions 0%Z.
Definition revoke_shell_permissions : A Z :=
  modify bump_generation ;;; if_database Database.revoke_shell_permissions 0%Z.
Definition revoke_screen_permissions : A Z :=
  modify bump_generation ;;; if_database Database.revoke_screen_permissions 0%Z.

Definition revoke_permission (category permission_id : str) : A bool :=
  deleted <- if_database (Database.revoke_permission category permission_id) false ;;
  when deleted (modify bump_generation) ;;; ret deleted.

(** ** Requests *)

Section request.
  Context (sha256_hex : bytes -> str).

(** [action_digest] of a list of texts; a text that cannot be encoded raises. *)
Definition permission_digest (parts : list str) : A str :=
  match compute_action_digest sha256_hex (JList (map JStr parts)) with
  | Some d => ret d
  | None => raise (ValueError "UnicodeEncodeError")
  end.

Definition screen_parts (r : ApprovalRequest) (s : str * str * str) : list str :=
  [account_id r; grant_id r; link_id r; device_id r; lit "screen:read"; s.1.1].
Definition shell_parts (r : ApprovalRequest) (s : str * str) : list str :=
  [account_id r; grant_id r; link_id r; device_id r; ar_project_id r; lit "shell:execute";
   ar_action_digest r; s.1].
Definition read_parts (r : ApprovalRequest) (s : str * str) : list str :=
  [account_id r; grant_id r; link_id r; device_id r; lit "device:read"; s.1] ++
  (if bool_decide (ar_project_id r = []) then [] else [lit "origin_project"; ar_project_id r]).

Definition is_some {T} (o : option T) : bool := match o with Some _ => true | None => false end.

Definition screen_unavailable (r : ApprovalRequest) (sc : scopes) (s : str * str * str) (sess no_db : bool) : bool :=
  is_some (read_scope sc) || is_some (shell_scope sc) ||
  negb (bool_decide (capability r = lit "screen:read")) || negb (bool_decide (risk r = READ)) ||
  is_some (command r) || is_some (ar_patch r) || negb (bool_decide (requested_external_paths r = [])) ||
  requested_network r || negb (bool_decide (ar_project_id r = s.1.1)) || sess || no_db.
Definition shell_unavailable (r : ApprovalRequest) (sc : scopes) (sess no_db : bool) : bool :=
  is_some (read_scope sc) || negb (bool_decide (capability r = lit "shell:execute")) ||
  negb (bool_decide (risk r = NATIVE_EXECUTION)) || negb (is_some (command r)) || is_some (ar_patch r) ||
  sess || no_db.
Definition read_unavailable (r : ApprovalRequest) (s : str * str) (sess no_db : bool) : bool :=
  negb (bool_decide (capability r = lit "device:read")) || negb (bool_decide (risk r = READ)) ||
  requested_network r || is_some (command r) || is_some (ar_patch r) || sess ||
  negb (bool_decide (requested_external_paths r = [s.1])) || no_db.

(** A prompt that is open: the request shown, the key a lasting answer would be
    saved under, the scopes, and the generation it was opened in. *)
Record prompt := {
  p_request : ApprovalRequest;
  p_key : str;
  p_scopes : scopes;
  p_session : bool;
  p_generation : nat;
}.

(** One of the three lookups: saved already, or the key to save under. *)
Definition saved_screen (r : ApprovalRequest) (sc : scopes) (sess : bool) (key : str) : A (str * bool) :=
  match screen_scope sc with
  | None => ret (key, false)
  | Some s =>
      d <- gets a_database ;;
      if screen_unavailable r sc s sess (negb (is_some d)) then fail "invalid_approval"
      else key <- permission_digest (screen_parts r s) ;;
           saved <- on_database (has_screen_permission key s.1.2) ;;
           ret (key, saved)
  end.
Definition saved_shell (r : ApprovalRequest) (sc : scopes) (sess reuse : bool) (key : str) : A (str * bool) :=
  match shell_scope sc with
  | None => ret (key, false)
  | Some s =>
      d <- gets a_database ;;
      if shell_unavailable r sc sess (negb (is_some d)) then fail "invalid_approval"
      else key <- permission_digest (shell_parts r s) ;;
           if reuse then saved <- on_database (has_shell_permission key s.2) ;; ret (key, saved)
           else ret (key, false)
  end.
Definition saved_read (r : ApprovalRequest) (sc : scopes) (sess : bool) (key : str) : A (str * bool) :=
  match read_scope sc with
  | None => ret (key, false)
  | Some s =>
      d <- gets a_database ;;
      if read_unavailable r s sess (negb (is_some d)) then fail "invalid_approval"
      else key <- permission_digest (read_parts r s) ;;
           saved <- on_database (has_read_permission key s.2) ;;
           ret (key, saved)
  end.

(** Up to the prompt; [None]: allowed already. *)
Definition request_begin (now : Z) (r : ApprovalRequest) (sess : bool) (sc : scopes) (reuse : bool)
    : A (option prompt) :=
  _ensure_before_deadline now r ;;;
  screen <- saved_screen r sc sess [] ;;
  if screen.2 : bool then ret None else
  shell <- saved_shell r sc sess reuse screen.1 ;;
  if shell.2 : bool then ret None else
  read <- saved_read r sc sess shell.1 ;;
  if read.2 : bool then ret None else
  granted <- (if sess then _has_session_grant now r else ret false) ;;
  if granted : bool then ret None else
  g <- gets _security_generation ;;
  match deadline_at r with
  | None => fail "approval_expired"
  | Some d =>
      if (d - now <=? 0)%Z then fail "approval_expired"
      else ret (Some {| p_request := eligible sess (is_some (read_scope sc)) (is_some (shell_scope sc))
                                       (is_some (screen_scope sc)) r;
                        p_key := read.1; p_scopes := sc; p_session := sess; p_generation := g |})
  end.

(** After the answer; [true]: a session grant is to be added. *)
Definition request_decide (now : Z) (p : prompt) (d : ApprovalDecision) : A bool :=
  _ensure_before_deadline now (p_request p) ;;;
  g <- gets _security_generation ;;
  if negb (p_generation p =? g)%nat then fail "approval_expired" else
  db <- gets a_database ;;
  let r := p_request p in
  match d with
  | ALLOW_ALWAYS_READ =>
      match read_scope (p_scopes p), db with
      | Some s, Some _ =>
          on_database (save_read_permission now (p_key p) s.1 s.2 (account_id r) (link_id r)) ;;; ret false
      | _, _ => fail "invalid_approval"
      end
  | ALLOW_ALWAYS_SHELL =>
      match shell_scope (p_scopes p), db with
      | Some s, Some _ =>
          on_database (save_shell_permission now (p_key p) s.1 s.2 (account_id r) (link_id r)) ;;; ret false
      | _, _ => fail "invalid_approval"
      end
  | ALLOW_ALWAYS_SCREEN =>
      match screen_scope (p_scopes p), db with
      | Some s, Some _ =>
          on_database (save_screen_permission now (p_key p) s.1.1 s.1.2 s.2 (account_id r) (link_id r)) ;;; ret false
      | _, _ => fail "invalid_approval"
      end
  | DENY => fail "approval_denied"
  | ALLOW_SESSION => if p_session p then ret true else fail "invalid_approval"
  | ALLOW_ONCE => ret false
  end.

(** What the world does while a request waits: the answer ([None]: the timeout
    of [wait_for]) with the instants of the later parts, and the other calls on
    the manager. *)
Record awaiting := {
  w_answer : option ApprovalDecision;
  w_decided : Z;
  w_added : Z;
  w_meanwhile : approvals -> approvals;
  w_between : approvals -> approvals;
}.

Definition request (now : Z) (w : awaiting) (r : ApprovalRequest) (sess : bool) (sc : scopes) (reuse : bool)
    : A unit :=
  p <- request_begin now r sess sc reuse ;;
  match p with
  | None => ret tt
  | Some p =>
      modify (w_meanwhile w) ;;;
      match w_answer w with
      | None => fail "approval_expired"
      | Some d =>
          grant <- request_decide (w_decided w) p d ;;
          if grant : bool then modify (w_between w) ;;; _add_session_grant (w_added w) (p_request p)
          else ret tt
      end
  end.

Definition authorize_shell (now : Z) (w : awaiting) (m : ProjectMode) (r : ApprovalRequest) : A unit :=
  match m with
  | ISOLATED => fail "sandbox_unavailable"
  | FULL_ACCESS => ret tt
  | _ => request now w r false no_scopes true
  end.

Definition authorize_patch (now : Z) (w : awaiting) (r : ApprovalRequest) (contains_delete : bool) : A unit :=
  if contains_delete then request now w r false no_scopes true else ret tt.

(** *** access_policy.py *)

Definition authorize_project_operation (now : Z) (w : awaiting) (p : Project) (r : ApprovalRequest)
    (inside_project uncertain : bool) (sc : scopes) : A unit :=
  g <- generation ;;
  ensure_current now g (deadline_at r) ;;;
  policy <- lift (project_access_policy p inside_project uncertain) ;;
  if negb (requires_approval policy) then ret tt
  else request now w r false (if allow_saved_permissions policy then sc else no_scopes)
         (allow_saved_permissions policy).
End request.

(** ** Interleavings

    The calls other tasks and threads make on the manager, each one atomic under
    its lock. *)
Inductive call :=
| Clear
| InvalidatePending
| RevokeRead
| RevokeShell
| RevokeScreen
| RevokePermission (category permission_id : str)
| Begin (now : Z) (r : ApprovalRequest) (sess : bool) (sc : scopes) (reuse : bool)
| Decide (now : Z) (p : prompt) (d : ApprovalDecision)
| AddGrant (now : Z) (r : ApprovalRequest).

Definition run_call (sha : bytes -> str) (s : approvals) (c : call) : approvals :=
  match c with
  | Clear => (clear s).2
  | InvalidatePending => (invalidate_pending s).2
  | RevokeRead => (revoke_read_permissions s).2
  | RevokeShell => (revoke_shell_permissions s).2
  | RevokeScreen => (revoke_screen_permissions s).2
  | RevokePermission k i => (revoke_permission k i s).2
  | Begin now r sess sc reuse => (request_begin sha now r sess sc reuse s).2
  | Decide now p d => (request_decide now p d s).2
  | AddGrant now r => (_add_session_grant now r s).2
  end.

Definition calls_run (sha : bytes -> str) (l : list call) (s : approvals) : approvals :=
  fold_left (run_call sha) l s.

(** Calls that end every open prompt. *)
Definition security_event (c : call) : bool :=
  match c with
  | Clear | InvalidatePending | RevokeRead | RevokeShell | RevokeScreen => true
  | _ => false
  end.

(** ** What calls leave alone *)

(** [m] keeps the grants and the generation. *)
Definition modest {T} (m : A T) : Prop := forall s,
  _grants (m s).2 = _grants s /\ _security_generation (m s).2 = _security_generation s.

Lemma modest_bind {T U} (m : A T) (k : T -> A U) : modest m -> (forall t, modest (k t)) -> modest (bind m k).
Proof.
  intros Hm Hk s. unfold bind. specialize (Hm s). destruct (m s) as [[t|e] s1]; [|done].
  destruct (Hk t s1) as [-> ->]. done.
Qed.
Lemma modest_ret {T} (t : T) : modest (ret t).
Proof. done. Qed.
Lemma modest_raise {T} e : modest (@raise approvals T e).
Proof. done. Qed.
Lemma modest_gets {T} (f : approvals -> T) : modest (gets f).
Proof. done. Qed.
Lemma modest_database {T} (m : DB T) : modest (on_database m).
Proof. intros s. unfold on_database. destruct (a_database s) as [d|]; [|done]. by destruct (m d). Qed.
Lemma modest_deadline now r : modest (_ensure_before_deadline now r).
Proof. intros s. unfold _ensure_before_deadline, raise_if. destruct (deadline_at r); [by destruct (_ <=? _)%Z|done]. Qed.
Lemma modest_digest sha parts : modest (permission_digest sha parts).
Proof. unfold permission_digest. by destruct (compute_action_digest _ _). Qed.
#[export] Hint Resolve @modest_ret @modest_raise @modest_gets @modest_database modest_deadline modest_digest : codito.

Ltac modest_steps :=
  repeat match goal with
  | |- modest (bind _ _) => apply modest_bind; [|intros ?]
  | |- modest (fail _) => apply modest_raise
  | |- modest (match ?x with _ => _ end) => destruct x
  | |- modest (if_database _ _) => unfold if_database
  | |- modest _ => solve [auto with codito]
  end.

Lemma modest_screen sha r sc sess key : modest (saved_screen sha r sc sess key).
Proof. unfold saved_screen. modest_steps. Qed.
Lemma modest_shell sha r sc sess reuse key : modest (saved_shell sha r sc sess reuse key).
Proof. unfold saved_shell. modest_steps. Qed.
Lemma modest_read sha r sc sess key : modest (saved_read sha r sc sess key).
Proof. unfold saved_read. modest_steps. Qed.
#[export] Hint Resolve modest_screen modest_shell modest_read : codito.

Lemma modest_decide now p d : modest (request_decide now p d).
Proof. unfold request_decide. cbv zeta. modest_steps. Qed.

Lemma modest_if_database {T} (m : DB T) d : modest (if_database m d).
Proof. modest_steps. Qed.

(** The generation of a lookup of grants. *)
Lemma has_grant_generation now r s : _security_generation (_has_session_grant now r s).2 = _security_generation s.
Proof. unfold _has_session_grant. by destruct (use_grant _ _ _). Qed.

Lemma begin_generation sha now r sess sc reuse s :
  _security_generation (request_begin sha now r sess sc reuse s).2 = _security_generation s.
Proof.
  assert (forall T (m : A T), modest m -> forall s, _security_generation (m s).2 = _security_generation s) as Hm
    by (intros T m H s0; apply H).
  assert (forall T U (m : A T) (k : T -> A U),
    (forall s, _security_generation (m s).2 = _security_generation s) ->
    (forall t s, _security_generation (k t s).2 = _security_generation s) ->
    forall s, _security_generation (bind m k s).2 = _security_generation s) as Hb.
  { intros T U m k H1 H2 s0. unfold bind. specialize (H1 s0). destruct (m s0) as [[t|e] s1]; [|done]. by rewrite H2. }
  unfold request_begin. revert s. apply Hb; [apply Hm; auto with codito|]. intros _.
  apply Hb; [apply Hm; auto with codito|]. intros [k1 []]; [done|].
  apply Hb; [apply Hm; auto with codito|]. intros [k2 []]; [done|].
  apply Hb; [apply Hm; auto with codito|]. intros [k3 []]; [done|].
  apply Hb; [destruct sess; [apply has_grant_generation|done]|]. intros [|]; [done|].
  apply Hm. modest_steps.
Qed.

(** ** Generations *)

Lemma revoke_generation {T} (m : DB T) d s :
  _security_generation ((modify bump_generation ;;; if_database m d) s).2 = S (_security_generation s).
Proof.
  unfold bind, modify. destruct (modest_if_database m d (bump_generation s)) as [_ H].
  destruct (if_database m d (bump_generation s)) as [r s1]. exact H.
Qed.

Lemma revoke_permission_generation k i s :
  (_security_generation s <= _security_generation (revoke_permission k i s).2)%nat.
Proof.
  unfold revoke_permission. unfold bind at 1.
  destruct (modest_if_database (Database.revoke_permission k i) false s) as [_ H].
  destruct (if_database _ _ s) as [[[|]|e] s1]; cbn in *; lia.
Qed.

Lemma run_call_generation sha s c :
  (_security_generation s + (if security_event c then 1 else 0) <= _security_generation (run_call sha s c))%nat.
Proof.
  destruct c; cbn [run_call security_event].
  - cbn. lia.
  - cbn. lia.
  - unfold revoke_read_permissions. rewrite revoke_generation. lia.
  - unfold revoke_shell_permissions. rewrite revoke_generation. lia.
  - unfold revoke_screen_permissions. rewrite revoke_generation. lia.
  - pose proof (revoke_permission_generation category permission_id s). lia.
  - rewrite begin_generation. lia.
  - destruct (modest_decide now p d s) as [_ ->]. lia.
  - cbn. lia.
Qed.

Lemma calls_generation sha l s :
  (_security_generation s + (if existsb security_event l then 1 else 0) <= _security_generation (calls_run sha l s))%nat.
Proof.
  revert s. induction l as [|c l IH]; intros s; [cbn; lia|]. cbn [calls_run fold_left existsb].
  specialize (IH (run_call sha s c)). pose proof (run_call_generation sha s c) as Hc.
  unfold calls_run in *. destruct (security_event c), (existsb _ l); cbn [orb] in *; lia.
Qed.

Lemma same_generation_quiet sha l s :
  _security_generation (calls_run sha l s) = _security_generation s -> existsb security_event l = false.
Proof. intros H. pose proof (calls_generation sha l s) as Hc. destruct (existsb _ l); [lia|done]. Qed.

(** ** Consent *)

(** A permission saved for exactly these parts, still for the same object. *)
Definition saved_for (sha : bytes -> str) (s : approvals) (r : ApprovalRequest) (sc : scopes) (reuse : bool) : Prop :=
  exists d, a_database s = Some d /\
  ((exists x key, screen_scope sc = Some x /\
      compute_action_digest sha (JList (map JStr (screen_parts r x))) = Some key /\
      (has_screen_permission key x.1.2 d).1 = Ok true) \/
   (exists x key, shell_scope sc = Some x /\ reuse = true /\
      compute_action_digest sha (JList (map JStr (shell_parts r x))) = Some key /\
      (has_shell_permission key x.2 d).1 = Ok true) \/
   (exists x key, read_scope sc = Some x /\
      compute_action_digest sha (JList (map JStr (read_parts r x))) = Some key /\
      (has_read_permission key x.2 d).1 = Ok true)).

Lemma digest_ok sha parts s k s' : permission_digest sha parts s = (Ok k, s') ->
  compute_action_digest sha (JList (map JStr parts)) = Some k /\ s' = s.
Proof. unfold permission_digest. destruct (compute_action_digest _ _); [|done]. by intros [= -> ->]. Qed.

(** A read-only query of the database. *)
Lemma query_ok {T} (f : db -> T) s t s' : on_database (gets f) s = (Ok t, s') ->
  exists d, a_database s = Some d /\ t = f d /\ s' = s.
Proof.
  unfold on_database, gets. destruct s as [[d|] g n]; [|done]. cbn. intros [= <- <-]. by exists d.
Qed.

Lemma abind_ok {T U} (m : A T) (k : T -> A U) s b s' :
  bind m k s = (Ok b, s') -> exists a s1, m s = (Ok a, s1) /\ k a s1 = (Ok b, s').
Proof. unfold bind. destruct (m s) as [[a|e] s1]; [|done]. eauto. Qed.

Ltac step_in H a s E := apply abind_ok in H as (a & s & E & H).

Lemma deadline_ok now r s u s' : _ensure_before_deadline now r s = (Ok u, s') ->
  s' = s /\ exists d, deadline_at r = Some d /\ (now < d)%Z.
Proof.
  unfold _ensure_before_deadline, raise_if. destruct (deadline_at r) as [d|]; [|done].
  destruct (d <=? now)%Z eqn:E; [done|]. intros [= _ <-]. split; [done|]. exists d. split; [done|lia].
Qed.

Lemma saved_screen_ok sha r sc sess key k b s s' : saved_screen sha r sc sess key s = (Ok (k, b), s') ->
  s' = s /\ (b = true -> forall reuse, saved_for sha s r sc reuse).
Proof.
  unfold saved_screen. destruct (screen_scope sc) as [x|] eqn:Hx; [|by intros [= _ <- <-]].
  intros H. step_in H d s1 E1. injection E1 as <- <-. destruct (screen_unavailable _ _ _ _ _); [done|].
  step_in H key' s2 E2. apply digest_ok in E2 as [Hk ->]. step_in H saved s3 E3.
  apply query_ok in E3 as (d & Hd & Hs & ->). injection H as <- <- <-. split; [done|].
  intros Hb reuse. exists d. split; [done|]. left. exists x, key'. split_and!; [done|done|]. unfold has_screen_permission.
  cbn. f_equal. by rewrite <-Hs.
Qed.

Lemma saved_shell_ok sha r sc sess reuse key k b s s' : saved_shell sha r sc sess reuse key s = (Ok (k, b), s') ->
  s' = s /\ (b = true -> saved_for sha s r sc reuse).
Proof.
  unfold saved_shell. destruct (shell_scope sc) as [x|] eqn:Hx; [|by intros [= _ <- <-]].
  intros H. step_in H d s1 E1. injection E1 as <- <-. destruct (shell_unavailable _ _ _ _); [done|].
  step_in H key' s2 E2. apply digest_ok in E2 as [Hk ->]. destruct reuse; [|by injection H as _ <- <-].
  step_in H saved s3 E3. apply query_ok in E3 as (d & Hd & Hs & ->). injection H as <- <- <-. split; [done|].
  intros Hb. exists d. split; [done|]. right. left. exists x, key'. split_and!; [done|done|done|].
  cbn. f_equal. by rewrite <-Hs.
Qed.

Lemma saved_read_ok sha r sc sess key k b s s' : saved_read sha r sc sess key s = (Ok (k, b), s') ->
  s' = s /\ (b = true -> forall reuse, saved_for sha s r sc reuse).
Proof.
  unfold saved_read. destruct (read_scope sc) as [x|] eqn:Hx; [|by intros [= _ <- <-]].
  intros H. step_in H d s1 E1. injection E1 as <- <-. destruct (read_unavailable _ _ _ _); [done|].
  step_in H key' s2 E2. apply digest_ok in E2 as [Hk ->]. step_in H saved s3 E3.
  apply query_ok in E3 as (d & Hd & Hs & ->). injection H as <- <- <-. split; [done|].
  intros Hb reuse. exists d. split; [done|]. right. right. exists x, key'. split_and!; [done|done|].
  cbn. f_equal. by rewrite <-Hs.
Qed.

(** What [request_begin] answers. *)
Lemma begin_ok sha now r sess sc reuse s o s' : request_begin sha now r sess sc reuse s = (Ok o, s') ->
  (exists d, deadline_at r = Some d /\ (now < d)%Z) /\
  match o with
  | None => s' = s /\ saved_for sha s r sc reuse \/ sess = true /\ _has_session_grant now r s = (Ok true, s')
  | Some p => p_generation p = _security_generation s /\ p_session p = sess /\ p_scopes p = sc /\
      deadline_at (p_request p) = deadline_at r /\
      (s' = s \/ sess = true /\ _has_session_grant now r s = (Ok false, s'))
  end.
Proof.
  unfold request_begin. intros H. step_in H u s1 E1. apply deadline_ok in E1 as [-> Hd]. split; [exact Hd|].
  step_in H a s2 E2. destruct a as [k1 b1]. apply saved_screen_ok in E2 as [-> H1]. cbn [fst snd] in H.
  destruct b1; [injection H as <- <-; left; by auto|].
  step_in H a s2 E2. destruct a as [k2 b2]. apply saved_shell_ok in E2 as [-> H2]. cbn [fst snd] in H.
  destruct b2; [injection H as <- <-; left; by auto|].
  step_in H a s2 E2. destruct a as [k3 b3]. apply saved_read_ok in E2 as [-> H3]. cbn [fst snd] in H.
  destruct b3; [injection H as <- <-; left; by auto|].
  step_in H granted s2 E2. destruct granted; [injection H as <- <-; right; destruct sess; [done|discriminate E2]|].
  assert (s2 = s \/ sess = true /\ _has_session_grant now r s = (Ok false, s2)) as Hs2.
  { destruct sess; [by right|]. injection E2 as <-. by left. }
  assert (_security_generation s2 = _security_generation s) as Hg.
  { destruct Hs2 as [-> |[_ Hs2]]; [done|]. pose proof (has_grant_generation now r s) as Hg. by rewrite Hs2 in Hg. }
  step_in H g s3 E3. injection E3 as <- <-. destruct (deadline_at r) as [d|] eqn:Er; [|done].
  destruct (_ <=? _)%Z; [done|]. injection H as <- <-. cbn. by rewrite Hg.
Qed.

(** What [request_decide] answers. *)
Lemma decide_ok now p d s b s' : request_decide now p d s = (Ok b, s') ->
  (exists t, deadline_at (p_request p) = Some t /\ (now < t)%Z) /\
  p_generation p = _security_generation s /\
  match d with
  | DENY => False
  | ALLOW_ONCE => b = false /\ s' = s
  | ALLOW_SESSION => b = true /\ p_session p = true /\ s' = s
  | ALLOW_ALWAYS_READ => b = false /\ is_Some (read_scope (p_scopes p))
  | ALLOW_ALWAYS_SHELL => b = false /\ is_Some (shell_scope (p_scopes p))
  | ALLOW_ALWAYS_SCREEN => b = false /\ is_Some (screen_scope (p_scopes p))
  end.
Proof.
  unfold request_decide. intros H. step_in H u s1 E1. apply deadline_ok in E1 as [-> Hd]. split; [exact Hd|].
  step_in H g s1 E1. injection E1 as <- <-. destruct (p_generation p =? _)%nat eqn:Eg; [|done]. cbn [negb] in H.
  apply Nat.eqb_eq in Eg. split; [done|]. step_in H dbo s1 E1. injection E1 as <- <-. cbv zeta in H.
  destruct d.
  - done.
  - by injection H as <- <-.
  - destruct (p_session p); [|done]. by injection H as <- <-.
  - destruct (read_scope _); [|done]. destruct (a_database s); [|done]. step_in H u1 s1 E1. by injection H as <- _.
  - destruct (shell_scope _); [|done]. destruct (a_database s); [|done]. step_in H u1 s1 E1. by injection H as <- _.
  - destruct (screen_scope _); [|done]. destruct (a_database s); [|done]. step_in H u1 s1 E1. by injection H as <- _.
Qed.

(** The world of a request: other calls before the answer is handled and before
    a session grant is stored. *)
Definition others (sha : bytes -> str) (answer : option ApprovalDecision) (t1 t2 : Z) (calls calls' : list call)
    : awaiting :=
  {| w_answer := answer; w_decided := t1; w_added := t2; w_meanwhile := calls_run sha calls;
     w_between := calls_run sha calls' |}.

(** The user agreed in time and nothing ended the prompt. *)
Record agreed (r : ApprovalRequest) (sess : bool) (sc : scopes) (t : Z) (calls : list call) (d : ApprovalDecision)
    : Prop := {
  agreed_yes : d <> DENY;
  agreed_in_time : exists deadline, deadline_at r = Some deadline /\ (t < deadline)%Z;
  agreed_undisturbed : existsb security_event calls = false;
  agreed_offered : match d with
    | ALLOW_SESSION => sess = true
    | ALLOW_ALWAYS_READ => is_Some (read_scope sc)
    | ALLOW_ALWAYS_SHELL => is_Some (shell_scope sc)
    | ALLOW_ALWAYS_SCREEN => is_Some (screen_scope sc)
    | _ => True
    end;
}.

Lemma request_ok sha now r sess sc reuse answer t1 t2 calls calls' s s' :
  request sha now (others sha answer t1 t2 calls calls') r sess sc reuse s = (Ok tt, s') ->
  (exists d, deadline_at r = Some d /\ (now < d)%Z) /\
  (saved_for sha s r sc reuse /\ s' = s \/
   sess = true /\ _has_session_grant now r s = (Ok true, s') \/
   exists d, answer = Some d /\ agreed r sess sc t1 calls d /\
     (d = ALLOW_ONCE -> sess = false -> s' = calls_run sha calls s)).
Proof.
  unfold request. intros H. step_in H o s1 E1. apply begin_ok in E1 as [Hd Ho]. split; [exact Hd|].
  destruct o as [p|]; [|injection H as <-; destruct Ho as [[-> Ho]|[Hs Ho]]; [by left|right; left; by split]].
  destruct Ho as (Hg & Hsess & Hsc & Hdl & Hs1). right. right.
  step_in H u s2 E2. injection E2 as _ <-. cbn [w_answer w_meanwhile w_decided others] in H.
  destruct answer as [d|]; [|done]. exists d. split; [done|].
  step_in H b s3 E3. pose proof E3 as (Ht & Hgen & Hk)%decide_ok. rewrite Hdl in Ht. rewrite Hsess, Hsc in Hk.
  assert (_security_generation s1 = _security_generation s) as Hg1.
  { destruct Hs1 as [-> |[_ Hs1]]; [done|]. pose proof (has_grant_generation now r s) as Hh. by rewrite Hs1 in Hh. }
  split; [split|].
  - by intros ->.
  - exact Ht.
  - apply (same_generation_quiet sha calls s1). by rewrite <-Hgen, Hg, Hg1.
  - destruct d; try done; apply Hk.
  - intros -> Hf. destruct Hk as [-> ->]. injection H as <-. destruct Hs1 as [-> |[Hs1 _]]; [done|congruence].
Qed.

(** C7. Whatever other tasks and threads do while a request waits: it is allowed
    only before its deadline, and only because a permission saved for exactly
    this account, grant, link, device, object and (if any) action is still
    there, or a live session grant matches, or the user said yes (and to
    something that was offered) before the deadline, with no disconnect, no
    change of trust and no revocation of permissions since the question was
    shown. *)
Theorem consent_is_current sha now r sess sc reuse answer t1 t2 calls calls' s s' :
  request sha now (others sha answer t1 t2 calls calls') r sess sc reuse s = (Ok tt, s') ->
  (exists d, deadline_at r = Some d /\ (now < d)%Z) /\
  (saved_for sha s r sc reuse \/
   (sess = true /\ (_has_session_grant now r s).1 = Ok true) \/
   exists d, answer = Some d /\ agreed r sess sc t1 calls d).
Proof.
  intros [Hd H]%request_ok. split; [exact Hd|]. destruct H as [[H _]|[[Hs H]|(d & Ha & Hd' & _)]].
  - by left.
  - right. left. by rewrite H.
  - right. right. by exists d.
Qed.

(** C32. A question asked before a disconnect, a loss of trust or a revocation
    authorises nothing any more: whatever the user answers and whatever else
    happened, the answer is refused and leaves no grant and no permission. *)
Theorem stale_prompt_refused sha now r sess sc reuse s p s1 calls now' d :
  request_begin sha now r sess sc reuse s = (Ok (Some p), s1) ->
  existsb security_event calls = true ->
  request_decide now' p d (calls_run sha calls s1) =
    (Err (AgentError "approval_expired" false []), calls_run sha calls s1).
Proof.
  intros ([t [Hd _]] & Hg & _ & _ & Hdl & Hs1)%begin_ok Hev.
  assert (_security_generation s1 = _security_generation s) as Hg1.
  { destruct Hs1 as [-> |[_ Hs1]]; [done|]. pose proof (has_grant_generation now r s) as Hh. by rewrite Hs1 in Hh. }
  pose proof (calls_generation sha calls s1) as Hc. rewrite Hev in Hc.
  unfold request_decide, _ensure_before_deadline, bind, gets, raise_if. rewrite Hdl, Hd.
  destruct (t <=? now')%Z; [done|]. cbn [ret]. replace (p_generation p =? _)%nat with false; [done|].
  symmetry. apply Nat.eqb_neq. lia.
Qed.

(** What the access mode of a project means: disabled and legacy isolated
    projects are refused, full access needs no question, a native project asks
    unless the operation is certainly inside it, and the two approval modes ask
    every time: there no saved permission counts and only an answer for this
    once lets the operation pass. *)
Theorem project_consent sha now p r inside uncertain sc answer t1 t2 calls calls' s s' :
  authorize_project_operation sha now (others sha answer t1 t2 calls calls') p r inside uncertain sc s = (Ok tt, s') ->
  enabled p = true /\
  match mode p with
  | ISOLATED => False
  | FULL_ACCESS => s' = s
  | NATIVE_APPROVAL | NATIVE_TRUSTED =>
      answer = Some ALLOW_ONCE /\ agreed r false no_scopes t1 calls ALLOW_ONCE /\ s' = calls_run sha calls s
  | NATIVE_PROJECT =>
      if inside && negb uncertain then s' = s
      else saved_for sha s r sc true \/ exists d, answer = Some d /\ agreed r false sc t1 calls d
  end.
Proof.
  unfold authorize_project_operation. intros H. step_in H g s1 E1. unfold generation, gets in E1. injection E1 as <- <-.
  step_in H u s1 E0. assert (s1 = s) as ->.
  { unfold ensure_current, bind, gets, raise_if in E0. rewrite Nat.eqb_refl in E0. cbn [negb] in E0.
    destruct (deadline_at r); [|done]. destruct (_ <=? _)%Z; [done|]. by injection E0. }
  step_in H policy s1 E2. unfold lift in E2. injection E2 as E1 <-. unfold project_access_policy in E1.
  destruct (enabled p); [|done]. split; [done|]. cbn [negb] in E1.
  assert (Hask : request sha now (others sha answer t1 t2 calls calls') r false no_scopes false s = (Ok tt, s') ->
    answer = Some ALLOW_ONCE /\ agreed r false no_scopes t1 calls ALLOW_ONCE /\ s' = calls_run sha calls s).
  { intros [_ Hr]%request_ok. destruct Hr as [[(d & _ & Hr) _]|[[Hf _]|(d & Ha & Hd & Hs)]]; [|done|].
    - destruct Hr as [(x & k & Hx & _)|[(x & k & Hx & _)|(x & k & Hx & _)]]; discriminate Hx.
    - assert (d = ALLOW_ONCE) as ->; [|by auto].
      pose proof (agreed_yes _ _ _ _ _ _ Hd) as Hn. pose proof (agreed_offered _ _ _ _ _ _ Hd) as Ho.
      destruct d; try done; by destruct Ho. }
  destruct (mode p); try discriminate E1; injection E1 as <-; cbn [requires_approval allow_saved_permissions] in H.
  - by apply Hask.
  - by apply Hask.
  - destruct inside, uncertain; cbn [negb orb andb] in *; try (by injection H);
      apply request_ok in H as [_ H]; (destruct H as [[H _]|[[Hf _]|(d & Ha & Hd & _)]]; [by left|done|right; by exists d]).
  - by injection H.
Qed.

(** ** Session grants over a history *)

(** Where a stored grant comes from: an agreed request [r] at the instant the
    grant was created, no clearing since, and its last use. *)
Definition provenance (l : list call) (g : _SessionGrant) : Prop :=
  exists pre r post, l = pre ++ AddGrant (created_at g) r :: post /\ grant_matches g r = true /\
    Clear ∉ post /\
    (last_used_at g = created_at g \/
     exists r' sess sc reuse, Begin (last_used_at g) r' sess sc reuse ∈ post /\ grant_matches g r' = true).

Lemma provenance_snoc l g c : c <> Clear -> provenance l g -> provenance (l ++ [c]) g.
Proof.
  intros Hc (pre & r & post & -> & Hm & Hn & Hu). exists pre, r, (post ++ [c]). split_and!.
  - by rewrite <-app_assoc.
  - done.
  - intros [H|H]%elem_of_app; [done|]. apply list_elem_of_singleton in H. congruence.
  - destruct Hu as [Hu|(r' & sess & sc & reuse & Hb & Hm')]; [by left|right].
    exists r', sess, sc, reuse. split; [|done]. apply elem_of_app. by left.
Qed.

Lemma matches_used now g r : grant_matches (used_at now g) r = grant_matches g r.
Proof. done. Qed.

Lemma provenance_used l g now r sess sc reuse : provenance l g -> grant_matches g r = true ->
  provenance (l ++ [Begin now r sess sc reuse]) (used_at now g).
Proof.
  intros (pre & r0 & post & -> & Hm & Hn & _) Hg. exists pre, r0, (post ++ [Begin now r sess sc reuse]). split_and!.
  - by rewrite <-app_assoc.
  - done.
  - intros [H|H]%elem_of_app; [done|]. by apply list_elem_of_singleton in H.
  - right. exists r, sess, sc, reuse. split; [|done]. apply elem_of_app. right. by apply list_elem_of_singleton.
Qed.

(** The grants after a lookup: kept, or kept and marked. *)
Lemma use_grant_elem now r l g : g ∈ (use_grant now r l).2 ->
  g ∈ l \/ exists g0, g0 ∈ l /\ grant_matches g0 r = true /\ g = used_at now g0.
Proof.
  induction l as [|g0 l IH]; cbn [use_grant]; [by left|].
  destruct (grant_matches g0 r) eqn:Hm; cbn [snd].
  - intros [->|H]%elem_of_cons; [right; exists g0; split_and!; [by left|done|done]|left; by right].
  - destruct (use_grant now r l) as [found l']. cbn [snd] in *. intros [->|H]%elem_of_cons; [left; by left|].
    destruct (IH H) as [H'|(g1 & H1 & H2)]; [left; by right|right; exists g1; split; [by right|done]].
Qed.

Lemma use_grant_found now r l : (use_grant now r l).1 = true -> exists g, g ∈ l /\ grant_matches g r = true.
Proof.
  induction l as [|g0 l IH]; cbn [use_grant]; [done|]. destruct (grant_matches g0 r) eqn:Hm.
  - intros _. exists g0. split; [by left|done].
  - destruct (use_grant now r l) as [found l']. intros H. destruct (IH H) as (g & Hg & Hm'). exists g. split; [by right|done].
Qed.

Lemma has_grant_elem now r s g : g ∈ _grants (_has_session_grant now r s).2 ->
  g ∈ _grants s \/ exists g0, g0 ∈ _grants s /\ grant_matches g0 r = true /\ g = used_at now g0.
Proof.
  unfold _has_session_grant. destruct (use_grant _ _ _) as [found l] eqn:E. cbn. intros Hg.
  pose proof (use_grant_elem now r (List.filter (fresh now) (_grants s)) g) as H. rewrite E in H.
  assert (forall x, x ∈ List.filter (fresh now) (_grants s) -> x ∈ _grants s) as Hf.
  { intros x. rewrite !list_elem_of_In. by intros [? _]%List.filter_In. }
  destruct (H Hg) as [H'|(g0 & H' & H2)]; [left; auto|right; exists g0; auto].
Qed.

Lemma begin_grants sha now r sess sc reuse s g : g ∈ _grants (request_begin sha now r sess sc reuse s).2 ->
  g ∈ _grants s \/ exists g0, g0 ∈ _grants s /\ grant_matches g0 r = true /\ g = used_at now g0.
Proof.
  assert (Hb : forall T U (m : A T) (k : T -> A U), modest m ->
    (forall t s', _grants s' = _grants s -> g ∈ _grants (k t s').2 ->
      g ∈ _grants s \/ exists g0, g0 ∈ _grants s /\ grant_matches g0 r = true /\ g = used_at now g0) ->
    forall s', _grants s' = _grants s -> g ∈ _grants (bind m k s').2 ->
      g ∈ _grants s \/ exists g0, g0 ∈ _grants s /\ grant_matches g0 r = true /\ g = used_at now g0).
  { intros T U m k Hm Hk s' Hs'. unfold bind. destruct (Hm s') as [Hg _].
    destruct (m s') as [[t|e] s1]; cbn [snd] in Hg; [apply Hk; congruence|]. cbn. rewrite Hg, Hs'. by left. }
  assert (Hr : forall s', _grants s' = _grants s -> g ∈ _grants s' ->
    g ∈ _grants s \/ exists g0, g0 ∈ _grants s /\ grant_matches g0 r = true /\ g = used_at now g0).
  { intros s' ->. by left. }
  unfold request_begin. generalize (eq_refl (_grants s)). generalize s at 1 3. apply Hb; [auto with codito|]. intros _.
  apply Hb; [auto with codito|]. intros [k1 []]; [by apply Hr|].
  apply Hb; [auto with codito|]. intros [k2 []]; [by apply Hr|].
  apply Hb; [auto with codito|]. intros [k3 []]; [by apply Hr|].
  intros s' Hs'. cbn [fst snd]. unfold bind at 1. cbv beta. destruct sess.
  - pose proof (has_grant_elem now r s' g) as He. rewrite Hs' in He.
    destruct (_has_session_grant now r s') as [[[|]|e] s1]; [exact He| |exact He].
    intros Hg. apply He. revert Hg. cbn [snd].
    assert (forall T (m : A T), modest m -> g ∈ _grants (m s1).2 -> g ∈ _grants s1) as Hm
      by (intros T m H; by destruct (H s1) as [-> _]).
    apply Hm. modest_steps.
  - intros Hg. apply (Hr s' Hs').
    assert (forall T (m : A T), modest m -> g ∈ _grants (m s').2 -> g ∈ _grants s') as Hm
      by (intros T m H; by destruct (H s') as [-> _]).
    revert Hg. apply Hm. modest_steps.
Qed.

(** A manager without grants, as it is made. *)
Definition started (d : option db) : approvals :=
  {| a_database := d; _grants := []; _security_generation := 0 |}.

Lemma revoke_grants {T} (m : DB T) d s : _grants ((modify bump_generation ;;; if_database m d) s).2 = _grants s.
Proof.
  unfold bind, modify. destruct (modest_if_database m d (bump_generation s)) as [H _].
  destruct (if_database m d (bump_generation s)) as [r s1]. exact H.
Qed.

Lemma revoke_permission_grants k i s : _grants (revoke_permission k i s).2 = _grants s.
Proof.
  unfold revoke_permission. unfold bind at 1.
  destruct (modest_if_database (Database.revoke_permission k i) false s) as [H _].
  by destruct (if_database _ _ s) as [[[|]|e] s1].
Qed.

Lemma grants_provenance sha d l g : g ∈ _grants (calls_run sha l (started d)) -> provenance l g.
Proof.
  revert g. induction l as [|c l IH] using rev_ind; intros g; [by intros ?%elem_of_nil|].
  unfold calls_run. rewrite fold_left_app. cbn [fold_left]. fold (calls_run sha l (started d)).
  set (s := calls_run sha l (started d)) in *. destruct c; cbn [run_call].
  - by intros ?%elem_of_nil.
  - intros Hg. apply provenance_snoc; [done|]. by apply IH.
  - unfold revoke_read_permissions. rewrite revoke_grants. intros Hg. apply provenance_snoc; [done|]. by apply IH.
  - unfold revoke_shell_permissions. rewrite revoke_grants. intros Hg. apply provenance_snoc; [done|]. by apply IH.
  - unfold revoke_screen_permissions. rewrite revoke_grants. intros Hg. apply provenance_snoc; [done|]. by apply IH.
  - rewrite revoke_permission_grants. intros Hg. apply provenance_snoc; [done|]. by apply IH.
  - intros [Hg|(g0 & Hg & Hm & ->)]%begin_grants; [apply provenance_snoc; [done|by apply IH]|].
    apply provenance_used; [by apply IH|done].
  - destruct (modest_decide now p d0 s) as [-> _]. intros Hg. apply provenance_snoc; [done|]. by apply IH.
  - cbn. intros [Hg|Hg]%elem_of_app; [apply provenance_snoc; [done|by apply IH]|].
    apply list_elem_of_singleton in Hg as ->. exists l, r, []. split_and!; [done| |by intros ?%elem_of_nil|by left].
    unfold grant_matches. cbn. by rewrite !bool_decide_refl.
Qed.

(** A session grant is honoured only for a request with the account, grant,
    link, device, project, capability, action digest and connection epoch it was
    given for, at most thirty minutes after it was given and ten minutes after
    its last use, and never after the grants were cleared. *)
Theorem session_grant_provenance sha d l now r s' :
  _has_session_grant now r (calls_run sha l (started d)) = (Ok true, s') ->
  exists g pre r0 post, l = pre ++ AddGrant (created_at g) r0 :: post /\ Clear ∉ post /\
    grant_matches g r0 = true /\ grant_matches g r = true /\
    (now - created_at g <= SESSION_MAX)%Z /\ (now - last_used_at g <= SESSION_IDLE)%Z /\
    (last_used_at g = created_at g \/
     exists r' sess sc reuse, Begin (last_used_at g) r' sess sc reuse ∈ post /\ grant_matches g r' = true).
Proof.
  unfold _has_session_grant. destruct (use_grant _ _ _) as [found l'] eqn:E. intros [= -> _].
  destruct (use_grant_found now r (List.filter (fresh now) (_grants (calls_run sha l (started d))))) as (g & Hg & Hm);
    [by rewrite E|].
  apply list_elem_of_In, List.filter_In in Hg as [Hg Hf]. apply list_elem_of_In, grants_provenance in Hg.
  destruct Hg as (pre & r0 & post & Hl & Hm0 & Hn & Hu). exists g, pre, r0, post.
  unfold fresh in Hf. split_and!; try done; lia.
Qed.

(** ** What a saved permission is bound to *)

(** A saved read permission is found only by a request with the same
    account, grant, link, device and project, for the same path and the same
    object at that path; a saved shell permission in addition only for the same
    action; a saved screen permission for the same display.  [sha256_hex] is
    taken to be free of collisions. *)
Theorem saved_permission_is_bound (sha256_hex : bytes -> str) r r' k :
  (forall a b, sha256_hex a = sha256_hex b -> a = b) ->
  let digest l := compute_action_digest sha256_hex (JList (map JStr l)) in
  let bound := account_id r = account_id r' /\ grant_id r = grant_id r' /\ link_id r = link_id r' /\
    device_id r = device_id r' in
  (forall now x x' t d, digest (read_parts r x) = Some k -> digest (read_parts r' x') = Some k ->
    (has_read_permission k x'.2 (save_read_permission now k x.1 x.2 (account_id r) t d).2).1 = Ok true ->
    bound /\ ar_project_id r = ar_project_id r' /\ x = x') /\
  (forall now x x' t d, digest (shell_parts r x) = Some k -> digest (shell_parts r' x') = Some k ->
    (has_shell_permission k x'.2 (save_shell_permission now k x.1 x.2 (account_id r) t d).2).1 = Ok true ->
    bound /\ ar_project_id r = ar_project_id r' /\ ar_action_digest r = ar_action_digest r' /\ x = x') /\
  (forall now x x' t d, digest (screen_parts r x) = Some k -> digest (screen_parts r' x') = Some k ->
    (has_screen_permission k x'.1.2 (save_screen_permission now k x.1.1 x.1.2 x.2 (account_id r) t d).2).1 = Ok true ->
    bound /\ x.1 = x'.1).
Proof.
  intros Hsha digest bound. subst digest bound. cbv zeta. split_and!; intros now x x' t d Hk Hk' Hhas;
    pose proof (digest_of_texts_inj _ _ _ _ Hsha Hk Hk') as E;
    cbn in Hhas; unfold has_scope_permission in Hhas; rewrite lookup_insert_eq in Hhas; cbn in Hhas;
    injection Hhas as Hid; apply bool_decide_eq_true in Hid.
  - unfold read_parts in E. destruct x as [p i], x' as [p' i']. cbn [fst snd app] in *. subst i'.
    repeat case_bool_decide; try discriminate E; cbn [app] in E.
    + injection E as -> -> -> -> ->. split_and!; congruence.
    + by injection E as -> -> -> -> -> ->.
  - unfold shell_parts in E. destruct x as [p i], x' as [p' i']. cbn [fst snd] in *. subst i'.
    by injection E as -> -> -> -> -> -> ->.
  - unfold screen_parts in E. destruct x as [[p i] l], x' as [[p' i'] l']. cbn [fst snd] in *. subst i'.
    by injection E as -> -> -> -> ->.
Qed.

(** ** Samples *)

Definition sample_deadline : Z := 60000000.
Definition sample_request : ApprovalRequest :=
  {| request_id := lit "approval_1"; account_id := lit "acc"; grant_id := lit "gr"; link_id := lit "ln";
     device_id := lit "dev"; ar_project_id := lit "p1"; project_title := lit "P"; capability := lit "device:read";
     ar_action_digest := lit "dig"; connection_epoch := 3; deadline_at := Some sample_deadline; risk := READ;
     summary := lit "Read"; command := None; ar_patch := None; working_directory := None;
     environment_differences := None; requested_network := false;
     requested_external_paths := [lit "/home/x"]; session_eligible := false;
     persistent_read_eligible := false; persistent_shell_eligible := false; persistent_screen_eligible := false |}.
Definition sample_scopes : scopes :=
  {| read_scope := Some (lit "/home/x", lit "ident"); shell_scope := None; screen_scope := None |}.
Definition sample_project : Project :=
  {| project_id := lit "p1"; title := lit "P"; root := lit "/srv"; root_fingerprint := lit "f";
     mode := NATIVE_APPROVAL; enabled := true |}.

(** A map without collisions in the place of SHA-256. *)
Definition sample_sha (b : bytes) : str :=
  map (fun z => if (0 <=? z)%Z then Z.to_N (2 * z) else Z.to_N (- 2 * z - 1)) b.

Lemma sample_sha_inj a b : sample_sha a = sample_sha b -> a = b.
Proof.
  unfold sample_sha. revert b. induction a as [|x a IH]; intros [|y b]; try done. cbn. intros [= H1 H2].
  rewrite (IH b H2). f_equal. destruct (0 <=? x)%Z eqn:Hx, (0 <=? y)%Z eqn:Hy; lia.
Qed.

(** Allowed always, while another session grant was stored. *)
Lemma consent_is_current_witness :
  exists s', request sample_sha 5 (others sample_sha (Some ALLOW_ALWAYS_READ) 9 9 [AddGrant 6 sample_request] [])
      sample_request false sample_scopes true (started (Some empty_db)) = (Ok tt, s') /\
    agreed sample_request false sample_scopes 9 [AddGrant 6 sample_request] ALLOW_ALWAYS_READ.
Proof.
  destruct (request sample_sha 5 (others sample_sha (Some ALLOW_ALWAYS_READ) 9 9 [AddGrant 6 sample_request] [])
      sample_request false sample_scopes true (started (Some empty_db))) as [r s'] eqn:E.
  assert (r = Ok tt) as -> by (change r with (r, s').1; rewrite <-E; vm_compute; reflexivity).
  exists s'. split; [done|]. pose proof (consent_is_current _ _ _ _ _ _ _ _ _ _ _ _ _ E) as [_ H].
  destruct H as [(d & Hd & Hs)|[[? _]|(d & [= <-] & Ha)]]; [|done|exact Ha].
  injection Hd as <-. destruct Hs as [(x & k & Hx & _)|[(x & k & Hx & _)|(x & k & _ & _ & Hk)]]; [done|done|].
  exfalso. cbn in Hk. unfold has_scope_permission in Hk. by rewrite lookup_empty in Hk.
Defined.

Lemma stale_prompt_refused_witness :
  exists p s1, request_begin sample_sha 5 sample_request false sample_scopes true (started (Some empty_db))
      = (Ok (Some p), s1) /\
    (request_decide 9 p ALLOW_ONCE (calls_run sample_sha [AddGrant 6 sample_request; InvalidatePending] s1)).1
      = Err (AgentError "approval_expired" false []).
Proof.
  destruct (request_begin sample_sha 5 sample_request false sample_scopes true (started (Some empty_db)))
    as [r s1] eqn:E.
  assert (exists p, r = Ok (Some p)) as [p ->].
  { change r with (r, s1).1. rewrite <-E. eexists. vm_compute. reflexivity. }
  exists p, s1. split; [done|].
  by rewrite (stale_prompt_refused _ _ _ _ _ _ _ _ _ [AddGrant 6 sample_request; InvalidatePending] 9 ALLOW_ONCE E eq_refl).
Defined.

Lemma project_consent_witness :
  exists s', authorize_project_operation sample_sha 5 (others sample_sha (Some ALLOW_ONCE) 9 9 [] [])
      sample_project sample_request true false sample_scopes (started (Some empty_db)) = (Ok tt, s') /\
    s' = started (Some empty_db).
Proof.
  destruct (authorize_project_operation sample_sha 5 (others sample_sha (Some ALLOW_ONCE) 9 9 [] [])
      sample_project sample_request true false sample_scopes (started (Some empty_db))) as [r s'] eqn:E.
  assert (r = Ok tt) as -> by (change r with (r, s').1; rewrite <-E; vm_compute; reflexivity).
  exists s'. split; [done|]. pose proof (project_consent _ _ _ _ _ _ _ _ _ _ _ _ _ _ E) as [_ H].
  by destruct H as (_ & _ & ->).
Defined.

Lemma session_grant_provenance_witness :
  (_has_session_grant 1000000 sample_request
     (calls_run sample_sha [Clear; AddGrant 7 sample_request] (started None))).1 = Ok true /\
  exists g, created_at g = 7%Z /\ grant_matches g sample_request = true.
Proof.
  destruct (_has_session_grant 1000000 sample_request
     (calls_run sample_sha [Clear; AddGrant 7 sample_request] (started None))) as [r s'] eqn:E.
  assert (r = Ok true) as -> by (change r with (r, s').1; rewrite <-E; vm_compute; reflexivity).
  split; [done|]. destruct (session_grant_provenance _ _ _ _ _ _ E) as (g & pre & r0 & post & Hl & _ & _ & Hm & _).
  exists g. split; [|done]. destruct pre as [|c [|c' pre]]; cbn in Hl; [done|by injection Hl|].
  injection Hl as _ _ Hl. by destruct pre.
Defined.

Definition digest_of_read (x : str * str) : option str :=
  compute_action_digest sample_sha (JList (map JStr (read_parts sample_request x))).

Lemma saved_permission_is_bound_witness :
  exists k, compute_action_digest sample_sha (JList (map JStr (read_parts sample_request (lit "/home/x", lit "ident")))) = Some k /\
  (has_read_permission k (lit "ident")
    (save_read_permission 5 k (lit "/home/x") (lit "ident") (lit "acc") (lit "ln") empty_db).2).1 = Ok true /\
  forall x, digest_of_read x = Some k -> x = (lit "/home/x", lit "ident") \/ x.2 <> lit "ident".
Proof.
  eexists. split; [vm_compute; reflexivity|].
  match goal with |- context [has_read_permission ?k] => set (key := k) end.
  assert (Hk : compute_action_digest sample_sha (JList (map JStr (read_parts sample_request (lit "/home/x", lit "ident")))) = Some key)
    by (vm_compute; reflexivity).
  assert (Hh : (has_read_permission key (lit "ident")
    (save_read_permission 5 key (lit "/home/x") (lit "ident") (lit "acc") (lit "ln") empty_db).2).1 = Ok true)
    by (vm_compute; reflexivity).
  split; [exact Hh|].
  destruct (saved_permission_is_bound sample_sha sample_request sample_request key sample_sha_inj) as [H _].
  intros [p i] Hx. destruct (decide (i = lit "ident")) as [->|Hne]; [left|by right].
  destruct (H 5%Z (lit "/home/x", lit "ident") (p, lit "ident") (lit "ln") empty_db Hk Hx Hh) as (_ & _ & E).
  by symmetry.
Defined.
