(* ===== verification/ShellOutput.v ===== *)
(** * Output of shell jobs: chunks, bounds and pages (shell.py)

    The record of a job without its asyncio parts, [_append] which bounds and
    numbers the output, [_poll_result] which pages it for a live job and
    [_page_durable_result] which pages what the journal kept of it. *)
From S2P Require Import Prelude Utf8 PyStr Models Database.

Open Scope Z_scope.

Inductive ShellState := PENDING_APPROVAL | QUEUED | RUNNING_ | COMPLETED | FAILED_ | CANCELLED_ | UNKNOWN_.
#[export] Instance ShellState_eq_dec : EqDecision ShellState.
Proof. solve_decision. Defined.

Definition shell_state_name (s : ShellState) : str :=
  match s with
  | PENDING_APPROVAL => lit "pending_approval" | QUEUED => lit "queued" | RUNNING_ => lit "running"
  | COMPLETED => lit "completed" | FAILED_ => lit "failed" | CANCELLED_ => lit "cancelled"
  | UNKNOWN_ => lit "outcome_unknown"
  end.

Definition TERMINAL (s : ShellState) : bool :=
  match s with COMPLETED | FAILED_ | CANCELLED_ | UNKNOWN_ => true | _ => false end.

Record OutputChunk := { sequence : Z; stream : str; text : str; truncated : bool }.

(** The fields of the dataclass; [process] is whether a process was started,
    [disconnected_killer] whether the killer task exists. *)
Record ShellJob := {
  job_id : str; sj_project_id : str; sj_idempotency_key : str; request_digest : str;
  sj_binding : Binding; sj_connection_epoch : Z; timeout_seconds : Z; output_limit_bytes : Z;
  resource_key : str; state : ShellState; chunks : list OutputChunk; output_bytes : Z;
  output_truncated : bool; exit_code : option Z; process : bool; disconnected_killer : bool;
}.

Definition with_output (ch : list OutputChunk) (n : Z) (tr : bool) (j : ShellJob) : ShellJob :=
  {| job_id := job_id j; sj_project_id := sj_project_id j; sj_idempotency_key := sj_idempotency_key j;
     request_digest := request_digest j; sj_binding := sj_binding j;
     sj_connection_epoch := sj_connection_epoch j; timeout_seconds := timeout_seconds j;
     output_limit_bytes := output_limit_bytes j; resource_key := resource_key j; state := state j;
     chunks := ch; output_bytes := n; output_truncated := tr; exit_code := exit_code j;
     process := process j; disconnected_killer := disconnected_killer j |}.

(** A chunk with the next number, unless it is empty. *)
Definition add_chunk (l : list OutputChunk) (stream_name t : str) (cut : bool) : list OutputChunk :=
  if bool_decide (t = []) then l
  else l ++ [{| sequence := Z.of_nat (length l) + 1; stream := stream_name; text := t; truncated := cut |}].

(** [_append]; [None]: the text cannot be encoded (UnicodeEncodeError). *)
Definition _append (j : ShellJob) (stream_name txt : str) : option ShellJob :=
  encoded ← utf8_encode txt;
  let remaining := output_limit_bytes j - output_bytes j in
  if remaining <=? 0 then Some (with_output (chunks j) (output_bytes j) true j)
  else
    let kept := take (Z.to_nat remaining) encoded in
    let rendered := utf8_decode_ignore kept in
    let cut := (length kept <? length encoded)%nat in
    let ch := add_chunk (chunks j) stream_name rendered cut in
    Some (with_output ch (output_bytes j + Z.of_nat (length kept)) (output_truncated j || cut) j).

(** What a reader task makes of one read of the pipe. *)
Definition _capture_read (j : ShellJob) (stream_name : str) (raw : bytes) : option ShellJob :=
  _append j stream_name (utf8_decode_replace raw).

(** ** Pages *)

(** The loop of both paging functions: items with their sizes, the first one
    always taken, then as long as the page has room. *)
Fixpoint take_page {A} (size : A -> Z) (max_output_bytes page_bytes : Z) (empty : bool) (l : list A) : list A :=
  match l with
  | [] => []
  | a :: r => if negb empty && (max_output_bytes <? page_bytes + size a) then []
              else a :: take_page size max_output_bytes (page_bytes + size a) false r
  end.

Definition chunk_bytes (c : OutputChunk) : Z := utf8_len (text c).

Definition chunk_json (c : OutputChunk) : json :=
  JObj [(lit "sequence", JNum (sequence c)); (lit "stream", JStr (stream c)); (lit "text", JStr (text c));
        (lit "truncated", JBool (truncated c))].

(** The items from a cursor on: [l[min(cursor, len(l)):]] for [cursor >= 0]. *)
Definition from_cursor {A} (cursor : Z) (l : list A) : list A := drop (Z.to_nat (Z.min cursor (Z.of_nat (length l)))) l.

Definition page_chunks (j : ShellJob) (cursor max_output_bytes : Z) : list OutputChunk :=
  take_page chunk_bytes max_output_bytes 0 true (from_cursor cursor (chunks j)).

Definition next_cursor (cursor : Z) (page : list OutputChunk) : Z := default cursor (sequence <$> last page).

Definition opt_num (o : option Z) : json := match o with Some z => JNum z | None => JNull end.

(** The items of the result of [_poll_result], in its order. *)
Definition poll_items (j : ShellJob) (cursor max_output_bytes : Z) : list (str * json) :=
  let page := page_chunks j cursor max_output_bytes in
  let next := next_cursor cursor page in
  let available := Z.of_nat (length (chunks j)) in
  [(lit "action", JStr (lit "poll")); (lit "project_id", JStr (sj_project_id j)); (lit "job_id", JStr (job_id j));
   (lit "state", JStr (shell_state_name (state j))); (lit "chunks", JList (map chunk_json page));
   (lit "next_sequence_cursor", JNum next); (lit "available_sequence_cursor", JNum available);
   (lit "has_more_output", JBool (next <? available)); (lit "exit_code", opt_num (exit_code j));
   (lit "output_truncated", JBool (output_truncated j))].

Definition DEFAULT_PAGE : Z := 256 * 1024.
Definition _poll_result (j : ShellJob) (cursor max_output_bytes : Z) : json :=
  JObj (poll_items j cursor max_output_bytes).

(** ** Durable results *)

(** The usable chunks of a stored result with their texts; a text that cannot be
    encoded raises. *)
Definition stored_text (v : json) : option str :=
  match v with JObj o => match obj_get (lit "text") o with Some (JStr s) => Some s | _ => None end | _ => None end.

Fixpoint take_stored (max_output_bytes page_bytes : Z) (empty : bool) (l : list json) : res (list json) :=
  match l with
  | [] => Ok []
  | v :: r =>
      match stored_text v with
      | None => take_stored max_output_bytes page_bytes empty r
      | Some t =>
          match utf8_encode t with
          | None => Err (ValueError "UnicodeEncodeError")
          | Some b =>
              let n := Z.of_nat (length b) in
              if negb empty && (max_output_bytes <? page_bytes + n) then Ok []
              else rest <-? take_stored max_output_bytes (page_bytes + n) false r ;; Ok (v :: rest)
          end
      end
  end.

(** [int(v)] of a JSON value. *)
Definition to_int (v : json) : res Z :=
  match v with
  | JNum z => Ok z
  | JBool b => Ok (if b then 1 else 0)
  | JStr s => match int_of_str s with Some z => Ok z | None => Err (ValueError "int") end
  | _ => Err (ValueError "TypeError")
  end.

Definition last_sequence (page : list json) (cursor : Z) : res Z :=
  match last page with
  | Some (JObj o) => to_int (default (JNum cursor) (obj_get (lit "sequence") o))
  | _ => Ok cursor
  end.

Definition dict_update (o items : list (str * json)) : list (str * json) :=
  fold_left (fun o kv => dict_set kv.1 kv.2 o) items o.

Definition _page_durable_result (durable : list (str * json)) (cursor max_output_bytes : Z) : res json :=
  let stored := match obj_get (lit "chunks") durable with Some (JList l) => l | _ => [] end in
  page <-? take_stored max_output_bytes 0 true (from_cursor cursor stored) ;;
  next <-? last_sequence page cursor ;;
  Ok (JObj (dict_update durable
    [(lit "action", JStr (lit "poll")); (lit "chunks", JList page); (lit "next_sequence_cursor", JNum next);
     (lit "available_sequence_cursor", JNum (Z.of_nat (length stored)));
     (lit "has_more_output", JBool (next <? Z.of_nat (length stored)))])).

(** ** The invariant of the output *)

(** The whole text of a list of chunks. *)
Definition whole (l : list OutputChunk) : str := concat (map text l).

Definition contiguous (l : list OutputChunk) : Prop := forall i c, l !! i = Some c -> sequence c = Z.of_nat i + 1.

Definition readable (l : list OutputChunk) : Prop := Forall (fun c => forallb is_scalar (text c) = true) l.

(** The longest prefix of a text that fits, when the text does not fit with
    room to spare. *)
Definition fills (limit : Z) (m : nat) (s : str) : Prop :=
  utf8_len (take m s) <= limit /\
  (m = length s /\ utf8_len s = limit \/ (m < length s)%nat /\ limit < utf8_len (take (S m) s)).

(** What the output of a job has to do with the text [all] that was appended. *)
Record output_of (j : ShellJob) (all : str) : Prop := {
  oo_scalar : forallb is_scalar all = true;
  oo_contiguous : contiguous (chunks j);
  oo_readable : readable (chunks j);
  oo_prefix : exists m, whole (chunks j) = take m all /\
    if output_truncated j
    then output_bytes j = output_limit_bytes j /\ fills (output_limit_bytes j) m all
    else m = length all /\ output_bytes j = utf8_len all /\ output_bytes j <= output_limit_bytes j;
}.

Lemma whole_app l l' : whole (l ++ l') = whole l ++ whole l'.
Proof. unfold whole. by rewrite map_app, concat_app. Qed.

Lemma encode_scalar s : forallb is_scalar s = true -> utf8_encode s = Some (encode_all s).
Proof. unfold utf8_encode. by intros ->. Qed.

Lemma utf8_encode_some s b : utf8_encode s = Some b -> forallb is_scalar s = true /\ b = encode_all s.
Proof. unfold utf8_encode. destruct (forallb is_scalar s); [|done]. by intros [= <-]. Qed.

Lemma contiguous_add l ch : contiguous l -> sequence ch = Z.of_nat (length l) + 1 -> contiguous (l ++ [ch]).
Proof.
  intros Hl Hs i c. rewrite lookup_app_Some. intros [H|[Hi H]]; [by apply Hl|].
  apply list_lookup_singleton_Some in H as [H <-]. rewrite Hs. lia.
Qed.

Lemma whole_add l s t tr : whole (add_chunk l s t tr) = whole l ++ t.
Proof.
  unfold add_chunk. case_bool_decide as H; [by rewrite H, app_nil_r|].
  rewrite whole_app. unfold whole at 2. cbn. by rewrite app_nil_r.
Qed.

Lemma chunks_add l s t tr : contiguous l -> readable l -> forallb is_scalar t = true ->
  contiguous (add_chunk l s t tr) /\ readable (add_chunk l s t tr).
Proof.
  intros Hc Hr Ht. unfold add_chunk. case_bool_decide; [done|]. split; [by apply contiguous_add|].
  apply Forall_app. split; [done|]. by constructor.
Qed.

Lemma utf8_len_cons c s : utf8_len [c] + utf8_len s = utf8_len (c :: s) /\ 1 <= utf8_len [c].
Proof.
  split; [by rewrite <-utf8_len_app|]. unfold utf8_len, encode_all. cbn. rewrite app_nil_r.
  pose proof (encode_cp_length c). lia.
Qed.

Lemma fills_app limit m s t : fills limit m s -> take m (s ++ t) = take m s /\ fills limit m (s ++ t).
Proof.
  intros [Hfit Hmax]. assert (m <= length s)%nat as Hm by (destruct Hmax as [[-> _]|[? _]]; lia).
  assert (take m (s ++ t) = take m s) as E by (by rewrite take_app_le). split; [done|].
  split; [by rewrite E|]. rewrite length_app. destruct Hmax as [[-> Hl]|[Hlt Hl]].
  - destruct t as [|c t]; [left; rewrite app_nil_r; cbn; split; [lia|done]|right]. split; [cbn; lia|].
    rewrite take_app_ge by lia. replace (S (length s) - length s)%nat with 1%nat by lia. cbn [take].
    rewrite take_0, utf8_len_app. pose proof (utf8_len_cons c []). lia.
  - right. split; [lia|]. by rewrite take_app_le by lia.
Qed.

Lemma take_all_app (s t : str) m : take (length s + m) (s ++ t) = s ++ take m t.
Proof. rewrite take_app_ge by lia. by replace (length s + m - length s)%nat with m by lia. Qed.

(** A text cut to the bytes that remain. *)
Lemma cut_fills all t remaining limit : forallb is_scalar t = true -> utf8_len all + remaining = limit ->
  0 <= remaining < utf8_len t ->
  exists m, utf8_decode_ignore (take (Z.to_nat remaining) (encode_all t)) = take m t /\
    fills limit (length all + m) (all ++ t).
Proof.
  intros Ht Hl Hr. destruct (decode_ignore_take t (Z.to_nat remaining) Ht) as (m & Hm & Hfit & Hmax).
  exists m. split; [done|]. unfold fills. rewrite take_all_app, <-Nat.add_succ_r, take_all_app, !utf8_len_app, length_app.
  split; [unfold utf8_len in *; lia|]. right.
  destruct Hmax as [->|[Hlt Hmax]]; [|unfold utf8_len in *; split; lia].
  exfalso. rewrite take_ge in Hfit by lia. unfold utf8_len in *. lia.
Qed.

Lemma all_some_omap (l : list (option N)) t : all_some l = Some t -> omap id l = t.
Proof.
  revert t. induction l as [|[c|] l IH]; intros t; [by intros [= <-]| |done]. cbn [all_some].
  destruct (all_some l) as [l'|]; [|done]. intros [= <-]. cbn. by rewrite <-(IH l').
Qed.

Lemma append_output j all s t j' : output_of j all -> _append j s t = Some j' ->
  output_of j' (all ++ t) /\ output_limit_bytes j' = output_limit_bytes j.
Proof.
  intros [H1 H2 H3 (m & Hm & H4)]. unfold _append.
  destruct (utf8_encode t) as [b|] eqn:Hb; [|done]. cbn [mbind option_bind].
  apply utf8_encode_some in Hb as [Ht ->].
  assert (Hall : forallb is_scalar (all ++ t) = true) by (by rewrite forallb_app, H1, Ht).
  destruct (output_limit_bytes j - output_bytes j <=? 0) eqn:Hrem.
  - intros [= <-]. split; [|done]. split; [done|done|done|]. cbn. exists m.
    assert (fills (output_limit_bytes j) m all /\ output_bytes j = output_limit_bytes j) as [Hf Ho].
    { destruct (output_truncated j); [by destruct H4|]. destruct H4 as (-> & Ho & Hle).
      split; [|lia]. unfold fills. rewrite take_ge by lia. split; [lia|]. left. lia. }
    destruct (fills_app _ _ _ t Hf) as [-> Hf']. done.
  - destruct (output_truncated j) eqn:Htr; [destruct H4; lia|]. destruct H4 as (-> & Ho & Hle).
    rewrite take_ge in Hm by lia. set (remaining := output_limit_bytes j - output_bytes j) in *.
    intros [= <-]. split; [|done].
    destruct (decide (utf8_len t <= remaining)) as [Hfit|Hcut].
    + assert (take (Z.to_nat remaining) (encode_all t) = encode_all t) as -> by (apply take_ge; unfold utf8_len in Hfit; lia).
      assert (utf8_decode_ignore (encode_all t) = t) as ->.
      { apply all_some_omap, utf8_decode_encode, encode_scalar, Ht. }
      rewrite Nat.ltb_irrefl. destruct (chunks_add (chunks j) s t false H2 H3 Ht) as [Hc Hr].
      split; [done|exact Hc|exact Hr|]. cbn [chunks output_truncated output_bytes output_limit_bytes with_output]. exists (length (all ++ t)). rewrite (whole_add (chunks j) s t false), Hm, take_ge by lia.
      split; [done|]. split; [done|]. rewrite utf8_len_app. unfold utf8_len in *. lia.
    + destruct (cut_fills all t remaining (output_limit_bytes j) Ht) as (m & -> & Hf); [unfold remaining; lia|lia|].
      assert ((length (take (Z.to_nat remaining) (encode_all t)) <? length (encode_all t))%nat = true) as ->.
      { apply Nat.ltb_lt. rewrite length_take. unfold utf8_len in Hcut. lia. }
      destruct (chunks_add (chunks j) s (take m t) true H2 H3) as [Hc Hr]; [by apply forallb_take|].
      split; [done|exact Hc|exact Hr|]. cbn [chunks output_truncated output_bytes output_limit_bytes with_output]. exists (length all + m)%nat. rewrite (whole_add (chunks j) s (take m t) true), Hm, take_all_app.
      split; [done|]. split; [|done]. rewrite length_take. unfold utf8_len in Hcut. unfold remaining in *. lia.
Qed.

(** *** Any number of appends *)

Fixpoint append_all (j : ShellJob) (l : list (str * str)) : option ShellJob :=
  match l with
  | [] => Some j
  | (s, t) :: r => j' ← _append j s t; append_all j' r
  end.

Lemma append_all_output l j all j' : output_of j all -> append_all j l = Some j' ->
  output_of j' (all ++ concat (map snd l)) /\ output_limit_bytes j' = output_limit_bytes j.
Proof.
  revert j all. induction l as [|[s t] l IH]; intros j all Hj; cbn [append_all map concat snd].
  - intros [= <-]. by rewrite app_nil_r.
  - destruct (_append j s t) as [j1|] eqn:Ha; [|done]. cbn [mbind option_bind].
    destruct (append_output j all s t j1 Hj Ha) as [Hj1 Hl]. intros Hrest.
    destruct (IH j1 _ Hj1 Hrest) as [H1 H2]. rewrite <-app_assoc in H1. by rewrite H2.
Qed.

(** A job that has no output yet. *)
Definition no_output (j : ShellJob) : Prop :=
  chunks j = [] /\ output_bytes j = 0 /\ output_truncated j = false /\ 0 <= output_limit_bytes j.

Lemma no_output_of j : no_output j -> output_of j [].
Proof.
  intros (Hc & Ho & Ht & Hl). split; [done|rewrite Hc; by intros i c|rewrite Hc; constructor|].
  exists 0%nat. rewrite Hc, Ht, Ho. done.
Qed.


(** ** Pages *)

(** What a client does: poll from the cursor it was given, until nothing more
    is announced. *)
Fixpoint poll_all (fuel : nat) (j : ShellJob) (cursor max_output_bytes : Z) : list (list OutputChunk) :=
  match fuel with
  | O => []
  | S fuel =>
      let page := page_chunks j cursor max_output_bytes in
      let next := next_cursor cursor page in
      page :: if next <? Z.of_nat (length (chunks j)) then poll_all fuel j next max_output_bytes else []
  end.

Definition page_size (l : list OutputChunk) : Z := foldr (fun c n => chunk_bytes c + n) 0 l.

Lemma chunk_bytes_nonneg c : 0 <= chunk_bytes c.
Proof. apply utf8_len_nonneg. Qed.

Lemma take_page_prefix {A} (size : A -> Z) mx n e l : exists k, take_page size mx n e l = take k l /\
  (e = true -> l <> [] -> (0 < k)%nat).
Proof.
  revert n e. induction l as [|a l IH]; intros n e; cbn [take_page]; [by exists 0%nat|].
  destruct (negb e && _) eqn:E; [exists 0%nat; split; [done|]; intros ->; done|].
  destruct (IH (n + size a) false) as (k & -> & _). exists (S k). split; [done|]. lia.
Qed.

Lemma take_page_fits mx n l : n <= mx -> n + page_size (take_page chunk_bytes mx n false l) <= mx.
Proof.
  revert n. induction l as [|c l IH]; intros n Hn; cbn [take_page page_size foldr]; [lia|].
  cbn [negb andb]. destruct (mx <? n + chunk_bytes c) eqn:E; [cbn; lia|].
  cbn [page_size foldr]. specialize (IH (n + chunk_bytes c) ltac:(lia)). unfold page_size in IH. lia.
Qed.

Lemma page_fits j cursor mx : 0 <= mx ->
  page_size (page_chunks j cursor mx) <= mx \/ exists c, page_chunks j cursor mx = [c].
Proof.
  intros Hm. unfold page_chunks. destruct (from_cursor cursor (chunks j)) as [|c l]; [by left|].
  cbn [take_page negb andb]. rewrite Z.add_0_l. destruct (decide (chunk_bytes c <= mx)) as [Hc|Hc].
  - left. cbn [page_size foldr]. by apply take_page_fits.
  - right. exists c. destruct l as [|c' l]; [done|]. cbn [take_page negb andb].
    pose proof (chunk_bytes_nonneg c'). by replace (mx <? chunk_bytes c + chunk_bytes c') with true by lia.
Qed.

Lemma page_next j (k : nat) mx : contiguous (chunks j) -> (k < length (chunks j))%nat ->
  exists n, (0 < n)%nat /\ page_chunks j (Z.of_nat k) mx = take n (drop k (chunks j)) /\
    (k + n <= length (chunks j))%nat /\ next_cursor (Z.of_nat k) (page_chunks j (Z.of_nat k) mx) = Z.of_nat (k + n).
Proof.
  intros Hc Hk. unfold page_chunks, from_cursor.
  replace (Z.to_nat (Z.min (Z.of_nat k) (Z.of_nat (length (chunks j))))) with k by lia.
  destruct (take_page_prefix chunk_bytes mx 0 true (drop k (chunks j))) as (n & Hn & Hpos).
  assert (drop k (chunks j) <> []) as Hne by (intros E; apply (f_equal length) in E; rewrite length_drop in E; cbn in E; lia).
  specialize (Hpos eq_refl Hne). rewrite Hn. set (n' := Nat.min n (length (chunks j) - k)).
  assert (take n (drop k (chunks j)) = take n' (drop k (chunks j))) as ->.
  { unfold n'. destruct (decide (n <= length (chunks j) - k)%nat); [by rewrite Nat.min_l|].
    rewrite Nat.min_r by lia. rewrite !take_ge by (rewrite length_drop; lia). done. }
  exists n'. split; [lia|]. split; [done|]. split; [lia|]. unfold next_cursor.
  rewrite last_lookup, length_take, length_drop. replace (pred (n' `min` (length (chunks j) - k))) with (pred n') by lia.
  rewrite lookup_take_lt, lookup_drop by lia.
  destruct (lookup_lt_is_Some_2 (chunks j) (k + pred n')) as [c Hx]; [lia|]. rewrite Hx. cbn. rewrite (Hc _ _ Hx). lia.
Qed.

Lemma poll_all_from j mx fuel k : contiguous (chunks j) -> (k <= length (chunks j))%nat ->
  (length (chunks j) - k < fuel)%nat ->
  concat (poll_all fuel j (Z.of_nat k) mx) = drop k (chunks j) /\
  (0 <= mx -> Forall (fun p => page_size p <= mx \/ exists c, p = [c]) (poll_all fuel j (Z.of_nat k) mx)).
Proof.
  intros Hc. revert k. induction fuel as [|fuel IH]; intros k Hk Hf; [lia|]. cbn [poll_all].
  destruct (decide (k < length (chunks j))%nat) as [Hlt|Hge].
  - destruct (page_next j k mx Hc Hlt) as (n & Hn & Hp & Hle & Hnext). rewrite Hnext.
    destruct (Z.of_nat (k + n) <? Z.of_nat (length (chunks j))) eqn:E.
    + destruct (IH (k + n)%nat) as [IH1 IH2]; [lia|lia|]. split.
      * cbn [concat]. rewrite IH1, Hp, <-drop_drop. apply take_drop.
      * intros Hm. constructor; [by apply page_fits|auto].
    + split; [|intros Hm; constructor; [by apply page_fits|constructor]].
      cbn [concat]. rewrite app_nil_r, Hp, take_ge; [done|]. rewrite length_drop. lia.
  - assert (page_chunks j (Z.of_nat k) mx = []) as ->.
    { unfold page_chunks, from_cursor. rewrite drop_ge by lia. done. }
    cbn [next_cursor last fmap option_fmap option_map default id]. replace (_ <? _) with false by lia. cbn.
    rewrite drop_ge by lia. split; [done|]. intros Hm. constructor; [by left|constructor].
Qed.


(** ** What the journal keeps *)

Lemma take_stored_chunks mx n e l : readable l ->
  take_stored mx n e (map chunk_json l) = Ok (map chunk_json (take_page chunk_bytes mx n e l)).
Proof.
  intros Hl. revert n e. induction Hl as [|c l Hc Hl IH]; intros n e; [done|].
  cbn [map take_stored take_page]. change (stored_text (chunk_json c)) with (Some (text c)). cbv iota beta.
  rewrite (encode_scalar _ Hc). change (Z.of_nat (length (encode_all (text c)))) with (chunk_bytes c).
  destruct (negb e && _); [done|]. by rewrite IH.
Qed.

Lemma from_cursor_map {A B} (f : A -> B) cursor l : from_cursor cursor (map f l) = map f (from_cursor cursor l).
Proof. unfold from_cursor. rewrite length_map. apply (eq_sym (fmap_drop f _ _)). Qed.

Lemma last_sequence_chunks l cursor : last_sequence (map chunk_json l) cursor = Ok (next_cursor cursor l).
Proof.
  unfold last_sequence, next_cursor. change (map chunk_json l) with (chunk_json <$> l). rewrite (fmap_last chunk_json l). by destruct (last l).
Qed.

Lemma take_page_all mx n e l : n + page_size l <= mx -> take_page chunk_bytes mx n e l = l.
Proof.
  revert n e. induction l as [|c l IH]; intros n e Hn; [done|]. cbn [page_size foldr] in Hn. fold (page_size l) in Hn.
  assert (0 <= page_size l) as Hp.
  { clear. induction l as [|c l IH]; [done|]. cbn [page_size foldr]. fold (page_size l). pose proof (chunk_bytes_nonneg c). lia. }
  cbn [take_page]. replace (mx <? n + chunk_bytes c) with false by lia. rewrite andb_false_r. f_equal. apply IH. lia.
Qed.

Lemma from_start {A} (l : list A) : from_cursor 0 l = l.
Proof. unfold from_cursor. by replace (Z.to_nat (Z.min 0 (Z.of_nat (length l)))) with 0%nat by lia. Qed.

(** The job as the journal remembers it. *)
Definition as_stored (j : ShellJob) : ShellJob :=
  with_output (page_chunks j 0 DEFAULT_PAGE) (output_bytes j) (output_truncated j) j.

Lemma durable_page j cursor mx : readable (chunks j) ->
  _page_durable_result (poll_items j 0 DEFAULT_PAGE) cursor mx = Ok (_poll_result (as_stored j) cursor mx).
Proof.
  intros Hr. unfold _page_durable_result.
  replace (obj_get (lit "chunks") (poll_items j 0 DEFAULT_PAGE))
    with (Some (JList (map chunk_json (page_chunks j 0 DEFAULT_PAGE)))) by reflexivity.
  cbv zeta. rewrite from_cursor_map, take_stored_chunks.
  - cbn [rbind]. rewrite last_sequence_chunks. cbn [rbind]. rewrite length_map. reflexivity.
  - unfold from_cursor, page_chunks. destruct (take_page_prefix chunk_bytes DEFAULT_PAGE 0 true (from_cursor 0 (chunks j))) as (k & -> & _).
    rewrite from_start. apply Forall_drop, Forall_take, Hr.
Qed.

(** What a client reads of a finished job from the journal is exactly what it
    would read of a live job that has only the first page of 256 KiB: the same
    result at every cursor when all output fits in that page; otherwise the rest
    of the output is gone. *)
Theorem durable_result_is_first_page j cursor max_output_bytes : readable (chunks j) ->
  _page_durable_result (poll_items j 0 DEFAULT_PAGE) cursor max_output_bytes
    = Ok (_poll_result (as_stored j) cursor max_output_bytes) /\
  (page_size (chunks j) <= DEFAULT_PAGE -> as_stored j = j) /\
  (DEFAULT_PAGE < page_size (chunks j) -> (1 < length (chunks j))%nat ->
   (length (chunks (as_stored j)) < length (chunks j))%nat).
Proof.
  intros Hr. split; [by apply durable_page|]. unfold as_stored, page_chunks. rewrite from_start. split.
  - intros Hp. rewrite take_page_all by lia. by destruct j.
  - cbn [chunks with_output]. intros Hp Hl. pose proof (page_fits j 0 DEFAULT_PAGE ltac:(done)) as Hf.
    unfold page_chunks in Hf. rewrite from_start in Hf.
    destruct (take_page_prefix chunk_bytes DEFAULT_PAGE 0 true (chunks j)) as (k & Hk & _). rewrite Hk in *.
    destruct (decide (k < length (chunks j))%nat); [rewrite length_take; lia|].
    rewrite take_ge in * by lia. destruct Hf as [Hf|[c Hf]]; [lia|]. rewrite Hf in Hl. cbn in Hl. lia.
Qed.

(** ** Samples *)

Definition sample_job : ShellJob :=
  {| job_id := lit "job_1"; sj_project_id := lit "p1"; sj_idempotency_key := lit "key-1"; request_digest := lit "d";
     sj_binding := {| b_account_id := lit "a"; b_grant_id := lit "g"; b_link_id := lit "l"; b_device_id := lit "v" |};
     sj_connection_epoch := 1; timeout_seconds := 300; output_limit_bytes := 5; resource_key := lit "r";
     state := RUNNING_; chunks := []; output_bytes := 0; output_truncated := false; exit_code := None;
     process := true; disconnected_killer := false |}.


Definition sample_output (n : nat) : ShellJob :=
  with_output (imap (fun i _ => {| sequence := Z.of_nat i + 1; stream := lit "stdout"; text := lit "abc"; truncated := false |})
    (repeat tt n)) (3 * Z.of_nat n) false sample_job.

Lemma sample_contiguous n : contiguous (chunks (sample_output n)) /\ readable (chunks (sample_output n)).
Proof.
  split.
  - intros i c. unfold sample_output. cbn. rewrite list_lookup_imap. destruct (_ !! i) as [[]|]; [|done]. by intros [= <-].
  - apply Forall_lookup. intros i c. unfold sample_output. cbn. rewrite list_lookup_imap.
    destruct (_ !! i) as [[]|]; [|done]. by intros [= <-].
Qed.


Lemma durable_result_is_first_page_witness :
  _page_durable_result (poll_items (sample_output 3) 0 DEFAULT_PAGE) 1 100 = Ok (_poll_result (sample_output 3) 1 100).
Proof.
  destruct (durable_result_is_first_page (sample_output 3) 1 100 (proj2 (sample_contiguous 3))) as (H1 & H2 & _).
  rewrite H1, H2; [reflexivity|]. vm_compute. discriminate.
Defined.

(** A character that straddles two reads of the pipe is lost. *)
Lemma reads_split_characters :
  let j := (j ← _capture_read sample_job (lit "stdout") [195]; _capture_read j (lit "stdout") [169]) in
  whole ∘ chunks <$> j <> Some (utf8_decode_replace [195; 169]).
Proof. vm_compute. discriminate. Qed.
