(* ===== verification/Shell.v ===== *)
(** * Shell jobs: ShellManager of shell.py

    Starting, running, polling and cancelling native commands.  A coroutine is
    its segments between two suspension points: [start] is [start_prepare] and
    [start_commit], [_run_job] is [run_begin], [run_enabled], ... and
    [run_retire], each one at its position ([phase]) of the task; [cancel] and
    the killer of a disconnected relay are split where they wait for the process.
    A history ([step], [run]) is any interleaving of segments, with what
    processes, the broker, the approvals and the path resolver answer as input. *)
From S2P Require Import Prelude Utf8 PyStr Models OperationGate Database Json Approvals ShellOutput.

Open Scope Z_scope.

(** ** Validation of a start *)

(** A command; [None] stands for a value of another type. *)
Inductive shell_command :=
| Exec (executable : option str) (arguments : option (list str))
| Script (shell_name : option str) (script : option str)
| OtherKind.

Record start_request := {
  rq_project_id : option str; rq_idempotency_key : option str; rq_purpose : option str;
  rq_command : option (shell_command * option (list (option str * option str)));
  rq_timeout_seconds : Z; rq_output_limit_bytes : Z; rq_execution : str; rq_working_directory : str;
  rq_external_working_directory : option str; rq_approval_timeout_seconds : Z;
  rq_start_wait_milliseconds : Z; rq_json : json;
}.

(** What a start asks of the host and of the other modules. *)
Record host := {
  data_directory : str; system_root : str;
  join_path : str -> str -> str; pathsep : str; upper : str -> str;
  native_environment : list (str * str) -> list (str * str);
  resolve_directory : Project -> str -> res str;
  read_scope_path : str -> res str;
  is_relative_to : str -> str -> bool;
  path_fingerprint : str -> str;
  outside_references : Project -> str -> list str;
  uncertain_constructs : list str;
  isolation_proven : bool;
}.

Definition invalid {T} : res T := Err (AgentError "invalid_request" false []).
Definition in_range (lo x hi : Z) : bool := (lo <=? x) && (x <=? hi).

(** [_safe_environment]: the base, then the overrides in order. *)
Definition base_environment (h : host) : list (str * str) :=
  let root := system_root h in let under := join_path h in
  [(lit "SystemRoot", root); (lit "WINDIR", root); (lit "COMSPEC", under (under root (lit "System32")) (lit "cmd.exe"));
   (lit "PATH", PyStr.join (pathsep h) [under root (lit "System32"); root;
      under (under (under root (lit "System32")) (lit "WindowsPowerShell")) (lit "v1.0")]);
   (lit "PATHEXT", lit ".COM;.EXE;.BAT;.CMD");
   (lit "TEMP", under (data_directory h) (lit "temp")); (lit "TMP", under (data_directory h) (lit "temp"))].

Definition protected : list str :=
  [lit "SYSTEMROOT"; lit "WINDIR"; lit "COMSPEC"; lit "PATH"; lit "PATHEXT"; lit "TEMP"; lit "TMP"].

Fixpoint env_set (k v : str) (l : list (str * str)) : list (str * str) :=
  match l with
  | [] => [(k, v)]
  | (k', v') :: r => if bool_decide (k' = k) then (k', v) :: r else (k', v') :: env_set k v r
  end.

Definition override (h : host) (o : option str * option str) (env : list (str * str)) : res (list (str * str)) :=
  match o with
  | (Some name, Some value) =>
      if bool_decide (name = []) || bool_decide (61%N ∈ name) || bool_decide (0%N ∈ name ++ value) then invalid
      else if bool_decide (upper h name ∈ protected) then invalid
      else match (if (128 <? Z.of_nat (length name)) then Some true
                  else (fun b => 8192 <? Z.of_nat (length b)) <$> utf8_encode value) with
           | None => Err (ValueError "UnicodeEncodeError")
           | Some true => invalid
           | Some false => Ok (env_set name value env)
           end
  | _ => invalid
  end.

Fixpoint overrides (h : host) (l : list (option str * option str)) (env : list (str * str)) : res (list (str * str)) :=
  match l with
  | [] => Ok env
  | o :: r => env' <-? override h o env ;; overrides h r env'
  end.

Definition _safe_environment (h : host) (explicit : list (option str * option str)) : res (list (str * str)) :=
  if (64 <? Z.of_nat (length explicit)) then invalid else overrides h explicit (base_environment h).

(** [_build_specification]: the environment is checked before the command. *)
Definition check_command (c : shell_command) : res unit :=
  match c with
  | Exec (Some e) (Some args) => if bool_decide (e = []) || bool_decide (0%N ∈ e) then invalid else Ok tt
  | Exec _ _ => invalid
  | Script (Some s) (Some script) =>
      if negb (bool_decide (s ∈ [lit "powershell"; lit "cmd"])) || bool_decide (script = []) then invalid
      else match utf8_encode script with
           | None => Err (ValueError "UnicodeEncodeError")
           | Some b => if (262144 <? Z.of_nat (length b)) || bool_decide (0%N ∈ script) then invalid else Ok tt
           end
  | Script _ _ => invalid
  | OtherKind => invalid
  end.

Definition _build_specification (h : host) (c : shell_command) (env : option (list (option str * option str)))
    (native : bool) : res (list (str * str)) :=
  match env with
  | None => invalid
  | Some explicit =>
      safe <-? _safe_environment h explicit ;;
      _ <-? check_command c ;;
      Ok (if native then native_environment h safe else safe)
  end.

(** ** The manager *)

(** Where the task of a job is suspended: not yet run, then the awaits of the
    [try] block in order, the one of [except CancelledError], those of [finally]. *)
Inductive phase :=
| Created | Enabling | Approving | Launching | Rechecking | Starting | Watching | TimedOut | Draining
| Cancelling | Unwinding | Persisting | Retiring | Done.
#[export] Instance phase_eq_dec : EqDecision phase.
Proof. solve_decision. Defined.

(** What a start hands to its task. *)
Record plan := {
  pl_generation : nat; pl_deadline : option Z; pl_needs_approval : bool; pl_mode : ProjectMode;
}.

(** [objects] are the job objects (a task or a caller may hold one after it left
    the table), [_jobs] the identifiers in the table; [cancel_requested] are the
    tasks with a cancellation on the way, [terminating] the [cancel] calls and
    [killing] the killers that wait for a process, [sleeping] the killers in
    their grace period. *)
Record shell := {
  objects : gmap str ShellJob;
  _jobs : gset str;
  _terminal_jobs : list str;
  sh_database : db;
  gate : gmap str str;
  phases : gmap str phase;
  plans : gmap str plan;
  cancel_requested : gset str;
  terminating : list str;
  sleeping : gset str;
  killing : gset str;
}.
Definition M := ST shell.

Definition upd_objects f s := {| objects := f (objects s); _jobs := _jobs s; _terminal_jobs := _terminal_jobs s;
  sh_database := sh_database s; gate := gate s; phases := phases s; plans := plans s;
  cancel_requested := cancel_requested s; terminating := terminating s; sleeping := sleeping s; killing := killing s |}.
Definition upd_jobs f s := {| objects := objects s; _jobs := f (_jobs s); _terminal_jobs := _terminal_jobs s;
  sh_database := sh_database s; gate := gate s; phases := phases s; plans := plans s;
  cancel_requested := cancel_requested s; terminating := terminating s; sleeping := sleeping s; killing := killing s |}.
Definition upd_terminal f s := {| objects := objects s; _jobs := _jobs s; _terminal_jobs := f (_terminal_jobs s);
  sh_database := sh_database s; gate := gate s; phases := phases s; plans := plans s;
  cancel_requested := cancel_requested s; terminating := terminating s; sleeping := sleeping s; killing := killing s |}.
Definition upd_database d s := {| objects := objects s; _jobs := _jobs s; _terminal_jobs := _terminal_jobs s;
  sh_database := d; gate := gate s; phases := phases s; plans := plans s;
  cancel_requested := cancel_requested s; terminating := terminating s; sleeping := sleeping s; killing := killing s |}.
Definition upd_gate f s := {| objects := objects s; _jobs := _jobs s; _terminal_jobs := _terminal_jobs s;
  sh_database := sh_database s; gate := f (gate s); phases := phases s; plans := plans s;
  cancel_requested := cancel_requested s; terminating := terminating s; sleeping := sleeping s; killing := killing s |}.
Definition upd_phases f s := {| objects := objects s; _jobs := _jobs s; _terminal_jobs := _terminal_jobs s;
  sh_database := sh_database s; gate := gate s; phases := f (phases s); plans := plans s;
  cancel_requested := cancel_requested s; terminating := terminating s; sleeping := sleeping s; killing := killing s |}.
Definition upd_plans f s := {| objects := objects s; _jobs := _jobs s; _terminal_jobs := _terminal_jobs s;
  sh_database := sh_database s; gate := gate s; phases := phases s; plans := f (plans s);
  cancel_requested := cancel_requested s; terminating := terminating s; sleeping := sleeping s; killing := killing s |}.
Definition upd_requested f s := {| objects := objects s; _jobs := _jobs s; _terminal_jobs := _terminal_jobs s;
  sh_database := sh_database s; gate := gate s; phases := phases s; plans := plans s;
  cancel_requested := f (cancel_requested s); terminating := terminating s; sleeping := sleeping s; killing := killing s |}.
Definition upd_terminating f s := {| objects := objects s; _jobs := _jobs s; _terminal_jobs := _terminal_jobs s;
  sh_database := sh_database s; gate := gate s; phases := phases s; plans := plans s;
  cancel_requested := cancel_requested s; terminating := f (terminating s); sleeping := sleeping s; killing := killing s |}.
Definition upd_killing f s := {| objects := objects s; _jobs := _jobs s; _terminal_jobs := _terminal_jobs s;
  sh_database := sh_database s; gate := gate s; phases := phases s; plans := plans s;
  cancel_requested := cancel_requested s; terminating := terminating s; sleeping := sleeping s; killing := f (killing s) |}.

Definition upd_sleeping f s := {| objects := objects s; _jobs := _jobs s; _terminal_jobs := _terminal_jobs s;
  sh_database := sh_database s; gate := gate s; phases := phases s; plans := plans s;
  cancel_requested := cancel_requested s; terminating := terminating s; sleeping := f (sleeping s);
  killing := killing s |}.

(** Changes of one job object. *)
Definition job_with (st : ShellState) (ec : option Z) (pr killer : bool) (j : ShellJob) : ShellJob :=
  {| job_id := job_id j; sj_project_id := sj_project_id j; sj_idempotency_key := sj_idempotency_key j;
     request_digest := request_digest j; sj_binding := sj_binding j;
     sj_connection_epoch := sj_connection_epoch j; timeout_seconds := timeout_seconds j;
     output_limit_bytes := output_limit_bytes j; resource_key := resource_key j; state := st;
     chunks := chunks j; output_bytes := output_bytes j; output_truncated := output_truncated j;
     exit_code := ec; process := pr; disconnected_killer := killer |}.
Definition set_state (st : ShellState) (j : ShellJob) : ShellJob :=
  job_with st (exit_code j) (process j) (disconnected_killer j) j.
Definition set_exit (ec : option Z) (j : ShellJob) : ShellJob :=
  job_with (state j) ec (process j) (disconnected_killer j) j.
Definition set_process (j : ShellJob) : ShellJob :=
  job_with (state j) (exit_code j) true (disconnected_killer j) j.
Definition set_killer (b : bool) (j : ShellJob) : ShellJob :=
  job_with (state j) (exit_code j) (process j) b j.
(** [_append]; its texts can always be encoded. *)
Definition append_to (stream_name t : str) (j : ShellJob) : ShellJob := default j (_append j stream_name t).

Definition run_db {T} (m : DB T) : M T := fun s =>
  let '(r, d) := m (sh_database s) in (r, upd_database d s).
Definition run_gate {T} (m : ST (gmap str str) T) : M T := fun s =>
  let '(r, g) := m (gate s) in (r, upd_gate (fun _ => g) s).

Definition agent {T} (code : string) : M T := raise (AgentError code false []).

Definition _require_enabled (pid : str) : M unit :=
  p <- run_db (get_project pid) ;; raise_if (negb (enabled p)) (AgentError "project_disabled" false []).

Definition gate_owner (key : str) : str := lit "shell:" ++ key.

Definition start_result (j : ShellJob) : json :=
  JObj [(lit "action", JStr (lit "start")); (lit "project_id", JStr (sj_project_id j)); (lit "job_id", JStr (job_id j));
        (lit "state", JStr (shell_state_name (state j))); (lit "connection_epoch", JNum (sj_connection_epoch j))].

(** The job an idempotency row names, if it is in the table. *)
Definition known_job (s : shell) (result : option json) : option ShellJob :=
  match result with
  | Some (JObj o) => match obj_get (lit "job_id") o with
                     | Some (JStr id) => if bool_decide (id ∈ _jobs s) then objects s !! id else None
                     | _ => None
                     end
  | _ => None
  end.

Definition _existing_start (prior : str * OperationState * option json) (digest : str) : M json :=
  let '(d, _, result) := prior in
  if negb (bool_decide (d = digest)) then agent "idempotency_conflict"
  else o <- gets (fun s => known_job s result) ;;
       match o with Some j => ret (start_result j) | None => agent "outcome_unknown" end.

Section manager.
  Context (sha256_hex : bytes -> str) (h : host) (account device : str).

(** [_digest_request] *)
Definition _digest_request (request : json) : str := sha256_hex (dumps_ascii request).

Definition binding_of (grant_id link_id : str) : Binding :=
  {| b_account_id := account; b_grant_id := grant_id; b_link_id := link_id; b_device_id := device |}.

(** *** start *)

(** Up to the first lookup. *)
Definition start_checks (q : start_request)
    : res (str * str * str * (shell_command * option (list (option str * option str)))) :=
  match rq_project_id q, rq_idempotency_key q with
  | Some pid, Some key =>
      match rq_purpose q with
      | Some purpose =>
          if bool_decide (purpose = []) || (1000 <? Z.of_nat (length purpose)) then invalid
          else match rq_command q with
          | None => invalid
          | Some c => if negb (in_range 1 (rq_timeout_seconds q) 1800) then invalid
                      else if negb (in_range 1024 (rq_output_limit_bytes q) 10485760) then invalid
                      else Ok (pid, key, purpose, c)
          end
      | None => invalid
      end
  | _, _ => invalid
  end.

Definition effective_mode (execution : str) (p : Project) : ProjectMode :=
  if bool_decide (execution = lit "native_approval") then NATIVE_APPROVAL else mode p.
Definition in_mode (m : ProjectMode) (p : Project) : Project :=
  {| project_id := project_id p; title := title p; root := root p; root_fingerprint := root_fingerprint p;
     mode := m; enabled := enabled p |}.

(** The working directory and the key of the gate. *)
Definition start_directory (q : start_request) (p : Project) (m : ProjectMode) : res (str * str) :=
  working <-? match rq_external_working_directory q with
              | Some ext =>
                  if negb (bool_decide (rq_working_directory q = lit ".")) then invalid
                  else path <-? read_scope_path h ext ;;
                       if bool_decide (m = ISOLATED) then Err (AgentError "sandbox_policy_denied" false [])
                       else Ok path
              | None => resolve_directory h p (rq_working_directory q)
              end ;;
  Ok (working, if is_relative_to h working (root p) then root_fingerprint p else path_fingerprint h working).

(** From the bounds to the deadline: what the job will need. *)
Definition start_plan (q : start_request) (p : Project) (m : ProjectMode)
    (c : shell_command * option (list (option str * option str))) : res (str * LocalAccessPolicy) :=
  if negb (in_range 15 (rq_approval_timeout_seconds q) 300) then invalid
  else if negb (in_range 0 (rq_start_wait_milliseconds q) 30000) then invalid
  else
    dir <-? start_directory q p m ;;
    let references := outside_references h p dir.1 in
    policy <-? project_access_policy (in_mode m p)
      (negb (is_some (rq_external_working_directory q)) && bool_decide (references = []))
      (negb (bool_decide (uncertain_constructs h = []))) ;;
    _ <-? _build_specification h c.1 c.2 (negb (bool_decide (m = ISOLATED))) ;;
    if bool_decide (m = ISOLATED) && negb (isolation_proven h) then Err (AgentError "sandbox_unavailable" false [])
    else if bool_decide (m = ISOLATED) && negb (bool_decide (references = []))
    then Err (AgentError "sandbox_policy_denied" false [])
    else Ok (dir.2, policy).

(** The job object of a start. *)
Definition new_job (id pid key digest : str) (b : Binding) (epoch : Z) (q : start_request) (rk : str)
    (needs : bool) : ShellJob :=
  {| job_id := id; sj_project_id := pid; sj_idempotency_key := key; request_digest := digest; sj_binding := b;
     sj_connection_epoch := epoch; timeout_seconds := rq_timeout_seconds q;
     output_limit_bytes := rq_output_limit_bytes q; resource_key := rk;
     state := if needs then PENDING_APPROVAL else QUEUED; chunks := []; output_bytes := 0;
     output_truncated := false; exit_code := None; process := false; disconnected_killer := false |}.

Definition register (j : ShellJob) (pl : plan) (s : shell) : shell :=
  upd_objects <[job_id j := j]> (upd_jobs (fun js => {[job_id j]} ∪ js)
    (upd_plans <[job_id j := pl]> (upd_phases <[job_id j := Created]> s))).
Definition unregister (id : str) (s : shell) : shell :=
  upd_jobs (fun js => js ∖ {[id]}) (upd_phases (delete id) (upd_plans (delete id) (upd_objects (delete id) s))).

(** The part of [start] under the guard. *)
Definition start_commit (now : Z) (deadline : option Z) (gen current_gen : nat) (j : ShellJob)
    (pl : plan) : M json :=
  raise_if (negb (gen =? current_gen)%nat) (AgentError "approval_expired" false []) ;;;
  match deadline with
  | None => raise (ValueError "TypeError")
  | Some d =>
      raise_if (d <=? now) (AgentError "approval_expired" false []) ;;;
      prior <- run_db (get_idempotency (sj_project_id j) (lit "project_shell") (sj_idempotency_key j) (sj_binding j)) ;;
      match prior with
      | Some prior => _existing_start prior (request_digest j)
      | None =>
          run_gate (Gate.reserve (resource_key j) (gate_owner (sj_idempotency_key j))) ;;;
          modify (register j pl) ;;;
          try_except
            (run_db (put_idempotency now (sj_project_id j) (lit "project_shell") (sj_idempotency_key j)
               (request_digest j) Models.RUNNING (Some (start_result j)) (sj_binding j)))
            (fun e => modify (unregister (job_id j)) ;;;
                      run_gate (Gate.release (resource_key j) (gate_owner (sj_idempotency_key j))) ;;;
                      raise e) ;;;
          ret (start_result j)
      end
  end.

(** [start] before the guard: an answer, or the job to commit; [id] is the token
    drawn for it. *)
Definition start_prepare (now : Z) (q : start_request) (grant_id link_id : str) (epoch : Z) (deadline : option Z)
    (gen : nat) (id : str) : M (json + ShellJob * plan) :=
  checked <- lift (start_checks q) ;;
  let '(pid, key, purpose, c) := checked in
  let digest := _digest_request (rq_json q) in
  let b := binding_of grant_id link_id in
  project <- run_db (get_project pid) ;;
  if negb (enabled project) then agent "project_disabled" else
  _ <- lift (project_access_policy project true false) ;;
  if negb (bool_decide (rq_execution q ∈ [lit "project_policy"; lit "native_approval"]))
  then lift invalid else
  let m := effective_mode (rq_execution q) project in
  prior <- run_db (get_idempotency pid (lit "project_shell") key b) ;;
  match prior with
  | Some prior => r <- _existing_start prior digest ;; ret (inl r)
  | None =>
      planned <- lift (start_plan q project m c) ;;
      let needs := requires_approval planned.2 in
      raise_if (match deadline with Some d => d <=? now | None => true end) (AgentError "deadline_exceeded" false []) ;;;
      ret (inr (new_job id pid key digest b epoch q planned.1 needs,
                {| pl_generation := gen;
                   pl_deadline := if needs then Some (now + rq_approval_timeout_seconds q * 1000000) else deadline;
                   pl_needs_approval := needs; pl_mode := mode project |}))
  end.

(** [start] up to the wait for a transition, undisturbed. *)
Definition start (now : Z) (q : start_request) (grant_id link_id : str) (epoch : Z) (deadline : option Z)
    (gen current_gen : nat) (id : str) : M json :=
  prepared <- start_prepare now q grant_id link_id epoch deadline gen id ;;
  match prepared with
  | inl r => ret r
  | inr (j, pl) => start_commit now deadline gen current_gen j pl
  end.

(** *** The task of a job *)

Definition goto (id : str) (ph : phase) : M unit := modify (upd_phases <[id := ph]>).
Definition on_job (id : str) (f : ShellJob -> ShellJob) : M unit := modify (upd_objects (alter f id)).
Definition the_job (id : str) : M ShellJob :=
  o <- gets (fun s => objects s !! id) ;; match o with Some j => ret j | None => raise (ValueError "KeyError") end.
Definition the_plan (id : str) : M plan :=
  o <- gets (fun s => plans s !! id) ;; match o with Some pl => ret pl | None => raise (ValueError "KeyError") end.

Definition line (t : str) : str := t ++ [10%N].
Definition system_line (t : str) : ShellJob -> ShellJob := append_to (lit "system") (line t).

(** The [except] clauses; [message] is the one of an [AgentError]. *)
Definition run_failed (id message : str) (e : exn) : M unit :=
  on_job id (match e with
             | AgentError code _ _ => fun j => set_state FAILED_ (system_line (lit code ++ lit ": " ++ message) j)
             | CancelledError => set_state CANCELLED_
             | _ => fun j => set_state FAILED_ (system_line (lit "internal_error: command runner failed") j)
             end) ;;; goto id Unwinding.

Definition run_begin (id : str) : M unit := goto id Enabling.

(** The project is enabled; [pinned] is the outcome of opening the external
    directory of the command. *)
Definition run_enabled (id : str) (pinned : res unit) : M unit :=
  j <- the_job id ;; pl <- the_plan id ;;
  _require_enabled (sj_project_id j) ;;;
  lift pinned ;;;
  goto id (if pl_needs_approval pl then Approving else Launching).

(** [approvals.request] came back. *)
Definition run_approved (id : str) (answer : res unit) : M unit :=
  lift answer ;;; on_job id (set_state QUEUED) ;;; goto id Launching.

(** [approvals.ensure_current] *)
Definition run_current (id : str) (now : Z) (current_gen : nat) : M unit :=
  pl <- the_plan id ;;
  raise_if (negb (pl_generation pl =? current_gen)%nat) (AgentError "approval_expired" false []) ;;;
  match pl_deadline pl with
  | Some d => raise_if (d <=? now) (AgentError "approval_expired" false [])
  | None => raise (ValueError "TypeError")
  end ;;;
  goto id Rechecking.

(** Enabled, mode and executable once more. *)
Definition run_recheck (id : str) (same_executor : bool) : M unit :=
  j <- the_job id ;; pl <- the_plan id ;;
  _require_enabled (sj_project_id j) ;;;
  p <- run_db (get_project (sj_project_id j)) ;;
  raise_if (negb (bool_decide (mode p = pl_mode pl))) (AgentError "approval_expired" false []) ;;;
  raise_if (pl_needs_approval pl && negb same_executor) (AgentError "approval_expired" false []) ;;;
  goto id Starting.

Definition run_started (id : str) (started : res unit) : M unit :=
  lift started ;;; on_job id (fun j => set_state RUNNING_ (set_process j)) ;;; goto id Watching.

Definition run_exited (id : str) (ec : Z) : M unit := on_job id (set_exit (Some ec)) ;;; goto id Draining.
Definition run_timeout (id : str) : M unit := goto id TimedOut.
Definition run_timed_out (id : str) (ec : option Z) : M unit :=
  on_job id (fun j => set_state FAILED_
    (system_line (lit "Command timed out and its Job Object was terminated.") (set_exit ec j))) ;;;
  goto id Draining.
Definition run_drained (id : str) : M unit :=
  on_job id (fun j => if TERMINAL (state j) then j
                      else set_state (if bool_decide (exit_code j = Some 0) then COMPLETED else FAILED_) j) ;;;
  goto id Unwinding.

(** The [finally] block. *)
Definition run_release (id : str) : M unit :=
  j <- the_job id ;;
  run_gate (Gate.release (resource_key j) (gate_owner (sj_idempotency_key j))) ;;; goto id Persisting.

Definition terminal_operation (st : ShellState) : OperationState :=
  match st with
  | COMPLETED => SUCCEEDED | CANCELLED_ => CANCELLED | UNKNOWN_ => OUTCOME_UNKNOWN | _ => Models.FAILED
  end.

Definition put_result (now : Z) (j : ShellJob) (st : OperationState) : M unit :=
  run_db (put_idempotency now (sj_project_id j) (lit "project_shell") (sj_idempotency_key j) (request_digest j)
            st (Some (_poll_result j 0 DEFAULT_PAGE)) (sj_binding j)).

Definition run_persist (id : str) (now : Z) : M unit :=
  j <- the_job id ;; put_result now j (terminal_operation (state j)) ;;; goto id Retiring.

Definition _terminal_job_limit : nat := 32.

(** The loop of the retirement. *)
Fixpoint evict (fuel : nat) (s : shell) : shell :=
  match fuel, _terminal_jobs s with
  | S fuel, expired_id :: rest =>
      if (_terminal_job_limit <? length (_terminal_jobs s))%nat then
        let s' := upd_terminal (fun _ => rest) s in
        evict fuel
          (match objects s !! expired_id with
           | Some j => if bool_decide (expired_id ∈ _jobs s) && TERMINAL (state j)
                       then upd_jobs (fun js => js ∖ {[expired_id]}) s' else s'
           | None => s'
           end)
      else s
  | _, _ => s
  end.

Definition run_retire (id : str) : M unit :=
  modify (upd_terminal (fun l => l ++ [id])) ;;;
  modify (fun s => evict (length (_terminal_jobs s)) s) ;;;
  goto id Done.

(** *** poll and cancel *)

Definition _validate_job_binding (j : ShellJob) (grant_id link_id : str) : M unit :=
  raise_if (negb (bool_decide (sj_binding j = binding_of grant_id link_id))) (AgentError "binding_mismatch" false []).

Definition known (s : shell) (pid id : str) : option ShellJob :=
  match objects s !! id with
  | Some j => if bool_decide (id ∈ _jobs s) && bool_decide (sj_project_id j = pid) then Some j else None
  | None => None
  end.

(** [poll] with the wait over. *)
Definition poll (pid id : str) (cursor wait_milliseconds max_output_bytes : Z) (grant_id link_id : str) : M json :=
  if (cursor <? 0) || negb (in_range 0 wait_milliseconds 30000)
     || negb (in_range (16 * 1024) max_output_bytes (1024 * 1024)) then lift invalid
  else
    _require_enabled pid ;;;
    o <- gets (fun s => known s pid id) ;;
    match o with
    | Some j => _validate_job_binding j grant_id link_id ;;; ret (_poll_result j cursor max_output_bytes)
    | None =>
        durable <- run_db (get_shell_job pid id (binding_of grant_id link_id)) ;;
        match durable with
        | None => agent "job_not_found"
        | Some (st, result) =>
            match st, result with
            | Models.RUNNING, _ | _, None => agent "outcome_unknown"
            | _, Some (JObj o) => lift (_page_durable_result o cursor max_output_bytes)
            | _, Some _ => raise (ValueError "AttributeError")
            end
        end
    end.

Definition cancel_result (pid id st : str) : json :=
  JObj [(lit "action", JStr (lit "cancel")); (lit "project_id", JStr pid); (lit "job_id", JStr id);
        (lit "state", JStr st)].

(** [cancel] from the point where the process is gone. *)
Definition cancel_finish (id : str) (now : Z) : M json :=
  on_job id (set_state CANCELLED_) ;;;
  j <- the_job id ;;
  modify (fun s => if bool_decide (phases s !! id = Some Done) then s
                   else upd_requested (fun r => {[id]} ∪ r) s) ;;;
  run_gate (Gate.release (resource_key j) (gate_owner (sj_idempotency_key j))) ;;;
  put_result now j CANCELLED ;;;
  ret (cancel_result (sj_project_id j) id (lit "cancelled")).

(** [cancel] up to the wait for the process, or to its end. *)
Definition cancel (pid id : str) (now : Z) (grant_id link_id : str) : M (option json) :=
  _require_enabled pid ;;;
  o <- gets (fun s => known s pid id) ;;
  match o with
  | None => ret (Some (cancel_result pid id (lit "not_found")))
  | Some j =>
      _validate_job_binding j grant_id link_id ;;;
      if TERMINAL (state j) then ret (Some (cancel_result pid id (lit "already_terminal")))
      else if process j then modify (upd_terminating (cons id)) ;;; ret None
      else r <- cancel_finish id now ;; ret (Some r)
  end.

(** *** The connection to the relay *)

Definition disconnect_one (id : str) (s : shell) : shell :=
  match objects s !! id with
  | None => s
  | Some j =>
      if bool_decide (state j = PENDING_APPROVAL)
      then (if bool_decide (phases s !! id = Some Done) then s else upd_requested (fun r => {[id]} ∪ r) s)
      else if TERMINAL (state j) || disconnected_killer j then s
      else upd_sleeping (fun k => {[id]} ∪ k) (upd_objects <[id := set_killer true j]> s)
  end.
Definition disconnected (s : shell) : shell := foldr disconnect_one s (elements (_jobs s)).

Definition reconnect_one (id : str) (s : shell) : shell :=
  match objects s !! id with
  | None => s
  | Some j => if disconnected_killer j
              then upd_sleeping (fun k => k ∖ {[id]}) (upd_killing (fun k => k ∖ {[id]})
                     (upd_objects <[id := set_killer false j]> s))
              else s
  end.
Definition reconnected (s : shell) : shell := foldr reconnect_one s (elements (_jobs s)).

(** [_kill_after_grace]: after the sleep, and after the process is gone. *)
Definition killer_wakes (id : str) : M unit :=
  j <- the_job id ;;
  modify (upd_sleeping (fun k => k ∖ {[id]})) ;;;
  when (process j && negb (TERMINAL (state j))) (modify (upd_killing (fun k => {[id]} ∪ k))).
Definition killer_finish (id : str) : M unit :=
  modify (upd_killing (fun k => k ∖ {[id]})) ;;;
  on_job id (fun j => system_line (lit "Relay reconnect grace expired; job terminated.") (set_state UNKNOWN_ j)).

End manager.

Fixpoint remove_one (id : str) (l : list str) : option (list str) :=
  match l with
  | [] => None
  | x :: r => if bool_decide (x = id) then Some r else cons x <$> remove_one id r
  end.

(** ** Histories *)

(** [Other], [OtherReserve] and [OtherRelease]: what other modules do to the
    journal and to the gate; [message] is the one of the error that the segment
    may raise. *)
Inductive event :=
| StartCommit (now : Z) (deadline : option Z) (gen current_gen : nat) (q : start_request)
    (id pid key digest rk : str) (b : Binding) (epoch : Z) (pl : plan)
| RunBegin (id : str)
| RunEnabled (id message : str) (pinned : res unit)
| RunApproved (id message : str) (answer : res unit)
| RunCurrent (id message : str) (now : Z) (current_gen : nat)
| RunRecheck (id message : str) (same_executor : bool)
| RunStarted (id message : str) (started : res unit)
| RunOutput (id stream_name : str) (raw : bytes)
| RunExited (id : str) (ec : Z)
| RunTimeout (id : str)
| RunTimedOut (id : str) (ec : option Z)
| RunDrained (id : str)
| RunFault (id : str)
| RunInterrupted (id : str)
| RunRelease (id : str)
| RunPersist (id : str) (now : Z)
| RunRetire (id : str)
| Cancel (pid id : str) (now : Z) (grant_id link_id : str)
| CancelFinish (id : str) (now : Z)
| Disconnected | Reconnected
| KillerWakes (id : str) | KillerFinish (id : str)
| Other (d : db)
| OtherReserve (key owner : str) | OtherRelease (key owner : str).

(** The phases inside the [try] block. *)
Definition guarded_phase (ph : phase) : bool :=
  match ph with
  | Enabling | Approving | Launching | Rechecking | Starting | Watching | TimedOut | Draining => true
  | _ => false
  end.

Definition here (s : shell) (id : str) (ph : phase) : bool :=
  bool_decide (phases s !! id = Some ph) && negb (bool_decide (id ∈ cancel_requested s)).

(** A segment of the [try] block; [message] is the one of the error it raises. *)
Definition segment (id : str) (ph : phase) (message : str) (body : M unit) (s : shell) : shell :=
  if here s id ph then (try_except body (run_failed id message) s).2 else s.

(** A segment of [finally]: an exception ends the task. *)
Definition final_segment (id : str) (ph : phase) (body : M unit) (s : shell) : shell :=
  if here s id ph then (try_except body (fun _ => goto id Done) s).2 else s.

(** The cancellation reaches the task where it waits. *)
Definition interrupted (id : str) (s : shell) : shell :=
  if negb (bool_decide (id ∈ cancel_requested s)) then s else
  let s' := upd_requested (fun r => r ∖ {[id]}) s in
  match phases s !! id, objects s !! id with
  | Some ph, Some j =>
      if guarded_phase ph then
        if process j then (goto id Cancelling s').2 else (run_failed id [] CancelledError s').2
      else match ph with
           | Created | Unwinding | Persisting | Retiring => (goto id Done s').2
           | Cancelling => (goto id Unwinding s').2
           | _ => s'
           end
  | _, _ => s'
  end.

Definition step (account device : str) (s : shell) (e : event) : shell :=
  match e with
  | StartCommit now deadline gen cur q id pid key digest rk b epoch pl =>
      if bool_decide (is_Some (objects s !! id)) then s
      else (start_commit now deadline gen cur (new_job id pid key digest b epoch q rk (pl_needs_approval pl)) pl s).2
  | RunBegin id => segment id Created [] (run_begin id) s
  | RunEnabled id message pinned => segment id Enabling message (run_enabled id pinned) s
  | RunApproved id message answer => segment id Approving message (run_approved id answer) s
  | RunCurrent id message now cur => segment id Launching message (run_current id now cur) s
  | RunRecheck id message same => segment id Rechecking message (run_recheck id same) s
  | RunStarted id message started => segment id Starting message (run_started id started) s
  | RunOutput id stream raw =>
      match objects s !! id with
      | Some j => if process j then (on_job id (fun j => default j (_capture_read j stream raw)) s).2 else s
      | None => s
      end
  | RunExited id ec => segment id Watching [] (run_exited id ec) s
  | RunTimeout id => segment id Watching [] (run_timeout id) s
  | RunTimedOut id ec => segment id TimedOut [] (run_timed_out id ec) s
  | RunDrained id => segment id Draining [] (run_drained id) s
  | RunFault id =>
      match phases s !! id with
      | Some ph => if guarded_phase ph then segment id ph [] (raise (OSError "process")) s else s
      | None => s
      end
  | RunInterrupted id => interrupted id s
  | RunRelease id => final_segment id Unwinding (run_release id) s
  | RunPersist id now => final_segment id Persisting (run_persist id now) s
  | RunRetire id => final_segment id Retiring (run_retire id) s
  | Cancel pid id now g l => (cancel account device pid id now g l s).2
  | CancelFinish id now =>
      match remove_one id (terminating s) with
      | Some rest => (cancel_finish id now (upd_terminating (fun _ => rest) s)).2
      | None => s
      end
  | Disconnected => disconnected s
  | Reconnected => reconnected s
  | KillerWakes id => if bool_decide (id ∈ sleeping s) then (killer_wakes id s).2 else s
  | KillerFinish id => if bool_decide (id ∈ killing s) then (killer_finish id s).2 else s
  | Other d => upd_database d s
  | OtherReserve key owner => (run_gate (Gate.reserve key owner) s).2
  | OtherRelease key owner =>
      if starts_with (lit "shell:") owner then s else (run_gate (Gate.release key owner) s).2
  end.

Definition run (account device : str) (l : list event) (s : shell) : shell := foldl (step account device) s l.

Definition idle (d : db) (g : gmap str str) : shell :=
  {| objects := ∅; _jobs := ∅; _terminal_jobs := []; sh_database := d; gate := g; phases := ∅; plans := ∅;
     cancel_requested := ∅; terminating := []; sleeping := ∅; killing := ∅ |}.
