(* ===== verification/ShellJobs.v ===== *)
(** * Histories of shell jobs: who runs, and with whose consent

    Three theorems about every interleaving of the segments of Shell.v: a key
    starts one job, jobs that may be mutating a workspace never share it, and no
    process exists without the checks and the consent its plan asks for. *)
From S2P Require Import Prelude Utf8 PyStr Models OperationGate Database Json ShellOutput Shell.

Open Scope Z_scope.

#[local] Set Default Proof Using "Type*".

(** ** Preorders on shell states *)

Section along.
  Context (R : shell -> shell -> Prop) `{!PreOrder R}.

Lemma along_the_job id : along R (the_job id).
Proof. apply along_bind; [done|apply along_gets; done|]. intros [j|]; [by apply along_ret|by apply along_raise]. Qed.
Lemma along_the_plan id : along R (the_plan id).
Proof. apply along_bind; [done|apply along_gets; done|]. intros [j|]; [by apply along_ret|by apply along_raise]. Qed.
Lemma along_db {T} (m : DB T) : (forall s, R s (upd_database (m (sh_database s)).2 s)) -> along R (run_db m).
Proof using Type. intros H s. specialize (H s). unfold run_db. by destruct (m (sh_database s)). Qed.
End along.

#[export] Hint Resolve along_the_job along_the_plan : along.

(** ** What a job keeps *)

Definition static (j : ShellJob) :=
  (job_id j, sj_project_id j, sj_idempotency_key j, request_digest j, sj_binding j, resource_key j).
Definition keeps_static (f : ShellJob -> ShellJob) : Prop := forall j, static (f j) = static j.

Lemma append_static stream t j : static (append_to stream t j) = static j.
Proof. unfold append_to, _append. destruct (utf8_encode t); cbn; [|done]. by case_match. Qed.
Lemma capture_static stream raw j : static (default j (_capture_read j stream raw)) = static j.
Proof. apply append_static. Qed.
Lemma line_static t j : static (system_line t j) = static j.
Proof. apply append_static. Qed.
Lemma state_static st j : static (set_state st j) = static j.
Proof. done. Qed.
Lemma exit_static ec j : static (set_exit ec j) = static j.
Proof. done. Qed.
Lemma process_static j : static (set_process j) = static j.
Proof. done. Qed.

Ltac static_parts :=
  intros ?; repeat case_match; rewrite ?state_static, ?line_static, ?exit_static, ?process_static, ?capture_static; done.

(** The rows of shell commands. *)
Definition shell_row (s : shell) (pid key : str) : option Idempotency :=
  idempotency (sh_database s) !! (pid, lit "project_shell", key).

(** Same jobs with the same static parts and plans; rows are not lost. *)
Record same_jobs (s s' : shell) : Prop := {
  sj_static : forall id, static <$> objects s' !! id = static <$> objects s !! id;
  sj_plans : plans s' = plans s;
  sj_rows : forall pid key, is_Some (shell_row s pid key) -> is_Some (shell_row s' pid key);
}.
#[export] Instance same_jobs_preorder : PreOrder same_jobs.
Proof.
  split; [by split|]. intros a b c [A1 A2 A3] [B1 B2 B3]. split; intros.
  - by rewrite B1.
  - by rewrite B2.
  - auto.
Qed.

Lemma same_jobs_goto id ph : along same_jobs (goto id ph).
Proof. by split. Qed.
Lemma same_jobs_on_job id f : keeps_static f -> along same_jobs (on_job id f).
Proof.
  intros Hf s. split; [|done|done]. intros i. cbn. destruct (decide (i = id)) as [->|Hi].
  - rewrite lookup_alter_eq, <- option_fmap_compose. apply option_fmap_ext. intros j. apply Hf.
  - by rewrite lookup_alter_ne.
Qed.
Lemma same_jobs_gate {T} (m : ST (gmap str str) T) : along same_jobs (run_gate m).
Proof. intros s. unfold run_gate. destruct (m (gate s)). by split. Qed.
Lemma same_jobs_modify f : (forall s, objects (f s) = objects s /\ plans (f s) = plans s /\ sh_database (f s) = sh_database s) ->
  along same_jobs (modify f).
Proof. intros H s. destruct (H s) as (E1 & E2 & E3). split; cbn; unfold shell_row; intros; by rewrite ?E1, ?E2, ?E3. Qed.
Lemma same_jobs_read {T} (m : DB T) : (forall d, (m d).2 = d) -> along same_jobs (run_db m).
Proof. intros H. apply along_db. intros s. rewrite H. by split. Qed.
Lemma get_project_reads pid d : (get_project pid d).2 = d.
Proof. unfold get_project, bind, gets. by case_match. Qed.
Lemma get_idempotency_reads p c k b d : (get_idempotency p c k b d).2 = d.
Proof. unfold get_idempotency, bind, gets. by repeat case_match. Qed.
Lemma get_shell_job_reads p i b d : (get_shell_job p i b d).2 = d.
Proof. unfold get_shell_job, bind, gets. by repeat case_match. Qed.

Lemma put_keeps_rows now p c k dg st r b d q :
  is_Some (idempotency d !! q) -> is_Some (idempotency (put_idempotency now p c k dg st r b d).2 !! q).
Proof.
  intros H. unfold put_idempotency, bind, gets. cbn [id].
  repeat case_match; cbn; try done; destruct (decide (q = (p, c, k))) as [->|]; by rewrite ?lookup_insert_eq, ?lookup_insert_ne.
Qed.
Lemma same_jobs_put now j st : along same_jobs (put_result now j st).
Proof. apply along_db. intros s. split; [done|done|]. intros pid key H. by apply put_keeps_rows. Qed.

Lemma same_jobs_enabled pid : along same_jobs (_require_enabled pid).
Proof. apply along_bind; [typeclasses eauto|apply same_jobs_read, get_project_reads|]. intros p. auto with along typeclass_instances. Qed.

#[export] Hint Resolve same_jobs_goto same_jobs_gate same_jobs_put same_jobs_enabled : along.
#[export] Hint Extern 1 (along same_jobs (on_job _ _)) => apply same_jobs_on_job; static_parts : along.
#[export] Hint Extern 1 (along same_jobs (modify _)) => apply same_jobs_modify; intros; by repeat case_match : along.
#[export] Hint Extern 1 (along same_jobs (run_db _)) =>
  apply same_jobs_read; intros; by rewrite ?get_project_reads, ?get_idempotency_reads, ?get_shell_job_reads : along.

Lemma same_jobs_failed id message e : along same_jobs (run_failed id message e).
Proof.
  unfold run_failed. apply along_bind; [typeclasses eauto| |intros; auto with along].
  apply same_jobs_on_job. static_parts.
Qed.
#[export] Hint Resolve same_jobs_failed : along.

Lemma along_segment R `{!PreOrder R} id ph message body s :
  along R body -> (forall e, along R (run_failed id message e)) -> R s (segment id ph message body s).
Proof. intros H H'. unfold segment. case_match; [|done]. by apply along_except. Qed.
Lemma along_final R `{!PreOrder R} id ph body s :
  along R body -> along R (goto id Done) -> R s (final_segment id ph body s).
Proof. intros H H'. unfold final_segment. case_match; [|done]. apply along_except; auto. Qed.
Lemma along_foldr R `{!PreOrder R} (f : str -> shell -> shell) l s :
  (forall id s, R s (f id s)) -> R s (foldr f s l).
Proof. intros H. induction l as [|x l IH]; cbn; [done|]. by transitivity (foldr f s l). Qed.

Lemma same_jobs_interrupted id s : same_jobs s (interrupted id s).
Proof.
  unfold interrupted. case_match; [done|]. set (s' := upd_requested _ s).
  transitivity s'; [by split|]. repeat case_match; try done.
  all: first [apply same_jobs_goto | apply same_jobs_failed].
Qed.

Lemma same_jobs_cancel_finish id now : along same_jobs (cancel_finish id now).
Proof. unfold cancel_finish. along_steps. Qed.

#[export] Hint Resolve same_jobs_cancel_finish : along.

Lemma same_jobs_cancel a d pid id now g l : along same_jobs (cancel a d pid id now g l).
Proof.
  unfold cancel, _validate_job_binding.
  along_steps.
Qed.

Lemma same_jobs_insert id j j' f s : objects s !! id = Some j -> static j' = static j ->
  (forall s, objects (f s) = objects s /\ plans (f s) = plans s /\ sh_database (f s) = sh_database s) ->
  same_jobs s (f (upd_objects <[id := j']> s)).
Proof.
  intros Hj Hs Hf. destruct (Hf (upd_objects <[id := j']> s)) as (E1 & E2 & E3).
  split; unfold shell_row; intros; rewrite ?E1, ?E2, ?E3; cbn; try done.
  rename id0 into i. destruct (decide (i = id)) as [->|Hi]; [|by rewrite lookup_insert_ne].
  rewrite lookup_insert_eq, Hj. cbn. by rewrite Hs.
Qed.
Lemma same_jobs_disconnected s : same_jobs s (disconnected s).
Proof.
  unfold disconnected. apply (along_foldr same_jobs). intros id s'. unfold disconnect_one.
  destruct (objects s' !! id) as [j|] eqn:E; [|done]. repeat case_match; try done.
  by apply (same_jobs_insert _ j _ (upd_sleeping _)).
Qed.
Lemma same_jobs_reconnected s : same_jobs s (reconnected s).
Proof.
  unfold reconnected. apply (along_foldr same_jobs). intros id s'. unfold reconnect_one.
  destruct (objects s' !! id) as [j|] eqn:E; [|done]. repeat case_match; try done.
  by apply (same_jobs_insert _ j _ (fun s => upd_sleeping _ (upd_killing _ s))).
Qed.

Lemma evict_keeps {A} (f : shell -> A) : (forall g s, f (upd_terminal g s) = f s) ->
  (forall g s, f (upd_jobs g s) = f s) -> forall fuel s, f (evict fuel s) = f s.
Proof.
  intros H H' fuel. induction fuel as [|n IH]; intros s; [done|]. cbn [evict].
  case_match; [done|]. case_match; [|done]. rewrite IH. repeat case_match; by rewrite ?H', ?H.
Qed.
Lemma same_jobs_retire id : along same_jobs (run_retire id).
Proof.
  unfold run_retire. apply along_bind; [typeclasses eauto|auto with along|]. intros _.
  apply along_bind; [typeclasses eauto| |auto with along].
  apply same_jobs_modify. intros s. by rewrite (evict_keeps objects), (evict_keeps plans), (evict_keeps sh_database).
Qed.

(** What an event may do outside the shell manager. *)
Definition keeps_shell_rows (s : shell) (e : event) : Prop :=
  match e with
  | Other d => forall pid key, is_Some (shell_row s pid key) -> is_Some (idempotency d !! (pid, lit "project_shell", key))
  | _ => True
  end.
Definition is_start (e : event) : bool := match e with StartCommit _ _ _ _ _ _ _ _ _ _ _ _ _ => true | _ => false end.

Lemma same_jobs_step a d s e : is_start e = false -> keeps_shell_rows s e -> same_jobs s (step a d s e).
Proof.
  intros Hs Hk. destruct e; cbn [step keeps_shell_rows is_start] in *; try discriminate.
  all: try (apply (along_segment same_jobs); [unfold run_begin, run_enabled, run_approved, run_current, run_recheck,
    run_started, run_exited, run_timeout, run_timed_out, run_drained; along_steps|auto with along]; fail).
  all: try (apply (along_final same_jobs); [unfold run_release, run_persist; along_steps|auto with along]; fail).
  - case_match; [|done]. case_match; [|done]. apply same_jobs_on_job. static_parts.
  - case_match; [|done]. case_match; [|done]. apply (along_segment same_jobs); auto with along typeclass_instances.
  - apply same_jobs_interrupted.
  - apply (along_final same_jobs); [apply same_jobs_retire|auto with along].
  - apply same_jobs_cancel.
  - case_match; [|done]. etransitivity; [|apply same_jobs_cancel_finish]. by split.
  - apply same_jobs_disconnected.
  - apply same_jobs_reconnected.
  - case_match; [|done]. generalize s.
    change (along same_jobs (killer_wakes id)). unfold killer_wakes, when. along_steps.
  - case_match; [|done]. generalize s. change (along same_jobs (killer_finish id)). unfold killer_finish. along_steps.
  - split; [done|done|]. apply Hk.
  - apply same_jobs_gate.
  - case_match; [done|]. apply same_jobs_gate.
Qed.

(** ** What a start does *)

(** Every job has a task and a plan, the table holds only jobs, and a job is
    filed under its own identifier. *)
Record well_kept (s : shell) : Prop := {
  wk_phases : forall id, is_Some (phases s !! id) <-> is_Some (objects s !! id);
  wk_plans : forall id, is_Some (plans s !! id) <-> is_Some (objects s !! id);
  wk_jobs : forall id, id ∈ _jobs s -> is_Some (objects s !! id);
  wk_ids : forall id j, objects s !! id = Some j -> job_id j = id;
}.

Lemma shell_ext s s' : objects s = objects s' -> _jobs s = _jobs s' -> _terminal_jobs s = _terminal_jobs s' ->
  sh_database s = sh_database s' -> gate s = gate s' -> phases s = phases s' -> plans s = plans s' ->
  cancel_requested s = cancel_requested s' -> terminating s = terminating s' -> sleeping s = sleeping s' ->
  killing s = killing s' -> s = s'.
Proof. destruct s, s'. cbn. congruence. Qed.

Lemma unregister_register j pl g s : well_kept s -> objects s !! job_id j = None -> gate s !! resource_key j = None ->
  upd_gate (delete (resource_key j)) (unregister (job_id j) (register j pl (upd_gate <[resource_key j := g]> s))) = s.
Proof.
  intros [Hp Hl Hj _] Ho Hg.
  assert (phases s !! job_id j = None) as Ep by (apply eq_None_not_Some; rewrite Hp, Ho; by intros [? ?]).
  assert (plans s !! job_id j = None) as El by (apply eq_None_not_Some; rewrite Hl, Ho; by intros [? ?]).
  assert (job_id j ∉ _jobs s) as Ej by (intros H%Hj; rewrite Ho in H; by destruct H).
  apply shell_ext; try done; cbn; [by rewrite delete_insert_id|set_solver|by rewrite !delete_insert_id..].
Qed.

Lemma release_own key owner m : Gate.release key owner (<[key := owner]> m) = (Ok tt, delete key (<[key := owner]> m)).
Proof. rewrite Gate.release_spec, lookup_insert_eq. by rewrite bool_decide_eq_true_2. Qed.

(** The state after an accepted start. *)
Definition accepted (j : ShellJob) (pl : plan) (row : Idempotency) (s : shell) : shell :=
  upd_database (on_idempotency <[(sj_project_id j, lit "project_shell", sj_idempotency_key j) := row]> (sh_database s))
    (register j pl (upd_gate <[resource_key j := gate_owner (sj_idempotency_key j)]> s)).

Lemma existing_start_reads prior digest s : (_existing_start prior digest s).2 = s.
Proof. destruct prior as [[d st] r]. unfold _existing_start. case_match; [done|]. unfold bind, gets. by case_match. Qed.

Lemma put_cases now p c k dg st r b d : idempotency d !! (p, c, k) = None ->
  put_idempotency now p c k dg st r b d = (Err IntegrityError, d) \/
  exists row, put_idempotency now p c k dg st r b d = (Ok tt, on_idempotency <[(p, c, k) := row]> d).
Proof.
  intros H. unfold put_idempotency, bind, gets. cbn [id]. rewrite H. case_match; [by left|]. right. by eexists.
Qed.

Lemma get_none p c k b d v : get_idempotency p c k b d = (Ok v, d) -> v = None -> idempotency d !! (p, c, k) = None.
Proof. unfold get_idempotency, bind, gets. repeat case_match; intros; by simplify_eq. Qed.

Lemma guard_then {T} b e (k : unit -> M T) s : bind (raise_if b e) k s = if b then (Err e, s) else k tt s.
Proof. by destruct b. Qed.
Lemma db_then {T U} (m : DB T) (k : T -> M U) s :
  bind (run_db m) k s = match (m (sh_database s)).1 with
                        | Ok t => k t (upd_database (m (sh_database s)).2 s)
                        | Err e => (Err e, upd_database (m (sh_database s)).2 s)
                        end.
Proof. unfold bind, run_db. by destruct (m (sh_database s)) as [[t|e] d]. Qed.
Lemma gate_then {T U} (m : ST (gmap str str) T) (k : T -> M U) s :
  bind (run_gate m) k s = match (m (gate s)).1 with
                          | Ok t => k t (upd_gate (fun _ => (m (gate s)).2) s)
                          | Err e => (Err e, upd_gate (fun _ => (m (gate s)).2) s)
                          end.
Proof. unfold bind, run_gate. by destruct (m (gate s)) as [[t|e] d]. Qed.
Lemma upd_gate_const f h s : h = f (gate s) -> upd_gate (fun _ => h) s = upd_gate f s.
Proof. by intros ->. Qed.
Lemma upd_same_gate s : upd_gate (fun _ => gate s) s = s.
Proof. by destruct s. Qed.
Lemma upd_same s : upd_database (sh_database s) s = s.
Proof. by destruct s. Qed.

Lemma start_commit_cases now deadline gen cur j pl s : well_kept s -> objects s !! job_id j = None ->
  (start_commit now deadline gen cur j pl s).2 = s \/
  exists row, gate s !! resource_key j = None /\ shell_row s (sj_project_id j) (sj_idempotency_key j) = None /\
    (start_commit now deadline gen cur j pl s).2 = accepted j pl row s.
Proof.
  intros Hw Ho. unfold start_commit. rewrite guard_then. case_match; [by left|].
  destruct deadline as [d|]; [|by left]. rewrite guard_then. case_match; [by left|].
  rewrite db_then, get_idempotency_reads, upd_same.
  destruct (get_idempotency _ _ _ _ _) as [[prior|e] d'] eqn:E; cbn [fst]; [|by left].
  pose proof (get_idempotency_reads (sj_project_id j) (lit "project_shell") (sj_idempotency_key j) (sj_binding j) (sh_database s)) as E'.
  rewrite E in E'. cbn in E'. subst d'.
  destruct prior as [prior|]; [left; apply existing_start_reads|].
  apply get_none in E; [|done].
  rewrite gate_then, Gate.reserve_spec.
  destruct (gate s !! resource_key j) as [o|] eqn:Eg; cbn [fst snd]; [left; apply upd_same_gate|].
  rewrite (upd_gate_const <[resource_key j := gate_owner (sj_idempotency_key j)]>) by done.
  set (s1 := upd_gate _ s).
  destruct (put_cases now (sj_project_id j) (lit "project_shell") (sj_idempotency_key j) (request_digest j)
    Models.RUNNING (Some (start_result j)) (sj_binding j) (sh_database (register j pl s1)) E) as [Ep|[row Ep]].
  - left. unfold bind at 1, modify at 1. unfold bind at 1, try_except, run_db at 1. rewrite Ep. cbn [caught].
    unfold bind at 1, modify at 1. rewrite gate_then.
    change (gate (unregister (job_id j) (upd_database (sh_database (register j pl s1)) (register j pl s1))))
      with (<[resource_key j := gate_owner (sj_idempotency_key j)]> (gate s)).
    rewrite release_own. cbn [fst snd raise]. rewrite upd_same.
    unfold raise. cbn [snd]. rewrite (upd_gate_const (delete (resource_key j))) by done.
    apply (unregister_register j pl (gate_owner (sj_idempotency_key j)) s Hw Ho Eg).
  - right. exists row. split; [done|]. split; [done|].
    unfold bind at 1, modify at 1. unfold bind at 1, try_except, run_db at 1. rewrite Ep. reflexivity.
Qed.

(** ** The gate *)

#[local] Arguments gate_owner : simpl never.

(** The task of the job has not reached its end and no cancellation is on the
    way: its command may be running. *)
Definition active_phase (ph : phase) : bool := match ph with Created => true | _ => guarded_phase ph end.
Definition may_run (s : shell) (id : str) : Prop :=
  id ∉ cancel_requested s /\ exists ph, phases s !! id = Some ph /\ active_phase ph = true.

Section guarded.
  Context (U : Prop).

(** With [U] false, only the bookkeeping is claimed. *)
Definition active (s : shell) (id : str) : Prop := U /\ may_run s id.

Definition owned (s : shell) (id : str) : Prop :=
  forall j, objects s !! id = Some j -> gate s !! resource_key j = Some (gate_owner (sj_idempotency_key j)).

(** The invariant of every state: active jobs own their workspace. *)
Record guarded (s : shell) : Prop := {
  gd_kept : well_kept s;
  gd_active : forall i, active s i -> owned s i;
}.

(** The state of a task at work: [mine] if its job owns its workspace. *)
Record guarding (mine : bool) (id : str) (s : shell) : Prop := {
  gu_guarded : guarded s;
  gu_known : is_Some (phases s !! id);
  gu_mine : mine = true -> U -> owned s id;
}.

(** The preorder of a property that is not lost. *)
Definition under (P : shell -> Prop) (s s' : shell) : Prop := P s -> P s'.
#[export] Instance under_preorder P : PreOrder (under P).
Proof. split; unfold under; repeat intro; auto. Qed.

Lemma static_parts_eq j j' : static j = static j' ->
  job_id j = job_id j' /\ sj_project_id j = sj_project_id j' /\ sj_idempotency_key j = sj_idempotency_key j' /\
  request_digest j = request_digest j' /\ sj_binding j = sj_binding j' /\ resource_key j = resource_key j'.
Proof. unfold static. intros [= -> -> -> -> -> ->]. done. Qed.

Lemma static_known s s' : (forall i, static <$> objects s' !! i = static <$> objects s !! i) ->
  forall i j, objects s' !! i = Some j -> exists j0, objects s !! i = Some j0 /\ static j = static j0.
Proof.
  intros H i j E. specialize (H i). rewrite E in H. cbn in H. symmetry in H.
  apply fmap_Some in H as (j0 & E0 & Es). by exists j0.
Qed.
Lemma static_owned s s' i : (forall i, static <$> objects s' !! i = static <$> objects s !! i) -> gate s' = gate s ->
  owned s i -> owned s' i.
Proof.
  intros Ho Hg H j E. destruct (static_known s s' Ho i j E) as (j0 & E0 & Es).
  apply static_parts_eq in Es as (_ & _ & -> & _ & _ & ->). rewrite Hg. by apply H.
Qed.

(** A change that keeps the static parts, the table and the gate. *)
Lemma guarded_same s s' :
  (forall i, static <$> objects s' !! i = static <$> objects s !! i) -> plans s' = plans s -> _jobs s' ⊆ _jobs s ->
  gate s' = gate s -> (forall i, is_Some (phases s' !! i) <-> is_Some (phases s !! i)) ->
  (forall i, active s' i -> owned s i) -> guarded s -> guarded s'.
Proof.
  intros Ho Hl Hj Hg Hp Ha [[K1 K2 K3 K4] G].
  assert (forall i, is_Some (objects s' !! i) <-> is_Some (objects s !! i)) as Hi.
  { intros i. by rewrite <-(fmap_is_Some static (objects s !! i)), <-Ho, fmap_is_Some. }
  split; [split|].
  - intros i. by rewrite Hp, Hi.
  - intros i. by rewrite Hl, Hi.
  - intros i H. rewrite Hi. by apply K3, Hj.
  - intros i j E. destruct (static_known s s' Ho i j E) as (j0 & E0 & Es).
    apply static_parts_eq in Es as (-> & _). by apply K4.
  - intros i H. apply (static_owned s); auto.
Qed.

Definition quiet_change (s s' : shell) : Prop :=
  (forall i, static <$> objects s' !! i = static <$> objects s !! i) /\ plans s' = plans s /\ _jobs s' ⊆ _jobs s /\
  gate s' = gate s /\ phases s' = phases s /\ cancel_requested s ⊆ cancel_requested s'.

Lemma guarded_quiet s s' : quiet_change s s' -> under guarded s s'.
Proof.
  intros (Ho & Hl & Hj & Hg & Hp & Hc) Hs. apply (guarded_same s); try done; [by intros; rewrite Hp|].
  intros i (HU & Hn & ph & E & Ea). apply Hs. split; [done|]. split; [set_solver|]. exists ph. by rewrite <-Hp.
Qed.
Lemma guarding_quiet b id s s' : quiet_change s s' -> under (guarding b id) s s'.
Proof.
  intros Hq [G K Ho]. pose proof Hq as (H1 & H2 & H3 & H4 & H5 & H6). split.
  - by apply (guarded_quiet s).
  - by rewrite H5.
  - intros Hb HU. apply (static_owned s); auto.
Qed.

Lemma guarding_goto b id ph : b = true \/ active_phase ph = false -> along (under (guarding b id)) (goto id ph).
Proof.
  intros Hb s Hgu. destruct Hgu as [G K Ho]. assert (forall i, is_Some (phases (goto id ph s).2 !! i) <-> is_Some (phases s !! i)) as Hp.
  { intros i. cbn. destruct (decide (i = id)) as [->|]; [|by rewrite lookup_insert_ne]. rewrite lookup_insert_eq.
    split; [done|by eauto]. }
  split; [|by apply Hp|done]. apply (guarded_same s); try done.
  intros i (HU & Hn & ph' & E & Ea). cbn in *. destruct (decide (i = id)) as [->|Hi].
  - rewrite lookup_insert_eq in E. simplify_eq. destruct Hb as [->|Hb]; [by apply Ho|congruence].
  - rewrite lookup_insert_ne in E by done. apply G. split; [done|]. split; [done|]. by exists ph'.
Qed.
Lemma guarding_on_job b id i f : keeps_static f -> along (under (guarding b id)) (on_job i f).
Proof.
  intros Hf s. apply guarding_quiet. repeat split; try done. intros k.
  apply (sj_static _ _ (same_jobs_on_job i f Hf s)).
Qed.
Lemma guarding_db {T} b id (m : DB T) : along (under (guarding b id)) (run_db m).
Proof. intros s. apply guarding_quiet. unfold run_db. destruct (m (sh_database s)). by repeat split. Qed.
Lemma guarding_enabled b id pid : along (under (guarding b id)) (_require_enabled pid).
Proof. apply along_bind; [typeclasses eauto|apply guarding_db|]. intros p. auto with along typeclass_instances. Qed.

#[local] Hint Resolve guarding_goto guarding_db guarding_enabled : along.
#[local] Hint Extern 1 (along (under (guarding _ _)) (put_result _ _ _)) => apply guarding_db : along.
#[local] Hint Extern 1 (along (under (guarding _ _)) (on_job _ _)) => apply guarding_on_job; static_parts : along.
#[local] Hint Extern 1 (along (under (guarding true _)) (goto _ _)) => apply guarding_goto; by left : along.
#[local] Hint Extern 1 (along (under (guarding false _)) (goto _ _)) => apply guarding_goto; by right : along.

Lemma guarding_failed b id message e : along (under (guarding b id)) (run_failed id message e).
Proof.
  unfold run_failed. apply along_bind; [typeclasses eauto|auto with along|intros _]. apply guarding_goto. by right.
Qed.
#[local] Hint Resolve guarding_failed : along.

Lemma guarded_segment id ph message body s : active_phase ph = true ->
  along (under (guarding true id)) body -> guarded s -> guarded (segment id ph message body s).
Proof.
  intros Hph Hb Hs. unfold segment, here. case_match eqn:E; [|done]. reflect_bools.
  assert (guarding true id s) as Hg.
  { split; [done|by rewrite H|]. intros _ HU. apply Hs. split; [done|]. split; [done|]. by exists ph. }
  eapply gu_guarded. eapply (along_except (under (guarding true id))); [exact Hb| |exact Hg].
  intros e. apply guarding_failed.
Qed.
Lemma guarded_final id ph body s :
  along (under (guarding false id)) body -> guarded s -> guarded (final_segment id ph body s).
Proof.
  intros Hb Hs. unfold final_segment, here. case_match eqn:E; [|done]. reflect_bools.
  assert (guarding false id s) as Hg by (split; [done|by rewrite H|done]).
  eapply gu_guarded. eapply (along_except (under (guarding false id))); [exact Hb| |exact Hg].
  intros e. auto with along.
Qed.

(** No two jobs use one idempotency key. *)
Definition unique_keys (s : shell) : Prop := forall i i' j j', objects s !! i = Some j -> objects s !! i' = Some j' ->
  sj_idempotency_key j = sj_idempotency_key j' -> i = i'.

Lemma unique_keys_static s s' : (forall i, static <$> objects s' !! i = static <$> objects s !! i) ->
  unique_keys s -> unique_keys s'.
Proof.
  intros Ho Hu i i' j j' E E' Ek.
  destruct (static_known s s' Ho i j E) as (j0 & E0 & Es). destruct (static_known s s' Ho i' j' E') as (j1 & E1 & Es').
  apply static_parts_eq in Es as (_ & _ & K & _). apply static_parts_eq in Es' as (_ & _ & K' & _).
  apply (Hu i i' j0 j1); congruence.
Qed.

Definition released (key owner : str) (s : shell) : shell := (run_gate (Gate.release key owner) s).2.
Lemma released_eq key owner s : released key owner s =
  upd_gate (fun _ => if bool_decide (gate s !! key = Some owner) then delete key (gate s) else gate s) s.
Proof. unfold released, run_gate. by rewrite Gate.release_spec. Qed.

Lemma guarded_released key owner s : guarded s ->
  (forall i j, active s i -> objects s !! i = Some j -> gate_owner (sj_idempotency_key j) <> owner) ->
  guarded (released key owner s).
Proof.
  intros [[K1 K2 K3 K4] G] H. rewrite released_eq. split; [by split|].
  intros i Ha j E. cbn. pose proof (G i Ha j E) as Hg. case_bool_decide as Hd; [|done].
  destruct (decide (key = resource_key j)) as [->|Hk]; [|by rewrite lookup_delete_ne].
  destruct (H i j Ha E). congruence.
Qed.

Lemma guarded_release_own id j s : guarded s -> (U -> unique_keys s) -> objects s !! id = Some j -> ~ active s id ->
  guarded (released (resource_key j) (gate_owner (sj_idempotency_key j)) s).
Proof.
  intros Hs Hu Hj Hn. apply guarded_released; [done|]. intros i j' Ha E Eo.
  unfold gate_owner in Eo. apply app_inv_head in Eo. by rewrite (Hu (proj1 Ha) i id j' j E Hj Eo) in Ha.
Qed.

Lemma guarded_reserved key owner s : guarded s -> guarded (run_gate (Gate.reserve key owner) s).2.
Proof.
  intros [[K1 K2 K3 K4] G]. unfold run_gate. rewrite Gate.reserve_spec.
  destruct (gate s !! key) eqn:E; cbn; [by rewrite upd_same_gate|]. split; [by split|].
  intros i Ha j Ej. cbn. pose proof (G i Ha j Ej) as Hg. rewrite lookup_insert_ne; [done|]. intros ->. congruence.
Qed.

Lemma guarded_accepted j pl row s : guarded s -> objects s !! job_id j = None -> gate s !! resource_key j = None ->
  guarded (accepted j pl row s).
Proof.
  intros [[K1 K2 K3 K4] G] Ho Hg.
  assert (forall A (m : gmap str A) a i, (is_Some (m !! i) <-> is_Some (objects s !! i)) ->
    is_Some (<[job_id j := a]> m !! i) <-> is_Some (<[job_id j := j]> (objects s) !! i)) as Hi.
  { intros A m a i H. destruct (decide (i = job_id j)) as [->|]; [by rewrite !lookup_insert_eq|].
    by rewrite !lookup_insert_ne. }
  split; [split|]; cbn.
  - intros i. apply Hi, K1.
  - intros i. apply Hi, K2.
  - intros i Hin. destruct (decide (i = job_id j)) as [->|]; [by rewrite lookup_insert_eq|].
    rewrite lookup_insert_ne by done. apply K3. set_solver.
  - intros i j'. destruct (decide (i = job_id j)) as [->|]; [rewrite lookup_insert_eq; by intros [= <-]|].
    rewrite lookup_insert_ne by done. apply K4.
  - intros i (HU & Hn & ph & E & Ea) j' Ej. cbn in *. destruct (decide (i = job_id j)) as [->|Hne].
    + rewrite lookup_insert_eq in Ej. simplify_eq. by rewrite lookup_insert_eq.
    + rewrite lookup_insert_ne in Ej by done. rewrite lookup_insert_ne in E by done.
      assert (gate s !! resource_key j' = Some (gate_owner (sj_idempotency_key j'))) as H.
      { apply (G i); [|done]. split; [done|]. split; [done|]. by exists ph. }
      rewrite lookup_insert_ne; [done|]. intros Heq. rewrite Heq in Hg. congruence.
Qed.

Lemma quiet_trans s s1 s2 : quiet_change s s1 -> quiet_change s1 s2 -> quiet_change s s2.
Proof.
  intros (A1 & A2 & A3 & A4 & A5 & A6) (B1 & B2 & B3 & B4 & B5 & B6).
  repeat split; try congruence; try set_solver.
Qed.
Lemma quiet_db {T} (m : DB T) s : quiet_change s (run_db m s).2.
Proof. unfold run_db. destruct (m (sh_database s)). by repeat split. Qed.
#[export] Instance quiet_preorder : PreOrder quiet_change.
Proof. split; [by repeat split|]. intros a b c. apply quiet_trans. Qed.
Lemma quiet_enabled pid : along quiet_change (_require_enabled pid).
Proof.
  apply along_bind; [typeclasses eauto|intros s; apply quiet_db|]. intros p. auto with along typeclass_instances.
Qed.
Lemma guarded_db_then {T V} (m : DB T) (k : T -> M V) s : guarded s ->
  (forall t s', s' = (run_db m s).2 -> guarded s' -> guarded (k t s').2) -> guarded (bind (run_db m) k s).2.
Proof.
  intros Hs Hk. pose proof (guarded_quiet _ _ (quiet_db m s) Hs) as Hs'. unfold bind.
  destruct (run_db m s) as [[t|e] s'] eqn:E; cbn in *; [|done]. by apply Hk.
Qed.

Lemma guarded_cancel_finish id now s : guarded s -> (U -> unique_keys s) -> guarded (cancel_finish id now s).2.
Proof.
  intros Hs Hu. unfold cancel_finish.
  set (s1 := (on_job id (set_state CANCELLED_) s).2).
  assert (guarded s1 /\ (U -> unique_keys s1)) as [Hs1 Hu1].
  { pose proof (same_jobs_on_job id (set_state CANCELLED_) (fun _ => eq_refl) s) as [E1 _ _].
    split; [|intros HU; by apply (unique_keys_static s), Hu]. apply (guarded_quiet s); [|done]. by repeat split. }
  change (guarded ((j <- the_job id;; modify (fun s => if bool_decide (phases s !! id = Some Done) then s
                   else upd_requested (fun r => {[id]} ∪ r) s);;;
   run_gate (Gate.release (resource_key j) (gate_owner (sj_idempotency_key j))) ;;; put_result now j CANCELLED ;;;
   ret (cancel_result (sj_project_id j) id (lit "cancelled"))) s1).2).
  unfold the_job, bind at 1, bind at 1, gets. destruct (objects s1 !! id) as [j|] eqn:Ej; [|done]. cbn [ret].
  set (s2 := if bool_decide (phases s1 !! id = Some Done) then s1 else upd_requested (fun r => {[id]} ∪ r) s1).
  assert (quiet_change s1 s2) as Hq by (unfold s2; case_bool_decide; repeat split; set_solver).
  assert (guarded s2) as Hs2 by by apply (guarded_quiet s1).
  assert (U -> unique_keys s2) as Hu2 by exact (fun HU => unique_keys_static s1 s2 (proj1 Hq) (Hu1 HU)).
  assert (~ active s2 id) as Hn.
  { intros (HU & Hn & ph & E & Ea). unfold s2 in Hn, E. case_bool_decide; cbn in *; [by simplify_eq|set_solver]. }
  assert (objects s2 !! id = Some j) as Ej2 by (unfold s2; by case_bool_decide).
  pose proof (guarded_release_own id j s2 Hs2 Hu2 Ej2 Hn) as Hr.
  unfold bind at 1, modify at 1. fold s2. rewrite gate_then. unfold released, run_gate in Hr.
  rewrite Gate.release_spec in *. cbn [fst snd] in *.
  apply guarded_db_then; [done|]. done.
Qed.

Lemma guarded_fold (f : str -> shell -> shell) l s : (forall i s, quiet_change s (f i s)) -> guarded s -> guarded (foldr f s l).
Proof. intros Hf Hs. induction l as [|x l IH]; [done|]. cbn. by apply (guarded_quiet (foldr f s l)). Qed.

Lemma quiet_disconnect id s : quiet_change s (disconnect_one id s).
Proof.
  unfold disconnect_one. destruct (objects s !! id) as [j|] eqn:E; [|by repeat split].
  repeat case_match; repeat split; try done; try set_solver.
  intros i. cbn. destruct (decide (i = id)) as [->|]; [by rewrite lookup_insert_eq, E|by rewrite lookup_insert_ne].
Qed.
Lemma quiet_reconnect id s : quiet_change s (reconnect_one id s).
Proof.
  unfold reconnect_one. destruct (objects s !! id) as [j|] eqn:E; [|by repeat split].
  repeat case_match; repeat split; try done.
  intros i. cbn. destruct (decide (i = id)) as [->|]; [by rewrite lookup_insert_eq, E|by rewrite lookup_insert_ne].
Qed.

Lemma guarded_interrupted id s : guarded s -> guarded (interrupted id s).
Proof.
  intros Hs. unfold interrupted. case_bool_decide as Hin; cbn [negb]; [|done].
  destruct (phases s !! id) as [ph|] eqn:Ep.
  2: { destruct Hs as [[K1 K2 K3 K4] G]. split; [by split|]. intros i (HU & Hn & ph & E & Ea). apply G. split; [done|]. split; [|by exists ph].
       cbn in *. assert (i <> id) by congruence. set_solver. }
  destruct (objects s !! id) as [j|] eqn:Ej.
  2: { destruct Hs as [[K1 _ _ _] _]. assert (is_Some (objects s !! id)) as [? ?] by (apply K1; by rewrite Ep). congruence. }
  assert (forall s' ph', (forall i, static <$> objects s' !! i = static <$> objects s !! i) -> plans s' = plans s ->
    _jobs s' = _jobs s -> gate s' = gate s -> phases s' = <[id := ph']> (phases s) ->
    cancel_requested s' = cancel_requested s ∖ {[id]} -> active_phase ph' = false -> guarded s') as Hend.
  { intros s' ph' H1 H2 H3 H4 H5 H6 H7. apply (guarded_same s); try done; [by rewrite H3| |].
    - intros i. rewrite H5. destruct (decide (i = id)) as [->|]; [|by rewrite lookup_insert_ne].
      by rewrite lookup_insert_eq, Ep.
    - intros i (HU & Hn & p & E & Ea). rewrite H5 in E. destruct (decide (i = id)) as [->|].
      + rewrite lookup_insert_eq in E. congruence.
      + rewrite lookup_insert_ne in E by done. apply Hs. split; [done|]. split; [rewrite H6 in Hn; set_solver|by exists p]. }
  assert (forall i, static <$> alter (set_state CANCELLED_) id (objects s) !! i = static <$> objects s !! i) as Ha.
  { intros i. destruct (decide (i = id)) as [->|]; [by rewrite lookup_alter_eq, Ej|by rewrite lookup_alter_ne]. }
  destruct (guarded_phase ph) eqn:Eg; [destruct (process j)|destruct ph; try discriminate].
  - by apply (Hend _ Cancelling).
  - by apply (Hend _ Unwinding).
  - by apply (Hend _ Done).
  - by apply (Hend _ Unwinding).
  - by apply (Hend _ Done).
  - by apply (Hend _ Done).
  - by apply (Hend _ Done).
  - apply (Hend _ Done); try done. cbn. by rewrite insert_id.
Qed.

Lemma guarded_retire id : along (under (guarding false id)) (run_retire id).
Proof.
  unfold run_retire. apply along_bind; [typeclasses eauto|intros s; by apply guarding_quiet|intros _].
  apply along_bind; [typeclasses eauto| |intros _; auto with along].
  intros s. apply guarding_quiet. cbn. generalize (length (_terminal_jobs s)). intros n.
  unfold quiet_change. rewrite (evict_keeps objects), (evict_keeps plans), (evict_keeps gate), (evict_keeps phases),
    (evict_keeps cancel_requested) by done.
  repeat split; try done. revert s. induction n as [|n IH]; intros s; [done|]. cbn [evict]. case_match; [done|].
  case_match; [|done]. etransitivity; [apply IH|]. repeat case_match; cbn; set_solver.
Qed.

Lemma guarded_cancel a d pid id now g l s : guarded s -> (U -> unique_keys s) -> guarded (cancel a d pid id now g l s).2.
Proof.
  intros Hs Hu. unfold cancel, _validate_job_binding.
  assert (forall s', quiet_change s s' -> guarded s' /\ (U -> unique_keys s')) as Hq.
  { intros s' Hq. split; [by apply (guarded_quiet s)|]. intros HU. apply (unique_keys_static s); [apply Hq|by apply Hu]. }
  pose proof (quiet_enabled pid s) as H1. unfold bind at 1. destruct (_require_enabled pid s) as [[t|e] s1]; [|by apply Hq].
  cbn [snd] in H1. unfold bind at 1, gets. destruct (known s1 pid id) as [j|]; [|by apply Hq].
  rewrite guard_then. case_match; [by apply Hq|]. case_match; [by apply Hq|]. case_match; [by apply Hq|].
  destruct (Hq s1 H1) as [G1 U1]. pose proof (guarded_cancel_finish id now s1 G1 U1) as Hf. unfold bind.
  by destruct (cancel_finish id now s1) as [[r|e] s2].
Qed.

Lemma guarded_run_release id s : guarded s -> (U -> unique_keys s) -> guarded (final_segment id Unwinding (run_release id) s).
Proof.
  intros Hs Hu. unfold final_segment, here. case_match eqn:E; [|done]. reflect_bools.
  unfold try_except, run_release, the_job. unfold bind at 1, bind at 1, gets.
  destruct (objects s !! id) as [j|] eqn:Ej; cbn [ret raise].
  - assert (~ active s id) as Hn by (intros (_ & _ & ph & E & Ea); rewrite H in E; by simplify_eq).
    pose proof (guarded_release_own id j s Hs Hu Ej Hn) as Hr. unfold released, run_gate in Hr.
    rewrite gate_then. rewrite Gate.release_spec in *. cbn [fst snd] in *.
    eapply gu_guarded. eapply (guarding_goto false id Persisting); [by right|].
    split; [done|cbn; by rewrite H|done].
  - destruct Hs as [[K1 _ _ _] _]. assert (is_Some (objects s !! id)) as [? ?] by (apply K1; by rewrite H). congruence.
Qed.

Lemma guarded_step a d s e : (U -> unique_keys s) -> guarded s -> guarded (step a d s e).
Proof.
  intros Hu Hs. destruct e; cbn [step].
  all: try (apply guarded_segment; [done| |done]; unfold run_begin, run_enabled, run_approved, run_current, run_recheck,
    run_started, run_exited, run_timeout, run_timed_out, run_drained; along_steps; fail).
  - case_bool_decide as Hn; [done|]. rewrite <-eq_None_not_Some in Hn.
    edestruct (start_commit_cases now deadline gen current_gen
      (new_job id pid key digest b epoch q rk (pl_needs_approval pl)) pl s (gd_kept s Hs) Hn) as [->|(row & Hg & _ & ->)];
      [done|by apply guarded_accepted].
  - case_match; [|done]. case_match; [|done]. apply (guarded_quiet s); [|done]. repeat split; try done.
    intros i. cbn. apply (sj_static _ _ (same_jobs_on_job id _ (capture_static stream_name raw) s)).
  - destruct (phases s !! id) as [ph|]; [|done]. destruct (guarded_phase ph) eqn:E; [|done].
    apply guarded_segment; [by destruct ph|auto with along typeclass_instances|done].
  - by apply guarded_interrupted.
  - by apply guarded_run_release.
  - apply guarded_final; [|done]. unfold run_persist. along_steps.
  - apply guarded_final; [apply guarded_retire|done].
  - by apply guarded_cancel.
  - case_match; [|done]. by apply guarded_cancel_finish; [apply (guarded_quiet s)|].
  - apply guarded_fold; [apply quiet_disconnect|done].
  - apply guarded_fold; [apply quiet_reconnect|done].
  - case_match; [|done]. apply (guarded_quiet s); [|done]. unfold killer_wakes, the_job, bind, gets, when.
    destruct (objects s !! id) as [j|]; cbn; [|done]. by destruct (process j && _).
  - case_match; [|done]. apply (guarded_quiet s); [|done]. repeat split; try done.
    intros i. refine (sj_static _ _ (same_jobs_on_job id _ _ (upd_killing (fun k => k ∖ {[id]}) s)) i). static_parts.
  - by apply (guarded_quiet s).
  - by apply guarded_reserved.
  - case_match eqn:E; [done|]. apply guarded_released; [done|]. intros i j Ha Ej Eo. rewrite <-Eo in E. done.
Qed.

End guarded.

Lemma step_static a d s e : is_start e = false ->
  (forall i, static <$> objects (step a d s e) !! i = static <$> objects s !! i) /\ plans (step a d s e) = plans s.
Proof.
  intros He. assert (keeps_shell_rows s e -> _) as H by exact (fun H => conj (sj_static _ _ (same_jobs_step a d s e He H)) (sj_plans _ _ (same_jobs_step a d s e He H))).
  destruct e; try (apply H; exact I). split; [intros i|]; reflexivity.
Qed.

(** A start adds at most one job, under a new identifier. *)
Lemma start_step a d s e : well_kept s -> is_start e = true -> step a d s e = s \/
  exists j pl row, objects s !! job_id j = None /\ gate s !! resource_key j = None /\
    shell_row s (sj_project_id j) (sj_idempotency_key j) = None /\ process j = false /\
    step a d s e = accepted j pl row s.
Proof.
  intros Hw He. destruct e; try discriminate. cbn [step]. case_bool_decide as Hn; [by left|].
  rewrite <-eq_None_not_Some in Hn.
  destruct (start_commit_cases now deadline gen current_gen
    (new_job id pid key digest b epoch q rk (pl_needs_approval pl)) pl s Hw Hn) as [E|(row & Hg & Hr & E)]; [by left|].
  right. exists (new_job id pid key digest b epoch q rk (pl_needs_approval pl)), pl, row. by rewrite E.
Qed.

Lemma unique_keys_before a d s e : well_kept s -> unique_keys (step a d s e) -> unique_keys s.
Proof.
  intros Hw Hu. destruct (is_start e) eqn:He.
  - destruct (start_step a d s e Hw He) as [E|(j & pl & row & Ho & _ & _ & _ & E)]; rewrite E in Hu; [done|].
    intros i i' j1 j2 E1 E2 Ek. assert (i <> job_id j) by congruence. assert (i' <> job_id j) by congruence.
    apply (Hu i i' j1 j2); [cbn; by rewrite lookup_insert_ne..|done].
  - revert Hu. apply unique_keys_static. intros i. symmetry. by apply step_static.
Qed.

Lemma guarded_idle U d g : guarded U (idle d g).
Proof.
  split; [split|]; cbn.
  - intros id. by rewrite !lookup_empty.
  - intros id. by rewrite !lookup_empty.
  - set_solver.
  - intros id j. by rewrite lookup_empty.
  - intros i (_ & _ & ph & E & _). cbn in E. by rewrite lookup_empty in E.
Qed.

Lemma run_snoc a d l e s : run a d (l ++ [e]) s = step a d (run a d l s) e.
Proof. unfold run. by rewrite foldl_app. Qed.

Lemma well_kept_run a d l s : well_kept s -> well_kept (run a d l s).
Proof.
  intros Hs. apply (gd_kept False). induction l as [|e l IH] using rev_ind; [by split; [|intros i [[] _]]|].
  rewrite run_snoc. by apply guarded_step.
Qed.

Lemma guarded_run a d l s : unique_keys (run a d l s) -> guarded True s -> guarded True (run a d l s).
Proof.
  intros Hu Hs. induction l as [|e l IH] using rev_ind; [done|]. rewrite run_snoc in *.
  assert (unique_keys (run a d l s)) as Hu'.
  { apply (unique_keys_before a d _ e); [|done]. apply well_kept_run, Hs. }
  apply guarded_step; auto.
Qed.

(** C22. No two jobs that may be running share a workspace: in every history of
    the manager in which an idempotency key is not used for two jobs, a job
    whose task has not come to its end and was not cancelled owns the gate of
    its resource, so two such jobs have different resources. *)
Theorem running_jobs_do_not_share a d l j0 g0 i i' j j' :
  let s := run a d l (idle j0 g0) in
  unique_keys s -> may_run s i -> objects s !! i = Some j ->
  gate s !! resource_key j = Some (gate_owner (sj_idempotency_key j)) /\
  (may_run s i' -> objects s !! i' = Some j' -> resource_key j = resource_key j' -> i = i').
Proof.
  intros s Hu Hi Hj. pose proof (guarded_run a d l _ Hu (guarded_idle True j0 g0)) as [_ G].
  pose proof (G i (conj I Hi) j Hj) as H. split; [done|]. intros Hi' Hj' Er.
  pose proof (G i' (conj I Hi') j' Hj') as H'. rewrite <-Er in H'. fold s in H, H'. rewrite H in H'.
  unfold gate_owner in H'. injection H' as H'. by apply (Hu i i' j j').
Qed.

(** ** One job per key *)

(** [Other] never loses a row of a shell command. *)
Fixpoint others_keep_rows (a d : str) (l : list event) (s : shell) : Prop :=
  match l with
  | [] => True
  | e :: r => keeps_shell_rows s e /\ others_keep_rows a d r (step a d s e)
  end.

Record one_per_key (s : shell) : Prop := {
  ok_kept : well_kept s;
  ok_rows : forall i j, objects s !! i = Some j -> is_Some (shell_row s (sj_project_id j) (sj_idempotency_key j));
  ok_unique : forall i i' j j', objects s !! i = Some j -> objects s !! i' = Some j' ->
    sj_project_id j = sj_project_id j' -> sj_idempotency_key j = sj_idempotency_key j' -> i = i';
}.

Lemma one_per_key_step a d s e : keeps_shell_rows s e -> one_per_key s -> one_per_key (step a d s e).
Proof.
  intros Hk [K R Un]. assert (well_kept (step a d s e)) as K' by apply (well_kept_run a d [e]), K.
  destruct (is_start e) eqn:He.
  - destruct (start_step a d s e K He) as [->|(j & pl & row & Ho & _ & Hr & _ & E)]; [done|].
    rewrite E in *. split; [done| |].
    + intros i j1 H. cbn in H. change (is_Some (<[(sj_project_id j, lit "project_shell", sj_idempotency_key j) := row]>
        (idempotency (sh_database s)) !! (sj_project_id j1, lit "project_shell", sj_idempotency_key j1))).
      destruct (decide ((sj_project_id j1, lit "project_shell", sj_idempotency_key j1) =
                        (sj_project_id j, lit "project_shell", sj_idempotency_key j))) as [->|Hne];
        [by rewrite lookup_insert_eq|]. rewrite lookup_insert_ne by congruence.
      destruct (decide (i = job_id j)) as [->|Hi]; [rewrite lookup_insert_eq in H; by simplify_eq|].
      rewrite lookup_insert_ne in H by done. by apply (R i).
    + assert (forall i j1, objects s !! i = Some j1 -> sj_project_id j1 = sj_project_id j ->
        sj_idempotency_key j1 = sj_idempotency_key j -> False) as Hno.
      { intros i j1 H1 E1 E2. apply R in H1. rewrite E1, E2, Hr in H1. by destruct H1. }
      intros i i' j1 j2 H1 H2 E1 E2. cbn in H1, H2.
      destruct (decide (i = job_id j)) as [->|Hi], (decide (i' = job_id j)) as [->|Hi']; [done| | |];
        rewrite ?lookup_insert_eq in H1; rewrite ?lookup_insert_eq in H2;
        try rewrite lookup_insert_ne in H1 by done; try rewrite lookup_insert_ne in H2 by done; simplify_eq.
      * by destruct (Hno i' j2).
      * by destruct (Hno i j1).
      * by apply (Un i i' j1 j2).
  - destruct (same_jobs_step a d s e He Hk) as [S _ Rk]. split; [done| |].
    + intros i j1 H. destruct (static_known _ _ S i j1 H) as (j0 & E0 & Es).
      apply static_parts_eq in Es as (_ & -> & -> & _). apply Rk. by apply (R i).
    + intros i i' j1 j2 H1 H2 E1 E2.
      destruct (static_known _ _ S i j1 H1) as (j3 & E3 & Es). destruct (static_known _ _ S i' j2 H2) as (j4 & E4 & Es').
      apply static_parts_eq in Es as (_ & P1 & K1 & _). apply static_parts_eq in Es' as (_ & P2 & K2 & _).
      apply (Un i i' j3 j4); congruence.
Qed.

Lemma one_per_key_run a d l s : others_keep_rows a d l s -> one_per_key s -> one_per_key (run a d l s).
Proof.
  revert s. induction l as [|e l IH]; intros s Hk Hs; [done|]. destruct Hk as [Hk Hl].
  apply (IH (step a d s e)); [done|]. by apply one_per_key_step.
Qed.

(** C23. An idempotency key starts one job: however starts, retries, cancellations
    and lost connections interleave, two job objects of one project never have
    the same key, as long as no other part of the agent removes rows of shell
    commands from the journal; and the journal has a row for every job. *)
Theorem one_job_per_key a d l j0 g0 i i' j j' :
  others_keep_rows a d l (idle j0 g0) ->
  let s := run a d l (idle j0 g0) in
  objects s !! i = Some j ->
  is_Some (idempotency (sh_database s) !! (sj_project_id j, lit "project_shell", sj_idempotency_key j)) /\
  (objects s !! i' = Some j' -> sj_project_id j = sj_project_id j' ->
   sj_idempotency_key j = sj_idempotency_key j' -> i = i').
Proof.
  intros Hk s Hj. assert (one_per_key s) as [_ R Un].
  { apply one_per_key_run; [done|]. split; [apply (guarded_idle True)| |]; intros ?; intros; cbn in *; by simplify_map_eq. }
  split; [by apply (R i)|]. intros. by apply (Un i i' j j').
Qed.

(** ** Consent *)

(** The three waits before a process exists. *)
Definition launching (ph : phase) : bool := match ph with Launching | Rechecking | Starting => true | _ => false end.

(** Only the tasks of [X] come to one of these waits, only the jobs of [Y] get a
    process. *)
Record calm (X : str -> phase -> Prop) (Y : str -> Prop) (s s' : shell) : Prop := {
  ca_phase : forall i ph, launching ph = true -> phases s' !! i = Some ph -> phases s !! i = Some ph \/ X i ph;
  ca_process : forall i j', objects s' !! i = Some j' -> process j' = true ->
    (exists j, objects s !! i = Some j /\ process j = true) \/ Y i;
}.
#[export] Instance calm_preorder X Y : PreOrder (calm X Y).
Proof.
  split.
  - intros s. split; [by left|]. intros i j H Hp. left. by exists j.
  - intros s1 s2 s3 [P1 Q1] [P2 Q2]. split.
    + intros i ph Hl H. destruct (P2 i ph Hl H); eauto.
    + intros i j H Hp. destruct (Q2 i j H Hp) as [(j2 & E2 & H2)|]; eauto.
Qed.

Section calm.
  Context (X : str -> phase -> Prop) (Y : str -> Prop).

Lemma calm_goto id ph : launching ph = false \/ X id ph -> along (calm X Y) (goto id ph).
Proof.
  intros Hph s. split; [|intros i j H Hp; left; by exists j]. intros i p Hl H. cbn in H.
  destruct (decide (i = id)) as [->|Hi]; [|rewrite lookup_insert_ne in H by done; by left].
  rewrite lookup_insert_eq in H. simplify_eq. destruct Hph as [Hph|Hx]; [congruence|by right].
Qed.
Lemma calm_on_job id f : (forall j, process (f j) = process j) \/ Y id -> along (calm X Y) (on_job id f).
Proof.
  intros Hf s. split; [by left|]. intros i j' H Hp. cbn in H.
  destruct (decide (i = id)) as [->|Hi]; [|rewrite lookup_alter_ne in H by done; left; by exists j'].
  rewrite lookup_alter_eq in H. apply fmap_Some in H as (j & E & ->).
  destruct Hf as [Hf|Hy]; [|by right]. left. exists j. split; [done|]. by rewrite <-Hf.
Qed.
Lemma calm_same s s' : objects s' = objects s -> phases s' = phases s -> calm X Y s s'.
Proof. intros E1 E2. split; [intros i ph; rewrite E2; by left|]. intros i j. rewrite E1. left. by exists j. Qed.
Lemma calm_modify f : (forall s, objects (f s) = objects s /\ phases (f s) = phases s) -> along (calm X Y) (modify f).
Proof. intros H s. by apply calm_same; apply (H s). Qed.
Lemma calm_db {T} (m : DB T) : along (calm X Y) (run_db m).
Proof. intros s. unfold run_db. destruct (m (sh_database s)). by apply calm_same. Qed.
Lemma calm_gate {T} (m : ST (gmap str str) T) : along (calm X Y) (run_gate m).
Proof. intros s. unfold run_gate. destruct (m (gate s)). by apply calm_same. Qed.
Lemma calm_enabled pid : along (calm X Y) (_require_enabled pid).
Proof. apply along_bind; [typeclasses eauto|apply calm_db|]. intros p. auto with along typeclass_instances. Qed.
Lemma append_process stream t j : process (append_to stream t j) = process j.
Proof. unfold append_to, _append. destruct (utf8_encode t); cbn; [|done]. by case_match. Qed.
Lemma line_process t j : process (system_line t j) = process j.
Proof. apply append_process. Qed.
End calm.

Ltac process_kept :=
  left; intros ?; repeat case_match; cbn [set_state set_exit job_with process]; rewrite ?line_process; try done;
  try apply append_process.

#[export] Hint Resolve calm_db calm_gate calm_enabled : along.
#[export] Hint Extern 1 (along (calm _ _) (put_result _ _ _)) => apply calm_db : along.
#[export] Hint Extern 1 (along (calm _ _) (on_job _ _)) => apply calm_on_job; process_kept : along.
#[export] Hint Extern 1 (along (calm _ _) (goto _ _)) => apply calm_goto; by left : along.
#[export] Hint Extern 1 (along (calm _ _) (modify _)) => apply calm_modify; intros; by repeat case_match : along.

Lemma calm_failed X Y id message e : along (calm X Y) (run_failed id message e).
Proof.
  unfold run_failed. apply along_bind; [typeclasses eauto| |intros _; auto with along].
  apply calm_on_job. process_kept.
Qed.
#[export] Hint Resolve calm_failed : along.
Lemma calm_cancel_finish X Y id now : along (calm X Y) (cancel_finish id now).
Proof. unfold cancel_finish. along_steps. Qed.
#[export] Hint Resolve calm_cancel_finish : along.
Lemma calm_cancel X Y a d pid id now g l : along (calm X Y) (cancel a d pid id now g l).
Proof. unfold cancel, _validate_job_binding. along_steps. Qed.
Lemma calm_segment X Y id ph message body s : (phases s !! id = Some ph -> calm X Y s (body s).2) ->
  calm X Y s (segment id ph message body s).
Proof.
  intros H. unfold segment, here. case_match eqn:Eh; [|done]. reflect_bools. specialize (H ltac:(done)). unfold try_except. destruct (body s) as [[t|e] s1]; [done|].
  case_match; [|done]. cbn in H. transitivity s1; [done|]. apply calm_failed.
Qed.

Lemma calm_along_segment X Y id ph message body s : along (calm X Y) body -> calm X Y s (segment id ph message body s).
Proof. intros H. apply calm_segment. intros _. apply H. Qed.

(** The steps towards a process. *)
Definition advances (e : event) : bool :=
  match e with
  | RunEnabled _ _ _ | RunApproved _ _ _ | RunCurrent _ _ _ _ | RunRecheck _ _ _ | RunStarted _ _ _ => true
  | _ => false
  end.

Lemma calm_foldr X Y (f : str -> shell -> shell) l s : (forall id s, calm X Y s (f id s)) -> calm X Y s (foldr f s l).
Proof. apply (along_foldr (calm X Y)). Qed.

Lemma calm_insert X Y id j j' s s' : objects s !! id = Some j -> process j' = process j ->
  objects s' = <[id := j']> (objects s) -> phases s' = phases s -> calm X Y s s'.
Proof.
  intros Hj Hp E1 E2. split; [intros i ph; rewrite E2; by left|]. intros i j1. rewrite E1.
  destruct (decide (i = id)) as [->|]; [|rewrite lookup_insert_ne by done; left; by exists j1].
  rewrite lookup_insert_eq. intros [= <-] H. left. exists j. by rewrite <-Hp.
Qed.
Lemma calm_disconnect X Y id s : calm X Y s (disconnect_one id s).
Proof.
  unfold disconnect_one. destruct (objects s !! id) as [j|] eqn:E; [|done].
  repeat case_match; try done; try (by apply calm_same). by apply (calm_insert X Y id j (set_killer true j)).
Qed.
Lemma calm_reconnect X Y id s : calm X Y s (reconnect_one id s).
Proof.
  unfold reconnect_one. destruct (objects s !! id) as [j|] eqn:E; [|done].
  repeat case_match; try done. by apply (calm_insert X Y id j (set_killer false j)).
Qed.
Lemma calm_retire X Y id : along (calm X Y) (run_retire id).
Proof.
  unfold run_retire. apply along_bind; [typeclasses eauto|auto with along|intros _].
  apply along_bind; [typeclasses eauto| |intros _; auto with along].
  apply calm_modify. intros s. by rewrite (evict_keeps objects), (evict_keeps phases).
Qed.
Lemma calm_interrupted X Y id s : calm X Y s (interrupted id s).
Proof.
  unfold interrupted. case_match; [done|]. set (s' := upd_requested _ s).
  transitivity s'; [by apply calm_same|]. clearbody s'. repeat case_match; try done.
  all: first [apply calm_failed | apply calm_goto; by left].
Qed.

Lemma calm_step X Y a d s e : well_kept s -> advances e = false -> calm X Y s (step a d s e).
Proof.
  intros Hw He. destruct (is_start e) eqn:Hs.
  { destruct (start_step a d s e Hw Hs) as [->|(j & pl & row & Ho & _ & _ & Hp & ->)]; [done|]. split.
    - intros i ph Hl H. cbn in H. destruct (decide (i = job_id j)) as [->|].
      + rewrite lookup_insert_eq in H. by simplify_eq.
      + rewrite lookup_insert_ne in H by done. by left.
    - intros i j' H. cbn in H. destruct (decide (i = job_id j)) as [->|].
      + rewrite lookup_insert_eq in H. simplify_eq. congruence.
      + rewrite lookup_insert_ne in H by done. left. by exists j'. }
  destruct e; try discriminate; cbn [step].
  all: try (apply calm_along_segment; unfold run_begin, run_exited, run_timeout, run_timed_out, run_drained; along_steps; fail).
  all: try (eapply (along_final (calm _ _)); [unfold run_release, run_persist; along_steps|auto with along]; fail).
  - case_match; [|done]. case_match; [|done]. apply calm_on_job. process_kept.
  - case_match; [|done]. case_match; [|done]. apply calm_along_segment. auto with along typeclass_instances.
  - apply calm_interrupted.
  - apply (along_final (calm X Y)); [apply calm_retire|auto with along].
  - apply calm_cancel.
  - case_match; [|done]. etransitivity; [|apply calm_cancel_finish]. by apply calm_same.
  - unfold disconnected. apply calm_foldr. intros. apply calm_disconnect.
  - unfold reconnected. apply calm_foldr. intros. apply calm_reconnect.
  - case_match; [|done]. generalize s. change (along (calm X Y) (killer_wakes id)). unfold killer_wakes, when. along_steps.
  - case_match; [|done]. generalize s. change (along (calm X Y) (killer_finish id)). unfold killer_finish. along_steps.
  - by apply calm_same.
  - apply calm_gate.
  - case_match; [done|]. apply calm_gate.
Qed.

Lemma job_then {T} id (k : ShellJob -> M T) s : bind (the_job id) k s =
  match objects s !! id with Some j => k j s | None => (Err (ValueError "KeyError"), s) end.
Proof. unfold the_job, bind, gets. by destruct (objects s !! id). Qed.
Lemma plan_then {T} id (k : plan -> M T) s : bind (the_plan id) k s =
  match plans s !! id with Some pl => k pl s | None => (Err (ValueError "KeyError"), s) end.
Proof. unfold the_plan, bind, gets. by destruct (plans s !! id). Qed.

(** What each of the five steps needs to advance. *)
Definition no_one (i : str) : Prop := False.
Definition one_goes (id : str) (to : phase) (needs : Prop) (i : str) (ph : phase) : Prop := i = id /\ ph = to /\ needs.

#[local] Hint Extern 2 (along (calm (one_goes _ _ _) _) (goto _ _)) => apply calm_goto; right; by repeat split : along.

Lemma enabled_advances id m pinned s :
  calm (one_goes id Launching (exists pl, plans s !! id = Some pl /\ pl_needs_approval pl = false))
    no_one s (segment id Enabling m (run_enabled id pinned) s).
Proof.
  apply calm_segment. intros _. unfold run_enabled. rewrite job_then. destruct (objects s !! id) as [j|]; [|done].
  rewrite plan_then. destruct (plans s !! id) as [pl|] eqn:El; [|done].
  set (X := one_goes _ _ _). enough (along (calm X no_one) (_require_enabled (sj_project_id j);;; lift pinned;;;
    goto id (if pl_needs_approval pl then Approving else Launching))) as H by apply H.
  along_steps. apply calm_goto. destruct (pl_needs_approval pl) eqn:E; [by left|right]. repeat split. by exists pl.
Qed.

Lemma approved_advances id m answer s :
  calm (one_goes id Launching (answer = Ok tt)) no_one s (segment id Approving m (run_approved id answer) s).
Proof.
  apply calm_along_segment. unfold run_approved. destruct answer as [[]|e]; [along_steps|].
  intros s'. reflexivity.
Qed.

Lemma current_advances id m now cur s :
  calm (one_goes id Rechecking (phases s !! id = Some Launching /\ exists pl d, plans s !! id = Some pl /\
    pl_generation pl = cur /\ pl_deadline pl = Some d /\ now < d))
    no_one s (segment id Launching m (run_current id now cur) s).
Proof.
  apply calm_segment. intros Hp. unfold run_current. rewrite plan_then.
  destruct (plans s !! id) as [pl|] eqn:El; [|done]. rewrite guard_then. case_match eqn:Eg; [done|].
  destruct (pl_deadline pl) as [d|] eqn:Ed; [|done]. rewrite guard_then. case_match eqn:En; [done|].
  apply calm_goto. right. repeat split; [done|]. exists pl, d. repeat split; [|done|lia].
  apply negb_false_iff, Nat.eqb_eq in Eg. done.
Qed.

Lemma recheck_advances id m same s :
  calm (one_goes id Starting (phases s !! id = Some Rechecking /\ exists pl j row, plans s !! id = Some pl /\
    objects s !! id = Some j /\ projects (sh_database s) !! sj_project_id j = Some row /\
    enabled (pr_project row) = true /\ mode (pr_project row) = pl_mode pl /\
    (pl_needs_approval pl = true -> same = true)))
    no_one s (segment id Rechecking m (run_recheck id same) s).
Proof.
  apply calm_segment. intros Hp. unfold run_recheck. rewrite job_then.
  destruct (objects s !! id) as [j|] eqn:Ej; [|done]. rewrite plan_then.
  destruct (plans s !! id) as [pl|] eqn:El; [|done]. unfold _require_enabled.
  unfold bind at 1. rewrite db_then, get_project_reads, upd_same. unfold get_project, bind, gets, run_db.
  destruct (projects (sh_database s) !! sj_project_id j) as [row|] eqn:Er; cbn [ret raise fst]; [|done].
  unfold raise_if. destruct (enabled (pr_project row)) eqn:Ee; cbn [negb ret raise]; [|done].
  rewrite Er. cbn [ret]. rewrite upd_same. case_bool_decide as Hm; cbn [negb ret raise]; [|done].
  destruct (pl_needs_approval pl && negb same) eqn:En; cbn [ret raise]; [done|]. apply calm_goto. right. repeat split; [done|].
  exists pl, j, row. repeat split; try done. intros Hn. rewrite Hn in En. by destruct same.
Qed.

Lemma started_advances id m started s :
  calm (fun _ _ => False) (fun i => i = id /\ phases s !! id = Some Starting)
    s (segment id Starting m (run_started id started) s).
Proof.
  apply calm_segment. intros Hp. set (Y := fun i => i = id /\ _).
  enough (along (calm (fun _ _ => False) Y) (run_started id started)) as H by apply H.
  unfold run_started. apply along_bind; [typeclasses eauto|auto with along typeclass_instances|intros _].
  apply along_bind; [typeclasses eauto| |intros _; auto with along]. apply calm_on_job. by right.
Qed.

Section consent.
  Context (a d : str) (s0 : shell).

(** The user or a saved permission said yes. *)
Definition approved_in (l : list event) (id : str) : Prop :=
  exists l1 m l2, l = l1 ++ RunApproved id m (Ok tt) :: l2.
(** Then the generation was still the one of the start, before the deadline. *)
Definition current_in (l : list event) (id : str) (pl : plan) : Prop :=
  exists l1 m now deadline l2, l = l1 ++ RunCurrent id m now (pl_generation pl) :: l2 /\
    pl_deadline pl = Some deadline /\ now < deadline /\ (pl_needs_approval pl = true -> approved_in l1 id).
(** Then the project was enabled, in the mode of the plan, and the executable
    the approved one. *)
Definition checked_in (l : list event) (id pid : str) (pl : plan) : Prop :=
  exists l1 m same row l2, l = l1 ++ RunRecheck id m same :: l2 /\
    projects (sh_database (run a d l1 s0)) !! pid = Some row /\ enabled (pr_project row) = true /\
    mode (pr_project row) = pl_mode pl /\ (pl_needs_approval pl = true -> same = true) /\ current_in l1 id pl.

Lemma approved_snoc l e id : approved_in l id -> approved_in (l ++ [e]) id.
Proof. intros (l1 & m & l2 & ->). exists l1, m, (l2 ++ [e]). by rewrite <-app_assoc. Qed.
Lemma current_snoc l e id pl : current_in l id pl -> current_in (l ++ [e]) id pl.
Proof. intros (l1 & m & now & dl & l2 & -> & H). exists l1, m, now, dl, (l2 ++ [e]). by rewrite <-app_assoc. Qed.
Lemma checked_snoc l e id pid pl : checked_in l id pid pl -> checked_in (l ++ [e]) id pid pl.
Proof.
  intros (l1 & m & same & row & l2 & -> & H). exists l1, m, same, row, (l2 ++ [e]). by rewrite <-app_assoc.
Qed.

(** What has happened to a job in each of the waits. *)
Record justified (l : list event) (s : shell) : Prop := {
  ju_launching : forall id pl, phases s !! id = Some Launching -> plans s !! id = Some pl ->
    pl_needs_approval pl = true -> approved_in l id;
  ju_rechecking : forall id pl, phases s !! id = Some Rechecking -> plans s !! id = Some pl -> current_in l id pl;
  ju_starting : forall id pl j, phases s !! id = Some Starting -> plans s !! id = Some pl -> objects s !! id = Some j ->
    checked_in l id (sj_project_id j) pl;
  ju_process : forall id pl j, objects s !! id = Some j -> process j = true -> plans s !! id = Some pl ->
    checked_in l id (sj_project_id j) pl;
}.

(** One step, given who may advance. *)
Lemma justified_by X Y l e s s' : calm X Y s s' -> plans s' = plans s ->
  (forall i, static <$> objects s' !! i = static <$> objects s !! i) ->
  (forall i pl, X i Launching -> plans s !! i = Some pl -> pl_needs_approval pl = true -> approved_in (l ++ [e]) i) ->
  (forall i pl, X i Rechecking -> plans s !! i = Some pl -> current_in (l ++ [e]) i pl) ->
  (forall i pl j, X i Starting -> plans s !! i = Some pl -> objects s !! i = Some j ->
     checked_in (l ++ [e]) i (sj_project_id j) pl) ->
  (forall i pl j, Y i -> plans s !! i = Some pl -> objects s !! i = Some j ->
     checked_in (l ++ [e]) i (sj_project_id j) pl) ->
  justified l s -> justified (l ++ [e]) s'.
Proof.
  intros [P Q] Hl Hs X1 X2 X3 Y1 [J1 J2 J3 J4]. split.
  - intros id pl H1 H2 H3. rewrite Hl in H2. destruct (P id Launching eq_refl H1); [apply approved_snoc|]; eauto.
  - intros id pl H1 H2. rewrite Hl in H2. destruct (P id Rechecking eq_refl H1); [apply current_snoc|]; eauto.
  - intros id pl j H1 H2 H3. rewrite Hl in H2. destruct (static_known _ _ Hs id j H3) as (j1 & E1 & Es).
    apply static_parts_eq in Es as (_ & -> & _).
    destruct (P id Starting eq_refl H1); [apply checked_snoc|]; eauto.
  - intros id pl j H1 H2 H3. rewrite Hl in H3. destruct (static_known _ _ Hs id j H1) as (j1 & E1 & Es).
    apply static_parts_eq in Es as (_ & -> & _).
    destruct (Q id j H1 H2) as [(j2 & E2 & Hp)|Hy]; [|eauto]. simplify_eq. apply checked_snoc. eauto.
Qed.

Lemma justified_step l e : well_kept (run a d l s0) -> justified l (run a d l s0) ->
  justified (l ++ [e]) (step a d (run a d l s0) e).
Proof.
  set (s := run a d l s0). intros Hw HJ. destruct (is_start e) eqn:Hs.
  { pose proof (calm_step (fun _ _ => False) no_one a d s e Hw) as Hc.
    destruct (start_step a d s e Hw Hs) as [E|(j & pl & row & Ho & _ & _ & Hp & E)]; rewrite E in *.
    { apply (justified_by (fun _ _ => False) no_one l e s); try done. }
    destruct HJ as [J1 J2 J3 J4]. split; cbn.
    all: intros id; destruct (decide (id = job_id j)) as [->|Hi];
      rewrite ?lookup_insert_eq; rewrite ?lookup_insert_ne by done; intros; simplify_eq; try congruence.
    all: first [apply approved_snoc; by eauto | apply current_snoc; by eauto | apply checked_snoc; by eauto]. }
  destruct (step_static a d s e Hs) as [Hst Hpl].
  destruct (advances e) eqn:Ha.
  2: { apply (justified_by (fun _ _ => False) no_one l e s); try done. by apply calm_step. }
  destruct e; try discriminate; cbn [step] in *.
  - eapply justified_by; [apply enabled_advances|done..| | | | |done]; unfold one_goes, no_one; try naive_solver congruence.
  - eapply justified_by; [apply approved_advances|done..| | | | |done]; unfold one_goes, no_one; try naive_solver congruence.
    intros i pl (-> & _ & ->) _ _. by exists l, message, [].
  - eapply justified_by; [apply current_advances|done..| | | | |done]; unfold one_goes, no_one; try naive_solver congruence.
    intros i pl (-> & _ & Hp & pl' & dl & El & Eg & Ed & Hn) El'. simplify_eq.
    exists l, message, now, dl, []. repeat split; [done|done|]. by apply HJ.
  - eapply justified_by; [apply recheck_advances|done..| | | | |done]; unfold one_goes, no_one; try naive_solver congruence.
    intros i pl j (-> & _ & Hp & pl' & j' & row & El & Ej & Er & Ee & Em & En) El' Ej'. simplify_eq.
    exists l, message, same_executor, row, []. repeat split; try done. by apply HJ.
  - eapply justified_by; [apply started_advances|done..| | | | |done]; unfold one_goes, no_one; try naive_solver congruence.
    intros i pl j (-> & Hp) El Ej. apply checked_snoc. by apply (ju_starting _ _ HJ).
Qed.
End consent.

(** C6. A command has a process only after every check and with the consent it
    needs: before the process was created, the project was found enabled, in the
    access mode the start saw, and (when the command needs approval) with the
    executable that was approved; before that, the security generation was the
    one of the start and the deadline had not passed; and before that, when the
    command needs approval, the request for it was allowed. *)
Theorem process_is_authorised a d l j0 g0 id j pl :
  let s := run a d l (idle j0 g0) in
  objects s !! id = Some j -> process j = true -> plans s !! id = Some pl ->
  checked_in a d (idle j0 g0) l id (sj_project_id j) pl.
Proof.
  intros s Hj Hp Hl. apply (ju_process a d (idle j0 g0) l s); [|done..]. clear. subst s.
  induction l as [|e l IH] using rev_ind.
  - split; cbn; intros; by simplify_map_eq.
  - rewrite run_snoc. apply justified_step; [|done]. apply well_kept_run, (guarded_idle True).
Qed.

(** ** Samples *)

Definition sample_root : Project :=
  {| project_id := lit "p"; title := lit "P"; root := lit "C:\p"; root_fingerprint := lit "fp";
     mode := NATIVE_APPROVAL; enabled := true |}.
Definition sample_journal : db :=
  on_projects (fun _ => {[lit "p" := {| pr_project := sample_root; pr_created_at := 0; pr_updated_at := 0 |}]}) empty_db.
Definition sample_binding : Binding :=
  {| b_account_id := lit "a"; b_grant_id := lit "g"; b_link_id := lit "l"; b_device_id := lit "d" |}.
Definition sample_start : start_request :=
  {| rq_project_id := Some (lit "p"); rq_idempotency_key := Some (lit "k1"); rq_purpose := Some (lit "test");
     rq_command := Some (Exec (Some (lit "git")) (Some []), Some []); rq_timeout_seconds := 300;
     rq_output_limit_bytes := 1024; rq_execution := lit "project_policy"; rq_working_directory := lit ".";
     rq_external_working_directory := None; rq_approval_timeout_seconds := 180;
     rq_start_wait_milliseconds := 0; rq_json := JObj [] |}.
Definition sample_plan : plan :=
  {| pl_generation := 0; pl_deadline := Some 1000; pl_needs_approval := true; pl_mode := NATIVE_APPROVAL |}.
Definition commit_in (pid id key rk : str) : event :=
  StartCommit 1 (Some 1000) 0 0 sample_start id pid key (lit "digest") rk sample_binding 1 sample_plan.
Definition sample_commit : str -> str -> str -> event := commit_in (lit "p").
(** From the start of a job to its process. *)
Definition sample_launch (id : str) : list event :=
  [RunBegin id; RunEnabled id [] (Ok tt); RunApproved id [] (Ok tt); RunCurrent id [] 2 0;
   RunRecheck id [] true; RunStarted id [] (Ok tt)].
Notation sample_run l := (run (lit "a") (lit "d") l (idle sample_journal ∅)).
(** A job with a process, one in another directory, two refused starts. *)
Definition two_jobs : list event :=
  sample_commit (lit "j1") (lit "k1") (lit "fp") :: sample_launch (lit "j1") ++
  [sample_commit (lit "j2") (lit "k2") (lit "fp2"); sample_commit (lit "j3") (lit "k3") (lit "fp");
   sample_commit (lit "j4") (lit "k1") (lit "fp3")].

(** The jobs of a state, as a list. *)
Definition job_list (s : shell) : list (str * (str * str * bool)) :=
  map (fun kv => (kv.1, (sj_idempotency_key kv.2, resource_key kv.2, process kv.2))) (map_to_list (objects s)).

Lemma jobs_of_sample : job_list (sample_run two_jobs) =
  [(lit "j2", (lit "k2", lit "fp2", false)); (lit "j1", (lit "k1", lit "fp", true))].
Proof. vm_compute. reflexivity. Qed.

Lemma in_job_list s i j : objects s !! i = Some j ->
  (i, (sj_idempotency_key j, resource_key j, process j)) ∈ job_list s.
Proof.
  intros H. apply list_elem_of_fmap. exists (i, j). split; [done|]. by apply elem_of_map_to_list.
Qed.

Lemma sample_unique_keys : unique_keys (sample_run two_jobs).
Proof.
  intros i i' j j' H H' E. apply in_job_list in H, H'. rewrite jobs_of_sample in H, H'.
  rewrite !elem_of_cons in H, H'. rewrite elem_of_nil in H, H'.
  destruct H as [H|[H|[]]], H' as [H'|[H'|[]]]; injection H as -> K _ _; injection H' as -> K' _ _; try done;
    rewrite K, K' in E; discriminate E.
Qed.

Definition job_of (l : list event) (id : str) : ShellJob :=
  default (new_job [] [] [] [] sample_binding 0 sample_start [] false) (objects (sample_run l) !! id).

Lemma running_jobs_do_not_share_witness :
  gate (sample_run two_jobs) !! resource_key (job_of two_jobs (lit "j1")) =
    Some (gate_owner (sj_idempotency_key (job_of two_jobs (lit "j1")))) /\ 
  (may_run (sample_run two_jobs) (lit "j2") ->
   objects (sample_run two_jobs) !! lit "j2" = Some (job_of two_jobs (lit "j2")) ->
   resource_key (job_of two_jobs (lit "j1")) = resource_key (job_of two_jobs (lit "j2")) -> lit "j1" = lit "j2").
Proof.
  apply (running_jobs_do_not_share (lit "a") (lit "d") two_jobs sample_journal ∅ (lit "j1") (lit "j2")).
  - exact sample_unique_keys.
  - split; [apply (bool_decide_eq_false_1 _); vm_compute; reflexivity|]. exists Watching. split; vm_compute; reflexivity.
  - vm_compute. reflexivity.
Defined.

Lemma one_job_per_key_witness :
  is_Some (idempotency (sh_database (sample_run two_jobs)) !!
    (sj_project_id (job_of two_jobs (lit "j1")), lit "project_shell", sj_idempotency_key (job_of two_jobs (lit "j1")))) /\
  (objects (sample_run two_jobs) !! lit "j1" = Some (job_of two_jobs (lit "j1")) ->
   sj_project_id (job_of two_jobs (lit "j1")) = sj_project_id (job_of two_jobs (lit "j1")) ->
   sj_idempotency_key (job_of two_jobs (lit "j1")) = sj_idempotency_key (job_of two_jobs (lit "j1")) ->
   lit "j1" = lit "j1").
Proof.
  apply (one_job_per_key (lit "a") (lit "d") two_jobs sample_journal ∅ (lit "j1") (lit "j1")).
  - vm_compute. tauto.
  - vm_compute. reflexivity.
Defined.

Lemma process_is_authorised_witness :
  checked_in (lit "a") (lit "d") (idle sample_journal ∅) two_jobs (lit "j1")
    (sj_project_id (job_of two_jobs (lit "j1"))) sample_plan.
Proof.
  apply (process_is_authorised (lit "a") (lit "d") two_jobs sample_journal ∅ (lit "j1")); vm_compute; reflexivity.
Defined.

(** ** Three races

    A task cancelled before its first step never reaches [finally]: the gate of
    its workspace stays closed, and the state stays as the start left it. *)
Definition never_begun : list event :=
  [sample_commit (lit "j1") (lit "k1") (lit "fp"); Disconnected; RunInterrupted (lit "j1")].
Lemma cancelled_before_first_step :
  phases (sample_run never_begun) !! lit "j1" = Some Done /\
  state (job_of never_begun (lit "j1")) = PENDING_APPROVAL /\
  gate (sample_run never_begun) !! lit "fp" = Some (lit "shell:k1").
Proof. vm_compute. auto. Qed.

(** The owner name of the gate is the idempotency key alone: the late release of
    a cancelled job opens the gate of a job of another project with the same key. *)
Definition second_project : event :=
  Other (on_projects <[lit "q" := {| pr_project := sample_root; pr_created_at := 0; pr_updated_at := 0 |}]> sample_journal).
Definition late_release : list event :=
  [second_project; sample_commit (lit "j1") (lit "k1") (lit "fp"); RunBegin (lit "j1");
   Cancel (lit "p") (lit "j1") 2 (lit "g") (lit "l"); commit_in (lit "q") (lit "j2") (lit "k1") (lit "fp");
   RunInterrupted (lit "j1"); RunRelease (lit "j1"); sample_commit (lit "j3") (lit "k3") (lit "fp")].
Lemma late_release_opens_gate :
  phases (sample_run late_release) !! lit "j2" = Some Created /\
  phases (sample_run late_release) !! lit "j3" = Some Created /\
  resource_key (job_of late_release (lit "j2")) = resource_key (job_of late_release (lit "j3")).
Proof. vm_compute. auto. Qed.

(** A cancellation that waits for the process overwrites the result of a command
    that finished in the meantime. *)
Definition late_cancel : list event :=
  sample_commit (lit "j1") (lit "k1") (lit "fp") :: sample_launch (lit "j1") ++
  [Cancel (lit "p") (lit "j1") 3 (lit "g") (lit "l"); RunExited (lit "j1") 0; RunDrained (lit "j1");
   RunRelease (lit "j1"); RunPersist (lit "j1") 4].
Lemma late_cancel_overwrites :
  state (job_of late_cancel (lit "j1")) = COMPLETED /\
  id_state <$> shell_row (sample_run late_cancel) (lit "p") (lit "k1") = Some SUCCEEDED /\
  let l := late_cancel ++ [CancelFinish (lit "j1") 5] in
  state (job_of l (lit "j1")) = CANCELLED_ /\
  id_state <$> shell_row (sample_run l) (lit "p") (lit "k1") = Some CANCELLED.
Proof. vm_compute. auto. Qed.
