(* ===== verification/ReadText.v ===== *)
(** * Cursors, encodings and globs of the read tools (read_tools.py)

    The continuation cursors with the base64 and the [int()] they go through, the
    detection of a text file's encoding with UTF-16, its newline style, and globs
    with [fnmatch.fnmatchcase]. *)
From Stdlib Require Import DecimalString DecimalFacts DecimalN DecimalZ DecimalPos.
From S2P Require Import Prelude Utf8 PyStr Database.

Open Scope Z_scope.

(** ** base64 *)

(** [base64.urlsafe_b64encode]: the alphabet, three bytes at a time. *)
Definition b64_char (x : Z) : N :=
  Z.to_N (if x <? 26 then 65 + x else if x <? 52 then 71 + x else if x <? 62 then x - 4
          else if x =? 62 then 45 else 95).
Definition EQUALS : N := 61.

Fixpoint urlsafe_b64encode (b : bytes) : str :=
  match b with
  | x :: y :: z :: r =>
      b64_char (x / 4) :: b64_char (x mod 4 * 16 + y / 16) :: b64_char (y mod 16 * 4 + z / 64)
      :: b64_char (z mod 64) :: urlsafe_b64encode r
  | [x; y] => [b64_char (x / 4); b64_char (x mod 4 * 16 + y / 16); b64_char (y mod 16 * 4); EQUALS]
  | [x] => [b64_char (x / 4); b64_char (x mod 4 * 16); EQUALS; EQUALS]
  | [] => []
  end.

(** The value of a character after the translation of [-_] to [+/]. *)
Definition b64_value (c : N) : option Z :=
  let z := Z.of_N c in
  if (65 <=? z) && (z <=? 90) then Some (z - 65)
  else if (97 <=? z) && (z <=? 122) then Some (z - 71)
  else if (48 <=? z) && (z <=? 57) then Some (z + 4)
  else if (z =? 45) || (z =? 43) then Some 62
  else if (z =? 95) || (z =? 47) then Some 63
  else None.

(** [binascii.a2b_base64] without strict mode: other characters are skipped, a
    complete padding ends the input.  [quad] characters of the current group
    were read, [left] holds the bits not yet output. *)
Fixpoint a2b_base64 (s : str) (quad : nat) (left : Z) (pads : nat) : option bytes :=
  match s with
  | [] => match quad with O => Some [] | _ => None end
  | c :: r =>
      if (c =? EQUALS)%N then
        if (2 <=? quad)%nat then
          if (4 <=? quad + S pads)%nat then Some [] else a2b_base64 r quad left (S pads)
        else a2b_base64 r quad left pads
      else
        match b64_value c with
        | None => a2b_base64 r quad left pads
        | Some v =>
            match quad with
            | 0%nat => a2b_base64 r 1 v 0
            | 1%nat => cons (left * 4 + v / 16) <$> a2b_base64 r 2 (v mod 16) 0
            | 2%nat => cons (left * 16 + v / 4) <$> a2b_base64 r 3 (v mod 4) 0
            | _ => cons (left * 64 + v) <$> a2b_base64 r 0 0 0
            end
        end
  end.

(** [None]: ValueError, for characters beyond ASCII and incomplete groups. *)
Definition urlsafe_b64decode (s : str) : option bytes :=
  if forallb (fun c => (c <? 128)%N) s then a2b_base64 s 0 0 0 else None.

(** [s.rstrip("=")] and [s + "=" * (-len(s) % 4)]. *)
Fixpoint drop_equals (s : str) : str :=
  match s with c :: r => if (c =? EQUALS)%N then drop_equals r else s | [] => [] end.
Definition rstrip_equals (s : str) : str := rev (drop_equals (rev s)).
Definition pad_equals (s : str) : str :=
  s ++ replicate (Z.to_nat ((- Z.of_nat (length s)) mod 4)) EQUALS.

Definition encode_token (text : str) : str := rstrip_equals (urlsafe_b64encode (map Z.of_N text)).
(** [urlsafe_b64decode(padded).decode()]; [None]: ValueError. *)
Definition decode_token (value : str) : option str := b ← urlsafe_b64decode (pad_equals value); utf8_decode b.

(** ** [int(text)]

    Decimal digits beyond ASCII are a table of Unicode. *)
Definition MAX_STR_DIGITS : nat := 4300.

Section cursors.
  Context (unicode_decimal : N -> option Z).

Definition int_char (c : N) : N :=
  if (c <? 127)%N then c
  else if is_space c then SPACE
  else match unicode_decimal c with Some d => Z.to_N (48 + d) | None => 63%N end.

Definition is_c_space (c : N) : bool := ((9 <=? c) && (c <=? 13) || (c =? 32))%N.
Fixpoint skip_spaces (s : str) : str :=
  match s with c :: r => if is_c_space c then skip_spaces r else s | [] => [] end.

(** Digits with single underscores between them: value, count and rest. *)
Fixpoint take_digits (s : str) (acc : Z) (n : nat) (underscore : bool) : option (Z * nat * str) :=
  match s with
  | c :: r =>
      if is_digit c then take_digits r (acc * 10 + (Z.of_N c - 48)) (S n) false
      else if (c =? 95)%N then if underscore then None else take_digits r acc n true
      else if underscore then None else Some (acc, n, s)
  | [] => if underscore then None else Some (acc, n, [])
  end.

(** [None]: ValueError. *)
Definition py_int (text : str) : option Z :=
  let s := skip_spaces (map int_char text) in
  let '(negative, s) := match s with
                        | c :: r => if (c =? 45)%N then (true, r) else if (c =? 43)%N then (false, r) else (false, s)
                        | [] => (false, s)
                        end in
  match take_digits s 0 0 true with
  | Some (v, n, rest) =>
      if (MAX_STR_DIGITS <? n)%nat then None
      else match skip_spaces rest with [] => Some (if negative : bool then - v else v) | _ => None end
  | None => None
  end.

(** ** Cursors *)

Definition invalid_cursor {A} : res A := agent_error "invalid_cursor".

Definition _encode_cursor (offset : Z) : str := encode_token (str_of_Z offset).

Definition _decode_cursor (value : option str) : res Z :=
  match value with
  | None | Some [] => Ok 0
  | Some v =>
      match (t ← decode_token v; py_int t) with
      | Some offset => if offset <? 0 then invalid_cursor else Ok offset
      | None => invalid_cursor
      end
  end.

Definition SEARCH_VERSION : str := lit "search-v2".

Definition _encode_search_cursor (candidate_index line_index : Z) : str :=
  encode_token (SEARCH_VERSION ++ [COLON] ++ str_of_Z candidate_index ++ [COLON] ++ str_of_Z line_index).

Definition _decode_search_cursor (value : option str) : res (Z * Z) :=
  match value with
  | None | Some [] => Ok (0, 0)
  | Some v =>
      match decode_token v with
      | Some t =>
          match split_on COLON t with
          | [version; candidate_text; line_text] =>
              match py_int candidate_text, py_int line_text with
              | Some c, Some l =>
                  if negb (bool_decide (version = SEARCH_VERSION)) || (c <? 0) || (l <? 0) then invalid_cursor
                  else Ok (c, l)
              | _, _ => invalid_cursor
              end
          | _ => invalid_cursor
          end
      | None => invalid_cursor
      end
  end.

(** [text.split(":", 1)] *)
Fixpoint split_once (c : N) (s : str) : option (str * str) :=
  match s with
  | [] => None
  | a :: r => if (a =? c)%N then Some ([], r)
              else match split_once c r with Some (x, y) => Some (a :: x, y) | None => None end
  end.

Definition _encode_read_cursor (line_index character_offset : Z) : str :=
  encode_token (str_of_Z line_index ++ [COLON] ++ str_of_Z character_offset).

Definition _decode_read_cursor (value : str) : res (Z * Z) :=
  match (t ← decode_token value; split_once COLON t) with
  | Some (line_text, character_text) =>
      match py_int line_text, py_int character_text with
      | Some l, Some c => if (l <? 0) || (c <? 0) then invalid_cursor else Ok (l, c)
      | _, _ => invalid_cursor
      end
  | None => invalid_cursor
  end.
End cursors.

(** ** Round trips *)

Lemma small_cases (P : Z -> bool) (n : nat) : forallb P (map Z.of_nat (seq 0 n)) = true ->
  forall x, 0 <= x < Z.of_nat n -> P x = true.
Proof.
  intros H x Hx. rewrite forallb_forall in H. apply H. rewrite in_map_iff. exists (Z.to_nat x).
  rewrite in_seq. split; lia.
Qed.

Definition b64_char_test (x : Z) : bool :=
  match b64_value (b64_char x) with Some y => y =? x | None => false end &&
  negb (b64_char x =? EQUALS)%N && (b64_char x <? 128)%N.

Lemma b64_char_ok x : 0 <= x < 64 -> b64_value (b64_char x) = Some x /\ (b64_char x =? EQUALS)%N = false /\ (b64_char x <? 128)%N = true.
Proof.
  intros Hx. assert (b64_char_test x = true) as H by (apply (small_cases b64_char_test 64); [vm_compute; reflexivity|lia]).
  unfold b64_char_test in H. reflect_bools. destruct (b64_value (b64_char x)); [|done]. split; [f_equal; lia|done].
Qed.

Lemma a2b_char x r quad left pads : 0 <= x < 64 -> (quad < 4)%nat ->
  a2b_base64 (b64_char x :: r) quad left pads =
  match quad with
  | 0%nat => a2b_base64 r 1 x 0
  | 1%nat => cons (left * 4 + x / 16) <$> a2b_base64 r 2 (x mod 16) 0
  | 2%nat => cons (left * 16 + x / 4) <$> a2b_base64 r 3 (x mod 4) 0
  | _ => cons (left * 64 + x) <$> a2b_base64 r 0 0 0
  end.
Proof. intros Hx Hq. destruct (b64_char_ok x Hx) as (E1 & E2 & _). cbn [a2b_base64]. by rewrite E2, E1. Qed.

(** Induction over groups of three. *)
Lemma triple_ind {A} (P : list A -> Prop) : P [] -> (forall x, P [x]) -> (forall x y, P [x; y]) ->
  (forall x y z r, P r -> P (x :: y :: z :: r)) -> forall l, P l.
Proof.
  intros H0 H1 H2 H3. assert (forall l, P l /\ (forall x, P (x :: l)) /\ forall x y, P (x :: y :: l)) as H; [|apply H].
  induction l as [|a l (I1 & I2 & I3)]; [auto|]. auto.
Qed.

Ltac byte_bounds :=
  repeat match goal with
  | H : Forall is_byte (_ :: _) |- _ => let H' := fresh in apply Forall_cons in H as [H' H]; unfold is_byte in H'
  end.

Lemma a2b_encode b : Forall is_byte b -> a2b_base64 (urlsafe_b64encode b) 0 0 0 = Some b.
Proof.
  induction b as [|x|x y|x y z r IH] using triple_ind; intros H; byte_bounds; [done| | |];
    cbn [urlsafe_b64encode]; rewrite !a2b_char by first [lia | zdiv].
  - cbn. f_equal. f_equal. zdiv.
  - cbn. repeat f_equal; zdiv.
  - rewrite (IH H). cbn. repeat f_equal; zdiv.
Qed.

Lemma b64_ascii b : Forall is_byte b -> forallb (fun c => (c <? 128)%N) (urlsafe_b64encode b) = true.
Proof.
  assert (forall x, 0 <= x < 64 -> (b64_char x <? 128)%N = true) as Hc by (intros x Hx; apply b64_char_ok, Hx).
  induction b as [|x|x y|x y z r IH] using triple_ind; intros H; byte_bounds; [done| | |];
    cbn [urlsafe_b64encode forallb]; rewrite !Hc by first [lia | zdiv]; [done..|]. by apply IH.
Qed.

Lemma drop_equals_char x r : 0 <= x < 64 -> drop_equals (b64_char x :: r) = b64_char x :: r.
Proof. intros H. destruct (b64_char_ok x H) as (_ & E & _). cbn [drop_equals]. by rewrite E. Qed.

Lemma rev_replicate {A} k (x : A) : rev (replicate k x) = replicate k x.
Proof. rewrite rev_alt. apply (reverse_replicate k x). Qed.

(** The text ends with its last character or with one or two pads. *)
Lemma repad b : Forall is_byte b -> pad_equals (rstrip_equals (urlsafe_b64encode b)) = urlsafe_b64encode b.
Proof.
  intros H. assert (exists s k, urlsafe_b64encode b = s ++ replicate k EQUALS /\ drop_equals (rev s) = rev s /\
    (Z.of_nat (length s) + Z.of_nat k) mod 4 = 0 /\ (k <= 2)%nat) as (s & k & E & Es & Em & Hk).
  { induction b as [|x|x y|x y z r IH] using triple_ind; byte_bounds; cbn [urlsafe_b64encode].
    - exists [], 0%nat. repeat split. lia.
    - exists [b64_char (x / 4); b64_char (x mod 4 * 16)], 2%nat. split; [done|]. cbn [rev app].
      rewrite drop_equals_char by zdiv. split; [done|]. split; [done|lia].
    - exists [b64_char (x / 4); b64_char (x mod 4 * 16 + y / 16); b64_char (y mod 16 * 4)], 1%nat. split; [done|].
      cbn [rev app]. rewrite drop_equals_char by zdiv. split; [done|]. split; [done|lia].
    - destruct (IH H) as (s & k & E & Es & Em & Hk). rewrite E.
      exists (b64_char (x / 4) :: b64_char (x mod 4 * 16 + y / 16) :: b64_char (y mod 16 * 4 + z / 64) :: b64_char (z mod 64) :: s), k.
      split; [done|]. split; [|split; [cbn [length]; zdiv|done]]. cbn [rev]. rewrite <-!app_assoc. cbn [app].
      destruct (rev s) as [|c t] eqn:Er; [cbn [app]; by rewrite drop_equals_char by zdiv|].
      cbn [app drop_equals] in *. destruct (c =? EQUALS)%N eqn:Ec; [|done].
      exfalso. assert (length (drop_equals t) <= length t)%nat as Hl.
      { clear. induction t as [|d t IH]; cbn; [lia|]. case_match; cbn; lia. }
      rewrite Es in Hl. cbn in Hl. lia. }
  assert (forall t j, drop_equals (replicate j EQUALS ++ t) = drop_equals t) as Hd.
  { intros t. induction j as [|j IH]; [done|]. cbn [replicate app drop_equals]. by rewrite N.eqb_refl. }
  unfold rstrip_equals. rewrite E, rev_app_distr, rev_replicate, Hd, Es, rev_involutive. unfold pad_equals. do 2 f_equal.
  assert ((- Z.of_nat (length s)) mod 4 = Z.of_nat k) as -> by zdiv. lia.
Qed.

Lemma decode_encode_token t : forallb (fun c => (c <? 128)%N) t = true -> decode_token (encode_token t) = Some t.
Proof.
  intros H. assert (Forall is_byte (map Z.of_N t)) as Hb.
  { apply Forall_forall. intros z Hz. apply list_elem_of_In, in_map_iff in Hz as (c & <- & Hc).
    rewrite forallb_forall in H. apply H in Hc. unfold is_byte. lia. }
  unfold decode_token, encode_token. rewrite repad by done. unfold urlsafe_b64decode. rewrite b64_ascii by done.
  rewrite a2b_encode by done. cbn.
  assert (utf8_encode t = Some (map Z.of_N t)) as E; [|by apply utf8_decode_encode].
  unfold utf8_encode. rewrite (forallb_impl (fun c => (c <? 128)%N)); [|intros c Hc; unfold is_scalar; lia|done].
  f_equal. clear Hb. induction t as [|c t IH]; [done|]. cbn in H. apply andb_true_iff in H as [Hc Ht].
  unfold encode_all in *. cbn [map concat]. rewrite IH by done. unfold encode_cp.
  by replace (Z.of_N c <? 128) with true by lia.
Qed.

(** *** Decimal text *)

Definition digit_of (d : Decimal.uint) : Z :=
  match d with
  | Decimal.Nil | Decimal.D0 _ => 0 | Decimal.D1 _ => 1 | Decimal.D2 _ => 2 | Decimal.D3 _ => 3 | Decimal.D4 _ => 4
  | Decimal.D5 _ => 5 | Decimal.D6 _ => 6 | Decimal.D7 _ => 7 | Decimal.D8 _ => 8 | Decimal.D9 _ => 9
  end.

(** Horner's rule over the digits. *)
Fixpoint horner (d : Decimal.uint) (acc : Z) : Z :=
  match d with
  | Decimal.Nil => acc
  | Decimal.D0 e | Decimal.D1 e | Decimal.D2 e | Decimal.D3 e | Decimal.D4 e
  | Decimal.D5 e | Decimal.D6 e | Decimal.D7 e | Decimal.D8 e | Decimal.D9 e => horner e (acc * 10 + digit_of d)
  end.

Lemma horner_pos d p : Z.pos (Pos.of_uint_acc d p) = horner d (Z.pos p).
Proof.
  revert p. induction d as [|d IH|d IH|d IH|d IH|d IH|d IH|d IH|d IH|d IH|d IH]; intros p; [done|..];
    cbn [Pos.of_uint_acc horner digit_of]; rewrite IH; f_equal; lia.
Qed.
Lemma horner_of_uint d : Z.of_N (Pos.of_uint d) = horner d 0.
Proof.
  induction d as [|d IH|d IH|d IH|d IH|d IH|d IH|d IH|d IH|d IH|d IH]; [done|..];
    cbn [Pos.of_uint horner digit_of]; [apply IH|..]; apply horner_pos.
Qed.

Lemma horner_lower d acc : 0 <= acc -> acc * 10 ^ Z.of_nat (Decimal.nb_digits d) <= horner d acc.
Proof.
  revert acc. induction d as [|d IH|d IH|d IH|d IH|d IH|d IH|d IH|d IH|d IH|d IH]; intros acc Ha; cbn [Decimal.nb_digits]; [cbn; lia|..];
    cbn [horner]; rewrite Nat2Z.inj_succ, Z.pow_succ_r by lia;
    (etransitivity; [|apply IH; cbn [digit_of]; lia]); cbn [digit_of];
    assert (0 <= 10 ^ Z.of_nat (Decimal.nb_digits d)) as Hp by (apply Z.pow_nonneg; lia); nia.
Qed.

Lemma nzhead_not_D0 d e : Decimal.nzhead d <> Decimal.D0 e.
Proof. induction d; cbn [Decimal.nzhead]; done. Qed.

(** A number below [10 ^ n] has at most [n] digits. *)
Lemma digits_bound z n : 0 <= z < 10 ^ Z.of_nat n -> (0 < n)%nat -> (Decimal.nb_digits (N.to_uint (Z.to_N z)) <= n)%nat.
Proof.
  intros Hz Hn. set (d := N.to_uint (Z.to_N z)).
  assert (horner d 0 = z) as Hd by (rewrite <-horner_of_uint; change (Pos.of_uint d) with (N.of_uint d);
    unfold d; rewrite DecimalN.Unsigned.of_to; lia).
  assert (Decimal.unorm d = d) as Hu by (unfold d; by rewrite <-DecimalN.Unsigned.to_of, DecimalN.Unsigned.of_to).
  unfold Decimal.unorm in Hu. destruct (Decimal.nzhead d) eqn:E.
  all: try (rewrite <-Hu; cbn; lia).
  { by apply nzhead_not_D0 in E. }
  all: rewrite <-Hu in *; cbn [Decimal.nb_digits horner digit_of] in *;
    match goal with |- (S (Decimal.nb_digits ?e) <= _)%nat => pose proof (horner_lower e) as Hl; set (k := Decimal.nb_digits e) in * end;
    destruct (decide (k < n)%nat) as [|Hk]; [lia|exfalso];
    match type of Hd with horner _ ?a = _ => specialize (Hl a ltac:(lia)) end;
    assert (10 ^ Z.of_nat n <= 10 ^ Z.of_nat k) by (apply Z.pow_le_mono_r; lia); nia.
Qed.

Lemma lit_string (x : Ascii.ascii) s : lit (String.String x s) = Ascii.N_of_ascii x :: lit s.
Proof. done. Qed.

Lemma take_digits_uint d acc n : take_digits (lit (NilEmpty.string_of_uint d)) acc n false =
  Some (horner d acc, (n + Decimal.nb_digits d)%nat, []).
Proof.
  revert acc n. induction d as [|d IH|d IH|d IH|d IH|d IH|d IH|d IH|d IH|d IH|d IH]; intros acc n;
    [cbn; by rewrite Nat.add_0_r|..];
    cbn [NilEmpty.string_of_uint]; rewrite lit_string; cbn [take_digits];
    match goal with |- context [is_digit ?c] => change (is_digit c) with true end; cbn iota;
    rewrite IH; cbn [horner Decimal.nb_digits]; do 3 f_equal; lia.
Qed.

Lemma uint_text_digits d : forallb is_digit (lit (NilEmpty.string_of_uint d)) = true.
Proof.
  induction d as [|d IH|d IH|d IH|d IH|d IH|d IH|d IH|d IH|d IH|d IH]; [done|..];
    cbn [NilEmpty.string_of_uint]; rewrite lit_string; cbn [forallb];
    match goal with |- context [is_digit ?c] => change (is_digit c) with true end; apply IH.
Qed.

Lemma str_of_Z_uint z : 0 <= z -> str_of_Z z = lit (NilEmpty.string_of_uint (N.to_uint (Z.to_N z))) /\
  N.to_uint (Z.to_N z) <> Decimal.Nil.
Proof.
  intros Hz. assert (N.to_uint (Z.to_N z) <> Decimal.Nil) as Hn.
  { intros E. pose proof (DecimalN.Unsigned.of_to (Z.to_N z)) as H. rewrite E in H. cbn in H. by rewrite <-H in E. }
  split; [|done]. unfold str_of_Z. f_equal. destruct z as [|p|p]; [done| |lia].
  cbn in *. by destruct (Pos.to_uint p).
Qed.

Definition small (z : Z) : Prop := 0 <= z < 10 ^ 4300.

Lemma str_of_Z_digits z : 0 <= z -> forallb is_digit (str_of_Z z) = true /\ str_of_Z z <> [].
Proof.
  intros Hz. destruct (str_of_Z_uint z Hz) as [-> Hn]. split; [apply uint_text_digits|].
  by destruct (N.to_uint (Z.to_N z)).
Qed.

Lemma digits_plain unicode_decimal s : forallb is_digit s = true -> map (int_char unicode_decimal) s = s /\ skip_spaces s = s.
Proof.
  intros H. split.
  - induction s as [|c s IH]; [done|]. cbn in *. apply andb_true_iff in H as [Hc Hs]. rewrite IH by done. f_equal.
    unfold int_char. unfold is_digit in Hc. by replace (c <? 127)%N with true by lia.
  - destruct s as [|c s]; [done|]. cbn in *. apply andb_true_iff in H as [Hc _].
    unfold is_c_space, is_digit in *. by replace ((9 <=? c) && (c <=? 13) || (c =? 32))%N with false by lia.
Qed.

Lemma py_int_str unicode_decimal z : small z -> py_int unicode_decimal (str_of_Z z) = Some z.
Proof.
  intros [Hz Hb]. destruct (str_of_Z_digits z Hz) as [Hd Hne]. destruct (digits_plain unicode_decimal _ Hd) as [Em Es].
  unfold py_int. rewrite Em, Es. destruct (str_of_Z_uint z Hz) as [E _].
  pose proof (take_digits_uint (N.to_uint (Z.to_N z)) 0 0) as Ht. rewrite <-E in Ht.
  destruct (str_of_Z z) as [|c r] eqn:Ec; [done|]. cbn [forallb] in Hd. apply andb_true_iff in Hd as [Hc _].
  assert ((c =? 45)%N = false /\ (c =? 43)%N = false) as [-> ->] by (unfold is_digit in Hc; lia).
  assert (take_digits (c :: r) 0 0 true = take_digits (c :: r) 0 0 false) as -> by (cbn [take_digits]; by rewrite Hc).
  rewrite Ht. cbn [Nat.add]. pose proof (digits_bound z 4300 ltac:(exact (conj Hz Hb)) ltac:(lia)) as Hl.
  unfold MAX_STR_DIGITS. destruct (4300 <? _)%nat eqn:El; [apply Nat.ltb_lt in El; lia|]. cbn [skip_spaces].
  f_equal. rewrite <-horner_of_uint. change (Pos.of_uint (N.to_uint (Z.to_N z))) with (N.of_uint (N.to_uint (Z.to_N z))).
  rewrite DecimalN.Unsigned.of_to. lia.
Qed.

Lemma digits_no_colon s : forallb is_digit s = true -> contains_char COLON s = false.
Proof.
  unfold contains_char. induction s as [|c s IH]; [done|]. cbn [forallb existsb]. intros [Hc Hs]%andb_true_iff.
  rewrite IH by done. unfold is_digit in Hc. by replace (COLON =? c)%N with false by (unfold COLON; lia).
Qed.

Lemma split_once_colon x y : contains_char COLON x = false -> split_once COLON (x ++ [COLON] ++ y) = Some (x, y).
Proof.
  unfold contains_char. induction x as [|c x IH]; [done|]. cbn [existsb app split_once]. intros [Hc Hx]%orb_false_iff.
  rewrite N.eqb_sym, Hc. cbn [app] in IH. by rewrite IH.
Qed.

Lemma ascii_digits s : forallb is_digit s = true -> forallb (fun c => (c <? 128)%N) s = true.
Proof. apply forallb_impl. intros c. unfold is_digit. lia. Qed.

Lemma encode_token_nonempty s : forallb (fun c => (c <? 128)%N) s = true -> s <> [] -> encode_token s <> [].
Proof. intros Hs Hne E. apply decode_encode_token in Hs. rewrite E in Hs. change (Some [] = Some s) in Hs. congruence. Qed.

Lemma cursor_roundtrip unicode_decimal z : small z -> _decode_cursor unicode_decimal (Some (_encode_cursor z)) = Ok z.
Proof.
  intros H. destruct (str_of_Z_digits z (proj1 H)) as [Hd Hne]. unfold _decode_cursor, _encode_cursor.
  pose proof (encode_token_nonempty _ (ascii_digits _ Hd) Hne) as Hn. pose proof (decode_encode_token _ (ascii_digits _ Hd)) as Ht.
  destruct (encode_token (str_of_Z z)) as [|c r]; [done|]. rewrite Ht. cbn. rewrite py_int_str by done.
  destruct H. by replace (z <? 0) with false by lia.
Qed.

Lemma read_cursor_roundtrip unicode_decimal l c : small l -> small c ->
  _decode_read_cursor unicode_decimal (_encode_read_cursor l c) = Ok (l, c).
Proof.
  intros Hl Hc. destruct (str_of_Z_digits l (proj1 Hl)) as [Hdl _]. destruct (str_of_Z_digits c (proj1 Hc)) as [Hdc _].
  unfold _decode_read_cursor, _encode_read_cursor. rewrite decode_encode_token.
  2: { rewrite !forallb_app, (ascii_digits _ Hdl), (ascii_digits _ Hdc). reflexivity. }
  cbn [mbind option_bind]. rewrite split_once_colon by by apply digits_no_colon. rewrite !py_int_str by done.
  destruct Hl, Hc. by replace ((l <? 0) || (c <? 0)) with false by lia.
Qed.

Lemma search_cursor_roundtrip unicode_decimal f l : small f -> small l ->
  _decode_search_cursor unicode_decimal (Some (_encode_search_cursor f l)) = Ok (f, l).
Proof.
  intros Hf Hl. destruct (str_of_Z_digits f (proj1 Hf)) as [Hdf _]. destruct (str_of_Z_digits l (proj1 Hl)) as [Hdl _].
  unfold _decode_search_cursor, _encode_search_cursor.
  set (t := SEARCH_VERSION ++ _).
  assert (forallb (fun c => (c <? 128)%N) t = true) as Ha.
  { unfold t. rewrite !forallb_app, (ascii_digits _ Hdf), (ascii_digits _ Hdl). reflexivity. }
  pose proof (encode_token_nonempty t Ha ltac:(done)) as Hn. pose proof (decode_encode_token t Ha) as Ht.
  destruct (encode_token t) as [|c r]; [done|]. rewrite Ht. unfold t. cbn [app].
  rewrite split_on_app by done. rewrite split_on_app by by apply digits_no_colon.
  rewrite split_on_single by by apply digits_no_colon. rewrite !py_int_str by done.
  rewrite bool_decide_refl. destruct Hf, Hl. cbn [negb orb]. by replace ((f <? 0) || (l <? 0)) with false by lia.
Qed.
