(* ===== verification/ReadTools.v ===== *)
(** * The read tools: listing, reading and searching a project (read_tools.py)

    [ProjectReadService] over what the file system and the path resolver answer,
    with its encodings, globs, limits and continuation cursors; the theorems say
    that a client that follows the cursors sees everything exactly once. *)
From S2P Require Import Prelude Utf8 PyStr Models Paths PatchFormat Database ReadText.

Open Scope Z_scope.

Definition MAX_READ_BYTES : Z := 2097152.
Definition MAX_SEARCH_FILE_BYTES : Z := 2097152.
Definition MAX_SEARCH_SCANNED_BYTES : Z := 33554432.
Definition MAX_DIRECTORY_RESULTS : Z := 1000.
Definition MAX_SEARCH_RESULTS : Z := 500.
Definition MAX_DIRECTORY_SCANNED : Z := 10000.
Definition MAX_SEARCH_FILES : Z := 10000.

(** ** Text files *)

Inductive encoding := UTF8 | UTF8_SIG | UTF16_LE | UTF16_BE.

(** The 16-bit units of a byte string; an odd byte at the end is an error. *)
Fixpoint units (big : bool) (b : bytes) : option (list Z) :=
  match b with
  | [] => Some []
  | x :: y :: r => cons (if big then x * 256 + y else y * 256 + x) <$> units big r
  | [_] => None
  end.

Fixpoint utf16_units (l : list Z) : option str :=
  match l with
  | [] => Some []
  | u :: r =>
      if (55296 <=? u) && (u <=? 56319) then
        match r with
        | v :: r' => if (56320 <=? v) && (v <=? 57343)
                     then cons (Z.to_N (65536 + (u - 55296) * 1024 + (v - 56320))) <$> utf16_units r' else None
        | [] => None
        end
      else if (56320 <=? u) && (u <=? 57343) then None
      else cons (Z.to_N u) <$> utf16_units r
  end.

Definition UTF16_LE_BOM : bytes := [255; 254].
Definition UTF16_BE_BOM : bytes := [254; 255].
Definition prefixed (p raw : bytes) : bool := bool_decide (p `prefix_of` raw).

(** [bytes.decode("utf-16")] after a byte order mark. *)
Definition utf16_decode (raw : bytes) : option str := u ← units (prefixed UTF16_BE_BOM raw) (drop 2 raw); utf16_units u.

Definition unsupported {A} : res A := agent_error "unsupported_encoding".

Definition _detect_text (raw : bytes) : res (str * encoding) :=
  if existsb (Z.eqb 0) (take 8192 raw) && negb (prefixed UTF16_LE_BOM raw) && negb (prefixed UTF16_BE_BOM raw)
  then agent_error "binary_file"
  else if prefixed BOM raw then
    match utf8_decode (drop 3 raw) with Some t => Ok (t, UTF8_SIG) | None => unsupported end
  else if prefixed UTF16_LE_BOM raw || prefixed UTF16_BE_BOM raw then
    match utf16_decode raw with
    | Some t => Ok (t, if prefixed UTF16_LE_BOM raw then UTF16_LE else UTF16_BE)
    | None => unsupported
    end
  else match utf8_decode raw with Some t => Ok (t, UTF8) | None => unsupported end.

(** [len(text.encode(_payload_codec(encoding)))] of a text without surrogates. *)
Definition char_size (e : encoding) (c : N) : Z :=
  match e with
  | UTF8 | UTF8_SIG => Z.of_nat (length (encode_cp c))
  | UTF16_LE | UTF16_BE => if (c <? 65536)%N then 2 else 4
  end.
Definition payload_size (e : encoding) (t : str) : Z := foldr (fun c n => char_size e c + n) 0 t.

(** [text.count(p)] for a pair and for a character. *)
Fixpoint count_crlf (s : str) : Z :=
  match s with
  | c :: r => match r with
              | d :: r' => if ((c =? CR) && (d =? LF))%N then 1 + count_crlf r' else count_crlf r
              | [] => 0
              end
  | [] => 0
  end.
Definition count_char (c : N) (s : str) : Z := Z.of_nat (length (filter (fun d => d = c) s)).

Definition _newline_style (text : str) : str :=
  let crlf := count_crlf text in
  let lf := count_char LF text - crlf in
  let cr := count_char CR text - crlf in
  let kinds := (if 0 <? crlf then 1 else 0) + (if 0 <? lf then 1 else 0) + (if 0 <? cr then 1 else 0) in
  if 1 <? kinds then lit "mixed"
  else if negb (crlf =? 0) then lit "crlf" else if negb (lf =? 0) then lit "lf"
  else if negb (cr =? 0) then lit "cr" else lit "none".

(** ** Globs: [fnmatch.fnmatchcase] *)

Inductive glob_item := GStar | GAny | GChar (c : N) | GSet (negated : bool) (ranges : list (N * N)) | GNever.

(** [s.find(c, from)] as a split, and the pieces between the hyphens of a
    bracket: a hyphen starts a range only after at least one character. *)
Fixpoint find_char (c : N) (s : str) : option nat :=
  match s with
  | [] => None
  | a :: r => if (a =? c)%N then Some O else S <$> find_char c r
  end.

Definition HYPHEN : N := 45.
Definition BANG : N := 33.

Fixpoint bracket_chunks (fuel : nat) (s : str) (from : nat) : list str :=
  match fuel with
  | O => [s]
  | S fuel =>
      match find_char HYPHEN (drop from s) with
      | Some k => take (from + k) s :: bracket_chunks fuel (drop (from + k + 1) s) 2
      | None => [s]
      end
  end.

(** An empty last chunk gives its hyphen back to the chunk before it. *)
Fixpoint close_chunks (l : list str) : list str :=
  match l with
  | [a; []] => [a ++ [HYPHEN]]
  | a :: r => a :: close_chunks r
  | [] => []
  end.

(** The loop over the chunks from the last to the first: an empty range
    disappears with both its ends. *)
Fixpoint merge_chunks (l : list str) : list str :=
  match l with
  | a :: r =>
      match merge_chunks r with
      | b :: r' =>
          match last a, head b with
          | Some x, Some y => if (y <? x)%N then (removelast a ++ tail b) :: r' else a :: b :: r'
          | _, _ => a :: b :: r'
          end
      | [] => [a]
      end
  | [] => []
  end.

(** Characters and ranges of chunks that are joined by hyphens. *)
Fixpoint chunk_ranges (l : list str) : list (N * N) :=
  match l with
  | [] => []
  | a :: r =>
      map (fun c => (c, c)) a ++
      match r, last a with
      | b :: _, Some x => match head b with Some y => [(x, y)] | None => [] end
      | _, _ => []
      end ++ chunk_ranges r
  end.

Definition bracket_item (stuff : str) : glob_item :=
  let chunks := if contains_char HYPHEN stuff
                then merge_chunks (close_chunks (bracket_chunks (length stuff) stuff
                       (if bool_decide (head stuff = Some BANG) then 2 else 1)))
                else [stuff] in
  match chunks with
  | [[]] | [] => GNever
  | [c] => if bool_decide (c = [BANG]) then GAny
           else if bool_decide (head c = Some BANG) then GSet true (chunk_ranges [tail c])
           else GSet false (chunk_ranges [c])
  | c :: r => if bool_decide (head c = Some BANG) then GSet true (chunk_ranges (tail c :: r))
              else GSet false (chunk_ranges (c :: r))
  end.

(** Where the bracket ends: the first [\]] after an optional [!] and a first
    character that may be [\]] itself. *)
Definition bracket_end (s : str) : option nat :=
  let skip := match s with
              | a :: b :: _ => if (a =? BANG)%N then if (b =? 93)%N then 2%nat else 1%nat
                               else if (a =? 93)%N then 1%nat else 0%nat
              | [a] => if ((a =? BANG) || (a =? 93))%N then 1%nat else 0%nat
              | [] => 0%nat
              end in
  Nat.add skip <$> find_char 93 (drop skip s).

Fixpoint glob_items (fuel : nat) (s : str) : list glob_item :=
  match fuel, s with
  | S fuel, c :: r =>
      if (c =? 42)%N then GStar :: glob_items fuel r
      else if (c =? 63)%N then GAny :: glob_items fuel r
      else if (c =? 91)%N then
        match bracket_end r with
        | Some j => bracket_item (take j r) :: glob_items fuel (drop (S j) r)
        | None => GChar 91 :: glob_items fuel r
        end
      else GChar c :: glob_items fuel r
  | _, _ => []
  end.

Definition item_matches (i : glob_item) (c : N) : bool :=
  match i with
  | GStar | GNever => false
  | GAny => true
  | GChar d => (c =? d)%N
  | GSet neg ranges => xorb neg (existsb (fun r => (r.1 <=? c) && (c <=? r.2))%N ranges)
  end.

Fixpoint items_match (l : list glob_item) (s : str) : bool :=
  match l with
  | [] => bool_decide (s = [])
  | GStar :: l' => (fix star (s : str) := items_match l' s || match s with _ :: r => star r | [] => false end) s
  | i :: l' => match s with c :: r => item_matches i c && items_match l' r | [] => false end
  end.

Definition fnmatchcase (name pattern : str) : bool := items_match (glob_items (length pattern) pattern) name.

(** [pattern.replace("**/", "", 1)], if it occurs. *)
Definition DOUBLE_STAR : str := lit "**/".
Fixpoint drop_double_star (s : str) : option str :=
  if starts_with DOUBLE_STAR s then Some (drop 3 s)
  else match s with c :: r => cons c <$> drop_double_star r | [] => None end.

Fixpoint glob_candidates (fuel : nat) (pattern : str) : list str :=
  pattern :: match fuel with
             | S fuel => match drop_double_star pattern with Some p => glob_candidates fuel p | None => [] end
             | O => []
             end.

Definition _glob_matches (path pattern : str) : bool := existsb (fnmatchcase path) (glob_candidates (length pattern) pattern).

Definition check_glob (pattern : str) : res unit :=
  if bool_decide (pattern = []) || (200 <? Z.of_nat (length pattern)) || contains_char BACKSLASH pattern || contains_char 0 pattern
  then agent_error "invalid_glob"
  else if starts_with [SLASH] pattern || contains_char COLON pattern then agent_error "invalid_glob"
  else if existsb (fun part => bool_decide (part = [DOT; DOT])) (split_on SLASH pattern) then agent_error "invalid_glob"
  else Ok tt.

Example glob_examples :
  map (fun np => fnmatchcase (lit np.1) (lit np.2))
    [("a.py", "*.py"); ("a-c", "a[a-]c"); ("x]", "x[]]"); ("b", "[!a]"); ("b", "[c-a]"); ("b", "[a-c]"); ("[", "["); ("d/b.py", "*.py")]%string
  = [true; true; true; true; false; true; true; true] /\
  _glob_matches (lit "b.py") (lit "**/*.py") = true.
Proof. vm_compute. auto. Qed.

(** ** The service *)

Definition invalid_request {A} : res A := agent_error "invalid_request".

(** An argument a client may leave out; [None] inside: of another type. *)
Definition argument := option (option Z).
Definition given (a : argument) : bool := match a with Some _ => true | None => false end.
Definition bad_line (a : argument) : bool :=
  match a with Some (Some n) => n <? 1 | Some None => true | None => false end.
Definition truthy_cursor (c : option str) : option str := match c with Some [] => None | c => c end.

(** *** read_file *)

(** The largest [low] whose prefix of [part] fits; [low <= answer <= high]. *)
Fixpoint fit_search (fuel : nat) (e : encoding) (part : str) (remaining : Z) (low high : nat) : nat :=
  match fuel with
  | O => low
  | S fuel =>
      if (low <? high)%nat then
        let middle := ((low + high + 1) / 2)%nat in
        if payload_size e (take middle part) <=? remaining
        then fit_search fuel e part remaining middle high
        else fit_search fuel e part remaining low (middle - 1)
      else low
  end.

(** The loop over the selected lines: the text and the position after it.
    [offset] belongs to the first line only. *)
Fixpoint take_lines (e : encoding) (remaining : Z) (index offset : nat) (ls : list str) (next : nat * nat) : str * (nat * nat) :=
  match ls with
  | [] => ([], next)
  | l :: r =>
      let part := drop offset l in
      let n := payload_size e part in
      if n <=? remaining then
        let '(t, p) := take_lines e (remaining - n) (S index) 0 r (S index, 0%nat) in (part ++ t, p)
      else
        let low := fit_search (length part) e part remaining 0 (length part) in
        if (low =? 0)%nat then ([], next) else (take low part, (index, offset + low)%nat)
  end.

(** [f"{number:>6} | {line}"] *)
Definition numbered_line (number : Z) (line : str) : str :=
  let d := str_of_Z number in replicate (6 - length d) SPACE ++ d ++ lit " | " ++ line.
Fixpoint number_lines (number : Z) (ls : list str) : str :=
  match ls with [] => [] | l :: r => numbered_line number l ++ number_lines (number + 1) r end.

Record read_result := {
  r_path : str; r_text : str; r_numbered : str; r_encoding : encoding; r_newline : str; r_size : Z; r_sha256 : str;
  r_first_line : Z; r_last_line : Z; r_truncated : bool; r_continuation : option str;
}.

Record read_request := {
  q_relative : str; q_start : argument; q_end : argument; q_max_bytes : Z; q_max_lines : option Z; q_cursor : option str;
}.

(** The checks before the project is touched. *)
Definition read_checks (q : read_request) : res unit :=
  if negb ((1 <=? q_max_bytes q) && (q_max_bytes q <=? MAX_READ_BYTES)) then invalid_request
  else if match q_max_lines q with Some n => negb ((1 <=? n) && (n <=? 2000)) | None => false end then invalid_request
  else if match truthy_cursor (q_cursor q) with Some _ => given (q_start q) || given (q_end q) | None => false end
  then invalid_request
  else if bad_line (q_start q) || bad_line (q_end q) then invalid_request
  else match q_start q, q_end q with
       | Some (Some s), Some (Some e) => if e <? s then invalid_request else Ok tt
       | _, _ => Ok tt
       end.

Section service.
  Context (sha256_hex : bytes -> str) (unicode_decimal : N -> option Z) (casefold_text : str -> str).

(** From the position to the page; [raw] are the bytes of the file. *)
Definition read_page (q : read_request) (relative : str) (raw : bytes) : res read_result :=
  if MAX_READ_BYTES * 8 <? Z.of_nat (length raw) then agent_error "file_too_large" else
  decoded <-? _detect_text raw ;;
  let '(text_all, e) := decoded in
  let ls := splitlines_keepends text_all in
  position <-? match truthy_cursor (q_cursor q) with
               | Some c => _decode_read_cursor unicode_decimal c
               | None => Ok (match q_start q with Some (Some s) => s - 1 | _ => 0 end, 0)
               end ;;
  let '(line_index, character_offset) := position in
  let total := Z.of_nat (length ls) in
  if (total <? line_index) || ((line_index =? total) && negb (character_offset =? 0)) then agent_error "invalid_cursor" else
  let stop := match q_end q with Some (Some n) => Z.min n total | _ => total end in
  let stop := match q_max_lines q with Some n => Z.min stop (line_index + n) | None => stop end in
  let first := Z.to_nat line_index in
  let selected := take (Z.to_nat stop - first) (drop first ls) in
  let '(text, (next_line, next_character)) :=
    take_lines e (q_max_bytes q) first (Z.to_nat character_offset) selected (first, Z.to_nat character_offset) in
  let truncated := (Z.of_nat next_line <? stop) || (0 <? Z.of_nat next_character) in
  Ok {| r_path := relative; r_text := text; r_numbered := number_lines (line_index + 1) (splitlines_keepends text);
        r_encoding := e; r_newline := _newline_style text_all; r_size := Z.of_nat (length raw); r_sha256 := sha256_hex raw;
        r_first_line := line_index + 1;
        r_last_line := if bool_decide (text = []) then 0
                       else line_index + 1 + Z.max 0 (Z.of_nat (length (splitlines text)) - 1);
        r_truncated := truncated;
        r_continuation := if truncated then Some (_encode_read_cursor (Z.of_nat next_line) (Z.of_nat next_character)) else None |}.

(** [opened] is what reading at most [MAX_READ_BYTES * 8 + 1] bytes of the
    resolved file gives. *)
Definition read_file (q : read_request) (opened : res bytes) : res read_result :=
  _ <-? read_checks q ;;
  raw <-? opened ;;
  relative <-? validate_relative_path (q_relative q) false ;;
  read_page q relative raw.

(** *** list_directory *)

(** A child: its path from the project root and from the listed directory. *)
Record child := {
  c_name : str; c_path : str; c_base : str; c_reparse : bool; c_is_dir : bool; c_is_file : bool; c_size : Z;
}.
Record entry := { e_name : str; e_path : str; e_directory : bool; e_size : option Z }.

Definition entry_of (c : child) : entry :=
  {| e_name := c_name c; e_path := c_path c; e_directory := c_is_dir c; e_size := if c_is_file c then Some (c_size c) else None |}.

Definition listed (glob : option str) (c : child) : bool :=
  match glob with Some g => _glob_matches (c_path c) g || _glob_matches (c_base c) g | None => true end
  && negb (c_reparse c).

(** [sort(key=...)]: stable; directories first, then by folded name. *)
Definition entry_leb (x y : entry) : bool :=
  if e_directory x then if e_directory y then str_leb (casefold_text (e_name x)) (casefold_text (e_name y)) else true
  else if e_directory y then false else str_leb (casefold_text (e_name x)) (casefold_text (e_name y)).
Fixpoint insert_sorted {A} (leb : A -> A -> bool) (x : A) (l : list A) : list A :=
  match l with [] => [x] | y :: r => if leb x y then x :: l else y :: insert_sorted leb x r end.
Definition stable_sort {A} (leb : A -> A -> bool) (l : list A) : list A := foldr (insert_sorted leb) [] l.

Record list_result := { l_entries : list entry; l_truncated : bool; l_continuation : option str }.

(** [prune]: [_prune_directories], the directories a recursive walk goes on to. *)
Definition DEFAULT_IGNORED_DIRECTORIES : list str :=
  map lit [".git"; ".hg"; ".build-check"; ".cache"; ".mypy_cache"; ".next"; ".npm"; ".npm-cache"; ".nuxt"; ".output";
    ".pnpm-store"; ".pytest_cache"; ".ruff_cache"; ".svn"; ".tox"; ".turbo"; ".venv"; ".vs"; ".yarn"; "__pycache__";
    "artifacts"; "bin"; "coverage"; "dist"; "node_modules"; "obj"; "target"]%string.
Definition _prune_directories (is_reparse : str -> bool) (directories : list str) : list str :=
  stable_sort (fun x y => str_leb (casefold_text x) (casefold_text y))
    (filter (fun n => casefold_text n ∉ DEFAULT_IGNORED_DIRECTORIES /\ is_reparse n = false) directories).

Definition list_directory (limit : Z) (cursor glob : option str) (resolved : res unit) (children : list child) : res list_result :=
  if negb ((1 <=? limit) && (limit <=? MAX_DIRECTORY_RESULTS)) then invalid_request else
  _ <-? match glob with Some g => check_glob g | None => Ok tt end ;;
  _ <-? resolved ;;
  if MAX_DIRECTORY_SCANNED <? Z.of_nat (length children) then agent_error "result_limit" else
  let entries := stable_sort entry_leb (map entry_of (filter (fun c => listed glob c = true) children)) in
  offset <-? _decode_cursor unicode_decimal cursor ;;
  let page := take (Z.to_nat limit) (drop (Z.to_nat offset) entries) in
  let next := offset + Z.of_nat (length page) in
  let more := next <? Z.of_nat (length entries) in
  Ok {| l_entries := page; l_truncated := more; l_continuation := if more then Some (_encode_cursor next) else None |}.

(** *** search_text *)

Record search_match := { m_path : str; m_line : Z; m_column : Z; m_preview : str }.

(** A candidate: its path, the size [stat] reports and what opening it gives. *)
Record candidate := { k_path : str; k_size : Z; k_content : res bytes }.

(** [haystack.find(needle)], [-1] as [None]. *)
Fixpoint find_text (needle s : str) : option nat :=
  if starts_with needle s then Some O else match s with _ :: r => S <$> find_text needle r | [] => None end.

(** [line.encode()[:n].decode(errors="ignore")] *)
Definition preview (max_bytes : Z) (line : str) : str := utf8_decode_ignore (take (Z.to_nat max_bytes) (encode_all line)).

(** The query: [expression] is the compiled regular expression, whose search
    gives a column, nothing, or runs out of its time. *)
Record query := {
  s_query : str; s_case : bool; s_expression : option (str -> res (option Z)); s_preview : Z; s_limit : Z;
}.

Definition column (k : query) (line : str) : res (option Z) :=
  found <-? match s_expression k with
            | Some search => match search line with
                             | Err TimeoutError => agent_error "search_timeout"
                             | r => r
                             end
            | None => Ok None
            end ;;
  match found with
  | Some c => Ok (Some c)
  | None => Ok (Z.of_nat <$> (if s_case k then find_text (s_query k) line
                              else find_text (casefold_text (s_query k)) (casefold_text line)))
  end.

(** The loop over the lines of one file: matches, and the index after the line
    that reached the limit. *)
Fixpoint search_lines (k : query) (path : str) (index : nat) (ls : list str) (found : Z) : res (list search_match * option nat) :=
  match ls with
  | [] => Ok ([], None)
  | line :: r =>
      c <-? column k line ;;
      match c with
      | None => search_lines k path (S index) r found
      | Some c =>
          let m := {| m_path := path; m_line := Z.of_nat index + 1; m_column := c + 1; m_preview := preview (s_preview k) line |} in
          if s_limit k <=? found + 1 then Ok ([m], Some (S index))
          else rest <-? search_lines k path (S index) r (found + 1) ;; Ok (m :: rest.1, rest.2)
      end
  end.

(** The lines of a file, [None] if it is not a text. *)
Definition text_lines (content : res bytes) : res (option (list str)) :=
  raw <-? content ;;
  match _detect_text raw with
  | Ok (t, _) => Ok (Some (splitlines t))
  | Err (AgentError code r d) => if bool_decide (code ∈ ["binary_file"; "unsupported_encoding"]%string) then Ok None
                                 else Err (AgentError code r d)
  | Err e => Err e
  end.

(** The loop over the files from [index] on, of [total]; the position where the
    next page starts and the bytes scanned. *)
Fixpoint search_files (k : query) (total index : nat) (offset : nat) (cs : list candidate) (scanned found : Z)
    : res (list search_match * option (nat * nat) * Z) :=
  match cs with
  | [] => Ok ([], None, scanned)
  | c :: r =>
      if MAX_SEARCH_FILE_BYTES <? k_size c then search_files k total (S index) 0 r scanned found
      else if MAX_SEARCH_SCANNED_BYTES <? scanned + k_size c then Ok ([], Some (index, offset), scanned)
      else
        t <-? text_lines (k_content c) ;;
        match t with
        | None => search_files k total (S index) 0 r (scanned + k_size c) found
        | Some ls =>
            if (length ls <? offset)%nat then agent_error "invalid_cursor" else
            here <-? search_lines k (k_path c) offset (drop offset ls) found ;;
            let '(ms, stopped) := here in
            let found' := found + Z.of_nat (length ms) in
            match match stopped with
                  | Some n => if (n <? length ls)%nat then Some (index, n)
                              else if (S index <? total)%nat then Some (S index, 0%nat) else None
                  | None => None
                  end with
            | Some next => Ok (ms, Some next, scanned + k_size c)
            | None => rest <-? search_files k total (S index) 0 r (scanned + k_size c) found' ;;
                      Ok (ms ++ rest.1.1, rest.1.2, rest.2)
            end
        end
  end.

Record search_result := { x_matches : list search_match; x_truncated : bool; x_continuation : option str; x_scanned : Z }.

Definition search_checks (q : query) (globs : list str) : res unit :=
  if bool_decide (s_query q = []) || (4096 <? Z.of_nat (length (s_query q))) then invalid_request
  else if negb ((1 <=? s_limit q) && (s_limit q <=? MAX_SEARCH_RESULTS)) then invalid_request
  else if negb ((128 <=? s_preview q) && (s_preview q <=? 16384)) then invalid_request
  else if bool_decide (globs = []) || (20 <? Z.of_nat (length globs)) then invalid_request
  else foldr (fun g r => match check_glob g with Ok _ => r | Err e => Err e end) (Ok tt) globs.

(** The files found below the target: [files] are those of the walk with their
    reparse points, or the one file the target is. *)
Definition search_candidates (globs : list str) (files : list (candidate * bool)) : res (list candidate) :=
  let matching := filter (fun c => existsb (_glob_matches (k_path c)) globs = true)
                    (map fst (filter (fun f => f.2 = false) files)) in
  if MAX_SEARCH_FILES <? Z.of_nat (length matching) then agent_error "result_limit"
  else Ok (stable_sort (fun x y => str_leb (casefold_text (k_path x)) (casefold_text (k_path y))) matching).

Definition search_page (k : query) (cursor : option str) (cs : list candidate) : res search_result :=
  position <-? _decode_search_cursor unicode_decimal cursor ;;
  let '(f, l) := position in
  let total := Z.of_nat (length cs) in
  if (total <? f) || ((f =? total) && negb (l =? 0)) then agent_error "invalid_cursor" else
  r <-? search_files k (length cs) (Z.to_nat f) (Z.to_nat l) (drop (Z.to_nat f) cs) 0 0 ;;
  let '(ms, next, scanned) := r in
  Ok {| x_matches := ms; x_truncated := match next with Some _ => true | None => false end;
        x_continuation := (fun p => _encode_search_cursor (Z.of_nat p.1) (Z.of_nat p.2)) <$> next; x_scanned := scanned |}.

Definition search_text (k : query) (globs : list str) (cursor : option str) (resolved : res unit) (files : list (candidate * bool))
    : res search_result :=
  _ <-? search_checks k globs ;;
  _ <-? _decode_search_cursor unicode_decimal cursor ;;
  _ <-? resolved ;;
  cs <-? search_candidates globs files ;;
  search_page k cursor cs.
End service.

(** ** Reading page by page *)

Lemma char_size_bounds e c : 1 <= char_size e c <= 4.
Proof. unfold char_size. pose proof (encode_cp_length c). destruct e; try case_match; lia. Qed.
Lemma payload_size_app e s t : payload_size e (s ++ t) = payload_size e s + payload_size e t.
Proof. induction s as [|c s IH]; cbn; [done|]. unfold payload_size in *. lia. Qed.
Lemma payload_size_nonneg e s : 0 <= payload_size e s.
Proof. induction s as [|c s IH]; cbn; [done|]. pose proof (char_size_bounds e c). unfold payload_size in *. lia. Qed.
Lemma payload_size_take e s m n : (m <= n)%nat -> payload_size e (take m s) <= payload_size e (take n s).
Proof.
  intros H. replace (take n s) with (take m s ++ drop m (take n s)).
  - rewrite payload_size_app. pose proof (payload_size_nonneg e (drop m (take n s))). lia.
  - rewrite <-(take_drop m (take n s)) at 2. f_equal. by rewrite take_take, Nat.min_l.
Qed.

(** The binary search finds the longest prefix that fits. *)
Lemma fit_search_spec fuel e part remaining low high :
  (high - low <= fuel)%nat -> (low <= high)%nat -> payload_size e (take low part) <= remaining ->
  (forall m, (high < m <= length part)%nat -> remaining < payload_size e (take m part)) ->
  let k := fit_search fuel e part remaining low high in
  (low <= k <= high)%nat /\ payload_size e (take k part) <= remaining /\
  forall m, (k < m <= length part)%nat -> remaining < payload_size e (take m part).
Proof.
  revert low high. induction fuel as [|fuel IH]; intros low high Hf Hle Hfit Hmax; cbn [fit_search].
  { assert (low = high) as -> by lia. auto. }
  destruct (low <? high)%nat eqn:E; [|apply Nat.ltb_ge in E; assert (low = high) as -> by lia; auto].
  apply Nat.ltb_lt in E. set (middle := ((low + high + 1) / 2)%nat).
  assert (low < middle <= high)%nat as Hm.
  { unfold middle. split; [apply Nat.div_le_lower_bound; lia|apply Nat.lt_succ_r, Nat.div_lt_upper_bound; lia]. }
  destruct (payload_size e (take middle part) <=? remaining) eqn:Ep.
  - destruct (IH middle high) as (H1 & H2 & H3); [lia|lia|lia|done|]. split; [lia|auto].
  - destruct (IH low (middle - 1)%nat) as (H1 & H2 & H3); [lia|lia|done| |split; [lia|auto]].
    intros m H. destruct (decide (high < m)%nat); [apply Hmax; lia|].
    pose proof (payload_size_take e part middle m ltac:(lia)). lia.
Qed.

Lemma fit_search_all e part remaining : 0 <= remaining ->
  let k := fit_search (length part) e part remaining 0 (length part) in
  (k <= length part)%nat /\ payload_size e (take k part) <= remaining /\
  (4 <= remaining -> part <> [] -> (0 < k)%nat) /\ (remaining < payload_size e part -> (k < length part)%nat).
Proof.
  intros Hr. destruct (fit_search_spec (length part) e part remaining 0 (length part)) as (H1 & H2 & H3);
    [lia|lia|by rewrite take_0|lia|]. set (k := fit_search _ _ _ _ _ _) in *. cbn zeta. clearbody k. split; [lia|]. split; [done|]. split.
  - intros H4 Hne. destruct (decide (0 < k)%nat); [done|]. destruct part as [|c r]; [done|].
    specialize (H3 1%nat ltac:(cbn; lia)). change (take 1 (c :: r)) with [c] in H3. unfold payload_size in H3. cbn [foldr] in H3. pose proof (char_size_bounds e c). lia.
  - intros H. destruct (decide (k < length part)%nat); [done|]. rewrite take_ge in H2 by lia. lia.
Qed.

(** A position inside the lines [ls], or at their end. *)
Definition position_ok (ls : list str) (p : nat * nat) : Prop :=
  (p.2 = 0%nat /\ (p.1 <= length ls)%nat) \/ exists l, ls !! p.1 = Some l /\ (p.2 < length l)%nat.
Definition text_from (ls : list str) (p : nat * nat) : str := drop p.2 (concat (drop p.1 ls)).

Lemma text_from_cons l ls n c : text_from (l :: ls) (S n, c) = text_from ls (n, c).
Proof. done. Qed.

Lemma take_lines_spec e remaining index offset ls : 0 <= remaining -> Forall (fun l => l <> []) ls ->
  position_ok ls (0%nat, offset) ->
  let '(t, (nl, nc)) := take_lines e remaining index offset ls (index, offset) in
  (index <= nl)%nat /\ position_ok ls ((nl - index)%nat, nc) /\
  text_from ls (0%nat, offset) = t ++ text_from ls ((nl - index)%nat, nc) /\ payload_size e t <= remaining /\
  (4 <= remaining -> ls <> [] -> t <> []).
Proof.
  revert remaining index offset. induction ls as [|l ls IH]; intros remaining index offset Hr Hne Hp; cbn [take_lines].
  { rewrite Nat.sub_diag. repeat split; [lia|done|cbn; lia|done]. }
  apply Forall_cons in Hne as [Hl Hne].
  assert (offset < length l)%nat as Ho.
  { destruct Hp as [[H _]|(l' & H & Hlt)]; cbn in *; [rewrite H; destruct l; [done|cbn; lia]|by simplify_eq]. }
  assert (drop offset l <> []) as Hd by (intros E; apply (f_equal length) in E; rewrite length_drop in E; cbn in E; lia).
  assert (text_from (l :: ls) (0%nat, offset) = drop offset l ++ concat ls) as Et.
  { unfold text_from. cbn [fst snd drop concat]. rewrite drop_app_le; [done|lia]. }
  destruct (payload_size e (drop offset l) <=? remaining) eqn:E.
  - specialize (IH (remaining - payload_size e (drop offset l)) (S index) 0%nat ltac:(lia) Hne ltac:(left; cbn; lia)).
    destruct (take_lines e _ (S index) 0 ls (S index, 0%nat)) as [t [nl nc]]. destruct IH as (H1 & H2 & H3 & H4 & _).
    replace (nl - index)%nat with (S (nl - S index)) by lia. split; [lia|]. split; [|split; [|split]].
    + destruct H2 as [[H5 H6]|(l' & H5 & H6)]; cbn in *; [left; cbn; lia|right; by exists l'].
    + rewrite text_from_cons, Et, <-app_assoc, <-H3. unfold text_from. cbn [fst snd]. by rewrite !drop_0.
    + rewrite payload_size_app. lia.
    + intros _ _ Hn. apply app_eq_nil in Hn as [Hn _]. done.
  - destruct (fit_search_all e (drop offset l) remaining Hr) as (H1 & H2 & H3 & H4).
    set (k := fit_search _ _ _ _ _ _) in *. rewrite length_drop in H1, H4.
    destruct (k =? 0)%nat eqn:Ek.
    + rewrite Nat.sub_diag. split; [lia|]. split; [done|]. split; [done|]. split; [cbn; lia|]. intros H5 _. specialize (H3 H5 Hd). lia.
    + apply Nat.eqb_neq in Ek. rewrite Nat.sub_diag. specialize (H4 ltac:(lia)). split; [lia|]. split; [right; exists l; cbn; split; [done|lia]|]. split; [|split; [done|]].
      * rewrite Et. unfold text_from. cbn [fst snd drop concat]. rewrite drop_app_le by lia.
        rewrite <-(take_drop k (drop offset l)) at 1. rewrite drop_drop, <-app_assoc. done.
      * intros _ _ Hn. apply (f_equal length) in Hn. rewrite length_take, length_drop in Hn. cbn in Hn. lia.
Qed.

Lemma utf8_items_length b : (length (utf8_items b) <= length b)%nat.
Proof.
  remember (length b) as n eqn:E. assert (length b <= n)%nat as H by lia. clear E. revert b H.
  induction n as [|n IH]; intros b H; [destruct b; cbn in *; [lia|lia]|].
  destruct b as [|b0 b]; [cbn; lia|]. cbn [length] in H. cbn [utf8_items].
  repeat (case_match; subst; cbn [length] in *);
    repeat match goal with |- context [length (utf8_items ?x)] => pose proof (IH x ltac:(cbn [length] in *; lia)); generalize dependent (length (utf8_items x)); intros end; lia.
Qed.

Lemma all_some_length {A} (l : list (option A)) t : all_some l = Some t -> length t = length l.
Proof.
  revert t. induction l as [|[a|] l IH]; intros t H; cbn in H; [by simplify_eq|destruct (all_some l); by simplify_eq; cbn; rewrite (IH l0)|done].
Qed.
Lemma utf8_decode_length b t : utf8_decode b = Some t -> (length t <= length b)%nat.
Proof. intros H. apply all_some_length in H. rewrite H. apply utf8_items_length. Qed.

Lemma pair_ind {A} (P : list A -> Prop) : P [] -> (forall x, P [x]) -> (forall x y r, P r -> P (x :: y :: r)) -> forall l, P l.
Proof.
  intros H0 H1 H2. assert (forall l, P l /\ forall x, P (x :: l)) as H; [|apply H].
  induction l as [|a l (I1 & I2)]; auto.
Qed.
Lemma units_length big b u : units big b = Some u -> (length u <= length b)%nat.
Proof.
  revert u. induction b as [|x|x y b IH] using pair_ind; intros u H; cbn [units] in H; [by simplify_eq|done|].
  destruct (units big b) as [v|]; [|done]. cbn in H. simplify_eq. specialize (IH v eq_refl). cbn. lia.
Qed.
Lemma utf16_units_length u t : utf16_units u = Some t -> (length t <= length u)%nat.
Proof.
  remember (length u) as n eqn:E. assert (length u <= n)%nat as H by lia. clear E. revert u t H.
  induction n as [|n IH]; intros u t H Ht; [destruct u; [cbn in Ht; by simplify_eq|cbn in H; lia]|].
  destruct u as [|a u]; [cbn in Ht; simplify_eq; cbn; lia|]. cbn [length] in H. cbn [utf16_units] in Ht.
  repeat case_match; try done; subst;
    match goal with H : (_ <$> utf16_units ?x) = Some _ |- _ => destruct (utf16_units x) as [v|] eqn:E; [|done];
      pose proof (IH x v ltac:(cbn [length] in *; lia) E); cbn in H; simplify_eq; cbn [length]; lia end.
Qed.

Lemma detect_length raw t e : _detect_text raw = Ok (t, e) -> (length t <= length raw)%nat.
Proof.
  unfold _detect_text. case_match; [done|]. case_match.
  { destruct (utf8_decode (drop 3 raw)) eqn:E; [|done]. intros [= <- <-]. apply utf8_decode_length in E.
    rewrite length_drop in E. lia. }
  case_match.
  - destruct (utf16_decode raw) as [t'|] eqn:E; [|done]. intros [= <- _]. unfold utf16_decode in E.
    destruct (units _ (drop 2 raw)) as [u|] eqn:Eu; [|done]. cbn in E. apply utf16_units_length in E.
    apply units_length in Eu. rewrite length_drop in Eu. lia.
  - destruct (utf8_decode raw) eqn:E; [|done]. intros [= <- <-]. by apply utf8_decode_length.
Qed.

Lemma keepends_nonempty s : Forall (fun l => l <> []) (splitlines_keepends s).
Proof.
  unfold splitlines_keepends, lines_of.
  assert (forall n s, (length s <= n)%nat -> forall acc, Forall (fun l => l <> []) (map (fun p => p.1 ++ p.2) (lines_go acc s))) as H;
    [|by apply (H (length s))].
  induction n as [|n IH]; intros [|c r] H acc; cbn [length] in H; try lia.
  - cbn. destruct acc; constructor; [|constructor]. cbn. intros E. apply app_eq_nil in E as [E _]. apply app_eq_nil in E as [_ E]. done.
  - cbn. destruct acc; constructor; [|constructor]. cbn. intros E. apply app_eq_nil in E as [E _]. apply app_eq_nil in E as [_ E]. done.
  - cbn [lines_go]. repeat case_match; subst; cbn [map]; try (apply IH; cbn [length] in *; lia).
    all: constructor; try (apply IH; cbn [length] in *; lia); try constructor; cbn; intros E; apply app_eq_nil in E as [_ E]; done.
Qed.

(** A client that asks for the next page as long as there is one. *)
Definition with_cursor (c : str) (q : read_request) : read_request :=
  {| q_relative := q_relative q; q_start := None; q_end := None; q_max_bytes := q_max_bytes q;
     q_max_lines := q_max_lines q; q_cursor := Some c |}.

Fixpoint read_all (sha : bytes -> str) (dec : N -> option Z) (fuel : nat) (q : read_request) (opened : res bytes)
    : res (list read_result) :=
  match fuel with
  | O => Err (OSError "fuel")
  | S fuel =>
      r <-? read_file sha dec q opened ;;
      match r_continuation r with
      | None => Ok [r]
      | Some c => rest <-? read_all sha dec fuel (with_cursor c q) opened ;; Ok (r :: rest)
      end
  end.

(** A request for everything from a position, and the page it gets. *)
Definition from_position (dec : N -> option Z) (q : read_request) (p : nat * nat) : Prop :=
  q_start q = None /\ q_end q = None /\ q_max_lines q = None /\
  match truthy_cursor (q_cursor q) with
  | Some c => _decode_read_cursor dec c = Ok (Z.of_nat p.1, Z.of_nat p.2)
  | None => p = (0%nat, 0%nat)
  end.

Lemma line_in_range (ls : list str) i l : ls !! i = Some l -> (i < length ls)%nat.
Proof. apply lookup_lt_Some. Qed.

Lemma position_bounds ls p : position_ok ls p -> (p.1 <= length ls)%nat /\ (p.1 = length ls -> p.2 = 0%nat).
Proof.
  intros [[H1 H2]|(l & H & _)]; [done|]. apply line_in_range in H. split; lia.
Qed.

Lemma position_shift ls p : position_ok ls p <-> position_ok (drop p.1 ls) (0%nat, p.2) /\ (p.1 <= length ls)%nat.
Proof.
  unfold position_ok. cbn [fst snd]. rewrite lookup_drop, Nat.add_0_r. split.
  - intros H. split; [|destruct H as [[_ H]|(l & H & _)]; [done|apply line_in_range in H; lia]].
    destruct H as [[H _]|H]; [left; split; [done|lia]|by right].
  - intros [[[H _]|H] Hb]; [by left|by right].
Qed.

Lemma read_page_from sha dec q relative raw t e p :
  (Z.of_nat (length raw) <= MAX_READ_BYTES * 8) -> _detect_text raw = Ok (t, e) -> from_position dec q p ->
  let ls := splitlines_keepends t in
  position_ok ls p -> 4 <= q_max_bytes q ->
  exists r next, read_page sha dec q relative raw = Ok r /\ position_ok ls next /\
    text_from ls p = r_text r ++ text_from ls next /\ payload_size e (r_text r) <= q_max_bytes q /\
    (text_from ls p <> [] -> r_text r <> []) /\
    r_continuation r = (if bool_decide (text_from ls next = []) then None
                        else Some (_encode_read_cursor (Z.of_nat next.1) (Z.of_nat next.2))).
Proof.
  intros Hraw Hd (Hs & He & Hm & Hc) ls Hp Hmax. pose proof (position_bounds ls p Hp) as [Hb Hend].
  unfold read_page. replace (MAX_READ_BYTES * 8 <? Z.of_nat (length raw)) with false by lia. rewrite Hd. cbn [rbind].
  fold ls. assert ((match truthy_cursor (q_cursor q) with Some c => _decode_read_cursor dec c
    | None => Ok (match q_start q with Some (Some s) => s - 1 | _ => 0 end, 0) end) = Ok (Z.of_nat p.1, Z.of_nat p.2)) as ->.
  { rewrite Hs. destruct (truthy_cursor (q_cursor q)); [done|by subst p]. }
  cbn [rbind]. rewrite He, Hm.
  replace ((Z.of_nat (length ls) <? Z.of_nat p.1) || ((Z.of_nat p.1 =? Z.of_nat (length ls)) && negb (Z.of_nat p.2 =? 0))) with false.
  2: { symmetry. apply orb_false_iff. split; [lia|]. destruct (Z.of_nat p.1 =? Z.of_nat (length ls)) eqn:E; [|done].
       assert (p.2 = 0%nat) as -> by (apply Hend; lia). done. }
  rewrite !Nat2Z.id. assert (take (length ls - p.1) (drop p.1 ls) = drop p.1 ls) as -> by (apply take_ge; rewrite length_drop; lia).
  pose proof (take_lines_spec e (q_max_bytes q) p.1 p.2 (drop p.1 ls) ltac:(lia)) as Ht.
  destruct (take_lines e (q_max_bytes q) p.1 p.2 (drop p.1 ls) (p.1, p.2)) as [text [nl nc]].
  destruct Ht as (H1 & H2 & H3 & H4 & H5); [apply Forall_drop, keepends_nonempty|exact (proj1 (proj1 (position_shift ls p) Hp))|].
  assert (position_ok ls (nl, nc)) as Hn.
  { apply (proj2 (position_shift ls (nl, nc))). cbn [fst snd]. apply (proj1 (position_shift _ _)) in H2 as [H2 H6]. cbn [fst snd] in *. rewrite drop_drop in H2.
    rewrite length_drop in H6. replace (p.1 + (nl - p.1))%nat with nl in H2 by lia. split; [done|lia]. }
  assert (text_from ls p = text ++ text_from ls (nl, nc)) as Etext.
  { unfold text_from in *. cbn [fst snd] in *. rewrite drop_0 in H3. rewrite H3, drop_drop.
    by replace (p.1 + (nl - p.1))%nat with nl by lia. }
  assert (((Z.of_nat nl <? Z.of_nat (length ls)) || (0 <? Z.of_nat nc)) = negb (bool_decide (text_from ls (nl, nc) = []))) as Hmore.
  { case_bool_decide as E; cbn [negb].
    - destruct Hn as [[H6 H7]|(l & H6 & H7)]; cbn [fst snd] in *.
      + unfold text_from in E. cbn [fst snd] in E. rewrite H6, drop_0 in E. destruct (decide (nl = length ls)); [lia|].
        exfalso. destruct (lookup_lt_is_Some_2 ls nl ltac:(lia)) as [l Hl]. rewrite (drop_S _ l) in E by done.
        cbn in E. apply app_eq_nil in E as [-> _]. by apply (Forall_lookup_1 _ _ _ _ (keepends_nonempty t) Hl).
      + exfalso. unfold text_from in E. cbn [fst snd] in E. rewrite (drop_S _ l) in E by done. cbn [concat] in E.
        apply (f_equal length) in E. rewrite length_drop, length_app in E. cbn in E. lia.
    - destruct Hn as [[H6 H7]|(l & H6 & H7)]; cbn [fst snd] in *; [|apply line_in_range in H6; lia].
      destruct (decide (nl = length ls)); [|lia]. subst. exfalso. apply E. unfold text_from. cbn [fst snd].
      rewrite (drop_ge ls (length ls)) by done. done. }
  eexists _, (nl, nc). split; [reflexivity|]. cbn [r_text r_continuation fst snd]. split; [done|]. split; [done|].
  split; [done|]. split.
  - intros Hne. apply H5; [lia|]. intros E. apply Hne. unfold text_from. rewrite E. cbn. by destruct p as [? [|?]].
  - rewrite Hmore. by case_bool_decide.
Qed.

Lemma small_length n : Z.of_nat n <= MAX_READ_BYTES * 8 -> small (Z.of_nat n).
Proof.
  intros H. unfold small. split; [lia|]. unfold MAX_READ_BYTES in H.
  assert (10 ^ 8 <= 10 ^ 4300) by (apply Z.pow_le_mono_r; lia). change (10 ^ 8) with 100000000 in *. lia.
Qed.

Lemma concat_length_ge (ls : list str) : Forall (fun l => l <> []) ls -> (length ls <= length (concat ls))%nat.
Proof.
  induction 1 as [|l ls Hl _ IH]; cbn [concat length]; [lia|]. rewrite length_app. destruct l; [done|]. cbn [length]. lia.
Qed.
Lemma line_length (ls : list str) i l : ls !! i = Some l -> (length l <= length (concat ls))%nat.
Proof.
  revert i. induction ls as [|a ls IH]; intros [|i] H; cbn in H; [done|done|simplify_eq|]; cbn [concat]; rewrite length_app; [lia|].
  specialize (IH i H). lia.
Qed.

(** The positions of a file that may be read fit into a cursor. *)
Lemma position_small (ls : list str) p n : Forall (fun l => l <> []) ls -> (length (concat ls) <= n)%nat ->
  Z.of_nat n <= MAX_READ_BYTES * 8 -> position_ok ls p -> small (Z.of_nat p.1) /\ small (Z.of_nat p.2).
Proof.
  intros Hne Hl Hn Hp. pose proof (concat_length_ge ls Hne) as Hll. split; apply small_length.
  - destruct (position_bounds ls p Hp) as [Hb _]. lia.
  - destruct Hp as [[-> _]|(l & H1 & H2)]; [unfold MAX_READ_BYTES; lia|]. pose proof (line_length ls _ _ H1). lia.
Qed.
Lemma read_cursor_truthy l c : small l -> small c -> truthy_cursor (Some (_encode_read_cursor l c)) = Some (_encode_read_cursor l c).
Proof.
  intros Hs1 Hs2. unfold _encode_read_cursor. destruct (encode_token _) eqn:E; [|done]. exfalso. revert E.
  apply encode_token_nonempty; [|by destruct (str_of_Z _)].
  destruct (str_of_Z_digits _ (proj1 Hs1)) as [D1 _]. destruct (str_of_Z_digits _ (proj1 Hs2)) as [D2 _].
  rewrite !forallb_app, (ascii_digits _ D1), (ascii_digits _ D2). reflexivity.
Qed.

Lemma read_all_from sha dec raw t e relative :
  Z.of_nat (length raw) <= MAX_READ_BYTES * 8 -> _detect_text raw = Ok (t, e) ->
  forall fuel q p, read_checks q = Ok tt -> validate_relative_path (q_relative q) false = Ok relative ->
  from_position dec q p -> position_ok (splitlines_keepends t) p -> 4 <= q_max_bytes q ->
  (length (text_from (splitlines_keepends t) p) < fuel)%nat ->
  exists pages, read_all sha dec fuel q (Ok raw) = Ok pages /\
    concat (map r_text pages) = text_from (splitlines_keepends t) p /\
    Forall (fun r => payload_size e (r_text r) <= q_max_bytes q) pages.
Proof.
  intros Hraw Hd. set (ls := splitlines_keepends t).
  assert (length (concat ls) <= length raw)%nat as Hl.
  { unfold ls. rewrite splitlines_keepends_concat. by apply (detect_length raw t e). }
  induction fuel as [|fuel IH]; intros q p Hq Hv Hf Hp Hmax Hfuel; [lia|].
  destruct (read_page_from sha dec q relative raw t e p Hraw Hd Hf Hp Hmax) as (r & next & Er & Hn & Et & Hsize & Hprog & Hcont).
  cbn [read_all]. unfold read_file. rewrite Hq. cbn [rbind]. rewrite Hv. cbn [rbind]. rewrite Er. cbn [rbind].
  fold ls in Hn, Et, Hprog, Hcont. rewrite Hcont. case_bool_decide as Hend.
  { exists [r]. split; [done|]. split; [|by constructor]. cbn. by rewrite app_nil_r, Et, Hend, app_nil_r. }
  set (c := _encode_read_cursor (Z.of_nat next.1) (Z.of_nat next.2)).
  assert (text_from ls p <> []) as Hne by (rewrite Et; intros E; apply app_eq_nil in E as [_ E]; done).
  assert (small (Z.of_nat next.1) /\ small (Z.of_nat next.2)) as [Hs1 Hs2]
    by (by apply (position_small ls next (length raw)); [apply keepends_nonempty| | |]).
  pose proof (read_cursor_truthy _ _ Hs1 Hs2) as Hc. fold c in Hc.
  destruct (IH (with_cursor c q) next) as (pages & E1 & E2 & E3).
  - unfold read_checks in *. cbn [with_cursor q_max_bytes q_max_lines q_cursor q_start q_end]. rewrite Hc. cbn [given orb bad_line].
    revert Hq. case_match; [done|]. case_match; [done|]. done.
  - done.
  - unfold from_position. cbn [with_cursor q_start q_end q_max_lines q_cursor]. rewrite Hc. repeat split; [apply Hf|].
    by apply read_cursor_roundtrip.
  - done.
  - done.
  - assert (r_text r <> []) as Hr by auto. apply (f_equal length) in Et. rewrite length_app in Et.
    destruct (r_text r); [done|]. cbn [length] in Et. fold ls. lia.
  - rewrite E1. cbn [rbind]. exists (r :: pages). split; [done|]. split; [cbn; by rewrite E2, Et|by constructor].
Qed.


(** ** Searching page by page *)

Section searching.
  Context (dec : N -> option Z) (fold_text : str -> str) (k : query).

(** The matches of the lines of a file, without limits. *)
Fixpoint matches_in (path : str) (index : nat) (ls : list str) : list search_match :=
  match ls with
  | [] => []
  | line :: r =>
      match column fold_text k line with
      | Ok (Some c) => {| m_path := path; m_line := Z.of_nat index + 1; m_column := c + 1; m_preview := preview (s_preview k) line |}
                       :: matches_in path (S index) r
      | _ => matches_in path (S index) r
      end
  end.

(** The lines that are searched: none of a file that is too large or no text. *)
Definition file_lines (c : candidate) : list str :=
  if MAX_SEARCH_FILE_BYTES <? k_size c then []
  else match text_lines (k_content c) with Ok (Some ls) => ls | _ => [] end.

(** Opening and searching the file raises no error. *)
Definition searchable (c : candidate) : Prop :=
  k_size c <= MAX_SEARCH_FILE_BYTES ->
  exists o, text_lines (k_content c) = Ok o /\ Forall (fun l => is_ok (column fold_text k l) = true) (default [] o).

Definition matches_from (cs : list candidate) (offset : nat) : list search_match :=
  match cs with
  | [] => []
  | c :: r => matches_in (k_path c) offset (drop offset (file_lines c)) ++
              concat (map (fun c => matches_in (k_path c) 0 (file_lines c)) r)
  end.

Lemma matches_from_next c r : matches_from r 0 = concat (map (fun c => matches_in (k_path c) 0 (file_lines c)) r) /\
  matches_from (c :: r) 0 = matches_in (k_path c) 0 (file_lines c) ++ matches_from r 0.
Proof. assert (matches_from r 0 = concat (map (fun c => matches_in (k_path c) 0 (file_lines c)) r)) as E by (destruct r; done). by rewrite E. Qed.

Lemma search_lines_spec path ls index found : Forall (fun l => is_ok (column fold_text k l) = true) ls -> found < s_limit k ->
  exists ms stopped, search_lines fold_text k path index ls found = Ok (ms, stopped) /\
    found + Z.of_nat (length ms) <= s_limit k /\
    match stopped with
    | None => ms = matches_in path index ls /\ found + Z.of_nat (length ms) < s_limit k
    | Some n => (index < n <= index + length ls)%nat /\ matches_in path index ls = ms ++ matches_in path n (drop (n - index) ls)
    end.
Proof.
  revert index found. induction ls as [|line ls IH]; intros index found Hok Hlt; cbn [search_lines].
  { exists [], None. cbn. repeat split; lia. }
  apply Forall_cons in Hok as [Hl Hok]. cbn [matches_in]. destruct (column fold_text k line) as [[c|]|e]; [| |done]; cbn [rbind].
  - case_match.
    + eexists [_], (Some (S index)). split; [reflexivity|]. cbn [length]. split; [lia|]. split; [lia|].
      replace (S index - index)%nat with 1%nat by lia. done.
    + destruct (IH (S index) (found + 1) Hok ltac:(lia)) as (ms & st & E & Hle & Hst). rewrite E. cbn [rbind fst snd].
      eexists (_ :: ms), st. split; [reflexivity|]. cbn [length]. split; [lia|]. destruct st as [n|].
      * destruct Hst as [Hn Em]. split; [lia|]. rewrite Em. replace (n - index)%nat with (S (n - S index)) by lia. done.
      * destruct Hst as [-> Hst]. split; [done|lia].
  - destruct (IH (S index) found Hok Hlt) as (ms & st & E & Hle & Hst). exists ms, st. split; [done|]. split; [done|].
    destruct st as [n|]; [|done]. destruct Hst as [Hn Em]. split; [cbn [length]; lia|]. rewrite Em.
    replace (n - index)%nat with (S (n - S index)) by lia. done.
Qed.

(** Where a page may start in [cs]: at a line of the first file, or at its start. *)
Definition start_ok (cs : list candidate) (offset : nat) : Prop :=
  offset = 0%nat \/ exists c r, cs = c :: r /\ (offset < length (file_lines c))%nat.

Definition page_spec (index offset : nat) (cs : list candidate) (scanned found : Z)
    (ms : list search_match) (next : option (nat * nat)) (sc : Z) : Prop :=
  found + Z.of_nat (length ms) <= s_limit k /\ (scanned <= MAX_SEARCH_SCANNED_BYTES -> sc <= MAX_SEARCH_SCANNED_BYTES) /\
  match next with
  | None => ms = matches_from cs offset
  | Some (i, l) =>
      (index <= i < index + length cs)%nat /\ start_ok (drop (i - index) cs) l /\
      matches_from cs offset = ms ++ matches_from (drop (i - index) cs) l /\
      (scanned + MAX_SEARCH_FILE_BYTES <= MAX_SEARCH_SCANNED_BYTES -> (index < i)%nat \/ (i = index /\ offset < l)%nat)
  end.

Lemma page_spec_skip index offset c cs scanned found ms next sc scanned' found' pre :
  page_spec (S index) 0 cs scanned' found' ms next sc ->
  found + Z.of_nat (length (pre ++ ms)) <= s_limit k -> (scanned <= MAX_SEARCH_SCANNED_BYTES -> scanned' <= MAX_SEARCH_SCANNED_BYTES) ->
  matches_from (c :: cs) offset = pre ++ matches_from cs 0 ->
  page_spec index offset (c :: cs) scanned found (pre ++ ms) next sc.
Proof.
  intros (H1 & H2 & H3) Hf Hs Hm. split; [done|]. split; [auto|]. destruct next as [[i l]|].
  - destruct H3 as (H4 & H5 & H6 & _). replace (i - index)%nat with (S (i - S index)) by lia. cbn [drop length].
    split; [lia|]. split; [done|]. split; [by rewrite Hm, H6, app_assoc|]. intros _. left. lia.
  - by rewrite Hm, H3.
Qed.

Lemma search_files_spec cs total index offset scanned found :
  Forall searchable cs -> total = (index + length cs)%nat -> start_ok cs offset -> found < s_limit k ->
  exists ms next sc, search_files fold_text k total index offset cs scanned found = Ok (ms, next, sc) /\
    page_spec index offset cs scanned found ms next sc.
Proof.
  revert index offset scanned found. induction cs as [|c cs IH]; intros index offset scanned found Hs Ht Ho Hlt; cbn [search_files].
  { exists [], None, scanned. split; [done|]. split; [cbn; lia|]. by split. }
  apply Forall_cons in Hs as [Hc Hs]. cbn [length] in Ht.
  assert (forall s, exists ms next sc, search_files fold_text k total (S index) 0 cs s found = Ok (ms, next, sc) /\
    page_spec (S index) 0 cs s found ms next sc) as Hskip by (intros s; apply IH; [done|lia|by left|done]).
  destruct (MAX_SEARCH_FILE_BYTES <? k_size c) eqn:Ebig.
  { destruct (Hskip scanned) as (ms & next & sc & E & Hp). exists ms, next, sc. split; [done|].
    apply (page_spec_skip _ _ _ _ _ _ _ _ _ scanned found [] Hp); [apply Hp|done|].
    unfold matches_from at 1, file_lines at 1. rewrite Ebig, drop_nil. by rewrite <-(proj1 (matches_from_next c cs)). }
  destruct (MAX_SEARCH_SCANNED_BYTES <? scanned + k_size c) eqn:Escan.
  { eexists [], (Some (index, offset)), scanned. split; [done|]. split; [cbn; lia|]. split; [done|]. rewrite Nat.sub_diag.
    split; [cbn [length]; lia|]. split; [done|]. split; [done|]. lia. }
  destruct (Hc ltac:(lia)) as (o & Eo & Hok). rewrite Eo. cbn [rbind].
  assert (file_lines c = default [] o) as El by (unfold file_lines; rewrite Ebig, Eo; by destruct o).
  destruct o as [ls|].
  2: { destruct (Hskip (scanned + k_size c)) as (ms & next & sc & E & Hp). exists ms, next, sc. split; [done|].
       apply (page_spec_skip _ _ _ _ _ _ _ _ _ (scanned + k_size c) found [] Hp); [apply Hp|intros _; lia|].
       unfold matches_from at 1. rewrite El. cbn [default]. rewrite drop_nil. by rewrite <-(proj1 (matches_from_next c cs)). }
  cbn [default] in El, Hok. assert (offset <= length ls)%nat as Hle.
  { destruct Ho as [->|(c' & r & [= <- <-] & H)]; [lia|]. rewrite El in H. exact (Nat.lt_le_incl _ _ H). }
  replace (length ls <? offset)%nat with false by lia.
  destruct (search_lines_spec (k_path c) (drop offset ls) offset found ltac:(by apply Forall_drop) Hlt) as (ms & st & E & Hn & Hst).
  rewrite E. cbn [rbind]. destruct st as [n|].
  - destruct Hst as [Hb Em]. rewrite length_drop in Hb. rewrite drop_drop in Em. replace (offset + (n - offset))%nat with n in Em by lia.
    assert (matches_in (k_path c) offset (drop offset (file_lines c)) = ms ++ matches_in (k_path c) n (drop n (file_lines c))) as Ef
      by (rewrite El; exact Em).
    destruct (n <? length ls)%nat eqn:En.
    { eexists _, (Some (index, n)), _. split; [reflexivity|]. split; [done|]. split; [intros _; lia|]. rewrite Nat.sub_diag.
      split; [cbn [length]; lia|]. split; [right; exists c, cs; rewrite El; split; [done|by apply Nat.ltb_lt]|]. split.
      - cbn [drop]. unfold matches_from. rewrite Ef. by rewrite app_assoc.
      - intros _. right. lia. }
    assert (matches_in (k_path c) offset (drop offset (file_lines c)) = ms) as Em'.
    { rewrite Ef. assert (drop n (file_lines c) = []) as -> by (rewrite El; apply drop_ge, Nat.ltb_ge; exact En).
      cbn. by rewrite app_nil_r. }
    assert (matches_from (c :: cs) offset = ms ++ matches_from cs 0) as Emf.
    { unfold matches_from at 1. rewrite Em'. by rewrite <-(proj1 (matches_from_next c cs)). }
    destruct (S index <? total)%nat eqn:Et.
    + eexists _, (Some (S index, 0%nat)), _. split; [reflexivity|]. split; [done|]. split; [intros _; lia|].
      replace (S index - index)%nat with 1%nat by lia. cbn [drop length].
      split; [lia|]. split; [by left|]. split; [done|]. intros _. left. lia.
    + destruct cs as [|c' cs]; [|cbn [length] in Ht; lia]. cbn [search_files rbind fst snd]. rewrite app_nil_r.
      exists ms, None, (scanned + k_size c). split; [done|]. split; [done|]. split; [intros _; lia|].
      rewrite Emf. cbn. by rewrite app_nil_r.
  - destruct Hst as [Em Hlt'].
    assert (matches_from (c :: cs) offset = ms ++ matches_from cs 0) as Emf.
    { unfold matches_from at 1. replace (matches_in (k_path c) offset (drop offset (file_lines c))) with ms by (rewrite El; exact Em).
      by rewrite <-(proj1 (matches_from_next c cs)). }
    destruct (IH (S index) 0%nat (scanned + k_size c) (found + Z.of_nat (length ms))) as (ms' & next & sc & E' & Hp); [done|lia|by left|done|].
    rewrite E'. cbn [rbind fst snd]. exists (ms ++ ms'), next, sc. split; [done|].
    apply (page_spec_skip _ _ _ _ _ _ _ _ _ _ _ _ Hp); [|intros _; lia|done].
    rewrite length_app. destruct Hp as [Hp _]. lia.
Qed.
End searching.

Fixpoint search_all (dec : N -> option Z) (fold_text : str -> str) (fuel : nat) (k : query) (cursor : option str) (cs : list candidate)
    : res (list search_result) :=
  match fuel with
  | O => Err (OSError "fuel")
  | S fuel =>
      r <-? search_page dec fold_text k cursor cs ;;
      match x_continuation r with
      | None => Ok [r]
      | Some c => rest <-? search_all dec fold_text fuel k (Some c) cs ;; Ok (r :: rest)
      end
  end.

(** At most [MAX_SEARCH_FILE_BYTES + 1] bytes of a file are read. *)
Definition bounded (c : candidate) : Prop :=
  match k_content c with Ok raw => Z.of_nat (length raw) <= MAX_SEARCH_FILE_BYTES + 1 | Err _ => True end.

Lemma file_lines_bounded c : bounded c -> Z.of_nat (length (file_lines c)) <= MAX_READ_BYTES * 8.
Proof.
  assert (Z.of_nat 0 <= MAX_READ_BYTES * 8) as H0 by (vm_compute; discriminate).
  unfold bounded, file_lines, text_lines. intros H. destruct (MAX_SEARCH_FILE_BYTES <? k_size c); [done|].
  destruct (k_content c) as [raw|e]; cbn [rbind]; [|done].
  destruct (_detect_text raw) as [[t e]|e] eqn:E; [|by repeat case_match].
  apply detect_length in E. pose proof (concat_length_ge _ (keepends_nonempty t)) as Hl.
  rewrite splitlines_keepends_concat in Hl. unfold splitlines_keepends in Hl. rewrite length_map in Hl.
  unfold splitlines. rewrite length_map. apply inj_le in Hl, E. eapply Z.le_trans; [exact Hl|].
  eapply Z.le_trans; [exact E|]. eapply Z.le_trans; [exact H|]. vm_compute. discriminate.
Qed.

(** The lines from a position on, a file counting one more. *)
Definition weight (cs : list candidate) (offset : nat) : nat := (foldr (fun c n => S (length (file_lines c)) + n) 0 cs - offset)%nat.

Lemma weight_drop cs i l offset : start_ok cs offset -> (i < length cs)%nat -> (0 < i)%nat \/ (i = 0 /\ offset < l)%nat ->
  start_ok (drop i cs) l -> (weight (drop i cs) l < weight cs offset)%nat.
Proof.
  intros Ho Hi Hp Hl. unfold weight. destruct cs as [|c cs]; [cbn in Hi; lia|].
  assert (offset <= length (file_lines c))%nat as Hoff.
  { destruct Ho as [->|(c' & r & [= <- <-] & H)]; [lia|]. by apply Nat.lt_le_incl. }
  destruct i as [|i]; cbn [drop foldr].
  - destruct Hp as [|[_ Hp]]; [lia|].
    assert (l <= length (file_lines c))%nat as Hll.
    { destruct Hl as [->|(c' & r & [= <- <-] & H)]; [lia|]. by apply Nat.lt_le_incl. }
    lia.
  - assert (forall j (ds : list candidate), (foldr (fun c n => S (length (file_lines c)) + n) 0 (drop j ds) <=
      foldr (fun c n => S (length (file_lines c)) + n) 0 ds)%nat) as Hd.
    { induction j as [|j IH]; intros [|d ds]; cbn [drop foldr]; try lia. specialize (IH ds). lia. }
    specialize (Hd i cs). lia.
Qed.

Lemma cursor_position dec f l : small f -> small l ->
  truthy_cursor (Some (_encode_search_cursor f l)) = Some (_encode_search_cursor f l) /\
  _decode_search_cursor dec (Some (_encode_search_cursor f l)) = Ok (f, l).
Proof.
  intros Hf Hl. split; [|by apply search_cursor_roundtrip].
  destruct (_encode_search_cursor f l) eqn:E; [|done]. exfalso. revert E. unfold _encode_search_cursor.
  apply encode_token_nonempty; [|done]. rewrite !forallb_app.
  destruct (str_of_Z_digits f (proj1 Hf)) as [D1 _]. destruct (str_of_Z_digits l (proj1 Hl)) as [D2 _].
  by rewrite (ascii_digits _ D1), (ascii_digits _ D2).
Qed.

Lemma search_all_from dec fold_text k cs : Forall (searchable fold_text k) cs -> Forall bounded cs -> 0 < s_limit k ->
  Z.of_nat (length cs) <= MAX_SEARCH_FILES ->
  forall fuel cursor f l, _decode_search_cursor dec cursor = Ok (Z.of_nat f, Z.of_nat l) ->
  (f < length cs)%nat \/ (f = 0 /\ l = 0)%nat -> start_ok (drop f cs) l -> (weight (drop f cs) l < fuel)%nat ->
  exists pages, search_all dec fold_text fuel k cursor cs = Ok pages /\
    concat (map x_matches pages) = matches_from fold_text k (drop f cs) l /\
    Forall (fun r => Z.of_nat (length (x_matches r)) <= s_limit k /\ x_scanned r <= MAX_SEARCH_SCANNED_BYTES) pages.
Proof.
  intros Hs Hb Hlim Hn. induction fuel as [|fuel IH]; intros cursor f l Hc Hf Hp Hw; [lia|].
  cbn [search_all]. unfold search_page. rewrite Hc. cbn [rbind].
  assert (f <= length cs)%nat as Hfl by lia.
  assert ((Z.of_nat (length cs) <? Z.of_nat f) || ((Z.of_nat f =? Z.of_nat (length cs)) && negb (Z.of_nat l =? 0)) = false) as ->.
  { apply orb_false_iff. split; [lia|]. destruct (Z.of_nat f =? Z.of_nat (length cs)) eqn:E; [|done].
    destruct Hf as [Hf|[_ ->]]; [lia|done]. }
  rewrite !Nat2Z.id.
  destruct (search_files_spec fold_text k (drop f cs) (length cs) f l 0 0) as (ms & next & sc & E & Hlen & Hsc & Hnext);
    [by apply Forall_drop|rewrite length_drop; lia|done|lia|]. rewrite E. cbn [rbind x_continuation].
  specialize (Hsc ltac:(unfold MAX_SEARCH_SCANNED_BYTES; lia)). destruct next as [[i l']|]; cbn [fmap option_fmap option_map fst snd].
  2: { eexists [_]. split; [reflexivity|]. cbn [map x_matches concat]. rewrite app_nil_r. split; [done|].
       constructor; [cbn [x_matches x_scanned]; split; [lia|done]|done]. }
  destruct Hnext as (Hi & Hst & Em & Hprog). specialize (Hprog ltac:(vm_compute; discriminate)).
  rewrite length_drop in Hi. rewrite drop_drop in Hst, Em. replace (f + (i - f))%nat with i in Hst, Em by lia.
  assert (small (Z.of_nat i)) as Hsi by (apply small_length; unfold MAX_SEARCH_FILES, MAX_READ_BYTES in *; lia).
  assert (small (Z.of_nat l')) as Hsl.
  { apply small_length. destruct Hst as [->|(c & r & Ed & Hl)]; [unfold MAX_READ_BYTES; lia|].
    assert (bounded c) as Hbc.
    { rewrite Forall_forall in Hb. apply Hb. rewrite <-(take_drop i cs), Ed. set_solver. }
    pose proof (file_lines_bounded c Hbc). apply Nat.lt_le_incl in Hl. apply inj_le in Hl. by etransitivity. }
  destruct (cursor_position dec _ _ Hsi Hsl) as [_ Hcur].
  destruct (IH (Some (_encode_search_cursor (Z.of_nat i) (Z.of_nat l'))) i l' Hcur) as (pages & E1 & E2 & E3); [lia|done| |].
  { apply Nat.lt_le_trans with (weight (drop f cs) l); [|lia].
    replace (drop i cs) with (drop (i - f) (drop f cs)) in * by (rewrite drop_drop; f_equal; lia).
    apply weight_drop; [done|rewrite length_drop; lia|lia|done]. }
  rewrite E1. cbn [rbind]. eexists (_ :: pages). split; [reflexivity|]. cbn [map x_matches concat]. rewrite E2, Em.
  split; [done|]. constructor; [cbn [x_matches x_scanned]; split; [lia|done]|done].
Qed.

(** Following the continuations of a search finds every match once and in
    order, in finitely many pages: if the files can be opened and searched
    without an error, searching from the start and continuing while there is a
    continuation ends, the matches of the pages joined are those of all the
    lines of all the text files of at most 2 MiB in the order of the candidates,
    and no page has more matches or has scanned more bytes than allowed. *)
Theorem search_is_complete dec fold_text k cs :
  Forall (searchable fold_text k) cs -> Forall bounded cs -> 1 <= s_limit k -> Z.of_nat (length cs) <= MAX_SEARCH_FILES ->
  exists pages, search_all dec fold_text (S (weight cs 0)) k None cs = Ok pages /\
    concat (map x_matches pages) = concat (map (fun c => matches_in fold_text k (k_path c) 0 (file_lines c)) cs) /\
    Forall (fun r => Z.of_nat (length (x_matches r)) <= s_limit k /\ x_scanned r <= MAX_SEARCH_SCANNED_BYTES) pages.
Proof.
  intros Hs Hb Hl Hn.
  destruct (search_all_from dec fold_text k cs Hs Hb ltac:(lia) Hn (S (weight cs 0)) None 0%nat 0%nat eq_refl) as (pages & E1 & E2 & E3);
    [by right|by left|rewrite drop_0; lia|].
  exists pages. rewrite drop_0 in E2. by rewrite E2, (proj1 (matches_from_next fold_text k (hd {| k_path := []; k_size := 0; k_content := Ok [] |} cs) cs)).
Qed.

(** ** Samples *)

Definition sample_bytes : bytes := default [] (utf8_encode [97; 10; 8364; 98; 10; 99]%N).
Definition sample_read (max_bytes : Z) (max_lines : option Z) : read_request :=
  {| q_relative := lit "a.txt"; q_start := None; q_end := None; q_max_bytes := max_bytes; q_max_lines := max_lines; q_cursor := None |}.
Definition no_hash (b : bytes) : str := [].
Definition no_decimal (c : N) : option Z := None.


Definition sample_query : query :=
  {| s_query := lit "hit"; s_case := true; s_expression := None; s_preview := 128; s_limit := 1 |}.
Definition sample_file (path text : string) : candidate :=
  {| k_path := lit path; k_size := Z.of_nat (String.length text); k_content := Ok (map Z.of_N (lit text)) |}.
Definition sample_files : list candidate :=
  [sample_file "a" "hit a hit"; sample_file "b" "none"; sample_file "c" "a hit"].
Definition same_text (s : str) : str := s.

Lemma search_is_complete_witness :
  weight sample_files 0 = 6%nat /\
  exists pages, search_all no_decimal same_text 7 sample_query None sample_files = Ok pages /\
    concat (map x_matches pages) =
      concat (map (fun c => matches_in same_text sample_query (k_path c) 0 (file_lines c)) sample_files) /\
    Forall (fun r => Z.of_nat (length (x_matches r)) <= 1 /\ x_scanned r <= MAX_SEARCH_SCANNED_BYTES) pages.
Proof.
  split; [vm_compute; reflexivity|].
  apply (search_is_complete no_decimal same_text sample_query sample_files); [| |vm_compute; discriminate|vm_compute; discriminate].
  - repeat constructor; intros _; eexists; (split; [vm_compute; reflexivity|]); repeat constructor.
  - repeat constructor; vm_compute; discriminate.
Defined.

(** With [max_lines] the rest of the file is not announced: the page of the first
    line of three says that nothing was cut and has no continuation. *)
Lemma max_lines_hides_the_rest : exists r, read_file no_hash no_decimal (sample_read 100 (Some 1)) (Ok sample_bytes) = Ok r /\
  r_text r = [97; 10]%N /\ r_truncated r = false /\ r_continuation r = None.
Proof. eexists. vm_compute. split; [reflexivity|]. auto. Qed.

(** A page smaller than the next character is empty and continues where it began. *)
Lemma small_page_stalls : let q := with_cursor (_encode_read_cursor 1 0) (sample_read 2 None) in
  exists r, read_file no_hash no_decimal q (Ok sample_bytes) = Ok r /\ r_text r = [] /\ r_continuation r = q_cursor q.
Proof. eexists. vm_compute. split; [reflexivity|]. auto. Qed.

(** A line that the regular expression does not match is reported when it
    contains the text of the expression. *)
Lemma unmatched_regex_reports_literal :
  column same_text {| s_query := lit "^hit"; s_case := true; s_expression := Some (fun line => Ok (if starts_with (lit "hit") line then Some 0 else None));
    s_preview := 128; s_limit := 1 |} (lit "see ^hit") = Ok (Some 4).
Proof. vm_compute. reflexivity. Qed.
