(* ===== verification/PatchService.v ===== *)
(** * Transactional patches: PatchService of patching.py

    The service over a disk that can fail.  [files] are the files of the target
    root by relative path, [temporaries] what [_atomic_replace] may leave behind
    in a crash, [journal] the transaction directories with their backups and
    manifest, [database] the agent journal.  Every step that touches the disk or
    asks the caller's [check] consults a fault oracle: the step either happens or
    raises what the oracle says, the death of the process ([Crash]) included. *)
From stdpp Require Import sorting.
From S2P Require Import Prelude Utf8 PyStr Models OperationGate Paths PatchFormat Database Json.

Open Scope N_scope.

Definition MAX_PATCH_FILE_BYTES : Z := 8388608.

(** [stream.read(n)] *)
Fixpoint read_at_most (n : Z) (raw : bytes) : bytes :=
  match raw with
  | [] => []
  | a :: r => if (n <=? 0)%Z then [] else a :: read_at_most (n - 1) r
  end.

(** ** Data *)

Record _Change := {
  c_action : PatchAction;
  c_source : str;
  c_destination : option str;
  c_old_hash : option str;
  c_new_hash : option str;
}.

(** [validated] keeps of a [ValidatedPath] whether the target existed. *)
Record _Preflight := {
  desired : list (str * option bytes);
  validated : list (str * bool);
  pf_changes : list _Change;
}.

(** A record of the journal manifest.  [None] for the two hashes: the key is
    missing, as in manifests of version 1. *)
Record record_ := {
  r_path : str;
  r_existed : bool;
  r_backup : option nat;
  r_original_sha256 : option (option str);
  r_desired_sha256 : option (option str);
}.

Inductive manifest_state := Prepared | Committing | Committed | RolledBack.
#[export] Instance manifest_state_eq_dec : EqDecision manifest_state.
Proof. solve_decision. Defined.

Record manifest := {
  m_project_id : str;
  m_root_fingerprint : str;
  m_idempotency_key : str;
  m_request_digest : str;
  m_result : json;
  m_binding : Binding;
  m_state : manifest_state;
  m_records : list record_;
  m_scope_path : option str;
}.

Definition with_state (s : manifest_state) (m : manifest) : manifest :=
  {| m_project_id := m_project_id m; m_root_fingerprint := m_root_fingerprint m;
     m_idempotency_key := m_idempotency_key m; m_request_digest := m_request_digest m;
     m_result := m_result m; m_binding := m_binding m; m_state := s; m_records := m_records m;
     m_scope_path := m_scope_path m |}.

(** A directory of [journal_root]; the backup [0007.bak] is number 7. *)
Record txn := { backups : gmap nat bytes; t_manifest : option manifest }.

(** [mutated] and [records] are the locals of [_commit] its handlers read. *)
Record world := {
  files : gmap str bytes;
  temporaries : gmap nat bytes;
  journal : gmap str txn;
  database : db;
  mutated : bool;
  records : list record_;
  clock : nat;
}.

Definition set_files (f : gmap str bytes -> gmap str bytes) (w : world) : world :=
  {| files := f (files w); temporaries := temporaries w; journal := journal w;
     database := database w; mutated := mutated w; records := records w; clock := clock w |}.
Definition set_temporaries (f : gmap nat bytes -> gmap nat bytes) (w : world) : world :=
  {| files := files w; temporaries := f (temporaries w); journal := journal w;
     database := database w; mutated := mutated w; records := records w; clock := clock w |}.
Definition set_journal (f : gmap str txn -> gmap str txn) (w : world) : world :=
  {| files := files w; temporaries := temporaries w; journal := f (journal w);
     database := database w; mutated := mutated w; records := records w; clock := clock w |}.
Definition set_database (d : db) (w : world) : world :=
  {| files := files w; temporaries := temporaries w; journal := journal w;
     database := d; mutated := mutated w; records := records w; clock := clock w |}.
Definition set_mutated (b : bool) (w : world) : world :=
  {| files := files w; temporaries := temporaries w; journal := journal w;
     database := database w; mutated := b; records := records w; clock := clock w |}.
Definition set_records (r : list record_) (w : world) : world :=
  {| files := files w; temporaries := temporaries w; journal := journal w;
     database := database w; mutated := mutated w; records := r; clock := clock w |}.
Definition tick (w : world) : world :=
  {| files := files w; temporaries := temporaries w; journal := journal w;
     database := database w; mutated := mutated w; records := records w; clock := S (clock w) |}.

Definition W := ST world.

Definition CAPABILITY : str := lit "project_apply_patch".

(** ** Patch results as JSON *)

Definition action_name (a : PatchAction) : str :=
  match a with Add => lit "add" | Update => lit "update" | Delete => lit "delete" | Move => lit "move" end.
Definition opt_str (s : option str) : json := match s with Some s => JStr s | None => JNull end.

Definition change_json (c : _Change) : json :=
  JObj [(lit "operation", JStr (action_name (c_action c))); (lit "path", JStr (c_source c));
        (lit "destination", opt_str (c_destination c)); (lit "old_sha256", opt_str (c_old_hash c));
        (lit "new_sha256", opt_str (c_new_hash c))].

Definition result_json (project_id idempotency_key : str) (dry_run : bool) (changes : list _Change)
    (journal_id : option str) : json :=
  JObj ([(lit "project_id", JStr project_id); (lit "idempotency_key", JStr idempotency_key);
         (lit "dry_run", JBool dry_run); (lit "applied", JBool (negb dry_run));
         (lit "files", JList (map change_json changes)); (lit "conflicts", JList [])] ++
        match journal_id with Some j => [(lit "journal_id", JStr j)] | None => [] end).

(** [_desired_hashes]: a JSON value that is no text or [null] stands for itself
    and never equals a digest; it is read as [None]. *)
Definition text_of (v : option json) : option str := match v with Some (JStr s) => Some s | _ => None end.

Definition desired_hashes_of (change : json) (d : gmap str (option str)) : gmap str (option str) :=
  match change with
  | JObj o =>
      let action := text_of (obj_get (lit "operation") o) in
      let new_hash := text_of (obj_get (lit "new_sha256") o) in
      let d := match text_of (obj_get (lit "path") o) with
               | Some source => <[source :=
                   if bool_decide (action ∈ [Some (lit "delete"); Some (lit "move")]) then None
                   else new_hash]> d
               | None => d
               end in
      match text_of (obj_get (lit "destination") o) with
      | Some destination => if bool_decide (action = Some (lit "move"))
                            then <[destination := new_hash]> d else d
      | None => d
      end
  | _ => d
  end.

Definition _desired_hashes (result : json) : gmap str (option str) :=
  match result with
  | JObj o => match obj_get (lit "files") o with
              | Some (JList l) => fold_left (fun d c => desired_hashes_of c d) l ∅
              | _ => ∅
              end
  | _ => ∅
  end.

(** [_HASH_RE.fullmatch] *)
Definition is_hash (s : str) : bool :=
  (length s =? 64)%nat && forallb (fun c => is_hex_lower (lower_char c)) s.

(** [_normalize_base_hashes]: later spellings of one path win. *)
Fixpoint normalize_base_hashes (items : list (str * option str)) (acc : gmap str (option str))
    : res (gmap str (option str)) :=
  match items with
  | [] => Ok acc
  | (path, value) :: rest =>
      normalized <-? validate_relative_path path false ;;
      guard_ (match value with Some v => negb (is_hash v) | None => false end)
        (AgentError "invalid_request" false []) ;;?
      normalize_base_hashes rest (<[normalized := ascii_lower <$> value]> acc)
  end.
Definition _normalize_base_hashes (items : list (str * option str)) : res (gmap str (option str)) :=
  normalize_base_hashes items ∅.

Section service.
  (** [hashlib.sha256(raw).hexdigest()], [os.linesep], and what the platform
      reports as the fingerprint of a pinned external scope ([None]: it cannot be
      pinned). *)
  Context (_sha : bytes -> str) (linesep : str) (scope_fingerprint : str -> option str).
  (** The fault oracle of one run. *)
  Context (fault : nat -> option exn).

Definition _request_digest (patch : str) (base_hashes : gmap str (option str)) (dry_run : bool)
    (scope_path : option str) : str :=
  _sha (dumps_ascii (JObj (
    [(lit "patch", JStr patch);
     (lit "base_hashes", JObj (map (fun kv => (kv.1, opt_str kv.2)) (map_to_list base_hashes)));
     (lit "dry_run", JBool dry_run)] ++
    match scope_path with Some s => [(lit "scope_path", JStr s)] | None => [] end))).

(** One step of the disk. *)
Definition step {A} (f : world -> A * world) : W A := fun w =>
  match fault (clock w) with
  | Some e => (Err e, tick w)
  | None => let '(a, w') := f (tick w) in (Ok a, w')
  end.
Definition act (f : world -> world) : W unit := step (fun w => (tt, f w)).

(** The caller's consent check, and any read that may fail. *)
Definition check : W unit := act id.

Definition run_db {A} (m : DB A) : W A := fun w =>
  match fault (clock w) with
  | Some e => (Err e, tick w)
  | None => let '(r, d) := m (database w) in (r, set_database d (tick w))
  end.

(** The clock stands for the time of a database call. *)
Definition now_of (w : world) : Z := Z.of_nat (clock w).

(** *** The resolver and plain reads, on the files of this moment

    [resolve] fails for other reasons too (links, changed identities): the
    oracle raises those. *)

Definition exists_ (w : world) (path : str) : bool := bool_decide (is_Some (files w !! path)).

Definition resolve_target (path : str) (must_exist : bool) : W bool :=
  existed <- step (fun w => (exists_ w path, w)) ;;
  if must_exist && negb existed then raise (AgentError "path_not_found" false [])
  else ret existed.

Definition revalidate (path : str) (existed : bool) : W unit :=
  now <- resolve_target path existed ;;
  raise_if (negb (bool_decide (now = existed))) (AgentError "path_race" false []).

Definition read_file (path : str) : W bytes :=
  raw <- step (fun w => (files w !! path, w)) ;;
  match raw with
  | Some raw => ret raw
  | None => raise (AgentError "path_not_found" false [])
  end.

Definition _path_hash (path : str) : W (option str) :=
  step (fun w => (_sha <$> files w !! path, w)).

(** *** Writes *)

(** [os.replace(temporary, target)] with the retries of [_atomic_replace]: a
    [PermissionError] is retried while delays are left. *)
Fixpoint replace_retry (attempts : nat) (target : str) (temporary : nat) (raw : bytes) : W unit :=
  fun w => match act (fun w => set_temporaries (delete temporary) (set_files <[target := raw]> w)) w with
           | (Err (OSError what), w') =>
               match attempts with
               | S attempts => if bool_decide (what = "PermissionError"%string)
                               then replace_retry attempts target temporary raw w'
                               else (Err (OSError what), w')
               | O => (Err (OSError what), w')
               end
           | r => r
           end.

(** The temporary file has a fresh name; it is identified by the clock. *)
Definition _atomic_replace (target : str) (raw : bytes) : W unit :=
  temporary <- gets clock ;;
  try_finally
    (act (set_temporaries <[temporary := []]>) ;;;
     act (set_temporaries <[temporary := raw]>) ;;;
     replace_retry 4 target temporary raw)
    (act (set_temporaries (delete temporary))).

Definition unlink (path : str) : W unit :=
  present <- gets (fun w => exists_ w path) ;;
  if present then act (set_files (delete path)) else raise (OSError "FileNotFoundError").

Definition update_txn (tid : str) (f : txn -> txn) : world -> world := set_journal (alter f tid).

(** The temporary manifest is written first, then renamed over the old one. *)
Definition _write_manifest (tid : str) (m : manifest) : W unit :=
  check ;;; act (update_txn tid (fun t => {| backups := backups t; t_manifest := Some m |})).

Definition write_backup (tid : str) (index : nat) (raw : bytes) : W unit :=
  act (update_txn tid (fun t => {| backups := <[index := []]> (backups t); t_manifest := t_manifest t |})) ;;;
  act (update_txn tid (fun t => {| backups := <[index := raw]> (backups t); t_manifest := t_manifest t |})).

(** [shutil.rmtree(transaction, ignore_errors=True)]: the backups go first (the
    worst order for recovery), a deletion that fails is skipped, the directory
    goes when it is empty. *)
Definition ignore_errors (m : W unit) : W unit := try_except m (fun _ => ret tt).

Definition rmtree (tid : str) : W unit :=
  t <- gets (fun w => journal w !! tid) ;;
  match t with
  | None => ret tt
  | Some t =>
      for_each (map_to_list (backups t)) (fun b => ignore_errors
        (act (update_txn tid (fun t => {| backups := delete b.1 (backups t); t_manifest := t_manifest t |})))) ;;;
      ignore_errors (act (update_txn tid (fun t => {| backups := backups t; t_manifest := None |}))) ;;;
      ignore_errors (act (set_journal (fun j =>
        match j !! tid with
        | Some t => if bool_decide (backups t = ∅ /\ t_manifest t = None) then delete tid j else j
        | None => j
        end)))
  end.

Definition manifest_of (tid : str) (w : world) : option manifest := journal w !! tid ≫= t_manifest.

(** *** Rollback *)

Definition sha_opt (raw : option bytes) : option str := _sha <$> raw.

Definition restore_record (tid : str) (legacy_desired : gmap str (option str)) (record : record_) : W unit :=
  let relative := r_path record in
  _ <- resolve_target relative false ;;
  current_hash <- _path_hash relative ;;
  let desired_hash := match r_desired_sha256 record with
                      | Some h => h
                      | None => default None (legacy_desired !! relative)
                      end in
  if r_existed record then
    backup <- step (fun w => (t ← journal w !! tid; i ← r_backup record; backups t !! i, w)) ;;
    match backup with
    | None => raise (OSError "recovery backup is missing")
    | Some backup_raw =>
        let original_hash := match r_original_sha256 record with
                             | Some (Some (c :: h)) => c :: h
                             | _ => _sha backup_raw
                             end in
        if bool_decide (current_hash = Some original_hash) then ret tt
        else if bool_decide (current_hash <> None) && negb (bool_decide (current_hash = desired_hash))
        then raise (OSError "recovery target changed independently")
        else _atomic_replace relative backup_raw
    end
  else if bool_decide (current_hash <> None) then
    if negb (bool_decide (current_hash = desired_hash))
    then raise (OSError "recovery target changed independently")
    else unlink relative
  else ret tt.

(** The loop: which records could not be restored. *)
Fixpoint restore_all (tid : str) (legacy_desired : gmap str (option str)) (rs : list record_)
    : W (list str) :=
  match rs with
  | [] => ret []
  | r :: rest =>
      failed <- try_except (restore_record tid legacy_desired r ;;; ret false) (fun _ => ret true) ;;
      errors <- restore_all tid legacy_desired rest ;;
      ret (if failed : bool then r_path r :: errors else errors)
  end.

Definition _restore (tid : str) (rs : list record_) (result : json) : W unit :=
  errors <- restore_all tid (_desired_hashes result) (rev rs) ;;
  if negb (bool_decide (errors = [])) then raise (AgentError "recovery_failed" false [])
  else
    m <- step (fun w => (manifest_of tid w, w)) ;;
    match m with
    | Some m => _write_manifest tid (with_state RolledBack m)
    | None => ret tt
    end.

(** *** Preflight *)

Definition sections_paths (sections : list PatchSection) : gset str :=
  list_to_set (concat (map (fun s => path s :: match destination s with Some d => [d] | None => [] end) sections)).

Definition patch_conflict_ {A} (reason : string) : W A :=
  raise (AgentError "patch_conflict" false [(lit "reason", reason)]).

Definition encode_file (d : _TextFile) : W bytes :=
  match encode d with Some raw => ret raw | None => raise (ValueError "surrogates not allowed") end.

(** Decode, apply the hunks, encode. *)
Definition new_content (section : PatchSection) (old_raw : bytes) : W bytes :=
  document <- lift (decode linesep old_raw) ;;
  patched <- lift (_apply_hunks document (hunks section)) ;;
  encode_file patched.

Definition pf_empty : _Preflight := {| desired := []; validated := []; pf_changes := [] |}.

Definition pf_add (des : list (str * option bytes)) (val : list (str * bool)) (c : _Change)
    (p : _Preflight) : _Preflight :=
  {| desired := desired p ++ des; validated := validated p ++ val; pf_changes := pf_changes p ++ [c] |}.

(** The file a section changes: found, and not larger than the limit before and
    after it is read. *)
Definition read_old (q : str) : W (bool * bytes) :=
  existed <- resolve_target q true ;;
  size <- step (fun w => (length (default [] (files w !! q)), w)) ;;
  raise_if (MAX_PATCH_FILE_BYTES <? Z.of_nat size)%Z (AgentError "file_too_large" false []) ;;;
  content <- read_file q ;;
  let old_raw := read_at_most (MAX_PATCH_FILE_BYTES + 1) content in
  raise_if (MAX_PATCH_FILE_BYTES <? Z.of_nat (length old_raw))%Z (AgentError "file_too_large" false []) ;;;
  ret (existed, old_raw).

Definition preflight_section (base_hashes : gmap str (option str)) (section : PatchSection)
    (p : _Preflight) : W _Preflight :=
  let expected_hash := default None (base_hashes !! path section) in
  match action section with
  | Add =>
      raise_if (bool_decide (expected_hash <> None)) (AgentError "invalid_request" false []) ;;;
      existed <- resolve_target (path section) false ;;
      if existed then patch_conflict_ "already_exists"
      else
        raw <- encode_file {| lines := add_lines section; newline := linesep; final_newline := true;
                              bom := false |} ;;
        ret (pf_add [(path section, Some raw)] [(path section, false)]
               {| c_action := Add; c_source := path section; c_destination := None;
                  c_old_hash := None; c_new_hash := Some (_sha raw) |} p)
  | a =>
      old <- read_old (path section) ;;
      let '(existed, old_raw) := old in
      let old_hash := _sha old_raw in
      if negb (bool_decide (expected_hash = Some old_hash)) then patch_conflict_ "base_hash_mismatch"
      else match a with
      | Delete =>
          ret (pf_add [(path section, None)] [(path section, existed)]
                 {| c_action := Delete; c_source := path section; c_destination := None;
                    c_old_hash := Some old_hash; c_new_hash := None |} p)
      | _ =>
          updated <- new_content section old_raw ;;
          let new_hash := Some (_sha updated) in
          match a, destination section with
          | Move, Some dest =>
              raise_if (bool_decide (default None (base_hashes !! dest) <> None))
                (AgentError "invalid_request" false []) ;;;
              dest_existed <- resolve_target dest false ;;
              if dest_existed then patch_conflict_ "already_exists"
              else ret (pf_add [(path section, None); (dest, Some updated)]
                          [(path section, existed); (dest, false)]
                          {| c_action := Move; c_source := path section; c_destination := Some dest;
                             c_old_hash := Some old_hash; c_new_hash := new_hash |} p)
          | Move, None => raise (ValueError "assert section.destination is not None")
          | _, _ =>
              ret (pf_add [(path section, Some updated)] [(path section, existed)]
                     {| c_action := Update; c_source := path section; c_destination := None;
                        c_old_hash := Some old_hash; c_new_hash := new_hash |} p)
          end
      end
  end.

Fixpoint preflight_sections (base_hashes : gmap str (option str)) (sections : list PatchSection)
    (touched : gset str) (p : _Preflight) : W _Preflight :=
  match sections with
  | [] => ret p
  | section :: rest =>
      check ;;;
      let paths := sections_paths [section] in
      if negb (bool_decide (touched ∩ paths = ∅)) then raise (AgentError "invalid_patch" false [])
      else p <- preflight_section base_hashes section p ;;
           preflight_sections base_hashes rest (touched ∪ paths) p
  end.

Definition _preflight (sections : list PatchSection) (base_hashes : gmap str (option str)) : W _Preflight :=
  if negb (bool_decide (sections_paths sections = dom base_hashes))
  then raise (AgentError "invalid_request" false [])
  else preflight_sections base_hashes sections ∅ pf_empty.

(** *** Commit *)

Definition lookup_assoc {A} (k : str) (l : list (str * A)) : option A :=
  (fun r => r.2.2) <$> list_find (fun kv => kv.1 = k) l.

(** [sorted(d.items())] by path. *)
Definition sorted_items {A} (l : list (str * A)) : list (str * A) := merge_sort key_le l.

(** The expected hash of every touched path before the commit. *)
Definition expected_hashes (changes : list _Change) : gmap str (option str) :=
  fold_left (fun d c =>
    let d := <[c_source c := c_old_hash c]> d in
    match c_destination c with Some dest => <[dest := None]> d | None => d end) changes ∅.

(** One round of the loop: does the path conflict? *)
Definition verify_one (p : _Preflight) (relative : str) (expected_hash : option str) : W bool :=
  let existed := default false (lookup_assoc relative (validated p)) in
  changed <- (fun w => match revalidate relative existed w with
                      | (Ok _, w') => (Ok false, w')
                      | (Err (AgentError _ _ _), w') => (Ok true, w')
                      | (Err e, w') => (Err e, w')
                      end) ;;
  if changed : bool then ret true
  else match expected_hash with
  | None => step (fun w => (exists_ w relative, w))
  | Some h => fun w => match read_file relative w with
                       | (Ok raw, w') => (Ok (negb (bool_decide (_sha raw = h))), w')
                       | (Err (AgentError _ _ _), w') | (Err (OSError _), w') => (Ok true, w')
                       | (Err e, w') => (Err e, w')
                       end
  end.

Fixpoint verify_all (p : _Preflight) (l : list (str * option str)) : W bool :=
  match l with
  | [] => ret false
  | (relative, h) :: rest =>
      c <- verify_one p relative h ;; cs <- verify_all p rest ;; ret (c || cs)
  end.

Definition _verify_commit_preconditions (p : _Preflight) : W unit :=
  conflict <- verify_all p (sorted_items (map_to_list (expected_hashes (pf_changes p)))) ;;
  if conflict : bool then raise (AgentError "patch_conflict" false []) else ret tt.

Definition old_hash_of (changes : list _Change) (relative : str) : option (option str) :=
  (fun r => c_old_hash r.2) <$> list_find (fun c => c_source c = relative) changes.

(** One round of the loop that backs the originals up. *)
Definition backup_one (tid : str) (p : _Preflight) (index : nat) (relative : str) (des : option bytes)
    : W unit :=
  check ;;;
  let existed := default false (lookup_assoc relative (validated p)) in
  revalidate relative existed ;;;
  (if existed then
     content <- read_file relative ;;
     let raw := read_at_most (MAX_PATCH_FILE_BYTES + 1) content in
     match old_hash_of (pf_changes p) relative with
     | None => raise (ValueError "StopIteration")
     | Some expected =>
         if negb (bool_decide (Some (_sha raw) = expected)) then raise (AgentError "patch_conflict" false [])
         else write_backup tid index raw
     end
   else ret tt) ;;;
  modify (fun w => set_records (records w ++ [{|
    r_path := relative; r_existed := existed;
    r_backup := if existed then Some index else None;
    r_original_sha256 := Some (if existed then default None (old_hash_of (pf_changes p) relative) else None);
    r_desired_sha256 := Some (sha_opt des) |}]) w).

Fixpoint backup_all (tid : str) (p : _Preflight) (index : nat) (l : list (str * option bytes)) : W unit :=
  match l with
  | [] => ret tt
  | (relative, des) :: rest => backup_one tid p index relative des ;;; backup_all tid p (S index) rest
  end.

(** One round of the loop that writes the files. *)
Definition commit_one (p : _Preflight) (relative : str) (des : option bytes) : W unit :=
  check ;;;
  revalidate relative (default false (lookup_assoc relative (validated p))) ;;;
  modify (set_mutated true) ;;;
  match des with
  | None => unlink relative
  | Some raw => _atomic_replace relative raw
  end.

Definition commit_body (tid : str) (target : Project) (p : _Preflight) (idempotency_key digest : str)
    (result : json) (b : Binding) : W unit :=
  backup_all tid p 0 (sorted_items (desired p)) ;;;
  registered <- run_db (get_project (project_id target)) ;;
  rs <- gets records ;;
  let m := {| m_project_id := project_id target; m_root_fingerprint := root_fingerprint target;
              m_idempotency_key := idempotency_key; m_request_digest := digest; m_result := result;
              m_binding := b; m_state := Prepared; m_records := rs;
              m_scope_path := if bool_decide (root target = root registered) then None
                              else Some (root target) |} in
  _write_manifest tid m ;;;
  _write_manifest tid (with_state Committing m) ;;;
  for_each (desired p) (fun d => commit_one p d.1 d.2) ;;;
  check ;;;
  _write_manifest tid (with_state Committed m).

(** [except Exception:] of [_commit]. *)
Definition commit_failed (tid : str) (result : json) (e : exn) : W unit :=
  mut <- gets mutated ;;
  rs <- gets records ;;
  (if mut : bool then _restore tid rs result else rmtree tid) ;;;
  raise e.

(** [finally:] of [_commit]: a manifest that cannot be read counts as no state. *)
Definition commit_finally (tid : str) : W unit :=
  m <- try_except (step (fun w => (manifest_of tid w, w))) (fun _ => ret None) ;;
  match m with
  | Some m => if bool_decide (m_state m = RolledBack) then rmtree tid else ret tt
  | None => ret tt
  end.

Definition _commit (tid : str) (target : Project) (p : _Preflight) (idempotency_key digest : str)
    (result : json) (b : Binding) : W unit :=
  check ;;;
  _verify_commit_preconditions p ;;;
  check ;;;
  act (set_journal <[tid := {| backups := ∅; t_manifest := None |}]>) ;;;
  modify (fun w => set_mutated false (set_records [] w)) ;;;
  try_finally
    (try_except (commit_body tid target p idempotency_key digest result b) (commit_failed tid result))
    (commit_finally tid).

(** *** Recovery *)

Definition put_idempotency_ (now : Z) (m : manifest) (s : OperationState) (result : option json) : DB unit :=
  put_idempotency now (m_project_id m) CAPABILITY (m_idempotency_key m) (m_request_digest m) s result
    (m_binding m).
Definition delete_idempotency_ (m : manifest) : DB unit :=
  delete_idempotency (m_project_id m) CAPABILITY (m_idempotency_key m).

(** [resolve_file_target]: the fingerprint of the root the records are under. *)
Definition target_fingerprint (p : Project) (scope_path : option str) : W str :=
  if negb (enabled p) then raise (AgentError "project_disabled" false [])
  else
    check ;;;
    match scope_path with
    | None => ret (root_fingerprint p)
    | Some scope => match scope_fingerprint scope with
                    | Some f => ret f
                    | None => raise (OSError "scope")
                    end
    end.

Definition _recover_transaction (tid : str) (m : manifest) : W unit :=
  match m_state m with
  | Committed =>
      now <- gets now_of ;;
      run_db (put_idempotency_ now m SUCCEEDED (Some (m_result m))) ;;;
      rmtree tid
  | RolledBack =>
      run_db (delete_idempotency_ m) ;;; rmtree tid
  | _ =>
      project <- run_db (get_project (m_project_id m)) ;;
      f <- target_fingerprint project (m_scope_path m) ;;
      raise_if (negb (bool_decide (f = m_root_fingerprint m))) (AgentError "recovery_failed" false []) ;;;
      _restore tid (m_records m) (m_result m) ;;;
      run_db (delete_idempotency_ m) ;;;
      rmtree tid
  end.

Definition recover_one (tid : str) : W (list str) :=
  m <- step (fun w => (manifest_of tid w, w)) ;;
  match m with
  | None => ret []
  | Some m =>
      try_except (_recover_transaction tid m ;;; ret [tid])
        (fun _ => raise (AgentError "recovery_failed" false []))
  end.

Fixpoint recover_all (tids : list str) : W (list str) :=
  match tids with
  | [] => ret []
  | tid :: rest => a <- recover_one tid ;; b <- recover_all rest ;; ret (a ++ b)
  end.

Definition recover : W (list str) :=
  tids <- gets (fun w => map fst (map_to_list (journal w))) ;;
  recover_all tids.

(** *** The service *)

Definition agent_raise {A} (code : string) : W A := raise (AgentError code false []).

(** A finished earlier attempt: its stored result. *)
Definition prior_result (prior : str * OperationState * option json) : option json :=
  let '(_, s, result) := prior in if bool_decide (s = SUCCEEDED) then result else None.

(** A manifest that cannot be read stops the reconciliation. *)
Definition read_manifest (tid : str) : W (option manifest) := fun w =>
  match step (fun w => (manifest_of tid w, w)) w with
  | (Err (OSError _), w') => (Err (AgentError "recovery_failed" false []), w')
  | r => r
  end.

(** [_reconcile_incomplete_attempt].  Acquiring the gate and the lock of the root
    ([OperationGate]) is a step that may be refused. *)
Fixpoint reconcile_transactions (project_id idempotency_key digest : str) (b : Binding)
    (tids : list str) : W bool :=
  match tids with
  | [] => ret false
  | tid :: rest =>
      m <- read_manifest tid ;;
      match m with
      | None => reconcile_transactions project_id idempotency_key digest b rest
      | Some m =>
          if negb (bool_decide (m_project_id m = project_id)) ||
             negb (bool_decide (m_idempotency_key m = idempotency_key))
          then reconcile_transactions project_id idempotency_key digest b rest
          else if negb (bool_decide (m_request_digest m = digest)) || negb (bool_decide (m_binding m = b))
          then agent_raise "recovery_failed"
          else _recover_transaction tid m ;;;
               reconcile_transactions project_id idempotency_key digest b rest ;;;
               ret true
      end
  end.

Definition _reconcile_incomplete_attempt (project_id idempotency_key digest : str) (b : Binding) : W unit :=
  run_db (get_project project_id) ;;;
  check ;;;
  tids <- gets (fun w => map fst (map_to_list (journal w))) ;;
  matched <- reconcile_transactions project_id idempotency_key digest b tids ;;
  prior <- run_db (get_idempotency project_id CAPABILITY idempotency_key b) ;;
  match prior with
  | Some (_, s, _) =>
      if bool_decide (s = SUCCEEDED) then ret tt
      else if matched : bool then agent_raise "recovery_failed"
      else run_db (delete_idempotency project_id CAPABILITY idempotency_key)
  | None => ret tt
  end.

(** The request of [apply] and [reconcile_duplicate]. *)
Record patch_request := {
  q_project_id : str;
  q_patch : str;
  q_base_hashes : list (str * option str);
  q_idempotency_key : str;
  q_dry_run : bool;
  q_binding : Binding;
  q_scope_path : option str;
}.

Definition reconcile_duplicate (q : patch_request) : W (option json) :=
  normalized <- lift (_normalize_base_hashes (q_base_hashes q)) ;;
  let digest := _request_digest (q_patch q) normalized (q_dry_run q) (q_scope_path q) in
  project <- run_db (get_project (q_project_id q)) ;;
  if negb (enabled project) then agent_raise "project_disabled"
  else
    prior <- run_db (get_idempotency (q_project_id q) CAPABILITY (q_idempotency_key q) (q_binding q)) ;;
    match prior with
    | None => ret None
    | Some (d, s, r) =>
        if negb (bool_decide (d = digest)) then agent_raise "idempotency_conflict"
        else match prior_result (d, s, r) with
        | Some result => ret (Some result)
        | None =>
            _reconcile_incomplete_attempt (q_project_id q) (q_idempotency_key q) digest (q_binding q) ;;;
            prior <- run_db (get_idempotency (q_project_id q) CAPABILITY (q_idempotency_key q) (q_binding q)) ;;
            match prior with
            | None => ret None
            | Some p => match prior_result p with
                        | Some result => ret (Some result)
                        | None => agent_raise "outcome_unknown"
                        end
            end
        end
    end.

Definition is_recovery_failed (e : exn) : bool :=
  match e with AgentError code _ _ => bool_decide (code = "recovery_failed"%string) | _ => false end.

(** The end of [apply], from the RUNNING marker on. *)
Definition apply_journaled (q : patch_request) (digest : str) (target : Project) (p : _Preflight)
    (tid : str) : W json :=
  let result := result_json (q_project_id q) (q_idempotency_key q) false (pf_changes p) (Some tid) in
  let put s r := (now <- gets now_of ;;
    run_db (put_idempotency now (q_project_id q) CAPABILITY (q_idempotency_key q) digest s r (q_binding q))) in
  put RUNNING None ;;;
  try_except (_commit tid target p (q_idempotency_key q) digest result (q_binding q))
    (fun e => (if is_recovery_failed e then ret tt
               else run_db (delete_idempotency (q_project_id q) CAPABILITY (q_idempotency_key q))) ;;;
              raise e) ;;;
  put SUCCEEDED (Some result) ;;;
  rmtree tid ;;;
  ret result.

(** [uuid] is the journal identifier drawn. *)
Definition apply (q : patch_request) (reconcile_incomplete : bool) (target_project : option Project)
    (uuid : str) : W json :=
  check ;;;
  if negb ((8 <=? length (q_idempotency_key q))%nat && (length (q_idempotency_key q) <=? 200)%nat)
  then agent_raise "invalid_request"
  else
  normalized <- lift (_normalize_base_hashes (q_base_hashes q)) ;;
  let digest := _request_digest (q_patch q) normalized (q_dry_run q) (q_scope_path q) in
  registered <- run_db (get_project (q_project_id q)) ;;
  if negb (enabled registered) then agent_raise "project_disabled"
  else
  target <- match q_scope_path q with
            | None => ret registered
            | Some scope => match target_project with
                | Some t => if bool_decide (root t = scope) then ret t else agent_raise "invalid_request"
                | None => agent_raise "invalid_request"
                end
            end ;;
  let get := run_db (get_idempotency (q_project_id q) CAPABILITY (q_idempotency_key q) (q_binding q)) in
  prior <- get ;;
  earlier <- match prior with
    | None => ret None
    | Some (d, s, r) =>
        if negb (bool_decide (d = digest)) then agent_raise "idempotency_conflict"
        else match prior_result (d, s, r) with
        | Some result => ret (Some result)
        | None =>
            if reconcile_incomplete then
              _reconcile_incomplete_attempt (q_project_id q) (q_idempotency_key q) digest (q_binding q) ;;;
              prior <- get ;;
              match prior with
              | None => ret None
              | Some p => match prior_result p with
                          | Some result => ret (Some result)
                          | None => agent_raise "outcome_unknown"
                          end
              end
            else agent_raise "outcome_unknown"
        end
    end ;;
  match earlier with
  | Some result => ret result
  | None =>
      sections <- lift (parse (q_patch q)) ;;
      check ;;;
      check ;;;
      p <- _preflight sections normalized ;;
      check ;;;
      if q_dry_run q
      then ret (result_json (q_project_id q) (q_idempotency_key q) true (pf_changes p) None)
      else apply_journaled q digest target p uuid
  end.
End service.
