(* ===== verification/PatchRecovery.v ===== *)
(** * Atomicity of patches under faults and crashes

    The plan of one commit, the states its disk can be in, and the proof that
    every step keeps the disk in one of them: whatever fails and wherever the
    process dies, a later recovery leaves either all original files or all
    patched ones, and the journal says which. *)
From stdpp Require Import sorting.
From S2P Require Import Prelude Utf8 PyStr Models Paths PatchFormat Database Json PatchService.

Open Scope N_scope.

(** ** Rules for disk steps *)

Section steps.
  Context (fault : nat -> option exn).
  Implicit Types P : world -> Prop.

Lemma triple_act P (f : world -> world) (Q : unit -> world -> Prop) (E : exn -> world -> Prop) :
  (forall w, P w -> Q tt (f (tick w))) ->
  (forall w e, P w -> fault (clock w) = Some e -> E e (tick w)) -> triple P (act fault f) Q E.
Proof.
  intros HQ HE w Hw. unfold act, step. destruct (fault (clock w)) eqn:Hf; [by apply HE|by apply HQ].
Qed.

Lemma triple_step {A} P (f : world -> A * world) (Q : A -> world -> Prop) (E : exn -> world -> Prop) :
  (forall w, P w -> Q (f (tick w)).1 (f (tick w)).2) ->
  (forall w e, P w -> fault (clock w) = Some e -> E e (tick w)) -> triple P (step fault f) Q E.
Proof.
  intros HQ HE w Hw. unfold step. destruct (fault (clock w)) eqn:Hf; [by apply HE|].
  specialize (HQ w Hw). by destruct (f (tick w)).
Qed.

Lemma triple_run_db {A} P (m : DB A) (Q : A -> world -> Prop) (E : exn -> world -> Prop) :
  (forall w, P w -> match m (database w) with
                    | (Ok a, d) => Q a (set_database d (tick w))
                    | (Err e, d) => E e (set_database d (tick w))
                    end) ->
  (forall w e, P w -> fault (clock w) = Some e -> E e (tick w)) -> triple P (run_db fault m) Q E.
Proof.
  intros HQ HE w Hw. unfold run_db. destruct (fault (clock w)) eqn:Hf; [by apply HE|].
  specialize (HQ w Hw). by destruct (m (database w)) as [[a|e] d].
Qed.
End steps.

(** ** Reads *)

(** Worlds that differ in the clock and the temporary files only. *)
Definition same_disk (w w' : world) : Prop :=
  files w' = files w /\ journal w' = journal w /\ database w' = database w /\
  mutated w' = mutated w /\ records w' = records w.

Definition disk_only (P : world -> Prop) : Prop := forall w w', same_disk w w' -> P w -> P w'.

Lemma same_disk_trans w1 w2 w3 : same_disk w1 w2 -> same_disk w2 w3 -> same_disk w1 w3.
Proof. unfold same_disk. intros (-> & -> & -> & -> & ->). done. Qed.

Lemma same_disk_tick w : same_disk w (tick w).
Proof. done. Qed.
#[export] Hint Resolve same_disk_tick : core.

(** Reads: whatever they answer, nothing changes. *)
Definition quiet {A} (m : W A) : Prop :=
  forall P, disk_only P -> triple P m (fun _ => P) (fun _ => P).

Lemma quiet_ret {A} (a : A) : quiet (ret a).
Proof. by intros P HP w Hw. Qed.
Lemma quiet_raise {A} e : quiet (@raise world A e).
Proof. by intros P HP w Hw. Qed.
Lemma quiet_lift {A} (r : res A) : quiet (lift r).
Proof. intros P HP w Hw. by destruct r. Qed.
Lemma quiet_gets {A} (f : world -> A) : quiet (gets f).
Proof. by intros P HP w Hw. Qed.
Lemma quiet_bind {A B} (m : W A) (k : A -> W B) : quiet m -> (forall a, quiet (k a)) -> quiet (bind m k).
Proof. intros Hm Hk P HP. eapply triple_bind; [by apply Hm|]. intros a. by apply Hk. Qed.

Ltac quiet_steps :=
  repeat match goal with
  | |- quiet (bind _ _) => apply quiet_bind; [|intros ?]
  | |- quiet (raise_if ?b _) => unfold raise_if
  | |- quiet (match ?x with _ => _ end) => destruct x
  | |- quiet _ => solve [auto]
  end.

Section quiet.
  Context (_sha : bytes -> str) (fault : nat -> option exn) (p : _Preflight).

Lemma quiet_step {A} (f : world -> A) : quiet (step fault (fun w => (f w, w))).
Proof.
  intros P HP. apply triple_step; [intros w Hw; by apply (HP w)|]. intros w e Hw _. by apply (HP w).
Qed.
Lemma quiet_check : quiet (check fault).
Proof. intros P HP. apply triple_act; [intros w Hw; by apply (HP w)|]. intros w e Hw _. by apply (HP w). Qed.
#[local] Hint Resolve quiet_ret quiet_raise quiet_lift quiet_gets quiet_step quiet_check : core.

Lemma quiet_resolve q me : quiet (resolve_target fault q me).
Proof. unfold resolve_target. quiet_steps. Qed.
Lemma quiet_revalidate q ex : quiet (revalidate fault q ex).
Proof. unfold revalidate. apply quiet_bind; [apply quiet_resolve|]. intros. quiet_steps. Qed.
Lemma quiet_read q : quiet (read_file fault q).
Proof. unfold read_file. quiet_steps. Qed.
#[local] Hint Resolve quiet_resolve quiet_revalidate quiet_read : core.

Lemma quiet_verify_one q h : quiet (verify_one _sha fault p q h).
Proof.
  unfold verify_one. apply quiet_bind.
  - intros P HP w Hw. pose proof (quiet_revalidate q (default false (lookup_assoc q (validated p))) P HP w Hw) as H.
    destruct (revalidate _ _ _ w) as [[[]|e] w']; [done|]. by destruct e.
  - intros [|]; [auto|]. destruct h as [h|]; [|auto].
    intros P HP w Hw. pose proof (quiet_read q P HP w Hw) as H.
    destruct (read_file _ _ w) as [[raw|e] w']; [done|]. by destruct e.
Qed.
#[local] Hint Resolve quiet_verify_one : core.

Lemma quiet_verify : quiet (_verify_commit_preconditions _sha fault p).
Proof.
  unfold _verify_commit_preconditions. apply quiet_bind; [|intros; quiet_steps].
  generalize (sorted_items (map_to_list (expected_hashes (pf_changes p)))). intros l.
  induction l as [|[q h] l IH]; cbn [verify_all]; quiet_steps.
Qed.
End quiet.
Arguments quiet_check {fault} _ _ _ _ : assert.
Arguments quiet_verify {_sha fault p} _ _ _ _ : assert.
#[export] Hint Resolve quiet_ret quiet_raise quiet_lift quiet_gets quiet_step quiet_check
  quiet_resolve quiet_revalidate quiet_read quiet_verify_one quiet_verify : core.

(** No fault can happen. *)
Definition faultless (fault : nat -> option exn) : Prop := forall n, fault n = None.

Lemma read_all raw n : (Z.of_nat (length raw) <= n)%Z -> read_at_most n raw = raw.
Proof.
  revert n. induction raw as [|a raw IH]; intros n Hn; cbn in *; [done|].
  destruct (Z.leb_spec n 0); [lia|]. rewrite IH; [done|lia].
Qed.

(** ** The plan of a commit *)

Section plan.
  Context (_sha : bytes -> str) (linesep : str) (scope_fingerprint : str -> option str).
  Context (tid : str).
  (** The files before, and the request: target root, preflight, key, digest,
      result, binding. *)
  Context (original : gmap str bytes) (target : Project) (p : _Preflight)
    (key digest : str) (result : json) (b : Binding).
  (** The projects table, and the registered project of the target. *)
  Context (table : gmap str ProjectRow) (registered : Project).

Definition put_file (m : gmap str bytes) (d : str * option bytes) : gmap str bytes :=
  match d.2 with Some raw => <[d.1 := raw]> m | None => delete d.1 m end.

(** The files after the whole patch. *)
Definition patched : gmap str bytes := foldl put_file original (desired p).

Definition record_of (index : nat) (d : str * option bytes) : record_ :=
  {| r_path := d.1;
     r_existed := bool_decide (is_Some (original !! d.1));
     r_backup := if bool_decide (is_Some (original !! d.1)) then Some index else None;
     r_original_sha256 := Some (_sha <$> original !! d.1);
     r_desired_sha256 := Some (_sha <$> d.2) |}.

Definition planned_records : list record_ := imap record_of (sorted_items (desired p)).

Definition planned_manifest (s : manifest_state) : manifest :=
  {| m_project_id := project_id target; m_root_fingerprint := root_fingerprint target;
     m_idempotency_key := key; m_request_digest := digest; m_result := result; m_binding := b;
     m_state := s; m_records := planned_records;
     m_scope_path := if bool_decide (root target = root registered) then None else Some (root target) |}.

Definition row_key : str * str * str := (project_id target, CAPABILITY, key).

(** What preflight established, the registration, and the absence of digest
    collisions between the two contents of any one file. *)
Record plan_ok : Prop := {
  plan_nodup : NoDup (map fst (desired p));
  plan_validated : forall q d, (q, d) ∈ desired p ->
    lookup_assoc q (validated p) = Some (bool_decide (is_Some (original !! q)));
  plan_hashes : forall q d raw, (q, d) ∈ desired p -> original !! q = Some raw ->
    old_hash_of (pf_changes p) q = Some (Some (_sha raw)) /\
    (Z.of_nat (length raw) <= MAX_PATCH_FILE_BYTES)%Z;
  plan_no_collision : forall q raw raw', (q, Some raw) ∈ desired p -> original !! q = Some raw' ->
    _sha raw = _sha raw' -> raw = raw';
  plan_digest : forall raw, _sha raw <> [];
  plan_registered : pr_project <$> table !! project_id target = Some registered /\ enabled registered = true;
  plan_fingerprint : if bool_decide (root target = root registered)
    then root_fingerprint target = root_fingerprint registered
    else scope_fingerprint (root target) = Some (root_fingerprint target);
}.

(** ** States of the disk *)

Definition row (w : world) : option Idempotency := idempotency (database w) !! row_key.

Definition succeeded (w : world) : Prop :=
  exists r, row w = Some r /\ id_state r = SUCCEEDED /\ id_result r = truthy (Some result).

(** The parts of the world no step of the commit or the recovery may disturb. *)
Record ambient (w : world) : Prop := {
  amb_journal : forall t, t <> tid -> journal w !! t = None;
  amb_projects : projects (database w) = table;
  amb_row : forall r, row w = Some r -> id_request_digest r = digest /\ id_binding r = b;
}.

Definition state_of (w : world) : option manifest_state := m_state <$> manifest_of tid w.

Definition planned (w : world) : Prop :=
  forall m, manifest_of tid w = Some m -> m = planned_manifest (m_state m).

Definition backups_complete (w : world) : Prop :=
  forall i q d raw, sorted_items (desired p) !! i = Some (q, d) -> original !! q = Some raw ->
    exists t, journal w !! tid = Some t /\ backups t !! i = Some raw.

(** Every file has its old or its new content. *)
Definition mixed (w : world) : Prop :=
  forall q, files w !! q = original !! q \/ files w !! q = patched !! q.

Definition not_succeeded (w : world) : Prop := forall r, row w = Some r -> id_state r <> SUCCEEDED.

(** Before any mutation, or after a rollback. *)
Record at_original (w : world) : Prop := {
  ao_ambient : ambient w;
  ao_files : files w = original;
  ao_row : not_succeeded w;
  ao_planned : planned w;
  ao_state : state_of w <> Some Committed;
}.

(** In the middle of the writes. *)
Record in_between (w : world) : Prop := {
  ib_ambient : ambient w;
  ib_mixed : mixed w;
  ib_row : not_succeeded w;
  ib_planned : planned w;
  ib_state : state_of w = Some Committing;
  ib_backups : backups_complete w;
}.

(** All files written and the manifest says so, or the row does. *)
Record at_patched (w : world) : Prop := {
  ap_ambient : ambient w;
  ap_files : files w = patched;
  ap_planned : planned w;
  ap_state : state_of w = Some Committed \/ (state_of w = None /\ succeeded w);
}.

Definition same_core (w w' : world) : Prop :=
  files w' = files w /\ journal w' = journal w /\ database w' = database w.

Lemma same_disk_core w w' : same_disk w w' -> same_core w w'.
Proof. by intros (? & ? & ? & _). Qed.

Lemma ambient_core w w' : same_core w w' -> ambient w -> ambient w'.
Proof.
  intros (Hf & Hj & Hd) [H1 H2 H3]. split; unfold row in *; rewrite ?Hj, ?Hd; done.
Qed.

Lemma ambient_same w w' : same_disk w w' -> ambient w -> ambient w'.
Proof. intros Hs. by apply ambient_core, same_disk_core. Qed.

Lemma at_original_core w w' : same_core w w' -> at_original w -> at_original w'.
Proof.
  intros Hs [H1 H2 H3 H4 H5]. pose proof (ambient_core _ _ Hs H1) as Ha. destruct Hs as (Hf & Hj & Hd).
  unfold not_succeeded, planned, state_of, manifest_of, row in *.
  split; unfold not_succeeded, planned, state_of, manifest_of, row; rewrite ?Hf, ?Hj, ?Hd; done.
Qed.

Lemma at_original_same w w' : same_disk w w' -> at_original w -> at_original w'.
Proof. intros Hs. by apply at_original_core, same_disk_core. Qed.

Lemma in_between_same w w' : same_disk w w' -> in_between w -> in_between w'.
Proof.
  intros Hs [H1 H2 H3 H4 H5 H6]. pose proof (ambient_same _ _ Hs H1) as Ha. destruct Hs as (Hf & Hj & Hd & _).
  unfold mixed, not_succeeded, planned, state_of, manifest_of, row, backups_complete in *.
  split; unfold mixed, not_succeeded, planned, state_of, manifest_of, row, backups_complete;
    rewrite ?Hf, ?Hj, ?Hd; done.
Qed.

Lemma at_patched_same w w' : same_disk w w' -> at_patched w -> at_patched w'.
Proof.
  intros Hs [H1 H2 H3 H4]. pose proof (ambient_same _ _ Hs H1) as Ha. destruct Hs as (Hf & Hj & Hd & _).
  unfold planned, state_of, manifest_of, succeeded, row in *.
  split; unfold planned, state_of, manifest_of, succeeded, row; rewrite ?Hf, ?Hj, ?Hd; done.
Qed.


(** ** Removing a transaction directory *)

Definition del_backup (i : nat) : world -> world :=
  update_txn tid (fun t => {| backups := delete i (backups t); t_manifest := t_manifest t |}).
Definition del_manifest : world -> world :=
  update_txn tid (fun t => {| backups := backups t; t_manifest := None |}).
Definition del_dir : world -> world := set_journal (fun j =>
  match j !! tid with
  | Some t => if bool_decide (backups t = ∅ /\ t_manifest t = None) then delete tid j else j
  | None => j
  end).

Record removable (P : world -> Prop) : Prop := {
  rem_same : forall w w', same_disk w w' -> P w -> P w';
  rem_backup : forall w i, P w -> P (del_backup i w);
  rem_manifest : forall w, P w -> P (del_manifest w);
  rem_dir : forall w, P w -> P (del_dir w);
}.

(** The way out of [rmtree]: a fault that [except Exception] does not catch. *)
Definition uncaught (fault : nat -> option exn) (P : world -> Prop) (e : exn) (w : world) : Prop :=
  caught e = false /\ ~ faultless fault /\ P w.

Lemma triple_ignore_errors fault P f :
  removable P -> (forall w, P w -> P (f w)) ->
  triple P (ignore_errors (act fault f)) (fun _ => P) (uncaught fault P).
Proof.
  intros HP Hf. unfold ignore_errors. eapply triple_try_except.
  - apply (triple_act _ _ _ (fun _ => P) (fun _ w => ~ faultless fault /\ P w)).
    + intros w Hw. apply Hf. by eapply rem_same.
    + intros w e Hw He. split; [intros Hn; by rewrite (Hn (clock w)) in He|by eapply rem_same].
  - intros e _ w [_ Hw]. exact Hw.
  - intros e w He [Hn Hw]. by split.
Qed.

Lemma triple_rmtree fault P : removable P ->
  triple P (rmtree fault tid) (fun _ => P) (uncaught fault P).
Proof.
  intros HP. unfold rmtree. eapply triple_bind; [apply triple_gets|]. intros t.
  eapply triple_pre with (P' := P); [|by intros w [_ Hw]].
  destruct t as [t|]; [|by intros w Hw].
  eapply triple_bind.
  - apply (triple_for_each (fun _ => P)). intros kv r _. apply triple_ignore_errors; [done|].
    intros w. apply (rem_backup P HP).
  - intros []. eapply triple_bind.
    + apply triple_ignore_errors; [done|]. apply (rem_manifest P HP).
    + intros []. apply triple_ignore_errors; [done|]. apply (rem_dir P HP).
Qed.

(** What deletions leave of the manifest. *)
Lemma manifest_del_backup i w : manifest_of tid (del_backup i w) = manifest_of tid w.
Proof. unfold manifest_of, del_backup, update_txn. cbn. rewrite lookup_alter_eq. by destruct (journal w !! tid). Qed.
Lemma manifest_del_manifest w : manifest_of tid (del_manifest w) = None.
Proof. unfold manifest_of, del_manifest, update_txn. cbn. rewrite lookup_alter_eq. by destruct (journal w !! tid). Qed.
Lemma manifest_del_dir w : manifest_of tid (del_dir w) = manifest_of tid w.
Proof.
  unfold manifest_of, del_dir. cbn. destruct (journal w !! tid) as [t|] eqn:E; [|by rewrite E].
  case_bool_decide as H; [|by rewrite E]. destruct H as [_ Hm]. rewrite lookup_delete_eq. cbn. by rewrite Hm.
Qed.

Lemma ambient_journal_change w (f : gmap str txn -> gmap str txn) :
  (forall t, t <> tid -> f (journal w) !! t = journal w !! t) -> ambient w -> ambient (set_journal f w).
Proof. intros Hf [H1 H2 H3]. split; cbn; [|done..]. intros t Ht. rewrite Hf by done. by apply H1. Qed.

Lemma update_txn_other f w t : t <> tid -> alter f tid (journal w) !! t = journal w !! t.
Proof. intros Ht. by apply lookup_alter_ne. Qed.

Lemma del_dir_other w t : t <> tid -> journal (del_dir w) !! t = journal w !! t.
Proof.
  intros Ht. unfold del_dir. cbn. destruct (journal w !! tid); [|done]. case_bool_decide; [|done].
  by apply lookup_delete_ne.
Qed.

(** A condition on files, row and manifest that survives the loss of the
    manifest survives the removal. *)
Lemma removable_at_original : removable at_original.
Proof.
  split.
  - apply at_original_same.
  - intros w i [H1 H2 H3 H4 H5]. split; unfold planned, state_of; rewrite ?manifest_del_backup; try done.
    apply ambient_journal_change; [|done]. intros t. apply update_txn_other.
  - intros w [H1 H2 H3 H4 H5]. split; unfold planned, state_of; rewrite ?manifest_del_manifest; try done.
    apply ambient_journal_change; [|done]. intros t. apply update_txn_other.
  - intros w [H1 H2 H3 H4 H5]. split; unfold planned, state_of; rewrite ?manifest_del_dir; try done.
    apply ambient_journal_change; [|done]. intros t. apply del_dir_other.
Qed.

Definition done_patched (w : world) : Prop := at_patched w /\ succeeded w.

Lemma removable_done : removable done_patched.
Proof.
  split.
  - intros w w' Hs [H Hsu]. split; [by eapply at_patched_same|]. destruct Hs as (_ & _ & Hd & _).
    unfold succeeded, row in *. by rewrite Hd.
  - intros w i [[H1 H2 H3 H4] Hsu]. split; [|done].
    split; unfold planned, state_of; rewrite ?manifest_del_backup; try done.
    apply ambient_journal_change; [|done]. intros t. apply update_txn_other.
  - intros w [[H1 H2 H3 H4] Hsu]. split; [|done].
    split; unfold planned, state_of; rewrite ?manifest_del_manifest; try done; [|by right].
    apply ambient_journal_change; [|done]. intros t. apply update_txn_other.
  - intros w [[H1 H2 H3 H4] Hsu]. split; [|done].
    split; unfold planned, state_of; rewrite ?manifest_del_dir; try done.
    apply ambient_journal_change; [|done]. intros t. apply del_dir_other.
Qed.


(** ** Writing one file *)

Section run.
  Context (fault : nat -> option exn).

(** Raised by a fault. *)
Definition faulted (P : world -> Prop) (e : exn) (w : world) : Prop := ~ faultless fault /\ P w.

Lemma fault_not_faultless n e : fault n = Some e -> ~ faultless fault.
Proof. intros H Hf. by rewrite (Hf n) in H. Qed.

Lemma triple_act_disk P Q f : disk_only P -> (forall w, P w -> Q (f w)) ->
  (forall w, same_disk (f w) (f (tick w))) -> disk_only Q ->
  triple P (act fault f) (fun _ => Q) (faulted P).
Proof.
  intros HP HQ Hs HQd. apply triple_act.
  - intros w Hw. eapply HQd; [apply Hs|]. by apply HQ.
  - intros w e Hw He. split; [by eapply fault_not_faultless|by eapply HP].
Qed.

Lemma triple_act_same P f : disk_only P -> (forall w, same_disk w (f w)) ->
  triple P (act fault f) (fun _ => P) (faulted P).
Proof.
  intros HP Hs. apply triple_act.
  - intros w Hw. eapply HP; [apply Hs|]. by eapply HP.
  - intros w e Hw He. split; [by eapply fault_not_faultless|by eapply HP].
Qed.

Lemma triple_check P : disk_only P -> triple P (check fault) (fun _ => P) (faulted P).
Proof. intros HP. by apply triple_act_same. Qed.

Lemma disk_only_or P Q : disk_only P -> disk_only Q -> disk_only (fun w => P w \/ Q w).
Proof. intros HP HQ w w' Hs [H|H]; [left; by eapply HP|right; by eapply HQ]. Qed.

Lemma triple_replace_retry n q t raw P Q : disk_only P -> disk_only Q ->
  (forall w, P w -> Q (set_files <[q := raw]> w)) ->
  triple P (replace_retry fault n q t raw) (fun _ => Q) (faulted P).
Proof.
  intros HP HQ Hpq.
  assert (Hact : triple P (act fault (fun w => set_temporaries (delete t) (set_files <[q := raw]> w)))
    (fun _ => Q) (faulted P)).
  { apply triple_act_disk; [done| |done|done]. intros w Hw.
    apply (HQ (set_files <[q := raw]> w)); [done|by apply Hpq]. }
  induction n as [|n IH]; intros w Hw; cbn [replace_retry]; specialize (Hact w Hw);
    destruct (act _ _ w) as [[[]|e] w']; try done; destruct e; try done.
  case_bool_decide; [|done]. destruct Hact as [Hn Hp]. apply IH. exact Hp.
Qed.

Lemma triple_atomic_replace q raw P Q : disk_only P -> disk_only Q ->
  (forall w, P w -> Q (set_files <[q := raw]> w)) ->
  triple P (_atomic_replace fault q raw) (fun _ => Q) (faulted (fun w => P w \/ Q w)).
Proof.
  intros HP HQ Hpq. unfold _atomic_replace. eapply triple_bind; [apply triple_gets|]. intros t.
  eapply triple_pre with (P' := P); [|by intros w [_ Hw]].
  eapply triple_try_finally with (Q1 := fun _ => Q) (E1 := faulted P).
  - eapply triple_bind; [by apply triple_act_same|]. intros [].
    eapply triple_bind; [by apply triple_act_same|]. intros []. by apply triple_replace_retry.
  - intros w [Hn Hw]. split; [done|by left].
  - intros []. eapply triple_weaken; [by apply (triple_act_same Q)|done|done|].
    intros e w [Hn Hw]. split; [done|by right].
  - intros e _. eapply triple_weaken; [apply (triple_act_same (fun w => ~ faultless fault /\ P w))|done|..].
    + intros w w' Hs [Hn Hw]. split; [done|by eapply HP].
    + done.
    + intros _ w [Hn Hw]. split; [done|by left].
    + intros e' w [_ [Hn Hw]]. split; [done|by left].
Qed.

Lemma triple_unlink q P Q : disk_only P -> disk_only Q ->
  (forall w, P w -> is_Some (files w !! q)) ->
  (forall w, P w -> Q (set_files (delete q) w)) ->
  triple P (unlink fault q) (fun _ => Q) (faulted P).
Proof.
  intros HP HQ Hex Hpq. unfold unlink. eapply triple_bind; [apply triple_gets|]. intros present.
  intros w [-> Hw]. unfold exists_. rewrite bool_decide_eq_true_2 by by apply Hex.
  by apply (triple_act_disk P Q).
Qed.
End run.


(** ** The files of the plan *)

Lemma foldl_put_other l m q : q ∉ map fst l -> foldl put_file m l !! q = m !! q.
Proof.
  revert m. induction l as [|[q' d] l IH]; intros m Hq; cbn in *; [done|].
  apply not_elem_of_cons in Hq as [Hne Hq]. rewrite IH by done. unfold put_file. cbn.
  destruct d; [by apply lookup_insert_ne|by apply lookup_delete_ne].
Qed.

Lemma foldl_put_lookup l m q d : NoDup (map fst l) -> (q, d) ∈ l -> foldl put_file m l !! q = d.
Proof.
  revert m. induction l as [|[q' d'] l IH]; intros m Hn Hin; [by apply elem_of_nil in Hin|].
  cbn in Hn. apply NoDup_cons in Hn as [Hq Hn]. cbn. apply elem_of_cons in Hin as [[= <- <-]|Hin].
  - rewrite foldl_put_other by done. unfold put_file. cbn. destruct d; [apply lookup_insert_eq|apply lookup_delete_eq].
  - by apply IH.
Qed.

Section restore.
  Context (fault : nat -> option exn) (Hplan : plan_ok).
  #[local] Set Default Proof Using "Type Hplan fault".

Lemma patched_lookup q d : (q, d) ∈ desired p -> patched !! q = d.
Proof. intros H. unfold patched. apply foldl_put_lookup; [apply Hplan|done]. Qed.

Lemma sorted_desired i q d : sorted_items (desired p) !! i = Some (q, d) -> (q, d) ∈ desired p.
Proof.
  intros H. apply list_elem_of_lookup_2 in H. unfold sorted_items in H. by rewrite merge_sort_Permutation in H.
Qed.

Definition restored (X : list str) (w : world) : Prop :=
  in_between w /\ forall q, q ∈ X -> files w !! q = original !! q.

Lemma disk_only_restored X : disk_only (restored X).
Proof.
  intros w w' Hs [H HX]. split; [by eapply in_between_same|]. destruct Hs as (Hf & _). by rewrite Hf.
Qed.

Lemma restored_write X q w (f : gmap str bytes -> gmap str bytes) :
  restored X w -> f (files w) !! q = original !! q ->
  (forall q', q' <> q -> f (files w) !! q' = files w !! q') -> restored (q :: X) (set_files f w).
Proof.
  intros [[H1 H2 H3 H4 H5 H6] HX] Hq Ho. split.
  - split; [by destruct H1; split| |done..].
    intros q'. cbn. destruct (decide (q' = q)) as [->|Hne]; [left; done|].
    rewrite Ho by done. apply H2.
  - intros q' [->|Hin]%elem_of_cons; cbn; [done|]. destruct (decide (q' = q)) as [->|Hne]; [done|].
    rewrite Ho by done. by apply HX.
Qed.

Lemma restored_cons X q w : restored X w -> files w !! q = original !! q -> restored (q :: X) w.
Proof. intros [H HX] Hq. split; [done|]. intros q' [->|Hin]%elem_of_cons; [done|by apply HX]. Qed.

(** The digest of the current content tells which of the two contents it is. *)
Lemma current_is_original w i q d : in_between w -> sorted_items (desired p) !! i = Some (q, d) ->
  _sha <$> files w !! q = _sha <$> original !! q -> files w !! q = original !! q.
Proof.
  intros Hw Hi Hh. destruct (ib_mixed w Hw q) as [E|E]; [done|].
  rewrite (patched_lookup q d (sorted_desired _ _ _ Hi)) in E. rewrite E in *.
  destruct (original !! q) as [raw|] eqn:Ho, d as [raw'|]; cbn in Hh; try done.
  f_equal. injection Hh as Hh. symmetry in Hh. symmetry.
  symmetry. eapply plan_no_collision; [done| |done|done]. by apply sorted_desired in Hi.
Qed.

Lemma current_known w i q d : in_between w -> sorted_items (desired p) !! i = Some (q, d) ->
  _sha <$> files w !! q = _sha <$> original !! q \/ _sha <$> files w !! q = _sha <$> d.
Proof.
  intros Hw Hi. destruct (ib_mixed w Hw q) as [E|E]; rewrite E; [by left|right].
  by rewrite (patched_lookup q d (sorted_desired _ _ _ Hi)).
Qed.

Lemma triple_unlink_added X q w : original !! q = None -> restored X w ->
  _sha <$> files w !! q <> None ->
  match unlink fault q w with
  | (Ok _, w') => restored (q :: X) w'
  | (Err e, w') => faulted fault (restored X) e w'
  end.
Proof.
  intros Hnone Hw Hc.
  assert (triple (fun w => restored X w /\ is_Some (files w !! q)) (unlink fault q) (fun _ => restored (q :: X))
    (faulted fault (fun w => restored X w /\ is_Some (files w !! q)))) as Hu.
  { apply triple_unlink.
    - intros w1 w2 Hs [Hr Hx]. split; [by eapply disk_only_restored|]. destruct Hs as (-> & _). done.
    - apply disk_only_restored.
    - by intros w1 [_ ?].
    - intros w1 [Hr _]. apply restored_write; [done|by rewrite lookup_delete_eq|]. intros q' Hne.
      by apply lookup_delete_ne. }
  assert (is_Some (files w !! q)) as Hs by (by destruct (files w !! q)).
  specialize (Hu w (conj Hw Hs)). destruct (unlink fault q w) as [[[]|e] w']; [done|].
  by destruct Hu as [Hn [Hr _]].
Qed.

Lemma triple_restore_record X legacy i q d :
  sorted_items (desired p) !! i = Some (q, d) ->
  triple (restored X) (restore_record _sha fault tid legacy (record_of i (q, d)))
    (fun _ => restored (q :: X)) (faulted fault (restored X)).
Proof.
  intros Hi. unfold restore_record, resolve_target. cbn [r_path r_existed record_of r_backup r_original_sha256 r_desired_sha256 fst snd].
  eapply triple_bind with (Q := fun _ => restored X).
  { eapply triple_bind with (Q := fun _ => restored X).
    - apply triple_step; [intros w Hw; by apply (disk_only_restored X w)|].
      intros w e Hw He. split; [by eapply fault_not_faultless|by apply (disk_only_restored X w)].
    - intros ex w Hw. exact Hw. }
  intros _. eapply triple_bind with (Q := fun h w => restored X w /\ h = _sha <$> files w !! q).
  { unfold _path_hash. apply triple_step.
    - intros w Hw. split; [by apply (disk_only_restored X w)|done].
    - intros w e Hw He. split; [by eapply fault_not_faultless|by apply (disk_only_restored X w)]. }
  intros h. case_bool_decide as Hex.
  - destruct Hex as [raw Hraw]. rewrite Hraw.
    eapply triple_bind with (Q := fun o w => restored X w /\ h = _sha <$> files w !! q /\ o = Some raw).
    { apply triple_step.
      - intros w [Hw Hh]. split_and!; [by apply (disk_only_restored X w)|done|].
        destruct (ib_backups w (proj1 Hw) i q d raw Hi Hraw) as (t & Ht & Hb). cbn. rewrite Ht. cbn. done.
      - intros w e [Hw Hh] He. split; [by eapply fault_not_faultless|by apply (disk_only_restored X w)]. }
    intros o w (Hw & -> & ->). cbn [fmap option_fmap option_map].
    destruct (_sha raw) as [|c hs] eqn:Hsha; [by destruct (plan_digest Hplan raw)|].
    rewrite <-Hsha. case_bool_decide as Hc.
    { apply restored_cons; [done|]. eapply current_is_original; [apply Hw|done|]. by rewrite Hraw. }
    destruct (_ && _) eqn:E.
    { apply andb_true_iff in E as [_ E]. apply negb_true_iff, bool_decide_eq_false in E. exfalso.
      destruct (current_known w i q d (proj1 Hw) Hi) as [Hk|Hk]; [rewrite Hraw in Hk|]; done. }
    pose proof (triple_atomic_replace fault q raw (restored X) (restored (q :: X)) (disk_only_restored X)
      (disk_only_restored _)) as Ht.
    assert (Hstep : forall w, restored X w -> restored (q :: X) (set_files <[q := raw]> w)).
    { intros w' Hw'. apply restored_write; [done|by rewrite lookup_insert_eq|]. intros q' Hne.
      by apply lookup_insert_ne. }
    specialize (Ht Hstep w Hw). destruct (_atomic_replace _ _ _ w) as [[[]|e] w']; [done|].
    destruct Ht as [Hn [Hx|[Hx HX]]]; split; try done. split; [done|]. intros q' Hq'. apply HX. by right.
  - assert (Hnone : original !! q = None) by by apply eq_None_not_Some.
    intros w [Hw ->]. case_bool_decide as Hc.
    + case_bool_decide as Hd; cbn [negb].
      * by apply triple_unlink_added.
      * exfalso. destruct (current_known w i q d (proj1 Hw) Hi) as [Hk|Hk]; [by rewrite Hnone in Hk|done].
    + apply restored_cons; [done|]. rewrite Hnone.
      by destruct (files w !! q).
Qed.

(** *** All records *)

Lemma elem_of_planned r : r ∈ planned_records ->
  exists i q d, sorted_items (desired p) !! i = Some (q, d) /\ r = record_of i (q, d).
Proof.
  unfold planned_records. intros (i & Hi)%list_elem_of_lookup. rewrite list_lookup_imap in Hi.
  destruct (sorted_items (desired p) !! i) as [[q d]|] eqn:E; [|done]. injection Hi as <-. eauto 6.
Qed.

Lemma planned_elem q d : (q, d) ∈ desired p -> exists i, record_of i (q, d) ∈ planned_records.
Proof.
  intros Hin. assert ((q, d) ∈ sorted_items (desired p)) as (i & Hi)%list_elem_of_lookup.
  { unfold sorted_items. by rewrite merge_sort_Permutation. }
  exists i. apply (list_elem_of_lookup_2 _ i). unfold planned_records. by rewrite list_lookup_imap, Hi.
Qed.

Lemma triple_restore_all X legacy rs : (forall r, r ∈ rs -> r ∈ planned_records) ->
  triple (restored X) (restore_all _sha fault tid legacy rs)
    (fun errs w => restored X w /\ (errs = [] -> forall r, r ∈ rs -> files w !! r_path r = original !! r_path r) /\
       (errs <> [] -> ~ faultless fault))
    (fun e w => caught e = false /\ faulted fault in_between e w).
Proof.
  revert X. induction rs as [|r rs IH]; intros X Hrs; cbn [restore_all].
  { intros w Hw. split_and!; [done|by intros _ r ?%elem_of_nil|done]. }
  destruct (elem_of_planned r) as (i & q & d & Hi & ->); [apply Hrs; by left|].
  eapply triple_bind with (Q := fun failed w => if failed : bool then restored X w /\ ~ faultless fault
                                else restored (q :: X) w).
  - eapply triple_try_except with (E1 := faulted fault (restored X)).
    + eapply triple_bind; [by apply triple_restore_record|]. intros [] w Hw. exact Hw.
    + intros e _ w [Hn Hw]. by split.
    + intros e w Hc [Hn [Hw _]]. by split_and!.
  - assert (Hrs' : forall r, r ∈ rs -> r ∈ planned_records) by (intros r' ?; apply Hrs; by right).
    intros [|].
    + intros w [Hw Hn]. pose proof (IH X Hrs' w Hw) as H. unfold bind.
      destruct (restore_all _ _ _ _ rs w) as [[errs|e] w']; [|done]. cbn.
      destruct H as (Hw' & _ & _). by split_and!.
    + intros w Hw. pose proof (IH (q :: X) Hrs' w Hw) as H. unfold bind.
      destruct (restore_all _ _ _ _ rs w) as [[errs|e] w']; [|done]. cbn.
      destruct H as ([Hb HX] & He & Hn). split_and!; [|..|done].
      * split; [done|]. intros q' Hq'. apply HX. by right.
      * intros Hnil r [->|Hr]%elem_of_cons; [apply HX; by left|by apply He].
Qed.

Lemma in_between_done w : in_between w -> (forall r, r ∈ planned_records -> files w !! r_path r = original !! r_path r) ->
  files w = original.
Proof.
  intros Hw Hr. apply map_eq. intros q. destruct (ib_mixed w Hw q) as [E|E]; [done|].
  destruct (decide (q ∈ map fst (desired p))) as [Hin|Hin].
  - apply list_elem_of_fmap in Hin as ([q' d] & -> & Hin). destruct (planned_elem q' d Hin) as [i Hi].
    apply (Hr _ Hi).
  - rewrite E. unfold patched. by apply foldl_put_other.
Qed.

Lemma manifest_write f w m0 : manifest_of tid w = Some m0 ->
  manifest_of tid (update_txn tid (fun t => {| backups := backups t; t_manifest := Some f |}) w) = Some f.
Proof.
  unfold manifest_of, update_txn. cbn. rewrite lookup_alter_eq. by destruct (journal w !! tid).
Qed.

Lemma planned_some w m : planned w -> manifest_of tid w = Some m -> with_state RolledBack m = planned_manifest RolledBack.
Proof. intros Hp Hm. by rewrite (Hp m Hm). Qed.

(** Writing the rolled back state of a manifest over original files. *)
Lemma rolled_back_original w m : ambient w -> files w = original -> not_succeeded w ->
  manifest_of tid w = Some m -> planned w ->
  at_original (update_txn tid (fun t => {| backups := backups t; t_manifest := Some (with_state RolledBack m) |}) w).
Proof.
  intros H1 H2 H3 Hm Hp. split; [|done|done|..].
  - apply ambient_journal_change; [|done]. intros t. apply update_txn_other.
  - intros m'. rewrite (manifest_write _ w m Hm). intros [= <-]. by apply (planned_some w).
  - unfold state_of. by rewrite (manifest_write _ w m Hm).
Qed.

Lemma triple_restore_between :
  triple in_between (_restore _sha fault tid planned_records result) (fun _ => at_original)
    (fun e w => faulted fault in_between e w /\
       (is_recovery_failed e = true \/ caught e = false \/ files w = original)).
Proof.
  unfold _restore. eapply triple_bind with (Q := fun errs w =>
    in_between w /\ (errs = [] -> files w = original) /\ (errs <> [] -> ~ faultless fault)).
  - eapply triple_weaken; [apply (triple_restore_all [])| |..].
    + intros r Hr. by apply list_elem_of_In, in_rev, list_elem_of_In in Hr.
    + intros w Hw. split; [done|]. by intros q ?%elem_of_nil.
    + intros errs w ([Hw _] & He & Hn). split_and!; [done| |done]. intros Hnil.
      apply in_between_done; [done|]. intros r Hr. apply (He Hnil).
      by apply list_elem_of_In, in_rev; rewrite rev_involutive; apply list_elem_of_In.
    + intros e w [Hc Hf]. split; [done|]. right. by left.
  - intros errs. case_bool_decide as Hnil; cbn [negb].
    + subst errs. set (P := fun w => in_between w /\ files w = original).
      eapply triple_pre with (P' := P); [|intros w (Hw & He & _); split; [done|by apply He]].
      assert (HP : disk_only P).
      { intros w w' Hs [H1 H2]. split; [by eapply in_between_same|]. by destruct Hs as (-> & _). }
      eapply triple_bind with (Q := fun m w => P w /\ m = manifest_of tid w).
      { apply triple_step; [intros w Hw; split; [by apply (HP w)|done]|].
        intros w e Hw He. apply (HP _ _ (same_disk_tick w)) in Hw as [H1 H2].
        split; [split; [by eapply fault_not_faultless|done]|by right; right]. }
      intros m w [[Hw Hf] ->]. pose proof (ib_state w Hw) as Hst. unfold state_of in Hst.
      destruct (manifest_of tid w) as [m|] eqn:Hm; [|done].
      apply (triple_bind (fun w => P w /\ manifest_of tid w = Some m) _ _ (fun _ w => P w /\ manifest_of tid w = Some m)).
      * eapply triple_weaken; [apply (triple_check fault (fun w => P w /\ manifest_of tid w = Some m))|done|done|].
        -- intros w1 w2 Hs [H1 H2]. split; [by apply (HP w1)|]. destruct Hs as (_ & Hj & _).
           unfold manifest_of. by rewrite Hj.
        -- intros e w1 [Hn [[H1 H2] _]]. split; [done|by right; right].
      * intros []. apply triple_act.
        -- intros w1 [[H1 H2] H3]. apply (in_between_same _ _ (same_disk_tick w1)) in H1.
           by apply rolled_back_original; [apply H1| |apply H1| |apply H1].
        -- intros w1 e [[H1 H2] _] He. split; [|by right; right].
           split; [by eapply fault_not_faultless|by eapply in_between_same].
      * done.
    + intros w (Hw & _ & Hn). split; [by split; [apply Hn|]|by left].
Qed.
(** *** Rollback when nothing was written

    The backups may be incomplete here: a removal may have been interrupted. *)

(** [P] is kept; what is raised is an ordinary exception or a fault. *)
Definition keeps (P : world -> Prop) (e : exn) (w : world) : Prop :=
  P w /\ (caught e = true \/ ~ faultless fault).

Lemma faulted_keeps P e w : faulted fault P e w -> keeps P e w.
Proof. intros [Hn Hw]. split; [done|by right]. Qed.

Lemma triple_step_same {A} P (f : world -> A) : disk_only P ->
  triple P (step fault (fun w => (f w, w))) (fun a w => P w /\ exists w0, a = f w0 /\ same_disk w0 w) (faulted fault P).
Proof.
  intros HP. apply triple_step.
  - intros w Hw. split; [by apply (HP w)|]. by exists (tick w).
  - intros w e Hw He. split; [by eapply fault_not_faultless|by apply (HP w)].
Qed.

Lemma disk_only_original : disk_only at_original.
Proof. intros w w'. apply at_original_same. Qed.

Lemma triple_restore_record_original legacy i q d :
  triple at_original (restore_record _sha fault tid legacy (record_of i (q, d)))
    (fun _ => at_original) (keeps at_original).
Proof.
  unfold restore_record, resolve_target. cbn [r_path r_existed record_of r_backup r_original_sha256 r_desired_sha256 fst snd].
  eapply triple_bind with (Q := fun _ => at_original).
  { eapply triple_bind.
    - eapply triple_weaken; [apply (triple_step_same _ (fun w => exists_ w q) disk_only_original)|done| |].
      + intros a w H. exact H.
      + intros e w. apply faulted_keeps.
    - intros ex w [Hw _]. exact Hw. }
  intros _. eapply triple_bind.
  { eapply triple_weaken; [apply (triple_step_same _ (fun w => _sha <$> files w !! q) disk_only_original)|done| |].
    - intros a w H. exact H.
    - intros e w. apply faulted_keeps. }
  intros h. eapply triple_pre with (P' := fun w => at_original w /\ h = _sha <$> original !! q).
  2: { intros w [Hw (w0 & -> & (Hf & _))]. split; [done|]. rewrite <-Hf. by rewrite (ao_files w Hw). }
  case_bool_decide as Hex.
  - eapply triple_bind with (Q := fun _ w => at_original w /\ h = _sha <$> original !! q).
    { eapply triple_weaken; [apply (triple_step_same (fun w => at_original w /\ h = _sha <$> original !! q))|done| |].
      - intros w w' Hs [H1 H2]. split; [by eapply at_original_same|done].
      - by intros a w [H _].
      - intros e w [Hn [Hw _]]. split; [done|by right]. }
    intros backup w [Hw ->]. destruct backup as [raw|]; [|split; [done|by left]].
    destruct Hex as [raw' Hraw]. rewrite Hraw. cbn [fmap option_fmap option_map].
    destruct (_sha raw') as [|c hs] eqn:Hsha; [by destruct (plan_digest Hplan raw')|].
    rewrite bool_decide_refl. exact Hw.
  - apply eq_None_not_Some in Hex. rewrite Hex. intros w [Hw ->]. exact Hw.
Qed.

Lemma triple_restore_all_original legacy rs : (forall r, r ∈ rs -> r ∈ planned_records) ->
  triple at_original (restore_all _sha fault tid legacy rs) (fun _ => at_original) (faulted fault at_original).
Proof.
  induction rs as [|r rs IH]; intros Hrs; cbn [restore_all]; [by intros w Hw|].
  destruct (elem_of_planned r) as (i & q & d & Hi & ->); [apply Hrs; by left|].
  eapply triple_bind with (Q := fun _ => at_original).
  - eapply triple_try_except with (E1 := keeps at_original).
    + eapply triple_bind; [apply triple_restore_record_original|]. intros [] w Hw. exact Hw.
    + intros e _ w [Hw _]. exact Hw.
    + intros e w Hc [Hw [H|H]]; [congruence|by split].
  - intros failed. eapply triple_bind; [apply IH; intros; apply Hrs; by right|].
    intros errs w Hw. by destruct failed.
Qed.

Lemma triple_restore_original :
  triple at_original (_restore _sha fault tid planned_records result) (fun _ => at_original) (keeps at_original).
Proof.
  unfold _restore. eapply triple_bind with (Q := fun _ => at_original).
  - eapply triple_weaken; [apply triple_restore_all_original|done|done|].
    + intros r Hr. by apply list_elem_of_In, in_rev, list_elem_of_In in Hr.
    + intros e w. apply faulted_keeps.
  - intros errs. case_bool_decide; cbn [negb]; [|intros w Hw; split; [done|by left]].
    eapply triple_bind with (Q := fun m w => at_original w /\ m = manifest_of tid w).
    { eapply triple_weaken; [apply (triple_step_same _ (manifest_of tid) disk_only_original)|done| |].
      - intros m w [Hw (w0 & -> & (_ & Hj & _))]. split; [done|]. unfold manifest_of. by rewrite Hj.
      - intros e w. apply faulted_keeps. }
    intros m w [Hw ->]. destruct (manifest_of tid w) as [m|] eqn:Hm; [|done].
    eapply (triple_bind (fun w => at_original w /\ manifest_of tid w = Some m) _ _
      (fun _ w => at_original w /\ manifest_of tid w = Some m)); [| |done].
    + eapply triple_weaken; [apply (triple_check fault (fun w => at_original w /\ manifest_of tid w = Some m))|done|done|].
      * intros w1 w2 Hs [H1 H2]. split; [by eapply at_original_same|]. destruct Hs as (_ & Hj & _).
        unfold manifest_of. by rewrite Hj.
      * intros e w1 [Hn [H1 _]]. split; [done|by right].
    + intros []. apply triple_act.
      * intros w1 [H1 H3]. apply (at_original_same _ _ (same_disk_tick w1)) in H1.
        by apply rolled_back_original; [apply H1|apply H1|apply H1| |apply H1].
      * intros w1 e [H1 _] He. apply faulted_keeps. split; [by eapply fault_not_faultless|]. by eapply at_original_same.
Qed.
(** ** Recovery *)

Lemma registered_row : exists r, table !! project_id target = Some r /\ pr_project r = registered.
Proof. destruct (plan_registered Hplan) as [H _]. destruct (table !! _) as [r|]; [|done]. injection H as <-. eauto. Qed.

Lemma triple_get_project P : disk_only P -> (forall w, P w -> ambient w) ->
  triple P (run_db fault (get_project (project_id target))) (fun a w => P w /\ a = registered) (faulted fault P).
Proof.
  intros HP Ha. apply triple_run_db.
  - intros w Hw. destruct registered_row as (r & Hr & <-).
    unfold get_project, bind, gets. rewrite (amb_projects w (Ha w Hw)), Hr. cbn.
    split; [|done]. by apply (HP w).
  - intros w e Hw He. split; [by eapply fault_not_faultless|by apply (HP w)].
Qed.

Lemma put_row_ambient w now s r :
  ambient w -> exists d, put_idempotency now (project_id target) CAPABILITY key digest s r b (database w) = (Ok tt, d) /\
    projects d = table /\
    exists x, idempotency d !! row_key = Some x /\ id_request_digest x = digest /\ id_binding x = b /\
      id_state x = s /\ id_result x = truthy r.
Proof.
  intros [H1 H2 H3]. unfold put_idempotency, bind, gets, modify, row, row_key in *. cbn [id].
  destruct (idempotency (database w) !! _) as [x|] eqn:E.
  - destruct (H3 x eq_refl) as [Hd Hb]. rewrite Hd, Hb, !bool_decide_refl. cbn [negb orb].
    eexists. split; [reflexivity|]. split; [done|]. eexists. cbn. rewrite lookup_insert_eq. done.
  - destruct registered_row as (r0 & Hr & _). rewrite H2, Hr, bool_decide_eq_true_2 by done. cbn [negb].
    eexists. split; [reflexivity|]. split; [done|]. eexists. cbn. rewrite lookup_insert_eq. done.
Qed.

Lemma ambient_database w d : ambient w -> projects d = table ->
  (forall r, idempotency d !! row_key = Some r -> id_request_digest r = digest /\ id_binding r = b) ->
  ambient (set_database d w).
Proof. intros [H1 H2 H3] Hp Hr. by split. Qed.

Lemma triple_put_succeeded now : 
  triple at_patched (run_db fault (put_idempotency now (project_id target) CAPABILITY key digest SUCCEEDED (Some result) b))
    (fun _ => done_patched) (faulted fault at_patched).
Proof.
  apply triple_run_db.
  - intros w [H1 H2 H3 H4]. destruct (put_row_ambient w now SUCCEEDED (Some result) H1) as (d & -> & Hp & x & Hx & Hd & Hb & Hs & Hr).
    assert (succeeded (set_database d (tick w))) as Hsu by (exists x; done).
    split; [|done]. split; [|done|done|].
    + apply (ambient_database (tick w)); [by apply (ambient_same w)|done|]. intros r. rewrite Hx. by intros [= <-].
    + destruct H4 as [H4|[H4 _]]; [by left|by right].
  - intros w e Hw He. split; [by eapply fault_not_faultless|by apply (at_patched_same w)].
Qed.

Lemma delete_row_original w : at_original w ->
  at_original (set_database (delete_idempotency (project_id target) CAPABILITY key (database w)).2 w).
Proof.
  intros [H1 H2 H3 H4 H5]. split; [|done| |done|done].
  - apply ambient_database; [done|by apply H1|]. cbn. intros r. by rewrite lookup_delete_eq.
  - intros r. unfold row. cbn. by rewrite lookup_delete_eq.
Qed.

Lemma triple_delete_row :
  triple at_original (run_db fault (delete_idempotency (project_id target) CAPABILITY key))
    (fun _ => at_original) (faulted fault at_original).
Proof.
  apply triple_run_db.
  - intros w Hw. apply (delete_row_original (tick w)). by apply (at_original_same w).
  - intros w e Hw He. split; [by eapply fault_not_faultless|by apply (at_original_same w)].
Qed.

Lemma triple_target_fingerprint P : disk_only P ->
  triple P (target_fingerprint scope_fingerprint fault registered (m_scope_path (planned_manifest Prepared)))
    (fun f w => P w /\ f = root_fingerprint target) (faulted fault P).
Proof.
  intros HP. unfold target_fingerprint. destruct (plan_registered Hplan) as [_ ->]. cbn [negb].
  eapply triple_bind; [by apply triple_check|]. intros []. cbn [planned_manifest m_scope_path].
  pose proof (plan_fingerprint Hplan) as Hf. case_bool_decide.
  - intros w Hw. split; [done|]. by rewrite Hf.
  - rewrite Hf. intros w Hw. by split.
Qed.

Lemma uncaught_faulted P e w : uncaught fault P e w -> faulted fault P e w.
Proof. intros (_ & ? & ?). by split. Qed.

(** Rolling back, whichever of the two states the disk is in. *)
Lemma triple_recover_pending s (P : world -> Prop) (EP : exn -> world -> Prop) : s <> Committed -> s <> RolledBack -> disk_only P ->
  (forall w, P w -> ambient w) ->
  triple P (_restore _sha fault tid planned_records result) (fun _ => at_original) EP ->
  (forall e w, faulted fault P e w -> EP e w) ->
  triple P (_recover_transaction _sha scope_fingerprint fault tid (planned_manifest s))
    (fun _ => at_original) (fun e w => EP e w \/ faulted fault at_original e w).
Proof.
  intros Hs1 Hs2 HP Ha Hr HE. unfold _recover_transaction. cbn [m_state planned_manifest].
  assert (Hgo : triple P
    (project <- run_db fault (get_project (project_id target)) ;;
     f <- target_fingerprint scope_fingerprint fault project (m_scope_path (planned_manifest s)) ;;
     raise_if (negb (bool_decide (f = root_fingerprint target))) (AgentError "recovery_failed" false []) ;;;
     _restore _sha fault tid planned_records result ;;;
     run_db fault (delete_idempotency (project_id target) CAPABILITY key) ;;;
     rmtree fault tid)
    (fun _ => at_original) (fun e w => EP e w \/ faulted fault at_original e w)).
  { eapply triple_bind with (Q := fun a w => P w /\ a = registered).
    { eapply triple_weaken; [by apply triple_get_project|done|done|]. intros e w H. left. by apply HE. }
    intros project. eapply triple_bind with (Q := fun f w => P w /\ f = root_fingerprint target).
    { intros w [Hw ->]. pose proof (triple_target_fingerprint P HP w Hw) as H.
      change (m_scope_path (planned_manifest s)) with (m_scope_path (planned_manifest Prepared)).
      destruct (target_fingerprint _ _ _ _ w) as [[f|e] w']; [done|]. left. by apply HE. }
    intros f. eapply triple_bind with (Q := fun _ => P).
    { intros w [Hw ->]. by rewrite bool_decide_refl. }
    intros []. eapply triple_bind.
    { eapply triple_weaken; [exact Hr|done|done|]. intros e w H. by left. }
    intros []. eapply triple_bind.
    { eapply triple_weaken; [apply triple_delete_row|done|done|]. intros e w H. by right. }
    intros []. eapply triple_weaken; [apply (triple_rmtree fault at_original removable_at_original)|done|done|].
    intros e w H. right. by apply uncaught_faulted. }
  destruct s; [exact Hgo|exact Hgo|done|done].
Qed.
(** Not decided for the patch. *)
Definition undecided (w : world) : Prop := at_original w \/ in_between w.

Lemma disk_only_undecided : disk_only undecided.
Proof. apply disk_only_or; intros w w'; [apply at_original_same|apply in_between_same]. Qed.
Lemma undecided_ambient w : undecided w -> ambient w.
Proof. by intros [H|H]; apply H. Qed.
Lemma disk_only_patched : disk_only at_patched.
Proof. intros w w'. apply at_patched_same. Qed.

(** How handling one transaction fails. *)
Definition recovery_error (P : world -> Prop) (e : exn) (w : world) : Prop :=
  P w /\ (caught e = true /\ at_original w \/ ~ faultless fault).

Lemma faulted_error (P P' : world -> Prop) e w : (forall w, P' w -> P w) -> faulted fault P' e w -> recovery_error P e w.
Proof. intros HP [Hn Hw]. split; [by apply HP|by right]. Qed.

Lemma planned_state w m : planned w -> manifest_of tid w = Some m ->
  m = planned_manifest (m_state m) /\ state_of w = Some (m_state m).
Proof. intros Hp Hm. split; [by apply Hp|]. unfold state_of. by rewrite Hm. Qed.

(** A finished patch: its success is recorded. *)
Lemma triple_recover_committed m :
  triple (fun w => at_patched w /\ manifest_of tid w = Some m)
    (_recover_transaction _sha scope_fingerprint fault tid m) (fun _ => done_patched) (recovery_error at_patched).
Proof.
  intros w [Hw Hm]. destruct (planned_state w m (ap_planned w Hw) Hm) as [-> Hs].
  assert (m_state m = Committed) as ->.
  { destruct (ap_state w Hw) as [H|[H _]]; rewrite Hs in H; by simplify_eq. }
  assert (triple at_patched (_recover_transaction _sha scope_fingerprint fault tid (planned_manifest Committed))
    (fun _ => done_patched) (recovery_error at_patched)) as Ht; [|by apply Ht].
  unfold _recover_transaction. cbn [m_state planned_manifest].
  apply (triple_bind _ _ _ (fun _ => at_patched)); [by intros w1 H1|]. intros now.
  apply (triple_bind _ _ _ (fun _ => done_patched)).
  - eapply triple_weaken; [apply triple_put_succeeded|done|done|]. intros e w1. by apply faulted_error.
  - intros []. eapply triple_weaken; [apply (triple_rmtree fault done_patched removable_done)|done|done|].
    intros e w1 H1%uncaught_faulted. apply (faulted_error _ done_patched); [by intros w2 [H2 _]|done].
Qed.

(** A transaction rolled back already: its row goes. *)
Lemma triple_recover_rolled_back :
  triple at_original (_recover_transaction _sha scope_fingerprint fault tid (planned_manifest RolledBack))
    (fun _ => at_original) (recovery_error undecided).
Proof.
  assert (forall e w, faulted fault at_original e w -> recovery_error undecided e w) as HE.
  { intros e w. apply faulted_error. intros w'. by left. }
  unfold _recover_transaction. cbn [m_state planned_manifest].
  apply (triple_bind _ _ _ (fun _ => at_original)).
  - eapply triple_weaken; [apply triple_delete_row|done|done|apply HE].
  - intros []. eapply triple_weaken; [apply (triple_rmtree fault at_original removable_at_original)|done|done|].
    intros e w1 H1%uncaught_faulted. by apply HE.
Qed.

(** Any other state: rolled back. *)
Lemma triple_recover_undecided m :
  triple (fun w => undecided w /\ manifest_of tid w = Some m)
    (_recover_transaction _sha scope_fingerprint fault tid m) (fun _ => at_original) (recovery_error undecided).
Proof.
  intros w [Hd Hm].
  assert (planned w) as Hpl by (destruct Hd as [H|H]; apply H).
  destruct (planned_state w m Hpl Hm) as [-> Hs].
  assert (m_state m <> Committed) as Ec.
  { intros E. rewrite E in Hs. destruct Hd as [H|H]; [by apply (ao_state w H)|]. by rewrite (ib_state w H) in Hs. }
  destruct (decide (m_state m = RolledBack)) as [Er|Er].
  - rewrite Er. apply triple_recover_rolled_back. destruct Hd as [H|H]; [done|].
    rewrite (ib_state w H), Er in Hs. done.
  - destruct Hd as [H|H].
    + pose proof (triple_recover_pending (m_state m) at_original (keeps at_original) Ec Er disk_only_original
        ao_ambient triple_restore_original (fun e w => faulted_keeps at_original e w) w H) as Ht.
      destruct (_recover_transaction _ _ _ _ _ w) as [[[]|e] w']; [done|].
      destruct Ht as [[Hw [Hc|Hn]]|[Hn Hw]]; (split; [by left|]); [by left|by right|by right].
    + pose proof (triple_recover_pending (m_state m) in_between (faulted fault in_between) Ec Er
        (fun w w' => in_between_same w w') ib_ambient
        (triple_weaken _ _ _ _ _ _ _ triple_restore_between (fun w H => H) (fun a w H => H) (fun e w => @proj1 _ _))
        (fun e w Hf => Hf) w H) as Ht.
      destruct (_recover_transaction _ _ _ _ _ w) as [[[]|e] w']; [done|].
      destruct Ht as [[Hn Hw]|[Hn Hw]]; (split; [|by right]); [by right|by left].
Qed.

(** The whole of [recover], from states [P] to states [Q]. *)
Definition recovery_outcome (P : world -> Prop) (e : exn) (w : world) : Prop :=
  P w /\ (faultless fault -> at_original w /\ e = AgentError "recovery_failed" false []).

Section recover_from.
  Context (P Q : world -> Prop) (HP : disk_only P) (HPa : forall w, P w -> ambient w)
    (HPQ : forall w, P w -> manifest_of tid w = None -> Q w)
    (Htxn : forall m, triple (fun w => P w /\ manifest_of tid w = Some m)
      (_recover_transaction _sha scope_fingerprint fault tid m) (fun _ => Q) (recovery_error P)).

Lemma triple_recover_one :
  triple P (recover_one _sha scope_fingerprint fault tid) (fun _ => Q) (recovery_outcome P).
Proof using HP HPQ Htxn Hplan.
  unfold recover_one. eapply triple_bind with (Q := fun m w => P w /\ manifest_of tid w = m).
  { apply triple_step.
    - intros w Hw. split; [by apply (HP w)|done].
    - intros w e Hw He. split; [by apply (HP w)|]. intros Hf. by destruct (fault_not_faultless fault _ _ He). }
  intros [m|]; [|intros w [Hw Hm]; by apply HPQ].
  eapply triple_try_except.
  - eapply triple_bind; [apply Htxn|]. intros [] w Hw. exact Hw.
  - intros e _ w [Hd Ho]. split; [done|]. intros Hf. destruct Ho as [[_ Ho]|Hn]; [done|by destruct Hn].
  - intros e w He [Hd Ho]. split; [done|]. intros Hf. destruct Ho as [[Hc _]|Hn]; [congruence|by destruct Hn].
Qed.

Lemma journal_ids w : ambient w ->
  map fst (map_to_list (journal w)) = [] /\ journal w !! tid = None \/ map fst (map_to_list (journal w)) = [tid].
Proof using.
  intros Ha. destruct (decide (journal w = ∅)) as [->|Hne]; [left; by rewrite map_to_list_empty|right].
  assert (exists x, journal w = {[tid := x]}) as [x ->].
  { apply map_choose in Hne as (t & x & Ht). exists x.
    assert (t = tid) as -> by (destruct (decide (t = tid)); [done|by rewrite (amb_journal w Ha) in Ht]).
    apply map_eq. intros t. destruct (decide (t = tid)) as [->|Hn]; [by rewrite lookup_singleton_eq|].
    by rewrite lookup_singleton_ne, (amb_journal w Ha). }
  by rewrite map_to_list_singleton.
Qed.

Lemma triple_recover : triple P (recover _sha scope_fingerprint fault) (fun _ => Q) (recovery_outcome P).
Proof using HP HPa HPQ Htxn Hplan.
  unfold recover. intros w Hw. unfold bind, gets.
  destruct (journal_ids w (HPa w Hw)) as [[-> Hj]| ->].
  - cbn. apply HPQ; [done|]. unfold manifest_of. by rewrite Hj.
  - cbn [recover_all].
    apply (triple_bind P (recover_one _sha scope_fingerprint fault tid) _ (fun _ => Q)
      (fun _ => Q) (recovery_outcome P) triple_recover_one); [|done].
    intros a w' Hw'. exact Hw'.
Qed.
End recover_from.

Lemma triple_recover_patched :
  triple at_patched (recover _sha scope_fingerprint fault) (fun _ => done_patched)
    (fun _ w => at_patched w /\ ~ faultless fault).
Proof.
  eapply triple_weaken; [apply (triple_recover at_patched done_patched disk_only_patched ap_ambient)|done|done|].
  - intros w Hw Hm. split; [done|]. destruct (ap_state w Hw) as [Hs|[_ Hs]]; [|done].
    unfold state_of in Hs. by rewrite Hm in Hs.
  - apply triple_recover_committed.
  - intros e w [Hw Ho]. split; [done|]. intros Hf. destruct (Ho Hf) as [H _].
    destruct (ap_state w Hw) as [Hs|[_ (r & Hr & Hs & _)]]; [by apply (ao_state w H)|by apply (ao_row w H r Hr)].
Qed.

Lemma triple_recover_original :
  triple undecided (recover _sha scope_fingerprint fault) (fun _ => at_original) (recovery_outcome undecided).
Proof.
  apply (triple_recover undecided at_original disk_only_undecided undecided_ambient); [|apply triple_recover_undecided].
  intros w [H|H] Hm; [done|]. pose proof (ib_state w H) as Hs. unfold state_of in Hs. by rewrite Hm in Hs.
Qed.
(** ** The commit *)

(** The backup loop after [k] rounds. *)
Record backing (k : nat) (w : world) : Prop := {
  bk_original : at_original w;
  bk_mutated : mutated w = false;
  bk_state : state_of w = None;
  bk_backups : exists t, journal w !! tid = Some t /\
    forall i q d raw, (i < k)%nat -> sorted_items (desired p) !! i = Some (q, d) ->
      original !! q = Some raw -> backups t !! i = Some raw;
  bk_records : records w = take k planned_records;
}.

(** Between the manifest and the last file: the first [j] files are written. *)
Record writing (j : nat) (w : world) : Prop := {
  wr_ambient : ambient w;
  wr_row : not_succeeded w;
  wr_planned : planned w;
  wr_state : state_of w = Some Committing;
  wr_backups : backups_complete w;
  wr_records : records w = planned_records;
  wr_files : files w = foldl put_file original (take j (desired p));
  wr_mutated : mutated w = false -> j = 0%nat;
}.

(** Where an exception leaves the commit. *)
Definition body_failed (w : world) : Prop :=
  (mutated w = false /\ at_original w) \/
  (mutated w = true /\ in_between w /\ records w = planned_records).

Lemma disk_only_backing k : disk_only (backing k).
Proof.
  intros w w' Hs [H1 H2 H3 H4 H5]. pose proof (at_original_same _ _ Hs H1).
  destruct Hs as (Hf & Hj & Hd & Hm & Hr). unfold state_of, manifest_of in *.
  split; unfold state_of, manifest_of; rewrite ?Hj, ?Hm, ?Hr; done.
Qed.

Lemma disk_only_writing j : disk_only (writing j).
Proof.
  intros w w' Hs [H1 H2 H3 H4 H5 H6 H7 H8]. pose proof (ambient_same _ _ Hs H1).
  destruct Hs as (Hf & Hj & Hd & Hm & Hr).
  unfold not_succeeded, planned, state_of, manifest_of, row, backups_complete in *.
  split; unfold not_succeeded, planned, state_of, manifest_of, row, backups_complete;
    rewrite ?Hf, ?Hj, ?Hd, ?Hm, ?Hr; done.
Qed.

Lemma backing_failed k w : backing k w -> body_failed w.
Proof. intros H. left. split; apply H. Qed.

Lemma stage_mixed j q : foldl put_file original (take j (desired p)) !! q = original !! q \/
  foldl put_file original (take j (desired p)) !! q = patched !! q.
Proof.
  destruct (decide (q ∈ map fst (take j (desired p)))) as [Hin|Hin].
  - right. apply list_elem_of_fmap in Hin as ([q' d] & -> & Hin). cbn.
    assert (NoDup (map fst (take j (desired p)))) as Hn.
    { pose proof (plan_nodup Hplan) as Hn. rewrite <-(take_drop j (desired p)), map_app in Hn.
      by apply NoDup_app in Hn as [? _]. }
    rewrite (foldl_put_lookup _ _ _ _ Hn Hin). symmetry. apply patched_lookup.
    rewrite <-(take_drop j (desired p)). apply elem_of_app. by left.
  - left. by apply foldl_put_other.
Qed.

Lemma writing_failed j w : writing j w -> body_failed w.
Proof.
  intros [H1 H2 H3 H4 H5 H6 H7 H8]. destruct (mutated w) eqn:Hm.
  - right. split_and!; [done| |done]. split; try done. intros q. rewrite H7. apply stage_mixed.
  - left. split; [done|]. rewrite (H8 eq_refl) in H7. split; try done. by rewrite H4.
Qed.

Lemma quiet_backing {A} k (m : W A) : quiet m ->
  triple (backing k) m (fun _ => backing k) (fun _ => body_failed).
Proof.
  intros H. eapply triple_weaken; [apply (H _ (disk_only_backing k))|done|done|]. intros e w. apply backing_failed.
Qed.

Lemma quiet_writing {A} j (m : W A) : quiet m ->
  triple (writing j) m (fun _ => writing j) (fun _ => body_failed).
Proof.
  intros H. eapply triple_weaken; [apply (H _ (disk_only_writing j))|done|done|]. intros e w. apply writing_failed.
Qed.
(** *** Backups *)

Definition put_backup (k : nat) (raw : bytes) : world -> world :=
  update_txn tid (fun t => {| backups := <[k := raw]> (backups t); t_manifest := t_manifest t |}).

Lemma manifest_put_backup k raw w : manifest_of tid (put_backup k raw w) = manifest_of tid w.
Proof. unfold manifest_of, put_backup, update_txn. cbn. rewrite lookup_alter_eq. by destruct (journal w !! tid). Qed.

Lemma original_put_backup k raw w : at_original w -> at_original (put_backup k raw w).
Proof.
  intros [H1 H2 H3 H4 H5]. split; unfold planned, state_of; rewrite ?manifest_put_backup; try done.
  apply ambient_journal_change; [|done]. intros t. apply update_txn_other.
Qed.

Lemma backing_put k raw w : backing k w -> backing k (put_backup k raw w) /\
  (forall t, journal (put_backup k raw w) !! tid = Some t -> backups t !! k = Some raw).
Proof.
  intros [H1 H2 H3 (t & Ht & Hb) H5]. split.
  - split; [by apply original_put_backup|done| | |done].
    + unfold state_of. by rewrite manifest_put_backup.
    + exists {| backups := <[k := raw]> (backups t); t_manifest := t_manifest t |}. split.
      * unfold put_backup, update_txn. cbn. by rewrite lookup_alter_eq, Ht.
      * intros i q d raw' Hi Hs Ho. cbn. rewrite lookup_insert_ne by lia. by eapply Hb.
  - unfold put_backup, update_txn. cbn. rewrite lookup_alter_eq, Ht. cbn. intros t' [= <-]. cbn. apply lookup_insert_eq.
Qed.

Lemma triple_write_backup k raw :
  triple (backing k) (write_backup fault tid k raw)
    (fun _ w => backing k w /\ forall t, journal w !! tid = Some t -> backups t !! k = Some raw)
    (fun _ => body_failed).
Proof.
  unfold write_backup. eapply triple_bind with (Q := fun _ => backing k).
  - apply triple_act.
    + intros w Hw. apply backing_put. by apply (disk_only_backing k w).
    + intros w e Hw _. apply (backing_failed k). by apply (disk_only_backing k w).
  - intros []. apply triple_act.
    + intros w Hw. apply backing_put. by apply (disk_only_backing k w).
    + intros w e Hw _. apply (backing_failed k). by apply (disk_only_backing k w).
Qed.

Lemma backing_next k q d w : backing k w -> sorted_items (desired p) !! k = Some (q, d) ->
  (forall raw, original !! q = Some raw -> forall t, journal w !! tid = Some t -> backups t !! k = Some raw) ->
  backing (S k) (set_records (records w ++ [record_of k (q, d)]) w).
Proof.
  intros [H1 H2 H3 (t & Ht & Hb) H5] Hk Hnew. split; [by apply (at_original_core w)|done|done| |].
  - exists t. split; [done|]. intros i q' d' raw Hi Hs Ho. destruct (decide (i = k)) as [->|Hne].
    + rewrite Hk in Hs. injection Hs as <- <-. by apply (Hnew raw Ho t).
    + eapply Hb; [lia|done..].
  - cbn. rewrite H5. symmetry. apply take_S_r. unfold planned_records. by rewrite list_lookup_imap, Hk.
Qed.

Lemma triple_backup_one k q d : sorted_items (desired p) !! k = Some (q, d) ->
  triple (backing k) (backup_one _sha fault tid p k q d) (fun _ => backing (S k)) (fun _ => body_failed).
Proof.
  intros Hk. pose proof (sorted_desired _ _ _ Hk) as Hin. unfold backup_one.
  rewrite (plan_validated Hplan q d Hin). cbn [default].
  eapply triple_bind; [apply quiet_backing; auto|]. intros [].
  eapply triple_bind; [apply quiet_backing; auto|]. intros [].
  eapply triple_bind with (Q := fun _ w => backing k w /\
    forall raw, original !! q = Some raw -> forall t, journal w !! tid = Some t -> backups t !! k = Some raw).
  - case_bool_decide as Hex.
    + destruct Hex as [raw Hraw]. destruct (plan_hashes Hplan q d raw Hin Hraw) as [Hold Hlen].
      eapply triple_bind with (Q := fun content w => backing k w /\ content = raw).
      { unfold read_file. eapply triple_bind with (Q := fun o w => backing k w /\ o = Some raw).
        - apply triple_step.
          + intros w Hw. split; [by apply (disk_only_backing k w)|]. cbn.
            by rewrite (ao_files w (bk_original k w Hw)).
          + intros w e Hw _. apply (backing_failed k). by apply (disk_only_backing k w).
        - intros o w [Hw ->]. done. }
      intros content w [Hw ->]. rewrite Hold, read_all by (unfold MAX_PATCH_FILE_BYTES in *; lia).
      rewrite bool_decide_refl. cbn [negb].
      pose proof (triple_write_backup k raw w Hw) as Hb. destruct (write_backup _ _ _ _ w) as [[[]|e] w']; [|done].
      destruct Hb as [Hb Ht]. split; [done|]. intros raw'. rewrite Hraw. by intros [= <-].
    + intros w Hw. split; [done|]. intros raw Hraw. destruct Hex. by rewrite Hraw.
  - intros []. apply triple_modify. intros w [Hw Hb].
    replace (records w ++ _) with (records w ++ [record_of k (q, d)]); [by apply backing_next|].
    do 2 f_equal. unfold record_of. cbn [fst snd]. f_equal. case_bool_decide as Hex; [|].
    + destruct Hex as [raw Hraw]. destruct (plan_hashes Hplan q d raw Hin Hraw) as [-> _]. by rewrite Hraw.
    + apply eq_None_not_Some in Hex. by rewrite Hex.
Qed.

Lemma triple_backup_all k l : drop k (sorted_items (desired p)) = l ->
  triple (backing k) (backup_all _sha fault tid p k l)
    (fun _ => backing (length (desired p))) (fun _ => body_failed).
Proof.
  revert k. induction l as [|[q d] l IH]; intros k Hl; cbn [backup_all].
  - intros w Hw. assert (length (sorted_items (desired p)) <= k)%nat as Hlen.
    { apply (f_equal length) in Hl. rewrite length_drop in Hl. cbn in Hl. lia. }
    assert (length (sorted_items (desired p)) = length (desired p)) as El.
    { unfold sorted_items. by rewrite merge_sort_Permutation. }
    destruct Hw as [H1 H2 H3 (t & Ht & Hb) H5]. split; [done..| |].
    + exists t. split; [done|]. intros i q d raw Hi Hs Ho. eapply Hb; [lia|done..].
    + rewrite H5. rewrite !take_ge; [done|..]; unfold planned_records; rewrite length_imap; lia.
  - assert (sorted_items (desired p) !! k = Some (q, d)) as Hk.
    { rewrite <-(Nat.add_0_r k), <-lookup_drop, Hl. done. }
    eapply triple_bind; [by apply triple_backup_one|]. intros []. apply IH.
    rewrite <-(Nat.add_1_r k), <-drop_drop, Hl. done.
Qed.

(** *** Manifests *)

Definition put_manifest (m : manifest) : world -> world :=
  update_txn tid (fun t => {| backups := backups t; t_manifest := Some m |}).

Lemma put_manifest_of m w t : journal w !! tid = Some t -> manifest_of tid (put_manifest m w) = Some m.
Proof. intros Ht. unfold manifest_of, put_manifest, update_txn. cbn. by rewrite lookup_alter_eq, Ht. Qed.

Lemma put_manifest_backups m w : backups_complete w -> backups_complete (put_manifest m w).
Proof.
  intros Hb i q d raw Hi Ho. destruct (Hb i q d raw Hi Ho) as (t & Ht & Hx).
  exists {| backups := backups t; t_manifest := Some m |}. split; [|done].
  unfold put_manifest, update_txn. cbn. by rewrite lookup_alter_eq, Ht.
Qed.

Lemma put_manifest_ambient m w : ambient w -> ambient (put_manifest m w).
Proof. apply ambient_journal_change. intros t. apply update_txn_other. Qed.

(** The manifest is there, nothing is written yet. *)
Record prepared (w : world) : Prop := {
  pp_original : at_original w;
  pp_mutated : mutated w = false;
  pp_txn : exists t, journal w !! tid = Some t;
  pp_backups : backups_complete w;
  pp_records : records w = planned_records;
}.

Lemma disk_only_prepared : disk_only prepared.
Proof.
  intros w w' Hs [H1 H2 H3 H4 H5]. pose proof (at_original_same _ _ Hs H1).
  destruct Hs as (Hf & Hj & Hd & Hm & Hr). unfold backups_complete in *.
  split; unfold backups_complete; rewrite ?Hj, ?Hm, ?Hr; done.
Qed.

Lemma prepared_failed w : prepared w -> body_failed w.
Proof. intros H. left. split; apply H. Qed.

Lemma backing_prepared w : backing (length (desired p)) w -> prepared w.
Proof.
  intros [H1 H2 H3 (t & Ht & Hb) H5]. assert (length (sorted_items (desired p)) = length (desired p)) as El.
  { unfold sorted_items. by rewrite merge_sort_Permutation. }
  split; [done|done|by exists t| |].
  - intros i q d raw Hi Ho. exists t. split; [done|]. eapply Hb; [|done|done].
    apply lookup_lt_Some in Hi. lia.
  - rewrite H5, take_ge; [done|]. unfold planned_records. rewrite length_imap. lia.
Qed.

Lemma put_manifest_original s w : s <> Committed -> (exists t, journal w !! tid = Some t) -> at_original w ->
  at_original (put_manifest (planned_manifest s) w).
Proof.
  intros Hs [t Ht] [H1 H2 H3 H4 H5]. split; [by apply put_manifest_ambient|done|done|..].
  - intros m. rewrite (put_manifest_of _ w t Ht). by intros [= <-].
  - unfold state_of. rewrite (put_manifest_of _ w t Ht). intros [= ->]. done.
Qed.

Lemma put_manifest_txn m w : (exists t, journal w !! tid = Some t) -> exists t, journal (put_manifest m w) !! tid = Some t.
Proof. intros [t Ht]. unfold put_manifest, update_txn. cbn. rewrite lookup_alter_eq, Ht. by eexists. Qed.

Lemma triple_write_prepared :
  triple prepared (_write_manifest fault tid (planned_manifest Prepared)) (fun _ => prepared) (fun _ => body_failed).
Proof.
  unfold _write_manifest. eapply triple_bind with (Q := fun _ => prepared).
  - eapply triple_weaken; [apply (quiet_check prepared disk_only_prepared)|done|done|]. intros e w. apply prepared_failed.
  - intros []. apply triple_act.
    + intros w [H1 H2 H3 H4 H5]%(disk_only_prepared _ _ (same_disk_tick w)). fold (put_manifest (planned_manifest Prepared) (tick w)).
      split; [by apply put_manifest_original|done|by apply put_manifest_txn|by apply put_manifest_backups|done].
    + intros w e Hw _. apply prepared_failed. by apply (disk_only_prepared w).
Qed.

Lemma triple_write_committing :
  triple prepared (_write_manifest fault tid (with_state Committing (planned_manifest Prepared)))
    (fun _ => writing 0) (fun _ => body_failed).
Proof.
  unfold _write_manifest. eapply triple_bind with (Q := fun _ => prepared).
  - eapply triple_weaken; [apply (quiet_check prepared disk_only_prepared)|done|done|]. intros e w. apply prepared_failed.
  - intros []. apply triple_act.
    + intros w [H1 H2 H3 H4 H5]%(disk_only_prepared _ _ (same_disk_tick w)).
      change (with_state Committing (planned_manifest Prepared)) with (planned_manifest Committing).
      fold (put_manifest (planned_manifest Committing) (tick w)).
      pose proof (put_manifest_original Committing _ ltac:(done) H3 H1) as [G1 G2 G3 G4 G5].
      destruct H3 as [t Ht]. split; [done|done|done| |by apply put_manifest_backups|done|by rewrite G2|done].
      unfold state_of. by rewrite (put_manifest_of _ _ t Ht).
    + intros w e Hw _. apply prepared_failed. by apply (disk_only_prepared w).
Qed.

(** *** Writes *)

Definition writing_mutated (j : nat) (w : world) : Prop := writing j w /\ mutated w = true.

Lemma disk_only_writing_mutated j : disk_only (writing_mutated j).
Proof.
  intros w w' Hs [H1 H2]. split; [by apply (disk_only_writing j w)|]. by destruct Hs as (_ & _ & _ & -> & _).
Qed.

Lemma writing_next j q d w (f : gmap str bytes -> gmap str bytes) : desired p !! j = Some (q, d) ->
  (forall m, f m = put_file m (q, d)) -> writing_mutated j w -> writing_mutated (S j) (set_files f w).
Proof.
  intros Hj Hf [[H1 H2 H3 H4 H5 H6 H7 H8] Hm]. split; [|done].
  split; [by destruct H1; split|done|done|done|done|done| |cbn; by rewrite Hm].
  cbn. rewrite (take_S_r _ _ _ Hj), foldl_app, H7. cbn. apply Hf.
Qed.

Lemma triple_write_file j q d : desired p !! j = Some (q, d) ->
  triple (writing_mutated j) (match d with None => unlink fault q | Some raw => _atomic_replace fault q raw end)
    (fun _ => writing_mutated (S j)) (fun _ => body_failed).
Proof.
  intros Hj. assert (Hfail : forall w, writing_mutated j w \/ writing_mutated (S j) w -> body_failed w).
  { intros w [[H _]|[H _]]; by eapply writing_failed. }
  destruct d as [raw|].
  - eapply triple_weaken; [apply (triple_atomic_replace fault q raw (writing_mutated j) (writing_mutated (S j)))| | |].
    + apply disk_only_writing_mutated.
    + apply disk_only_writing_mutated.
    + intros w. by apply (writing_next j q (Some raw)).
    + done.
    + done.
    + intros e w [_ Hw]. by apply Hfail.
  - intros w Hw. unfold unlink, bind, gets. unfold exists_. case_bool_decide as Hex; [|apply Hfail; by left].
    assert (triple (writing_mutated j) (act fault (set_files (delete q))) (fun _ => writing_mutated (S j))
      (faulted fault (writing_mutated j))) as Ht.
    { apply triple_act_disk; [apply disk_only_writing_mutated| |done|apply disk_only_writing_mutated].
      intros w'. by apply (writing_next j q None). }
    specialize (Ht w Hw). destruct (act _ _ w) as [[[]|e] w']; [done|]. destruct Ht as [_ Ht]. apply Hfail. by left.
Qed.

Lemma triple_commit_one j q d : desired p !! j = Some (q, d) ->
  triple (writing j) (commit_one fault p q d) (fun _ => writing (S j)) (fun _ => body_failed).
Proof.
  intros Hj. unfold commit_one. eapply triple_bind; [apply quiet_writing; auto|]. intros [].
  eapply triple_bind; [apply quiet_writing; auto|]. intros [].
  eapply triple_bind with (Q := fun _ => writing_mutated j).
  - apply triple_modify. intros w [H1 H2 H3 H4 H5 H6 H7 H8]. split; [|done].
    by split; [destruct H1; split| | | | | | |].
  - intros []. eapply triple_weaken; [by apply triple_write_file|done| |done]. by intros [] w [Hw _].
Qed.

Lemma triple_commit_all j l : drop j (desired p) = l ->
  triple (writing j) (for_each l (fun d => commit_one fault p d.1 d.2))
    (fun _ => writing (length (desired p))) (fun _ => body_failed).
Proof.
  revert j. induction l as [|[q d] l IH]; intros j Hl; cbn [for_each].
  - intros w [H1 H2 H3 H4 H5 H6 H7 H8]. assert (length (desired p) <= j)%nat as Hlen.
    { apply (f_equal length) in Hl. rewrite length_drop in Hl. cbn in Hl. lia. }
    split; try done; [by rewrite H7, !take_ge by lia|]. intros Hm. specialize (H8 Hm). lia.
  - assert (desired p !! j = Some (q, d)) as Hj by (rewrite <-(Nat.add_0_r j), <-lookup_drop, Hl; done).
    eapply triple_bind; [by apply triple_commit_one|]. intros []. apply IH.
    by rewrite <-(Nat.add_1_r j), <-drop_drop, Hl.
Qed.

Lemma triple_write_committed :
  triple (writing (length (desired p))) (_write_manifest fault tid (with_state Committed (planned_manifest Prepared)))
    (fun _ => at_patched) (fun _ => body_failed).
Proof.
  unfold _write_manifest. eapply triple_bind; [apply quiet_writing; auto|]. intros []. apply triple_act.
  - intros w Hw%(disk_only_writing _ _ _ (same_disk_tick w)). destruct Hw as [H1 H2 H3 H4 H5 H6 H7 H8].
    change (with_state Committed (planned_manifest Prepared)) with (planned_manifest Committed).
    fold (put_manifest (planned_manifest Committed) (tick w)).
    assert (exists t, journal (tick w) !! tid = Some t) as [t Ht].
    { unfold state_of, manifest_of in H4. destruct (journal (tick w) !! tid) as [t|]; [by exists t|done]. }
    split; [by apply put_manifest_ambient| |..].
    + cbn. cbn in H7. by rewrite H7, take_ge by lia.
    + intros m. rewrite (put_manifest_of _ _ t Ht). by intros [= <-].
    + left. unfold state_of. by rewrite (put_manifest_of _ _ t Ht).
  - intros w e Hw _. apply (writing_failed (length (desired p))). by apply (disk_only_writing _ w).
Qed.

Lemma triple_commit_body :
  triple (backing 0) (commit_body _sha fault tid target p key digest result b)
    (fun _ => at_patched) (fun _ => body_failed).
Proof.
  unfold commit_body. eapply triple_bind; [by apply triple_backup_all|]. intros [].
  eapply triple_bind with (Q := fun a w => prepared w /\ a = registered).
  { eapply triple_weaken; [apply (triple_get_project prepared disk_only_prepared)| |done|].
    - intros w Hw. apply Hw.
    - apply backing_prepared.
    - intros e w [_ Hw]. by apply prepared_failed. }
  intros reg. eapply triple_bind with (Q := fun rs w => prepared w /\ reg = registered /\ rs = planned_records).
  { intros w [Hw ->]. split_and!; [done|done|apply Hw]. }
  intros rs w (Hw & -> & ->). revert w Hw.
  change (triple prepared (_write_manifest fault tid (planned_manifest Prepared) ;;;
    _write_manifest fault tid (with_state Committing (planned_manifest Prepared)) ;;;
    for_each (desired p) (fun d => commit_one fault p d.1 d.2) ;;;
    check fault ;;;
    _write_manifest fault tid (with_state Committed (planned_manifest Prepared)))
    (fun _ => at_patched) (fun _ => body_failed)).
  eapply triple_bind; [apply triple_write_prepared|]. intros [].
  eapply triple_bind; [apply triple_write_committing|]. intros [].
  eapply triple_bind; [by apply triple_commit_all|]. intros [].
  eapply triple_bind; [apply quiet_writing; auto|]. intros []. apply triple_write_committed.
Qed.
(** *** The whole of [_commit] *)

(** How [_commit] and its caller can fail: an ordinary exception never leaves
    the patch half done without saying so. *)
Definition commit_exit (e : exn) (w : world) : Prop :=
  (at_original w \/ in_between w) /\
  (caught e = true -> files w = original \/ is_recovery_failed e = true).

Lemma triple_commit_failed e :
  triple body_failed (commit_failed _sha fault tid result e) (fun _ _ => False) commit_exit.
Proof.
  unfold commit_failed. intros w Hw. unfold bind, gets. destruct Hw as [[Hm Hw]|(Hm & Hw & Hr)]; rewrite Hm.
  - pose proof (triple_rmtree fault at_original removable_at_original w Hw) as Ht.
    destruct (rmtree fault tid w) as [[[]|e'] w'].
    + split; [by left|]. intros _. left. by apply Ht.
    + destruct Ht as (Hc & _ & Ht). split; [by left|]. intros _. left. by apply Ht.
  - rewrite Hr. pose proof (triple_restore_between w Hw) as Ht.
    destruct (_restore _ _ _ _ _ w) as [[[]|e'] w'].
    + split; [by left|]. intros _. left. by apply Ht.
    + destruct Ht as ([_ Ht] & Ho). split; [by right|]. intros Hc.
      destruct Ho as [Ho|[Ho|Ho]]; [by right|congruence|by left].
Qed.

Lemma triple_commit_finally P : disk_only P -> (forall w, P w -> state_of w = Some RolledBack -> removable P) ->
  triple P (commit_finally fault tid) (fun _ => P) (uncaught fault P).
Proof.
  intros HP Hrem. unfold commit_finally.
  eapply triple_bind with (Q := fun m w => P w /\ (m = None \/ m = manifest_of tid w)).
  - eapply triple_try_except with (E1 := faulted fault P).
    + apply triple_step.
      * intros w Hw. split; [by apply (HP w)|by right].
      * intros w e Hw He. split; [by eapply fault_not_faultless|by apply (HP w)].
    + intros e _ w [_ Hw]. split; [done|by left].
    + intros e w Hc [Hn Hw]. by split_and!.
  - intros [m|] w [Hw Hm]; [|done]. destruct Hm as [Hm|Hm]; [done|]. case_bool_decide as Hs; [|done].
    apply (triple_rmtree fault P); [|done]. apply (Hrem w Hw). unfold state_of. by rewrite <-Hm, <-Hs.
Qed.

Definition fresh_start (w : world) : Prop := at_original w /\ journal w !! tid = None.

Lemma disk_only_start : disk_only fresh_start.
Proof. intros w w' Hs [H1 H2]. split; [by eapply at_original_same|]. by destruct Hs as (_ & -> & _). Qed.

Lemma start_exit e w : fresh_start w -> commit_exit e w.
Proof. intros [H _]. split; [by left|]. intros _. left. apply H. Qed.

Lemma start_backing w : fresh_start w ->
  backing 0 (set_mutated false (set_records [] (set_journal <[tid := {| backups := ∅; t_manifest := None |}]> w))).
Proof.
  intros [[H1 H2 H3 H4 H5] Hj].
  set (w' := set_journal <[tid := {| backups := ∅; t_manifest := None |}]> w).
  assert (manifest_of tid w' = None) as Hm.
  { unfold manifest_of, w'. cbn. by rewrite lookup_insert_eq. }
  assert (at_original w') as Ho.
  { split; [|done|done|..]; unfold planned, state_of; rewrite ?Hm; try done.
    apply ambient_journal_change; [|done]. intros t Ht. by apply lookup_insert_ne. }
  split; [by apply (at_original_core w')|done| | |done].
  - unfold state_of. change (m_state <$> manifest_of tid w' = None). by rewrite Hm.
  - eexists. split; [cbn; apply lookup_insert_eq|]. intros i q d raw Hi. lia.
Qed.

Lemma between_not_removed w : in_between w -> state_of w <> Some RolledBack.
Proof. intros H. by rewrite (ib_state w H). Qed.
Lemma patched_not_removed w : at_patched w -> state_of w <> Some RolledBack.
Proof. intros H. by destruct (ap_state w H) as [->|[-> _]]. Qed.

Lemma triple_commit :
  triple fresh_start (_commit _sha fault tid target p key digest result b) (fun _ => at_patched)
    (fun e w => commit_exit e w \/ caught e = false /\ at_patched w).
Proof.
  assert (Hq : forall A (m : W A), quiet m -> triple fresh_start m (fun _ => fresh_start)
    (fun e w => commit_exit e w \/ caught e = false /\ at_patched w)).
  { intros A m H. eapply triple_weaken; [apply (H _ disk_only_start)|done|done|]. intros e w Hw. left. by apply start_exit. }
  unfold _commit. eapply triple_bind; [apply Hq; auto|]. intros [].
  eapply triple_bind; [apply Hq, quiet_verify|]. intros [].
  eapply triple_bind; [apply Hq; auto|]. intros [].
  eapply triple_bind with (Q := fun _ w => backing 0 (set_mutated false (set_records [] w))).
  { apply triple_act.
    - intros w Hw. apply start_backing. by apply (disk_only_start w).
    - intros w e Hw _. left. apply start_exit. by apply (disk_only_start w). }
  intros []. eapply triple_bind with (Q := fun _ => backing 0); [by apply triple_modify|]. intros [].
  eapply triple_try_finally with (Q1 := fun _ => at_patched)
    (E1 := fun e w => commit_exit e w \/ caught e = false /\ body_failed w).
  - eapply triple_try_except; [apply triple_commit_body| |].
    + intros e _. eapply triple_weaken; [apply triple_commit_failed|done|done|]. intros e' w H. by left.
    + intros e w Hc Hw. by right.
  - intros w [H|[_ H]]; [by left|]. left. destruct H as [[_ H]|(_ & H & _)]; (split; [auto|done]).
  - intros []. eapply triple_weaken; [apply (triple_commit_finally at_patched)|done|done|].
    + intros w w'. apply at_patched_same.
    + intros w Hw Hs. by apply patched_not_removed in Hw.
    + intros e w (Hc & _ & Hw). by right.
  - intros e _ w Hw.
    assert ((at_original w \/ in_between w) /\ (caught e = true -> files w = original \/ is_recovery_failed e = true)) as [Hd He].
    { destruct Hw as [Hw|[Hc Hw]]; [exact Hw|]. split; [|congruence].
      destruct Hw as [[_ Hw]|(_ & Hw & _)]; auto. }
    destruct Hd as [Ho|Hb].
    + pose proof (triple_commit_finally at_original (fun w w' => at_original_same w w') (fun _ _ _ => removable_at_original) w Ho) as Ht.
      destruct (commit_finally fault tid w) as [[[]|e'] w'].
      * left. split; [by left|]. intros _. left. apply Ht.
      * destruct Ht as (Hc & _ & Ht). left. split; [by left|]. congruence.
    + set (P := fun w => in_between w /\ (caught e = true -> files w = original \/ is_recovery_failed e = true)).
      assert (HP : disk_only P).
      { intros w1 w2 Hs [H1 H2]. split; [by eapply in_between_same|]. by destruct Hs as (-> & _). }
      pose proof (triple_commit_finally P HP
        (fun w1 Hw1 Hs => False_ind _ (between_not_removed w1 (proj1 Hw1) Hs)) w (conj Hb He)) as Ht.
      destruct (commit_finally fault tid w) as [[[]|e'] w'].
      * left. split; [right; apply Ht|apply Ht].
      * destruct Ht as (Hc & _ & Ht). left. split; [right; apply Ht|]. congruence.
Qed.
(** *** From the RUNNING marker to the result *)

(** What the caller of a failed [apply] may rely on. *)
Definition told (e : exn) (w : world) : Prop :=
  caught e = true -> files w = original \/ is_recovery_failed e = true.

Lemma undecided_delete_row w : undecided w ->
  undecided (set_database (delete_idempotency (project_id target) CAPABILITY key (database w)).2 w).
Proof.
  intros [H|[H1 H2 H3 H4 H5 H6]]; [left; by apply delete_row_original|]. right. split; [|done| |done..].
  - apply ambient_database; [done|by apply H1|]. cbn. intros r. by rewrite lookup_delete_eq.
  - intros r. unfold row. cbn. by rewrite lookup_delete_eq.
Qed.

Lemma triple_put_running now :
  triple fresh_start (run_db fault (put_idempotency now (project_id target) CAPABILITY key digest RUNNING None b))
    (fun _ => fresh_start) (faulted fault fresh_start).
Proof.
  apply triple_run_db.
  - intros w [[H1 H2 H3 H4 H5] Hj].
    destruct (put_row_ambient w now RUNNING None H1) as (d & -> & Hp & x & Hx & Hd & Hb & Hs & Hr).
    split; [|done]. split; [|done| |done|done].
    + apply (ambient_database (tick w)); [by apply (ambient_same w)|done|]. intros r. rewrite Hx. by intros [= <-].
    + intros r. unfold row. cbn. rewrite Hx. intros [= <-]. by rewrite Hs.
  - intros w e Hw He. split; [by eapply fault_not_faultless|by apply (disk_only_start w)].
Qed.

Lemma triple_apply_handler e : caught e = true ->
  triple (commit_exit e)
    ((if is_recovery_failed e then ret tt
      else run_db fault (delete_idempotency (project_id target) CAPABILITY key)) ;;; @raise world unit e)
    (fun _ _ => False) (fun e' w => undecided w /\ told e' w).
Proof.
  intros Hc w [Hu Ht]. unfold bind. destruct (is_recovery_failed e) eqn:Er.
  - split; [exact Hu|]. intros _. by right.
  - destruct (Ht Hc) as [Hf|]; [|congruence]. unfold run_db. destruct (fault (clock w)).
    + split; [by apply (disk_only_undecided w)|]. intros _. by left.
    + split; [|intros _; by left]. apply (undecided_delete_row (tick w)). by apply (disk_only_undecided w).
Qed.

Lemma triple_apply_journaled q :
  q_project_id q = project_id target -> q_idempotency_key q = key -> q_binding q = b ->
  result = result_json (q_project_id q) (q_idempotency_key q) false (pf_changes p) (Some tid) ->
  triple fresh_start (apply_journaled _sha fault q digest target p tid)
    (fun _ => done_patched) (fun e w => undecided w /\ told e w \/ at_patched w).
Proof.
  intros Hq1 Hq2 Hq3 Hres. unfold apply_journaled. cbv zeta. rewrite <-Hres, Hq1, Hq2, Hq3.
  eapply triple_bind with (Q := fun _ => fresh_start).
  { eapply triple_bind with (Q := fun _ => fresh_start); [by intros w Hw|]. intros now.
    eapply triple_weaken; [apply triple_put_running|done|done|].
    intros e w [_ [H _]]. left. split; [by left|]. intros _. left. apply H. }
  intros []. eapply triple_bind with (Q := fun _ => at_patched).
  { eapply triple_try_except; [apply triple_commit| |].
    - intros e Hc. eapply triple_weaken; [by apply (triple_apply_handler e)| |done|].
      + intros w [Hw|[Hc' _]]; [exact Hw|congruence].
      + intros e' w Hw. by left.
    - intros e w Hc [[Hu Ht]|[_ Hw]]; [left|by right]. split; [exact Hu|]. congruence. }
  intros []. eapply triple_bind with (Q := fun _ => done_patched).
  { eapply triple_bind with (Q := fun _ => at_patched); [by intros w Hw|]. intros now.
    eapply triple_weaken; [apply triple_put_succeeded|done|done|]. intros e w [_ Hw]. by right. }
  intros []. eapply triple_bind with (Q := fun _ => done_patched).
  { eapply triple_weaken; [apply (triple_rmtree fault done_patched removable_done)|done|done|].
    intros e w (_ & _ & [Hw _]). by right. }
  intros []. by intros w Hw.
Qed.
End restore.

(** ** Restarts *)

(** The process is restarted any number of times, each recovery with its own
    faults. *)
Definition restarts (faults : list (nat -> option exn)) (w : world) : world :=
  fold_left (fun w f => (recover _sha scope_fingerprint f w).2) faults w.

Lemma restarts_patched faults w : plan_ok -> at_patched w -> at_patched (restarts faults w).
Proof.
  intros Hplan. revert w. induction faults as [|f faults IH]; intros w Hw; [done|].
  change (restarts (f :: faults) w) with (restarts faults (recover _sha scope_fingerprint f w).2). apply IH.
  pose proof (triple_recover_patched f Hplan w Hw) as Ht.
  destruct (recover _ _ f w) as [[a|e] w']; apply Ht.
Qed.

Lemma restarts_undecided faults w : plan_ok -> undecided w -> undecided (restarts faults w).
Proof.
  intros Hplan. revert w. induction faults as [|f faults IH]; intros w Hw; [done|].
  change (restarts (f :: faults) w) with (restarts faults (recover _sha scope_fingerprint f w).2). apply IH.
  pose proof (triple_recover_original f Hplan w Hw) as Ht.
  destruct (recover _ _ f w) as [[a|e] w']; [by left|apply Ht].
Qed.

(** Before a patch: no transaction, no row for the key. *)
Record ready (w : world) : Prop := {
  rd_files : files w = original;
  rd_journal : journal w = ∅;
  rd_projects : projects (database w) = table;
  rd_row : row w = None;
}.

Lemma ready_fresh w : ready w -> fresh_start w.
Proof.
  intros [H1 H2 H3 H4]. split; [|by rewrite H2]. split; [split| |..]; unfold not_succeeded, planned, state_of, manifest_of;
    by rewrite ?H1, ?H2, ?H4.
Qed.

Definition never : nat -> option exn := fun _ => None.

End plan.
