(* ===== verification/PatchProgress.v ===== *)
(** * Patches succeed when nothing fails

    Under the oracle that never raises, a planned commit goes through: every
    check of the files it repeats passes, so an attempt that got a preflight
    answers with its result. *)
From stdpp Require Import sorting.
From S2P Require Import Prelude Utf8 PyStr Models Paths PatchFormat Database Json PatchService PatchRecovery.

Open Scope N_scope.

(** ** Runs that succeed *)

Definition runs {A} (m : W A) (w : world) (Q : A -> world -> Prop) : Prop :=
  exists a w', m w = (Ok a, w') /\ Q a w'.

Lemma runs_ret {A} (a : A) w (Q : A -> world -> Prop) : Q a w -> runs (ret a) w Q.
Proof. intros H. by exists a, w. Qed.

Lemma runs_bind {A B} (m : W A) (k : A -> W B) w Q R :
  runs m w Q -> (forall a w', Q a w' -> runs (k a) w' R) -> runs (bind m k) w R.
Proof.
  intros (a & w1 & Hm & Hq) Hk. destruct (Hk a w1 Hq) as (b & w2 & Hb & Hr).
  exists b, w2. split; [|done]. unfold bind. by rewrite Hm.
Qed.

Lemma runs_triple {A} (P : world -> Prop) (m : W A) w Q1 Q2 E :
  runs m w Q1 -> triple P m Q2 E -> P w -> runs m w Q2.
Proof. intros (a & w1 & Hm & _) Ht Hw. specialize (Ht w Hw). rewrite Hm in Ht. by exists a, w1. Qed.

(** A computation that only faults can stop. *)
Lemma runs_never {A} (P : world -> Prop) (m : W A) w Q E :
  triple P m Q E -> (forall e w, E e w -> ~ faultless never) -> P w -> runs m w Q.
Proof.
  intros Ht He Hw. specialize (Ht w Hw). destruct (m w) as [[a|e] w1] eqn:Em; [by exists a, w1|].
  by destruct (He e w1 Ht).
Qed.

Lemma runs_step {A} (f : world -> A * world) w : runs (step never f) w (fun a w' => (a, w') = f (tick w)).
Proof. unfold runs, step, never. destruct (f (tick w)) as [a w']. by exists a, w'. Qed.

Lemma runs_act f w : runs (act never f) w (fun _ w' => w' = f (tick w)).
Proof. by exists tt, (f (tick w)). Qed.

Lemma runs_check w : runs (check never) w (fun _ => same_disk w).
Proof. by exists tt, (tick w). Qed.

Lemma runs_revalidate q ex w : ex = exists_ w q -> runs (revalidate never q ex) w (fun _ => same_disk w).
Proof.
  intros Hex. exists tt, (tick w). split; [|done].
  unfold revalidate, resolve_target, bind, step, never, raise_if.
  replace (exists_ (tick w) q) with ex by done. by destruct ex.
Qed.

Lemma runs_read q raw w : files w !! q = Some raw ->
  runs (read_file never q) w (fun r w' => r = raw /\ same_disk w w').
Proof.
  intros Hq. exists raw, (tick w). split; [|done].
  unfold read_file, bind, step, never. change (files (tick w)) with (files w). by rewrite Hq.
Qed.

Lemma runs_atomic_replace q raw w : runs (_atomic_replace never q raw) w (fun _ _ => True).
Proof. by eexists _, _. Qed.

Lemma runs_unlink q w : exists_ w q = true -> runs (unlink never q) w (fun _ _ => True).
Proof. intros Hq. unfold runs, unlink, bind, gets. cbv beta iota. rewrite Hq. by eexists _, _. Qed.

Lemma runs_write_manifest tid m w : runs (_write_manifest never tid m) w (fun _ _ => True).
Proof. by eexists _, _. Qed.

Lemma runs_write_backup tid i raw w : runs (write_backup never tid i raw) w (fun _ _ => True).
Proof. by eexists _, _. Qed.

(** ** The commit of a plan *)

Section progress.
  Context (_sha : bytes -> str) (scope_fingerprint : str -> option str) (tid : str).
  Context (original : gmap str bytes) (target : Project) (p : _Preflight)
    (key digest : str) (result : json) (b : Binding).
  Context (table : gmap str ProjectRow) (registered : Project).

(** A change tells the truth about the old files. *)
Record change_ok (paths : list str) (c : _Change) : Prop := {
  co_source : c_source c ∈ paths;
  co_old : c_old_hash c = _sha <$> original !! c_source c;
  co_destination : forall dest, c_destination c = Some dest -> dest ∈ paths /\ original !! dest = None;
}.

Context (Hplan : plan_ok _sha scope_fingerprint original target p table registered).
Context (Hchanges : forall c, c ∈ pf_changes p -> change_ok (map fst (desired p)) c).

Local Notation backing := (PatchRecovery.backing _sha tid original target p key digest result b table registered).
Local Notation writing := (PatchRecovery.writing _sha tid original target p key digest result b table registered).
Local Notation fresh_start := (PatchRecovery.fresh_start _sha tid original target p key digest result b table registered).
Local Notation at_patched := (PatchRecovery.at_patched _sha tid original target p key digest result b table registered).
Local Notation done_patched := (PatchRecovery.done_patched _sha tid original target p key digest result b table registered).

(** *** The preconditions, checked again *)

Lemma validated_path q : q ∈ map fst (desired p) ->
  lookup_assoc q (validated p) = Some (bool_decide (is_Some (original !! q))).
Proof using Hplan.
  intros ([q' d] & -> & Hd)%list_elem_of_fmap. by apply (plan_validated _ _ _ _ _ _ _ Hplan _ d).
Qed.

(** Every expected hash is the one of the old file, every destination is new. *)
Definition expected_ok (m : gmap str (option str)) : Prop :=
  forall q h, m !! q = Some h -> q ∈ map fst (desired p) /\ h = _sha <$> original !! q.

Lemma expected_hashes_ok : expected_ok (expected_hashes (pf_changes p)).
Proof using Hchanges.
  unfold expected_hashes. assert (expected_ok ∅) as H0 by (intros q h Hq; by rewrite lookup_empty in Hq).
  revert H0 Hchanges. generalize (∅ : gmap str (option str)), (pf_changes p).
  intros m l; revert m. induction l as [|c l IH]; intros m Hm Hl; [done|]. cbn [fold_left].
  apply IH; [|intros c' Hc'; apply Hl; by right].
  destruct (Hl c) as [H1 H2 H3]; [by left|].
  assert (expected_ok (<[c_source c := c_old_hash c]> m)) as Hm'.
  { intros q h. destruct (decide (c_source c = q)) as [<-|Hne];
      [rewrite lookup_insert_eq; by intros [= <-]|rewrite lookup_insert_ne by done; apply Hm]. }
  destruct (c_destination c) as [dest|]; [|done]. destruct (H3 dest eq_refl) as [Hd Hn].
  intros q h. destruct (decide (dest = q)) as [<-|Hne];
    [rewrite lookup_insert_eq; intros [= <-]; by rewrite Hn|rewrite lookup_insert_ne by done; apply Hm'].
Qed.

Lemma runs_verify_one q h w : files w = original -> q ∈ map fst (desired p) -> h = _sha <$> original !! q ->
  runs (verify_one _sha never p q h) w (fun c w' => c = false /\ same_disk w w').
Proof using Hplan.
  intros Hw Hq Hh. unfold verify_one. rewrite (validated_path q Hq). cbn [default id].
  apply (runs_bind _ _ _ (fun c w' => c = false /\ same_disk w w')).
  - destruct (runs_revalidate q (bool_decide (is_Some (original !! q))) w) as ([] & w1 & H1 & Hs).
    + unfold exists_. by rewrite Hw.
    + exists false, w1. cbv beta. by rewrite H1.
  - intros c w1 [-> Hs]. assert (files w1 = original) as Hf by (destruct Hs as [-> _]; done).
    destruct (original !! q) as [raw|] eqn:Hr; rewrite Hh; cbn [fmap option_fmap option_map].
    + destruct (runs_read q raw w1) as (r & w2 & H2 & -> & Hs2); [by rewrite Hf|].
      exists false, w2. cbv beta. rewrite H2, bool_decide_refl. split_and!; [done|done|by apply (same_disk_trans w w1)].
    + exists false, (tick w1). split_and!; [|done|by apply (same_disk_trans w w1)].
      unfold step, never. f_equal. f_equal. unfold exists_. cbn [files tick]. rewrite Hf, Hr. done.
Qed.

Lemma runs_verify w : files w = original ->
  runs (_verify_commit_preconditions _sha never p) w (fun _ => same_disk w).
Proof using Hplan Hchanges.
  intros Hw. unfold _verify_commit_preconditions.
  apply (runs_bind _ _ _ (fun c w' => c = false /\ same_disk w w')); [|intros c w1 [-> Hs]; by apply runs_ret].
  assert (forall q h, (q, h) ∈ sorted_items (map_to_list (expected_hashes (pf_changes p))) ->
    q ∈ map fst (desired p) /\ h = _sha <$> original !! q) as Hl.
  { intros q h Hq. unfold sorted_items in Hq. rewrite merge_sort_Permutation in Hq.
    apply elem_of_map_to_list in Hq. by apply expected_hashes_ok. }
  revert w Hw Hl. induction (sorted_items _) as [|[q h] l IH]; intros w Hw Hl; cbn [verify_all]; [by apply runs_ret|].
  destruct (Hl q h) as [Hq Hh]; [by left|].
  eapply runs_bind; [by apply runs_verify_one|]. intros c w1 [-> Hs1].
  eapply runs_bind.
  { apply IH; [by destruct Hs1 as [-> _]|]. intros q' h' Hin. apply Hl. by right. }
  intros c w2 [-> Hs2]. apply runs_ret. split; [done|]. by apply (same_disk_trans w w1).
Qed.

(** *** Backups and writes *)

Lemma runs_backup_one k q d w : sorted_items (desired p) !! k = Some (q, d) -> backing k w ->
  runs (backup_one _sha never tid p k q d) w (fun _ => backing (S k)).
Proof using Hplan.
  intros Hk Hw. assert ((q, d) ∈ desired p) as Hin.
  { apply list_elem_of_lookup_2 in Hk. unfold sorted_items in Hk. by rewrite merge_sort_Permutation in Hk. }
  eapply (runs_triple _ _ _ (fun _ _ => True)); [|by apply triple_backup_one with (scope_fingerprint := scope_fingerprint)|exact Hw].
  assert (files w = original) as Hf by apply Hw. unfold backup_one.
  rewrite (plan_validated _ _ _ _ _ _ _ Hplan q d Hin). cbn [default id].
  eapply runs_bind; [apply runs_check|]. intros [] w1 Hs1.
  eapply runs_bind; [apply runs_revalidate; unfold exists_; by destruct Hs1 as [-> _]; rewrite Hf|]. intros [] w2 Hs2.
  apply (runs_bind _ _ _ (fun _ _ => True)); [|intros [] w3 _; by eexists _, _].
  case_bool_decide as Hex; [|by apply runs_ret]. destruct Hex as [raw Hraw].
  destruct (plan_hashes _ _ _ _ _ _ _ Hplan q d raw Hin Hraw) as [Hold Hlen].
  eapply runs_bind; [apply (runs_read q raw)|].
  { destruct Hs2 as [-> _], Hs1 as [-> _]. by rewrite Hf. }
  intros content w3 [-> Hs3]. rewrite Hold, read_all by (unfold MAX_PATCH_FILE_BYTES in *; lia).
  rewrite bool_decide_refl. cbn [negb]. apply runs_write_backup.
Qed.

Lemma runs_backup_all k l w : drop k (sorted_items (desired p)) = l -> backing k w ->
  runs (backup_all _sha never tid p k l) w (fun _ => backing (length (desired p))).
Proof using Hplan.
  intros Hl Hw. eapply (runs_triple _ _ _ (fun _ _ => True)); [|by apply triple_backup_all with (scope_fingerprint := scope_fingerprint)|exact Hw].
  revert k w Hl Hw. induction l as [|[q d] l IH]; intros k w Hl Hw; cbn [backup_all]; [by apply runs_ret|].
  eapply runs_bind; [apply runs_backup_one; [|exact Hw]; by rewrite <-(Nat.add_0_r k), <-lookup_drop, Hl|].
  intros [] w1 Hw1. apply (IH (S k)); [|done]. by rewrite <-(Nat.add_1_r k), <-drop_drop, Hl.
Qed.

(** The file to write next is still the old one. *)
Lemma next_is_old j q d w : desired p !! j = Some (q, d) -> writing j w -> files w !! q = original !! q.
Proof using Hplan.
  intros Hj [_ _ _ _ _ _ Hf _]. rewrite Hf. apply foldl_put_other. intros (x & Hx & Hin)%list_elem_of_fmap.
  apply elem_of_take in Hin as (i & Hi & Hlt). pose proof (plan_nodup _ _ _ _ _ _ _ Hplan) as Hn.
  assert (i = j); [|lia]. apply (NoDup_lookup (map fst (desired p)) i j q); [done| |].
  - rewrite list_lookup_fmap, Hi. cbn. by rewrite Hx.
  - by rewrite list_lookup_fmap, Hj.
Qed.

(** A plan deletes files that are there. *)
Context (Hdeletes : forall q, (q, None) ∈ desired p -> is_Some (original !! q)).

Lemma runs_commit_one j q d w : desired p !! j = Some (q, d) -> writing j w ->
  runs (commit_one never p q d) w (fun _ => writing (S j)).
Proof using Hplan Hdeletes.
  intros Hj Hw. eapply (runs_triple _ _ _ (fun _ _ => True)); [|by apply triple_commit_one with (scope_fingerprint := scope_fingerprint)|exact Hw].
  pose proof (next_is_old j q d w Hj Hw) as Hold. assert ((q, d) ∈ desired p) as Hin by (by eapply list_elem_of_lookup_2).
  unfold commit_one. eapply runs_bind; [apply runs_check|]. intros [] w1 Hs1.
  rewrite (plan_validated _ _ _ _ _ _ _ Hplan q d Hin). cbn [default id].
  eapply runs_bind; [apply runs_revalidate; unfold exists_; by destruct Hs1 as [-> _]; rewrite Hold|]. intros [] w2 Hs2.
  apply (runs_bind _ _ _ (fun _ w3 => files w3 = files w)).
  { exists tt, (set_mutated true w2). split; [done|]. cbn. by destruct Hs2 as [-> _], Hs1 as [-> _]. }
  intros [] w3 Hf3. destruct d as [raw|]; [apply runs_atomic_replace|]. apply runs_unlink. unfold exists_.
  rewrite Hf3, Hold. apply bool_decide_eq_true. by apply Hdeletes.
Qed.

Lemma runs_commit_all j l w : drop j (desired p) = l -> writing j w ->
  runs (for_each l (fun d => commit_one never p d.1 d.2)) w (fun _ _ => True).
Proof using Hplan Hdeletes.
  revert j w. induction l as [|[q d] l IH]; intros j w Hl Hw; cbn [for_each]; [by apply runs_ret|].
  eapply runs_bind; [apply (runs_commit_one j); [|exact Hw]; by rewrite <-(Nat.add_0_r j), <-lookup_drop, Hl|].
  intros [] w1 Hw1. apply (IH (S j)); [|done]. by rewrite <-(Nat.add_1_r j), <-drop_drop, Hl.
Qed.

Local Notation prepared := (PatchRecovery.prepared _sha tid original target p key digest result b table registered).

Lemma runs_commit_body w : backing 0 w ->
  runs (commit_body _sha never tid target p key digest result b) w (fun _ => at_patched).
Proof using Hplan Hdeletes.
  intros Hw. eapply (runs_triple _ _ _ (fun _ _ => True)); [|by apply triple_commit_body with (scope_fingerprint := scope_fingerprint)|exact Hw].
  unfold commit_body. eapply runs_bind; [by apply runs_backup_all|]. intros [] w1 Hw1.
  apply (runs_bind _ _ _ (fun a w2 => prepared w2 /\ a = registered)).
  { eapply runs_never; [apply (triple_get_project _ scope_fingerprint tid original target p key digest b table registered never Hplan prepared)| |].
    - apply (disk_only_prepared _ scope_fingerprint _ _ _ _ _ _ _ _ _ _ never Hplan).
    - intros w2 Hw2. apply Hw2.
    - by intros e w2 [Hn _].
    - by apply (backing_prepared _ scope_fingerprint _ _ _ _ _ _ _ _ _ _ never Hplan). }
  intros reg w2 [Hw2 ->]. apply (runs_bind _ _ _ (fun rs w' => rs = planned_records _sha original p /\ prepared w')).
  { eexists _, w2. split; [reflexivity|]. split; [apply Hw2|done]. }
  intros rs w3 [-> Hw3].
  eapply runs_bind.
  { eapply runs_triple; [apply runs_write_manifest|by apply triple_write_prepared with (scope_fingerprint := scope_fingerprint)|exact Hw3]. }
  intros [] w4 Hw4. eapply runs_bind.
  { eapply runs_triple; [apply runs_write_manifest|by apply triple_write_committing with (scope_fingerprint := scope_fingerprint)|exact Hw4]. }
  intros [] w5 Hw5. eapply runs_bind; [by apply (runs_commit_all 0)|]. intros [] w6 _.
  eapply runs_bind; [apply runs_check|]. intros [] w7 _. apply runs_write_manifest.
Qed.

Lemma runs_commit w : fresh_start w -> runs (_commit _sha never tid target p key digest result b) w (fun _ => at_patched).
Proof using Hplan Hchanges Hdeletes.
  intros Hw. eapply (runs_triple _ _ _ (fun _ _ => True)); [|by apply triple_commit with (scope_fingerprint := scope_fingerprint)|exact Hw].
  pose proof (disk_only_start _ scope_fingerprint tid original target p key digest result b table registered never Hplan) as Hd.
  unfold _commit. eapply runs_bind; [apply runs_check|]. intros [] w1 Hs1. pose proof (Hd _ _ Hs1 Hw) as Hw1.
  eapply runs_bind; [apply runs_verify, Hw1|]. intros [] w2 Hs2. pose proof (Hd _ _ Hs2 Hw1) as Hw2.
  eapply runs_bind; [apply runs_check|]. intros [] w3 Hs3. pose proof (Hd _ _ Hs3 Hw2) as Hw3.
  eapply runs_bind; [apply runs_act|]. intros [] w4 ->.
  apply (runs_bind _ _ _ (fun _ => backing 0)).
  { eexists _, _. split; [reflexivity|]. apply (start_backing _ scope_fingerprint _ _ _ _ _ _ _ _ _ _ never Hplan (tick w3)).
    by apply (Hd w3). }
  intros [] w5 Hw5. destruct (runs_commit_body w5 Hw5) as ([] & w6 & H6 & Hw6).
  assert (runs (commit_finally never tid) w6 (fun _ => at_patched)) as ([] & w7 & H7 & _).
  { eapply runs_never; [apply (triple_commit_finally _sha scope_fingerprint tid original target p table registered never Hplan at_patched)|by intros e w' (_ & Hn & _)|exact Hw6].
    - intros w' w''. apply at_patched_same.
    - intros w' Hw' Hs. by apply (patched_not_removed _ scope_fingerprint _ _ _ _ _ _ _ _ _ _ never Hplan) in Hw'. }
  exists tt, w7. split; [|done]. unfold try_finally, try_except. by rewrite H6, H7.
Qed.

(** *** The attempt *)

Lemma runs_apply_journaled q w :
  q_project_id q = project_id target -> q_idempotency_key q = key -> q_binding q = b ->
  result = result_json (q_project_id q) (q_idempotency_key q) false (pf_changes p) (Some tid) ->
  fresh_start w -> runs (apply_journaled _sha never q digest target p tid) w (fun r w' => r = result /\ done_patched w').
Proof using Hplan Hchanges Hdeletes.
  intros Hq1 Hq2 Hq3 Hres Hw. unfold apply_journaled. cbv zeta. rewrite <-Hres, Hq1, Hq2, Hq3.
  apply (runs_bind _ _ _ (fun _ => fresh_start)).
  { apply (runs_bind _ _ _ (fun _ => fresh_start)); [by eexists _, _|]. intros now w1 Hw1.
    eapply runs_never; [by apply triple_put_running with (scope_fingerprint := scope_fingerprint)|by intros e w' [Hn _]|exact Hw1]. }
  intros [] w1 Hw1. apply (runs_bind _ _ _ (fun _ => at_patched)).
  { destruct (runs_commit w1 Hw1) as ([] & w2 & H2 & Hw2). exists tt, w2. split; [|done]. unfold try_except. by rewrite H2. }
  intros [] w2 Hw2. apply (runs_bind _ _ _ (fun _ => done_patched)).
  { apply (runs_bind _ _ _ (fun _ => at_patched)); [by eexists _, _|]. intros now w3 Hw3.
    eapply runs_never; [by apply triple_put_succeeded with (scope_fingerprint := scope_fingerprint)|by intros e w' [Hn _]|exact Hw3]. }
  intros [] w3 Hw3. apply (runs_bind _ _ _ (fun _ => done_patched)).
  { eapply runs_never; [apply (triple_rmtree tid never done_patched (removable_done _ _ _ _ _ _ _ _ _ _ _))|by intros e w' (_ & Hn & _)|exact Hw3]. }
  intros [] w4 Hw4. by apply runs_ret.
Qed.
End progress.
