(* ===== verification/PatchApply.v ===== *)
(** * What apply does to the files

    A specification of a patch as a function on the files of the target root,
    the proof that preflight computes it, and the theorems on the whole of
    [PatchService.apply]: atomicity under faults and restarts, dry runs, and
    success when nothing fails. *)
From stdpp Require Import sorting.
From S2P Require Import Prelude Utf8 PyStr Models Paths PatchFormat Database Json PatchService PatchRecovery PatchProgress.

Open Scope N_scope.

(** ** The specification *)

Section spec.
  Context (linesep : str).

(** The new content of an updated or moved file. *)
Definition updated_file (section : PatchSection) (raw : bytes) : option bytes :=
  match decode linesep raw with
  | Ok document => match _apply_hunks document (hunks section) with
                   | Ok patched => encode patched
                   | Err _ => None
                   end
  | Err _ => None
  end.

Definition section_spec (section : PatchSection) (m : gmap str bytes) : option (gmap str bytes) :=
  match action section with
  | Add => match m !! path section with
           | Some _ => None
           | None => (fun raw => <[path section := raw]> m) <$>
               encode {| lines := add_lines section; newline := linesep; final_newline := true; bom := false |}
           end
  | Delete => (fun _ => delete (path section) m) <$> m !! path section
  | Update => (fun raw => <[path section := raw]> m) <$> (m !! path section ≫= updated_file section)
  | Move => match destination section with
            | Some dest => match m !! dest with
                | Some _ => None
                | None => (fun raw => <[dest := raw]> (delete (path section) m)) <$>
                    (m !! path section ≫= updated_file section)
                end
            | None => None
            end
  end.

Definition patch_spec (sections : list PatchSection) (m : gmap str bytes) : option (gmap str bytes) :=
  fold_left (fun m s => m ≫= section_spec s) sections (Some m).
End spec.

(** ** Inversion of successful steps *)

Lemma bind_ok {S A B} (m : ST S A) (k : A -> ST S B) s b s' :
  bind m k s = (Ok b, s') -> exists a s1, m s = (Ok a, s1) /\ k a s1 = (Ok b, s').
Proof. unfold bind. destruct (m s) as [[a|e] s1]; [|done]. eauto. Qed.

Lemma raise_if_ok {S} c e (s s' : S) u : raise_if c e s = (Ok u, s') -> c = false /\ s' = s.
Proof. destruct c; [done|]. by intros [= _ <-]. Qed.

Lemma lift_ok {S A} (r : res A) (s s' : S) a : lift r s = (Ok a, s') -> r = Ok a /\ s' = s.
Proof. by intros [= -> ->]. Qed.

Section ok.
  Context (fault : nat -> option exn).

Lemma step_ok {A} (f : world -> A * world) w a w' :
  step fault f w = (Ok a, w') -> f (tick w) = (a, w').
Proof. unfold step. destruct (fault (clock w)); [done|]. destruct (f (tick w)). by intros [= -> ->]. Qed.

Lemma check_ok w u w' : check fault w = (Ok u, w') -> same_disk w w'.
Proof. intros H%step_ok. by injection H as <- <-. Qed.

Lemma resolve_ok q me w e w' : resolve_target fault q me w = (Ok e, w') ->
  same_disk w w' /\ e = exists_ w q /\ (me = true -> e = true).
Proof.
  intros (ex & w1 & H & Hk)%bind_ok. apply step_ok in H. injection H as <- <-.
  destruct (me && negb (exists_ (tick w) q)) eqn:E; [done|]. injection Hk as <- <-.
  split_and!; [done|done|]. intros ->. cbn [andb] in E. by apply negb_false_iff in E.
Qed.

Lemma read_ok q w raw w' : read_file fault q w = (Ok raw, w') -> same_disk w w' /\ files w !! q = Some raw.
Proof.
  intros (r & w1 & H & Hk)%bind_ok. apply step_ok in H. injection H as <- <-.
  change (files (tick w)) with (files w) in Hk.
  destruct (files w !! q) as [raw'|]; [|done]. injection Hk as <- <-. by split.
Qed.

Lemma encode_ok {d} {w w' : world} {raw} : encode_file d w = (Ok raw, w') -> encode d = Some raw /\ w' = w.
Proof. unfold encode_file. destruct (encode d); [|done]. by intros [= -> ->]. Qed.
End ok.

Lemma read_at_most_short n raw : (0 <= n)%Z ->
  (Z.of_nat (length (read_at_most (n + 1) raw)) <= n)%Z ->
  read_at_most (n + 1) raw = raw /\ (Z.of_nat (length raw) <= n)%Z.
Proof.
  revert n. induction raw as [|a raw IH]; intros n Hn; [done|]. cbn [read_at_most].
  replace (n + 1 <=? 0)%Z with false by lia. cbn [length]. intros H.
  replace (n + 1 - 1)%Z with (n - 1 + 1)%Z in * by lia.
  destruct (decide (n = 0)%Z) as [->|]; [lia|].
  destruct (IH (n - 1)%Z) as [-> Hl]; [lia|lia|]. split; [done|lia].
Qed.

(** ** Preflight computes the specification *)

Lemma lookup_assoc_app {A} q (l1 l2 : list (str * A)) :
  lookup_assoc q (l1 ++ l2) = match lookup_assoc q l1 with Some a => Some a | None => lookup_assoc q l2 end.
Proof.
  unfold lookup_assoc. destruct (list_find _ l1) as [[i kv]|] eqn:E.
  - by rewrite (list_find_app_l _ _ _ _ _ E).
  - rewrite list_find_app_r by done. cbn. by destruct (list_find _ l2) as [[i kv]|].
Qed.

Lemma lookup_assoc_none {A} q (l : list (str * A)) : q ∉ map fst l -> lookup_assoc q l = None.
Proof.
  intros Hq. unfold lookup_assoc. rewrite (proj2 (list_find_None _ _)); [done|].
  apply Forall_forall. intros [k a] Hk E. apply Hq. apply list_elem_of_fmap. exists (k, a). by split.
Qed.

Lemma old_hash_app q l c : q <> c_source c -> old_hash_of (l ++ [c]) q = old_hash_of l q.
Proof.
  intros Hq. unfold old_hash_of. destruct (list_find _ l) as [[i x]|] eqn:E.
  - by rewrite (list_find_app_l _ _ _ _ _ E).
  - rewrite list_find_app_r by done. cbn. by rewrite decide_False.
Qed.

Lemma old_hash_last q l c : q = c_source c -> q ∉ map c_source l -> old_hash_of (l ++ [c]) q = Some (c_old_hash c).
Proof.
  intros -> Hq. unfold old_hash_of. rewrite list_find_app_r.
  - cbn. by rewrite decide_True.
  - apply list_find_None, Forall_forall. intros x Hx E. apply Hq. rewrite <-E. by apply list_elem_of_fmap_2.
Qed.

Section preflight.
  Context (_sha : bytes -> str) (linesep : str) (fault : nat -> option exn) (original : gmap str bytes).

Local Notation change_ok := (PatchProgress.change_ok _sha original).

(** The preflight of the sections [done] that touch [touched]. *)
Record planned_by (sections : list PatchSection) (touched : gset str) (p : _Preflight) : Prop := {
  pb_spec : patch_spec linesep sections original = Some (foldl put_file original (desired p));
  pb_nodup : NoDup (map fst (desired p));
  pb_touched : forall q, q ∈ map fst (desired p) -> q ∈ touched;
  pb_keys : map fst (validated p) = map fst (desired p);
  pb_validated : forall q, q ∈ map fst (desired p) ->
    lookup_assoc q (validated p) = Some (bool_decide (is_Some (original !! q)));
  pb_hashes : forall q raw, q ∈ map fst (desired p) -> original !! q = Some raw ->
    old_hash_of (pf_changes p) q = Some (Some (_sha raw)) /\ (Z.of_nat (length raw) <= MAX_PATCH_FILE_BYTES)%Z;
  pb_changes : forall c, c ∈ pf_changes p -> change_ok (map fst (desired p)) c;
  pb_deletes : forall q, (q, None) ∈ desired p -> is_Some (original !! q);
}.

(** What one section contributes. *)
Record contributes (section : PatchSection) (des : list (str * option bytes)) (val : list (str * bool))
    (c : _Change) : Prop := {
  ct_spec : forall m, (forall q, q ∈ sections_paths [section] -> m !! q = original !! q) ->
    section_spec linesep section m = Some (foldl put_file m des);
  ct_nodup : NoDup (map fst des);
  ct_paths : forall q, q ∈ map fst des -> q ∈ sections_paths [section];
  ct_validated : val = map (fun d => (d.1, bool_decide (is_Some (original !! d.1)))) des;
  ct_hashes : forall q raw, q ∈ map fst des -> original !! q = Some raw ->
    q = c_source c /\ (Z.of_nat (length raw) <= MAX_PATCH_FILE_BYTES)%Z;
  ct_change : change_ok (map fst des) c;
  ct_deletes : forall q, (q, None) ∈ des -> is_Some (original !! q);
}.

Lemma patch_spec_snoc sections s m :
  patch_spec linesep (sections ++ [s]) m = patch_spec linesep sections m ≫= section_spec linesep s.
Proof. unfold patch_spec. by rewrite fold_left_app. Qed.

Lemma change_ok_mono l l' c : (forall q, q ∈ l -> q ∈ l') -> change_ok l c -> change_ok l' c.
Proof. intros Hl [H1 H2 H3]. split; [auto|done|]. intros dest Hd. destruct (H3 dest Hd). auto. Qed.

Lemma lookup_assoc_self {A} (f : str -> A) (l : list str) q : q ∈ l ->
  lookup_assoc q (map (fun x => (x, f x)) l) = Some (f q).
Proof.
  induction l as [|x l IH]; [by intros ?%elem_of_nil|]. intros Hq. unfold lookup_assoc. cbn [map list_find].
  destruct (decide (x = q)) as [->|Hne]; [by rewrite decide_True|]. rewrite decide_False by done.
  apply elem_of_cons in Hq as [->|Hq]; [done|]. specialize (IH Hq). unfold lookup_assoc in IH.
  by destruct (list_find _ (map _ l)) as [[i kv]|].
Qed.

Lemma planned_by_add sections touched p s des val c :
  planned_by sections touched p -> touched ∩ sections_paths [s] = ∅ -> contributes s des val c ->
  planned_by (sections ++ [s]) (touched ∪ sections_paths [s]) (pf_add des val c p).
Proof.
  intros [H1 H2 H3 H4 H5 H6 H7 H8] Hdis [C1 C2 C3 C4 C5 C6 C7].
  assert (Hold : forall q, q ∈ map fst (desired p) -> q ∉ map fst des).
  { intros q Hq Hd. apply H3 in Hq. apply C3 in Hd. set_solver. }
  assert (Hnew : forall q, q ∈ map fst des -> q ∉ map fst (desired p)) by (intros q Hd Hq; by apply (Hold q)).
  assert (Hval : map fst val = map fst des) by (rewrite C4, map_map; by apply map_ext).
  split; cbn [pf_add desired validated pf_changes]; rewrite ?map_app.
  - rewrite patch_spec_snoc, H1. cbn. rewrite foldl_app. apply C1. intros q Hq. apply foldl_put_other.
    intros Hd. apply H3 in Hd. set_solver.
  - apply NoDup_app. split_and!; [done|apply Hold|done].
  - intros q [Hq|Hq]%elem_of_app; [apply H3 in Hq|apply C3 in Hq]; set_solver.
  - by rewrite H4, Hval.
  - intros q [Hq|Hq]%elem_of_app; rewrite lookup_assoc_app; [by rewrite H5|].
    rewrite lookup_assoc_none; [|rewrite H4; auto].
    replace val with (map (fun x => (x, bool_decide (is_Some (original !! x)))) (map fst des))
      by (rewrite C4, map_map; done).
    exact (lookup_assoc_self (fun x => bool_decide (is_Some (original !! x))) _ q Hq).
  - assert (Hsrc : c_source c ∈ map fst des) by apply C6.
    intros q raw [Hq|Hq]%elem_of_app Hraw.
    + rewrite old_hash_app; [by apply H6|]. intros ->. by apply (Hold (c_source c)).
    + destruct (C5 q raw Hq Hraw) as [-> Hl]. split; [|done]. rewrite old_hash_last; [|done|].
      * by rewrite (co_old _ _ _ c C6), Hraw.
      * intros (x & Hx & Hin)%list_elem_of_fmap. apply (Hnew (c_source c) Hsrc). rewrite Hx. by apply H7.
  - intros c' [Hc| ->%list_elem_of_singleton]%elem_of_app.
    + eapply change_ok_mono; [|by apply H7]. intros q Hq. apply elem_of_app. by left.
    + eapply change_ok_mono; [|exact C6]. intros q Hq. apply elem_of_app. by right.
  - intros q [Hq|Hq]%elem_of_app; auto.
Qed.
(** Reading the old file of a section that changes one. *)
Lemma read_old_ok q w r w' : files w = original -> read_old fault q w = (Ok r, w') ->
  exists raw, r = (true, raw) /\ original !! q = Some raw /\ (Z.of_nat (length raw) <= MAX_PATCH_FILE_BYTES)%Z /\
    files w' = original.
Proof.
  intros Hw (ex & w1 & (Hs1 & _ & Hex)%resolve_ok & H)%bind_ok.
  apply bind_ok in H as (size & w2 & H2%step_ok & H). injection H2 as <- <-.
  apply bind_ok in H as ([] & w3 & [_ ->]%raise_if_ok & H).
  apply bind_ok in H as (raw & w4 & [Hs4 Hraw]%read_ok & H). cbv zeta in H.
  apply bind_ok in H as ([] & w5 & [Hl%Z.ltb_ge ->]%raise_if_ok & H).
  apply read_at_most_short in Hl as [Hr Hl]; [|done]. rewrite Hr in H. injection H as <- <-.
  exists raw. rewrite Hex by done. destruct Hs1 as [Hf1 _], Hs4 as [Hf4 _].
  cbn in Hf4, Hraw. split_and!; [done|by rewrite <-Hw, <-Hf1|done|by rewrite <-Hw, <-Hf1].
Qed.

Lemma new_content_ok s raw (w : world) r w' : new_content linesep s raw w = (Ok r, w') ->
  updated_file linesep s raw = Some r /\ w' = w.
Proof.
  intros (d & w1 & [Hd ->]%lift_ok & H)%bind_ok. apply bind_ok in H as (d' & w2 & [Hd' ->]%lift_ok & H).
  apply encode_ok in H as [H ->]. unfold updated_file. by rewrite Hd, Hd'.
Qed.

Lemma put_one m q d : foldl put_file m [(q, d)] = put_file m (q, d).
Proof. done. Qed.

Lemma contributes_one s d c raw :
  (forall m, (forall q, q ∈ sections_paths [s] -> m !! q = original !! q) ->
    section_spec linesep s m = Some (put_file m (path s, d))) ->
  c_source c = path s -> c_destination c = None -> c_old_hash c = _sha <$> original !! path s ->
  original !! path s = raw -> (d = None -> is_Some raw) ->
  (forall r, raw = Some r -> (Z.of_nat (length r) <= MAX_PATCH_FILE_BYTES)%Z) ->
  contributes s [(path s, d)] [(path s, bool_decide (is_Some raw))] c.
Proof.
  intros Hspec Hs Hd Hh Hr Hdel Hl. split.
  - intros m Hm. by apply Hspec.
  - apply NoDup_singleton.
  - intros q ->%list_elem_of_singleton. unfold sections_paths. cbn. set_solver.
  - by subst raw.
  - intros q r ->%list_elem_of_singleton Hq. split; [done|]. apply Hl. by rewrite <-Hr.
  - split; [rewrite Hs; by apply list_elem_of_singleton|by rewrite Hs|]. intros dest. by rewrite Hd.
  - intros q [= -> <-]%list_elem_of_singleton. subst raw. by apply Hdel.
Qed.

Lemma path_touched s : path s ∈ sections_paths [s].
Proof. unfold sections_paths. cbn. set_solver. Qed.
Lemma dest_touched s d : destination s = Some d -> d ∈ sections_paths [s].
Proof. intros Hd. unfold sections_paths. cbn. rewrite Hd. set_solver. Qed.
Lemma section_contributes base s p w p' w' : files w = original ->
  preflight_section _sha linesep fault base s p w = (Ok p', w') ->
  exists des val c, p' = pf_add des val c p /\ contributes s des val c.
Proof.
  intros Hw. unfold preflight_section. destruct (action s) eqn:Ha; cbv zeta.
  - intros ([] & w1 & [_ ->]%raise_if_ok & H)%bind_ok.
    apply bind_ok in H as (ex & w2 & (Hs & Hex & _)%resolve_ok & H). destruct ex; [done|].
    apply bind_ok in H as (raw & w3 & [Hr ->]%encode_ok & H). injection H as <- <-.
    symmetry in Hex. apply bool_decide_eq_false, eq_None_not_Some in Hex. rewrite Hw in Hex.
    do 3 eexists. split; [reflexivity|]. apply (contributes_one s (Some raw) _ None); try done; [|by rewrite Hex].
    intros m Hm. unfold section_spec. by rewrite Ha, Hm, Hex, Hr by apply path_touched.
  - intros (r & w1 & (raw & -> & Hraw & Hl & Hf)%read_old_ok & H)%bind_ok; [|done]. case_bool_decide; [|done].
    apply bind_ok in H as (u & w2 & [Hu _]%new_content_ok & H). injection H as <- <-.
    do 3 eexists. split; [reflexivity|]. apply (contributes_one s (Some u) _ (Some raw)); try done; [|by rewrite Hraw|by intros r [= <-]].
    intros m Hm. unfold section_spec. rewrite Ha, Hm, Hraw by apply path_touched. cbn. by rewrite Hu.
  - intros (r & w1 & (raw & -> & Hraw & Hl & Hf)%read_old_ok & H)%bind_ok; [|done]. case_bool_decide; [|done].
    injection H as <- <-.
    do 3 eexists. split; [reflexivity|]. apply (contributes_one s None _ (Some raw)); try done; [|by rewrite Hraw|by intros r [= <-]].
    intros m Hm. unfold section_spec. by rewrite Ha, Hm, Hraw by apply path_touched.
  - intros (r & w1 & (raw & -> & Hraw & Hl & Hf)%read_old_ok & H)%bind_ok; [|done]. case_bool_decide; [|done].
    apply bind_ok in H as (u & w2 & [Hu ->]%new_content_ok & H). destruct (destination s) as [dest|] eqn:Hd; [|done].
    apply bind_ok in H as ([] & w2' & [_ ->]%raise_if_ok & H).
    apply bind_ok in H as (ex & w3 & (_ & Hex & _)%resolve_ok & H). destruct ex; [done|]. injection H as <- <-.
    symmetry in Hex. apply bool_decide_eq_false, eq_None_not_Some in Hex. rewrite Hf in Hex.
    do 3 eexists. split; [reflexivity|]. assert (path s <> dest) as Hne by congruence. split.
    + intros m Hm. unfold section_spec. rewrite Ha, Hd, (Hm dest), Hex by by apply dest_touched.
      rewrite Hm, Hraw by apply path_touched. cbn. by rewrite Hu.
    + cbn. apply NoDup_cons. split; [by intros ?%list_elem_of_singleton|apply NoDup_singleton].
    + intros q [->|[->|[]%not_elem_of_nil]%elem_of_cons]%elem_of_cons; [apply path_touched|by apply dest_touched].
    + cbn [map fst]. by rewrite (bool_decide_eq_true_2 _ (mk_is_Some _ _ Hraw)), Hex.
    + intros q r [->|[->|[]%not_elem_of_nil]%elem_of_cons]%elem_of_cons Hq; cbn [fst] in *; [|by pose proof (eq_trans (eq_sym Hex) Hq)].
      split; [done|]. by pose proof (eq_trans (eq_sym Hraw) Hq) as [= <-].
    + split; [by left|cbn [c_source c_old_hash]; by rewrite Hraw|]. intros d [= <-]. split; [right; by left|done].
    + intros q [[= ->]|[[=]|[]%not_elem_of_nil]%elem_of_cons]%elem_of_cons. by rewrite Hraw.
Qed.

Lemma quiet_encode d : quiet (encode_file d).
Proof. unfold encode_file. quiet_steps. Qed.
Lemma quiet_new_content s raw : quiet (new_content linesep s raw).
Proof. unfold new_content. quiet_steps. apply quiet_encode. Qed.
Lemma quiet_read_old q : quiet (read_old fault q).
Proof. unfold read_old. cbv zeta. quiet_steps. Qed.
#[local] Hint Resolve quiet_encode quiet_new_content quiet_read_old : core.

Lemma quiet_preflight_section base s p : quiet (preflight_section _sha linesep fault base s p).
Proof. unfold preflight_section, patch_conflict_. cbv zeta. destruct (action s); quiet_steps. Qed.

Lemma quiet_preflight_sections sections base : quiet (_preflight _sha linesep fault sections base).
Proof.
  unfold _preflight. destruct (negb _); [apply quiet_raise|]. generalize (∅ : gset str), pf_empty.
  induction sections as [|s rest IH]; intros touched p; cbn [preflight_sections]; [apply quiet_ret|].
  cbv zeta. quiet_steps. apply quiet_preflight_section.
Qed.

Lemma disk_only_files : disk_only (fun w => files w = original).
Proof. by intros w w' (-> & _). Qed.

Lemma preflight_sections_planned base rest sections touched p w p' w' :
  files w = original -> planned_by sections touched p ->
  preflight_sections _sha linesep fault base rest touched p w = (Ok p', w') ->
  exists touched', planned_by (sections ++ rest) touched' p'.
Proof.
  revert sections touched p w. induction rest as [|s rest IH]; intros sections touched p w Hw Hp.
  - intros [= <- _]. rewrite app_nil_r. by exists touched.
  - cbn [preflight_sections]. cbv zeta. intros ([] & w1 & Hs%check_ok & H)%bind_ok.
    apply (disk_only_files _ _ Hs) in Hw. case_bool_decide as Hd; [|done]. cbn [negb] in H.
    apply bind_ok in H as (p1 & w2 & Hsec & H).
    destruct (section_contributes _ _ _ _ _ _ Hw Hsec) as (des & val & c & -> & Hc).
    pose proof (quiet_preflight_section base s p _ disk_only_files w1 Hw) as Hw2. rewrite Hsec in Hw2.
    apply IH with (sections := sections ++ [s]) in H; [by rewrite <-app_assoc in H|done|].
    by apply planned_by_add.
Qed.

Lemma preflight_planned sections base w p w' : files w = original ->
  _preflight _sha linesep fault sections base w = (Ok p, w') -> exists touched, planned_by sections touched p.
Proof.
  intros Hw. unfold _preflight. case_bool_decide; [|done]. cbn [negb].
  apply (preflight_sections_planned base sections [] ∅); [done|].
  split; cbn; try done; try (by intros ? ?%elem_of_nil); [apply NoDup_nil_2|].
  by intros q raw ?%elem_of_nil.
Qed.

(** With the facts about the target, that is the plan of a commit. *)
Lemma planned_by_plan_ok scope_fingerprint target table registered sections touched p :
  planned_by sections touched p ->
  (forall m q raw raw', patch_spec linesep sections original = Some m ->
    m !! q = Some raw -> original !! q = Some raw' -> _sha raw = _sha raw' -> raw = raw') ->
  (forall raw, _sha raw <> []) ->
  (pr_project <$> table !! project_id target = Some registered /\ enabled registered = true) ->
  (if bool_decide (root target = root registered)
    then root_fingerprint target = root_fingerprint registered
    else scope_fingerprint (root target) = Some (root_fingerprint target)) ->
  plan_ok _sha scope_fingerprint original target p table registered.
Proof.
  intros [H1 H2 H3 H4 H5 H6 H7 H8] Hcol Hsha Hreg Hroot. split; try done.
  - intros q d Hq. apply H5. by apply (list_elem_of_fmap_2 fst) in Hq.
  - intros q d raw Hq. apply H6. by apply (list_elem_of_fmap_2 fst) in Hq.
  - intros q raw raw' Hq. apply (Hcol _ q raw raw' H1). by apply foldl_put_lookup.
Qed.
End preflight.

(** ** The whole of apply *)

Section apply.
  Context (_sha : bytes -> str) (linesep : str) (scope_fingerprint : str -> option str).
  Context (q : patch_request) (target_project : option Project) (uuid : str).
  (** The world before the call. *)
  Context (w0 : world).

Definition the_row (w : world) : option Idempotency :=
  idempotency (database w) !! (q_project_id q, CAPABILITY, q_idempotency_key q).

(** No transaction is pending, the key is new, and the caller resolved an
    external target for this project and its present identity. *)
Record first_attempt : Prop := {
  fa_journal : journal w0 = ∅;
  fa_row : the_row w0 = None;
  fa_keys : forall id r, projects (database w0) !! id = Some r -> project_id (pr_project r) = id;
  fa_target : forall scope t r, q_scope_path q = Some scope -> target_project = Some t ->
    projects (database w0) !! q_project_id q = Some r ->
    project_id t = q_project_id q /\
    if bool_decide (root t = root (pr_project r))
    then root_fingerprint t = root_fingerprint (pr_project r)
    else scope_fingerprint (root t) = Some (root_fingerprint t);
}.

(** What the digests must distinguish: an old and a new content of one file. *)
Record digests_distinguish : Prop := {
  dd_files : forall sections m path raw raw', parse (q_patch q) = Ok sections ->
    patch_spec linesep sections (files w0) = Some m ->
    m !! path = Some raw -> files w0 !! path = Some raw' -> _sha raw = _sha raw' -> raw = raw';
  dd_text : forall raw, _sha raw <> [];
}.

Context (Hfirst : first_attempt) (Hsha : digests_distinguish).

(** The plan [apply] commits, should it get there. *)
Record planned_commit (sections : list PatchSection) (digest : str) (target : Project) (registered : Project)
    (p : _Preflight) : Prop := {
  pc_sections : parse (q_patch q) = Ok sections;
  pc_spec : patch_spec linesep sections (files w0) = Some (patched (files w0) p);
  pc_plan : plan_ok _sha scope_fingerprint (files w0) target p (projects (database w0)) registered;
  pc_project : q_project_id q = project_id target;
}.

Definition the_result (p : _Preflight) : json :=
  result_json (q_project_id q) (q_idempotency_key q) false (pf_changes p) (Some uuid).

(** Where [apply] leaves the world: untouched, or in a state of the commit. *)
Inductive left_by (r : res json) (w1 : world) : Prop :=
| untouched e : r = Err e -> same_disk w0 w1 -> left_by r w1
| not_done sections digest target registered p e : planned_commit sections digest target registered p ->
    r = Err e -> told (files w0) e w1 ->
    undecided _sha uuid (files w0) target p (q_idempotency_key q) digest (the_result p) (q_binding q)
      (projects (database w0)) registered w1 -> left_by r w1
| all_done sections digest target registered p : planned_commit sections digest target registered p ->
    at_patched _sha uuid (files w0) target p (q_idempotency_key q) digest (the_result p) (q_binding q)
      (projects (database w0)) registered w1 ->
    (forall j, r = Ok j -> j = the_result p) -> left_by r w1.

Lemma journaled_result fault digest target p w j w1 :
  apply_journaled _sha fault q digest target p uuid w = (Ok j, w1) -> j = the_result p.
Proof.
  unfold apply_journaled. cbv zeta. intros (? & ? & _ & H)%bind_ok. do 3 apply bind_ok in H as (? & ? & _ & H).
  by injection H as <- _.
Qed.

Lemma journaled_left fault digest target registered sections p w :
  planned_commit sections digest target registered p -> same_disk w0 w ->
  let '(r, w1) := apply_journaled _sha fault q digest target p uuid w in left_by r w1.
Proof using Hfirst.
  intros Hpc (H1 & H2 & H3 & _). pose proof (pc_plan _ _ _ _ _ Hpc) as Hplan.
  assert (ready (files w0) target (q_idempotency_key q) (projects (database w0)) w) as Hr.
  { split; unfold row, row_key; rewrite ?H1, ?H2, ?H3; try done; [apply Hfirst|].
    rewrite <-(pc_project _ _ _ _ _ Hpc). apply Hfirst. }
  pose proof (triple_apply_journaled _sha scope_fingerprint uuid (files w0) target p (q_idempotency_key q)
    digest (the_result p) (q_binding q) (projects (database w0)) registered fault Hplan q
    (pc_project _ _ _ _ _ Hpc) eq_refl eq_refl eq_refl w (ready_fresh _ _ _ _ _ _ _ _ _ _ _ w Hr)) as Ht.
  destruct (apply_journaled _ _ _ _ _ _ _ w) as [[j|e] w1] eqn:E.
  - apply journaled_result in E as ->. eapply all_done; [exact Hpc|apply Ht|by intros j [= <-]].
  - destruct Ht as [[Hu He]|Hp]; [by eapply not_done|by eapply all_done].
Qed.

Lemma peel {A} (m : W A) (k : A -> W json) w : quiet m -> same_disk w0 w ->
  (forall a w', m w = (Ok a, w') -> same_disk w0 w' -> let '(r, w1) := k a w' in left_by r w1) ->
  let '(r, w1) := bind m k w in left_by r w1.
Proof using.
  intros Hm Hw Hk.
  assert (disk_only (same_disk w0)) as Hd by (intros w1 w2 H12 H01; by apply (same_disk_trans w0 w1)).
  pose proof (Hm _ Hd w Hw) as Ht. unfold bind.
  destruct (m w) as [[a|e] w'] eqn:E; [by apply Hk|by apply (untouched _ _ e)].
Qed.

Lemma peel_raise e w : same_disk w0 w -> let '(r, w1) := raise e w in left_by r w1.
Proof using. intros Hw. by apply (untouched _ _ e). Qed.

Lemma quiet_run_db fault {A} (m : DB A) : (forall d, (m d).2 = d) -> quiet (run_db fault m).
Proof using.
  intros Hm P HP. apply triple_run_db; [|intros w e Hw _; by apply (HP w)]. intros w Hw.
  specialize (Hm (database w)). destruct (m (database w)) as [[a|e] d]; cbn in Hm; subst d; by apply (HP w).
Qed.

Lemma quiet_get_project fault id : quiet (run_db fault (get_project id)).
Proof using. apply quiet_run_db. intros d. unfold get_project, bind, gets. by destruct (projects d !! id). Qed.

Lemma quiet_get_idempotency fault pid c k b : quiet (run_db fault (get_idempotency pid c k b)).
Proof using.
  apply quiet_run_db. intros d. unfold get_idempotency, bind, gets.
  destruct (idempotency d !! _); [|done]. by destruct (negb _).
Qed.

Lemma get_project_ok fault id w p w' : run_db fault (get_project id) w = (Ok p, w') ->
  pr_project <$> projects (database w) !! id = Some p.
Proof using.
  unfold run_db, get_project, bind, gets. destruct (fault (clock w)); [done|].
  destruct (projects (database w) !! id); [|done]. by intros [= <- _].
Qed.

Lemma get_idempotency_ok fault w x w' : the_row w = None ->
  run_db fault (get_idempotency (q_project_id q) CAPABILITY (q_idempotency_key q) (q_binding q)) w = (Ok x, w') ->
  x = None.
Proof using.
  unfold the_row, run_db, get_idempotency, bind, gets. intros Hr. destruct (fault (clock w)); [done|].
  rewrite Hr. by intros [= <- _].
Qed.

(** The target [apply] settles on belongs to the project and can be recovered. *)
Definition target_ok (target registered : Project) : Prop :=
  q_project_id q = project_id target /\
  if bool_decide (root target = root registered)
  then root_fingerprint target = root_fingerprint registered
  else scope_fingerprint (root target) = Some (root_fingerprint target).

Lemma target_resolved row0 w target w' :
  projects (database w0) !! q_project_id q = Some row0 ->
  match q_scope_path q with
  | None => ret (pr_project row0)
  | Some scope => match target_project with
      | Some t => if bool_decide (root t = scope) then ret t else agent_raise "invalid_request"
      | None => agent_raise "invalid_request"
      end
  end w = (Ok target, w') -> target_ok target (pr_project row0).
Proof using Hfirst.
  intros Hrow Ht. destruct (q_scope_path q) as [scope|] eqn:Hs.
  - destruct target_project as [t|] eqn:Htp; [|done]. case_bool_decide; [|done]. injection Ht as <- _.
    destruct (fa_target Hfirst scope t row0 Hs Htp Hrow) as [Hp Hf]. by split.
  - injection Ht as <- _. split; [|by rewrite bool_decide_refl]. symmetry. by apply (fa_keys Hfirst).
Qed.

(** What passes preflight is a plan. *)
Lemma preflight_plan fault sections normalized digest target row0 w p w' :
  files w = files w0 -> projects (database w0) !! q_project_id q = Some row0 ->
  enabled (pr_project row0) = true -> target_ok target (pr_project row0) ->
  parse (q_patch q) = Ok sections -> _preflight _sha linesep fault sections normalized w = (Ok p, w') ->
  planned_commit sections digest target (pr_project row0) p /\
  exists touched, planned_by _sha linesep (files w0) sections touched p.
Proof using Hsha.
  intros Hw Hrow Hen [Hpid Hroot] Hparse Hp.
  destruct (preflight_planned _sha linesep fault (files w0) sections normalized w p w' Hw Hp) as [touched Hb].
  split; [|by exists touched]. split; [done|apply Hb| |done].
  apply (planned_by_plan_ok _ linesep _ scope_fingerprint target _ _ sections touched); [done| |apply Hsha| |done].
  - intros m path raw raw' Hm. by apply (dd_files Hsha sections).
  - by rewrite <-Hpid, Hrow.
Qed.

Lemma apply_left fault reconcile : q_dry_run q = false ->
  let '(r, w1) := apply _sha linesep scope_fingerprint fault q reconcile target_project uuid w0 in left_by r w1.
Proof using Hfirst Hsha.
  intros Hdry. unfold apply. apply peel; [auto|done|]. intros [] w1 _ Hw1.
  destruct (negb _); [by apply peel_raise|]. apply peel; [auto|done|]. intros normalized w2 _ Hw2. cbv zeta.
  apply peel; [apply quiet_get_project|done|]. intros registered w3 Hreg%get_project_ok Hw3.
  destruct (enabled registered) eqn:Hen; [cbn [negb]|by apply peel_raise].
  replace (database w2) with (database w0) in Hreg by (by destruct Hw2 as (_ & _ & -> & _)).
  destruct (projects (database w0) !! q_project_id q) as [row0|] eqn:Hrow; [|done]. injection Hreg as <-.
  apply peel; [|done|].
  { destruct (q_scope_path q), target_project; quiet_steps; apply quiet_raise. }
  intros target w4 Ht%target_resolved Hw4; [|done]. apply peel; [apply quiet_get_idempotency|done|].
  intros prior w5 ->%get_idempotency_ok Hw5.
  2:{ unfold the_row. destruct Hw4 as (_ & _ & -> & _). apply Hfirst. }
  apply peel; [auto|done|]. intros earlier w6 Hnone Hw6. injection Hnone as <- <-.
  apply peel; [auto|done|]. intros sections w7 [Hparse ->]%lift_ok Hw7.
  apply peel; [auto|done|]. intros [] w8 _ Hw8. apply peel; [auto|done|]. intros [] w9 _ Hw9.
  apply peel; [apply quiet_preflight_sections|done|]. intros p w10 Hp Hw10.
  apply peel; [auto|done|]. intros [] w11 _ Hw11. rewrite Hdry.
  destruct (preflight_plan fault sections normalized (_request_digest _sha (q_patch q) normalized false (q_scope_path q))
    target row0 w9 p w10) as [Hpc _]; try done; [apply Hw9|].
  by apply (journaled_left fault _ target (pr_project row0) sections).
Qed.

(** *** After the restarts *)

(** The attempt answered [r] and left [w1]; the last recovery answered [r2] and
    left [w2]. *)
Inductive outcome (r : res json) (w1 : world) (r2 : res (list str)) (w2 : world) : Prop :=
| all_new sections m x : parse (q_patch q) = Ok sections -> patch_spec linesep sections (files w0) = Some m ->
    files w1 = m -> files w2 = m ->
    the_row w2 = Some x -> id_state x = SUCCEEDED -> (forall j, r = Ok j -> id_result x = Some j) ->
    (exists l, r2 = Ok l) -> outcome r w1 r2 w2
| all_old e : r = Err e -> (caught e = true -> files w1 = files w0 \/ is_recovery_failed e = true) ->
    files w2 = files w0 -> (forall x, the_row w2 = Some x -> id_state x <> SUCCEEDED) ->
    (exists l, r2 = Ok l) \/ r2 = Err (AgentError "recovery_failed" false []) -> outcome r w1 r2 w2.

Lemma restarts_idle faults w : journal w = ∅ -> restarts _sha scope_fingerprint faults w = w.
Proof using.
  intros Hw. unfold restarts. induction faults as [|f faults IH]; [done|]. cbn [fold_left].
  unfold recover, bind, gets. by rewrite Hw, map_to_list_empty.
Qed.

Lemma left_outcome r w1 faults : left_by r w1 ->
  let '(r2, w2) := recover _sha scope_fingerprint never (restarts _sha scope_fingerprint faults w1) in
  outcome r w1 r2 w2.
Proof using Hfirst.
  intros [e -> (Hf & Hj & Hd & _)|sections digest target registered p e Hpc -> Ht Hu|
          sections digest target registered p Hpc Hp Hr].
  - rewrite restarts_idle by by rewrite Hj; apply Hfirst. unfold recover, bind, gets.
    rewrite Hj, (fa_journal Hfirst), map_to_list_empty.
    apply (all_old _ _ _ _ e); [done|by left|done| |left; by eexists].
    intros x. unfold the_row. rewrite Hd. intros Hx. pose proof (fa_row Hfirst) as Hn. unfold the_row in Hn. congruence.
  - pose proof (pc_plan _ _ _ _ _ Hpc) as Hplan.
    pose proof (triple_recover_original _ _ _ _ _ _ _ _ _ _ _ _ never Hplan _
      (restarts_undecided _ _ _ _ _ _ _ _ _ _ _ _ faults w1 Hplan Hu)) as H2.
    destruct (recover _ _ never _) as [[l|e2] w2]; [|destruct H2 as [_ [H2 ->]]; [done|]];
      (apply (all_old _ _ _ _ e); [done|exact Ht|apply H2| |eauto]);
      unfold the_row; rewrite (pc_project _ _ _ _ _ Hpc); exact (ao_row _ _ _ _ _ _ _ _ _ _ _ _ H2).
  - pose proof (pc_plan _ _ _ _ _ Hpc) as Hplan.
    pose proof (triple_recover_patched _ _ _ _ _ _ _ _ _ _ _ _ never Hplan _
      (restarts_patched _ _ _ _ _ _ _ _ _ _ _ _ faults w1 Hplan Hp)) as H2.
    destruct (recover _ _ never _) as [[l|e2] w2]; [|by destruct H2 as [_ []]].
    destruct H2 as [H2 (x & Hx & Hs & Hres)].
    apply (all_new _ _ _ _ sections (patched (files w0) p) x); try apply Hpc; [apply Hp|apply H2| |done| |by exists l].
    + unfold the_row. by rewrite (pc_project _ _ _ _ _ Hpc).
    + intros j Hj. by rewrite (Hr j Hj), Hres.
Qed.

(** C1. Whatever fails during a patch and however often the process dies and
    recovers, one recovery without faults leaves the files either all as
    [patch_spec] has them, with the success and its result on record, or all as
    they were, with no success on record; an attempt that answered has patched
    the files, and an attempt that raised an ordinary error other than
    [recovery_failed] has them unchanged or completely patched. *)
Theorem apply_is_atomic fault reconcile faults : q_dry_run q = false ->
  let '(r, w1) := apply _sha linesep scope_fingerprint fault q reconcile target_project uuid w0 in
  let '(r2, w2) := recover _sha scope_fingerprint never (restarts _sha scope_fingerprint faults w1) in
  outcome r w1 r2 w2.
Proof using Hfirst Hsha.
  intros Hdry. pose proof (apply_left fault reconcile Hdry) as Ht.
  destruct (apply _ _ _ _ _ _ _ _ _) as [r w1]. by apply left_outcome.
Qed.

(** *** Dry runs *)

Definition dry : patch_request :=
  {| q_project_id := q_project_id q; q_patch := q_patch q; q_base_hashes := q_base_hashes q;
     q_idempotency_key := q_idempotency_key q; q_dry_run := true; q_binding := q_binding q;
     q_scope_path := q_scope_path q |}.

Lemma runs_after {A} (m : W A) (k : A -> W json) w a w' Q :
  m w = (Ok a, w') -> runs (k a) w' Q -> runs (bind m k) w Q.
Proof using. intros Hm Hk. apply (runs_bind _ _ _ (fun a' w1 => a' = a /\ w1 = w')); [by exists a, w'|]. by intros ? ? [-> ->]. Qed.

(** The result of the real attempt, and what it leaves. *)
Definition real_result (j : json) (r : json) (w : world) : Prop :=
  exists sections m changes x, parse (q_patch q) = Ok sections /\ patch_spec linesep sections (files w0) = Some m /\
    files w = m /\ j = result_json (q_project_id q) (q_idempotency_key q) true changes None /\
    r = result_json (q_project_id q) (q_idempotency_key q) false changes (Some uuid) /\
    the_row w = Some x /\ id_state x = SUCCEEDED /\ id_result x = Some r.

Lemma journaled_runs digest target registered sections touched p w :
  planned_commit sections digest target registered p -> planned_by _sha linesep (files w0) sections touched p ->
  same_disk w0 w ->
  runs (apply_journaled _sha never q digest target p uuid) w
    (real_result (result_json (q_project_id q) (q_idempotency_key q) true (pf_changes p) None)).
Proof using Hfirst.
  intros Hpc Hpb (H1 & H2 & H3 & _). pose proof (pc_plan _ _ _ _ _ Hpc) as Hplan.
  assert (ready (files w0) target (q_idempotency_key q) (projects (database w0)) w) as Hr.
  { split; unfold row, row_key; rewrite ?H1, ?H2, ?H3; try done; [apply Hfirst|].
    rewrite <-(pc_project _ _ _ _ _ Hpc). apply Hfirst. }
  destruct (runs_apply_journaled _sha scope_fingerprint uuid (files w0) target p (q_idempotency_key q)
    digest (the_result p) (q_binding q) (projects (database w0)) registered Hplan
    (pb_changes _ _ _ _ _ _ Hpb) (pb_deletes _ _ _ _ _ _ Hpb) q w (pc_project _ _ _ _ _ Hpc) eq_refl eq_refl eq_refl)
    as (r & w' & Hrun & -> & Hp & (x & Hx & Hs & Hres)).
  { eapply ready_fresh. exact Hr. }
  exists (the_result p), w'. split; [done|]. exists sections, (patched (files w0) p), (pf_changes p), x.
  split_and!; try done; [apply Hpc|apply Hpc|apply Hp|].
  unfold the_row. by rewrite (pc_project _ _ _ _ _ Hpc).
Qed.

Lemma dry_run_quiet fault tp id : quiet (apply _sha linesep scope_fingerprint fault dry false tp id).
Proof using.
  unfold apply. cbv zeta. cbn [dry q_project_id q_patch q_base_hashes q_idempotency_key q_dry_run q_binding q_scope_path].
  repeat match goal with
  | |- quiet (bind (run_db _ (get_project _)) _) => apply quiet_bind; [apply quiet_get_project|intros ?]
  | |- quiet (bind (run_db _ (get_idempotency _ _ _ _)) _) => apply quiet_bind; [apply quiet_get_idempotency|intros ?]
  | |- quiet (bind (_preflight _ _ _ _ _) _) => apply quiet_bind; [apply quiet_preflight_sections|intros ?]
  | |- quiet (bind _ _) => apply quiet_bind; [|intros ?]
  | |- quiet (agent_raise _) => apply quiet_raise
  | |- quiet (match ?x with _ => _ end) => destruct x
  | |- quiet _ => solve [auto]
  end.
Qed.

Lemma quiet_after {A} (m : W A) w a w' : quiet m -> m w = (Ok a, w') -> same_disk w0 w -> same_disk w0 w'.
Proof using.
  intros Hm E Hw. assert (disk_only (same_disk w0)) as Hd by (intros w1 w2 H12 H01; by apply (same_disk_trans w0 w1)).
  pose proof (Hm _ Hd w Hw) as Ht. by rewrite E in Ht.
Qed.

(** Both attempts in step. *)
Ltac in_step H a w E :=
  let E' := fresh in apply bind_ok in H as (a & w & E' & H);
  eapply runs_after; [exact E'|]; rename E' into E.

Lemma dry_run_run j w1 : q_dry_run q = false ->
  apply _sha linesep scope_fingerprint never dry false target_project uuid w0 = (Ok j, w1) ->
  runs (apply _sha linesep scope_fingerprint never q false target_project uuid) w0 (real_result j).
Proof using Hfirst Hsha.
  intros Hdry H. unfold apply in *. cbv zeta in *.
  cbn [dry q_project_id q_patch q_base_hashes q_idempotency_key q_dry_run q_binding q_scope_path] in H.
  in_step H u1 x1 E1. apply quiet_after in E1; [|auto|done]. destruct (negb _); [done|].
  in_step H normalized x2 E2. apply quiet_after in E2; [|auto|done].
  in_step H registered x3 E3. pose proof (get_project_ok _ _ _ _ _ E3) as Hreg.
  apply quiet_after in E3; [|apply quiet_get_project|done].
  replace (database x2) with (database w0) in Hreg by (by destruct E2 as (_ & _ & -> & _)).
  destruct (projects (database w0) !! q_project_id q) as [row0|] eqn:Hrow; [|done]. injection Hreg as <-.
  destruct (enabled (pr_project row0)) eqn:Hen; [cbn [negb] in *|done].
  in_step H target x4 E4. pose proof (target_resolved _ _ _ _ Hrow E4) as Ht.
  apply quiet_after in E4; [|destruct (q_scope_path q), target_project; quiet_steps; apply quiet_raise|done].
  in_step H prior x5 E5. pose proof E5 as ->%get_idempotency_ok.
  2:{ unfold the_row. destruct E4 as (_ & _ & -> & _). apply Hfirst. }
  apply quiet_after in E5; [|apply quiet_get_idempotency|done].
  in_step H earlier x6 E6. injection E6 as <- <-.
  in_step H sections x7 E7. pose proof (lift_ok _ _ _ _ E7) as [Hparse ->].
  in_step H u8 x8 E8. apply quiet_after in E8; [|auto|done].
  in_step H u9 x9 E9. apply quiet_after in E9; [|auto|done].
  in_step H p x10 E10. destruct (preflight_plan never sections normalized
    (_request_digest _sha (q_patch q) normalized false (q_scope_path q)) target row0 x9 p x10) as [Hpc [touched Hb]]; try done.
  { apply E9. }
  apply quiet_after in E10; [|apply quiet_preflight_sections|done].
  in_step H u11 x11 E11. apply quiet_after in E11; [|auto|done].
  injection H as <- _. rewrite Hdry. by apply (journaled_runs _ target (pr_project row0) sections touched).
Qed.

End apply.

(** ** Samples *)

Definition sample_old : bytes := [98; 10]%Z.
Definition sample_sha (raw : bytes) : str :=
  if bool_decide (raw = sample_old)
  then lit "aaaaaaaaaaaaaaaaaaaaaaaaaaaaaaaaaaaaaaaaaaaaaaaaaaaaaaaaaaaaaaaa" else 120 :: map Z.to_N raw.

Definition sample_sections : list PatchSection := [
  {| action := Update; path := lit "b"; destination := None; add_lines := [];
     hunks := [[(Minus, lit "b"); (Plus, lit "c")]] |};
  {| action := Add; path := lit "a"; destination := None; add_lines := [lit "new"]; hunks := [] |}].
Definition sample_document : str := render sample_sections.

Definition sample_target : Project :=
  {| project_id := lit "p1"; title := lit "P"; root := lit "/srv/p"; root_fingerprint := lit "f1";
     mode := ISOLATED; enabled := true |}.

Definition sample_request : patch_request :=
  {| q_project_id := lit "p1"; q_patch := sample_document;
     q_base_hashes := [(lit "b", Some (sample_sha sample_old)); (lit "a", None)];
     q_idempotency_key := lit "key-0001"; q_dry_run := false;
     q_binding := {| b_account_id := lit "acc"; b_grant_id := lit "g"; b_link_id := lit "l"; b_device_id := lit "d" |};
     q_scope_path := None |}.

Definition sample_world : world :=
  {| files := {[ lit "b" := sample_old ]}; temporaries := ∅; journal := ∅;
     database := on_projects <[lit "p1" := {| pr_project := sample_target; pr_created_at := 0; pr_updated_at := 0 |}]> empty_db;
     mutated := false; records := []; clock := 0 |}.

(** The process dies at one step, [n]. *)
Definition dies_at (n : nat) : nat -> option exn := fun k => if (k =? n)%nat then Some Crash else None.

Lemma sample_first : first_attempt (fun _ => None) sample_request None sample_world.
Proof.
  split; [reflexivity|vm_compute; reflexivity| |by intros scope t r].
  intros id r. cbn [sample_world database on_projects projects empty_db].
  destruct (decide (lit "p1" = id)) as [<-|Hne]; [rewrite lookup_insert_eq; by intros [= <-]|].
  by rewrite lookup_insert_ne, lookup_empty by done.
Qed.

Definition sample_apply (fault : nat -> option exn) (q : patch_request) : res json * world :=
  apply sample_sha [10] (fun _ => None) fault q false None (lit "j1") sample_world.
Definition sample_recover (w : world) : res (list str) * world := recover sample_sha (fun _ => None) never w.


Lemma sample_digests : digests_distinguish sample_sha [10] sample_request sample_world.
Proof.
  split.
  - intros sections m path raw raw' Hp Hm Hraw Hraw' Heq.
    assert (path = lit "b" /\ raw' = sample_old) as [-> ->].
    { cbn [sample_world files] in Hraw'. by apply lookup_singleton_Some in Hraw' as [<- <-]. }
    assert (m !! lit "b" = Some [99; 10]%Z) as Hb.
    { assert (parse (q_patch sample_request) = Ok sample_sections) as Hs by (vm_compute; reflexivity).
      rewrite Hs in Hp. injection Hp as <-.
      assert ((fun m : gmap str bytes => m !! lit "b") <$> patch_spec [10] sample_sections (files sample_world) =
        Some (Some [99; 10]%Z)) as Hl by (vm_compute; reflexivity).
      rewrite Hm in Hl. by injection Hl. }
    pose proof (eq_trans (eq_sym Hb) Hraw) as [= <-]. clear -Heq. by vm_compute in Heq.
  - intros raw. unfold sample_sha. by case_bool_decide.
Qed.

(** The process dies between the two writes of the patch, and again during the
    first recovery. *)
Lemma apply_is_atomic_witness :
  let '(r, w1) := sample_apply (dies_at 41) sample_request in
  let '(r2, w2) := sample_recover (restarts sample_sha (fun _ => None) [dies_at 46] w1) in
  files w1 !! lit "b" = Some [99; 10]%Z /\ files w1 !! lit "a" = None /\
  outcome [10] sample_request sample_world r w1 r2 w2 /\
  r2 = Ok [lit "j1"] /\ files w2 !! lit "b" = Some sample_old.
Proof.
  pose proof (apply_is_atomic sample_sha [10] (fun _ => None) sample_request None (lit "j1") sample_world
    sample_first sample_digests (dies_at 41) false [dies_at 46] eq_refl) as H.
  unfold sample_apply, sample_recover. revert H.
  destruct (apply _ _ _ _ _ _ _ _ _) as [r w1] eqn:E1.
  destruct (recover _ _ _ _) as [r2 w2] eqn:E2. intros H.
  assert (files w1 !! lit "b" = Some [99; 10]%Z /\ files w1 !! lit "a" = None) as [Hb Ha].
  { replace w1 with (sample_apply (dies_at 41) sample_request).2 by (unfold sample_apply; by rewrite E1).
    split; vm_compute; reflexivity. }
  assert (r2 = Ok [lit "j1"] /\ files w2 !! lit "b" = Some sample_old) as [Hr Hf].
  { replace w1 with (sample_apply (dies_at 41) sample_request).2 in E2 by (unfold sample_apply; by rewrite E1).
    assert ((r2, w2) = sample_recover (restarts sample_sha (fun _ => None) [dies_at 46]
      (sample_apply (dies_at 41) sample_request).2)) as E by (unfold sample_recover; by rewrite E2).
    split; [apply (f_equal fst) in E; etrans; [exact E|]|apply (f_equal snd) in E; cbn [snd] in E; rewrite E];
      vm_compute; reflexivity. }
  split_and!; assumption.
Defined.


(** The second manifest cannot be written before any file is touched, and the
    removal that follows takes the backups but not the locked manifest: every
    later recovery fails, although the files are the original ones. *)
Definition locked_manifest : nat -> option exn :=
  fun k => if (k =? 31)%nat || (k =? 33)%nat then Some (OSError "PermissionError") else None.

Lemma leftover_manifest_blocks_recovery :
  let w1 := (sample_apply locked_manifest sample_request).2 in
  let '(r, w2) := sample_recover w1 in
  map_to_list (files w1) = map_to_list (files sample_world) /\ the_row sample_request w1 = None /\
  r = Err (AgentError "recovery_failed" false []) /\
  (sample_recover w2).1 = Err (AgentError "recovery_failed" false []).
Proof. vm_compute. split_and!; reflexivity. Qed.
