(* ===== verification/DevicePaths.v ===== *)
(** * Pinned Windows directories: device_paths.py

    [WindowsReadScope] keeps a directory and its ancestors open without delete
    sharing while a consented read runs.  Windows is asked through [Windows]: an
    answer may depend on everything that happened before, so that renames,
    replaced files and failing calls are all covered, and other tasks of the
    agent change [rest] between any two calls.  The log of the calls, newest
    first, is part of the state: the theorems are about it. *)
From S2P Require Import Prelude PyStr Models Paths.

Open Scope Z_scope.

Definition ERROR_FILE_NOT_FOUND : Z := 2.
Definition ERROR_PATH_NOT_FOUND : Z := 3.
(** [0x400 | 0x1000 | 0x40000 | 0x400000] and [0x10] *)
Definition _BLOCKED_ATTRIBUTES : Z := Z.lor 1024 (Z.lor 4096 (Z.lor 262144 4194304)).
Definition FILE_ATTRIBUTE_DIRECTORY : Z := 16.
Definition MAX_SCOPE_READ : Z := 16 * 1024 * 1024.

Record _FileInfo := {
  attributes : Z; volume : Z; size_high : Z; size_low : Z; links : Z; index_high : Z; index_low : Z;
}.

Definition info_identity (i : _FileInfo) : str :=
  hex 1 (volume i) ++ [COLON] ++ hex 1 (index_high i) ++ [COLON] ++ hex 1 (index_low i).
Definition info_size (i : _FileInfo) : Z := Z.lor (Z.shiftl (size_high i) 32) (size_low i).
Definition blocked (attrs : Z) : bool := negb (Z.land attrs _BLOCKED_ATTRIBUTES =? 0).
Definition is_directory (attrs : Z) : bool := negb (Z.land attrs FILE_ATTRIBUTE_DIRECTORY =? 0).

(** A Windows path as its [parts], the anchor first, and [str(path)]. *)
Definition wpath := list str.
Definition path_str (p : wpath) : str :=
  match p with [] => [] | anchor :: rest => anchor ++ join [BACKSLASH] rest end.
(** [Path(scope_path)] of a normalised scope. *)
Definition scope_parts (scope : str) : wpath := (take 2 scope ++ [BACKSLASH]) :: posix_parts (drop 3 scope).

(** What [scandir] and [stat(follow_symlinks=False)] of an entry say. *)
Record stat_info := { st_attributes : Z; st_is_dir : bool; st_is_file : bool; st_nlink : Z; st_size : Z }.
Record dir_entry := { d_name : str; d_stat : option stat_info }.

(** The calls of Windows with their answers, the checks of the caller, and the
    marks of the operation handler: the local consent was given, a patch is
    handed to the patch service, a coroutine was suspended. *)
Inductive event (X : Type) :=
| EvDriveType (drive : str) (answer : Z)
| EvVolume (drive : str) (answer : option str)
| EvCreate (path : wpath) (directory : bool) (answer : Z + Z)
| EvInfo (handle : Z) (answer : option _FileInfo)
| EvType (handle : Z) (answer : Z)
| EvRead (handle : Z) (answer : option bytes)
| EvClose (handle : Z)
| EvScan (path : wpath) (answer : bool)
| EvNext (path : wpath) (answer : option (option dir_entry))
| EvCheck (state : X) (passed : bool)
| EvConsent (state : X)
| EvApply (state : X)
| EvAwait.
Arguments EvDriveType {X}. Arguments EvVolume {X}. Arguments EvCreate {X}. Arguments EvInfo {X}.
Arguments EvType {X}. Arguments EvRead {X}. Arguments EvClose {X}. Arguments EvScan {X}.
Arguments EvNext {X}. Arguments EvCheck {X}. Arguments EvConsent {X}. Arguments EvApply {X}. Arguments EvAwait {X}.

(** What an open handle stands for, as the log tells. *)
Record object := {
  o_path : wpath; o_directory : bool; o_info : option _FileInfo; o_type : option Z;
}.

Fixpoint object_of {X} (l : list (event X)) (h : Z) : option object :=
  match l with
  | [] => None
  | e :: r =>
      match e with
      | EvCreate p d (inl h') =>
          if h =? h' then Some {| o_path := p; o_directory := d; o_info := None; o_type := None |} else object_of r h
      | EvInfo h' a =>
          if h =? h' then (fun o => {| o_path := o_path o; o_directory := o_directory o; o_info := a; o_type := o_type o |})
                          <$> object_of r h else object_of r h
      | EvType h' a =>
          if h =? h' then (fun o => {| o_path := o_path o; o_directory := o_directory o; o_info := o_info o; o_type := Some a |})
                          <$> object_of r h else object_of r h
      | EvClose h' => if h =? h' then None else object_of r h
      | _ => object_of r h
      end
  end.

(** Windows, [str.lower] and the other tasks of the agent.  [create_fresh]: a
    handle is not given out again while it is open. *)
Class Windows (X : Type) := {
  lower : str -> str;
  GetDriveType : list (event X) -> str -> Z;
  GetVolumeInformation : list (event X) -> str -> option str;
  CreateFile : list (event X) -> wpath -> bool -> Z + Z;
  GetFileInformation : list (event X) -> Z -> option _FileInfo;
  GetFileTypeOf : list (event X) -> Z -> Z;
  ReadFile : list (event X) -> Z -> option bytes;
  scandir_opens : list (event X) -> wpath -> bool;
  scandir_next : list (event X) -> wpath -> option (option dir_entry);
  interfere : list (event X) -> X -> X;
  create_fresh : forall l p d h, CreateFile l p d = inl h -> object_of l h = None;
}.

Record pinned (X : Type) := {
  sc_root : wpath;
  _handles : list Z;
  _directories : gmap str (Z * _FileInfo);
  sc_identity : str;
  log : list (event X);
  rest : X;
}.
Arguments sc_root {X}. Arguments _handles {X}. Arguments _directories {X}. Arguments sc_identity {X}.
Arguments log {X}. Arguments rest {X}.

Section scope.
  Context {X : Type} {windows : Windows X}.
Notation K := (ST (pinned X)).
Notation events := (list (event X)).

Definition set_handles (f : list Z -> list Z) (s : pinned X) : pinned X :=
  {| sc_root := sc_root s; _handles := f (_handles s); _directories := _directories s;
     sc_identity := sc_identity s; log := log s; rest := rest s |}.
Definition set_directories (f : gmap str (Z * _FileInfo) -> gmap str (Z * _FileInfo)) (s : pinned X) : pinned X :=
  {| sc_root := sc_root s; _handles := _handles s; _directories := f (_directories s);
     sc_identity := sc_identity s; log := log s; rest := rest s |}.
Definition set_identity (i : str) (s : pinned X) : pinned X :=
  {| sc_root := sc_root s; _handles := _handles s; _directories := _directories s;
     sc_identity := i; log := log s; rest := rest s |}.
Definition set_rest (f : X -> X) (s : pinned X) : pinned X :=
  {| sc_root := sc_root s; _handles := _handles s; _directories := _directories s;
     sc_identity := sc_identity s; log := log s; rest := f (rest s) |}.

(** An event is logged; the others go on. *)
Definition emit (e : event X) : K unit := modify (fun s =>
  {| sc_root := sc_root s; _handles := _handles s; _directories := _directories s;
     sc_identity := sc_identity s; log := e :: log s; rest := interfere (e :: log s) (rest s) |}).

Definition ask {A} (answer : events -> A) (e : A -> event X) : K A :=
  a <- gets (fun s => answer (log s)) ;; emit (e a) ;;; ret a.

Definition fail {A} (code : string) : K A := raise (AgentError code false []).

(** [while True] around a body that goes on ([inl]) or stops; it is run at most
    [2 ^ turns] times. *)
Fixpoint turns {A B} (n : nat) (body : A -> K (A + B)) (a : A) : K (A + B) :=
  match n with
  | O => body a
  | S n => x <- turns n body a ;; match x with inl a => turns n body a | inr b => ret (inr b) end
  end.
Definition UNFINISHED : exn := ValueError "unfinished loop".
Definition loop {A B} (n : nat) (body : A -> K (A + B)) (a : A) : K B :=
  x <- turns n body a ;; match x with inr b => ret b | inl _ => raise UNFINISHED end.

(** A check of the caller: what it reads is the state of the agent now. *)
Definition run_check (check : events -> X -> res unit) : K unit := fun s =>
  let r := check (log s) (rest s) in
  (r, (emit (EvCheck (rest s) (is_ok r)) s).2).

(** ** Opening *)

Definition path_key (p : wpath) : str := lower (path_str p).

Definition _open (path : wpath) (directory : bool) : K (Z * _FileInfo) :=
  known <- gets _directories ;;
  match (if directory then known !! path_key path else None) with
  | Some found => ret found
  | None =>
      answer <- ask (fun l => CreateFile l path directory) (EvCreate path directory) ;;
      match answer with
      | inr error =>
          if bool_decide (error ∈ [ERROR_FILE_NOT_FOUND; ERROR_PATH_NOT_FOUND]) then fail "path_not_found"
          else fail "read_failed"
      | inl handle =>
          modify (set_handles (fun l => l ++ [handle])) ;;;
          info <- ask (fun l => GetFileInformation l handle) (EvInfo handle) ;;
          match info with
          | None => fail "read_failed"
          | Some info =>
              type <- ask (fun l => GetFileTypeOf l handle) (EvType handle) ;;
              if negb (type =? 1) then fail "unsafe_path"
              else if blocked (attributes info) then fail "unsafe_path"
              else if negb (Bool.eqb (is_directory (attributes info)) directory) then fail "invalid_path"
              else if negb directory && negb (links info =? 1) then fail "unsafe_path"
              else when directory (modify (set_directories (fun d => <[path_key path := (handle, info)]> d))) ;;;
                   ret (handle, info)
          end
      end
  end.

Definition CloseHandle (h : Z) : K unit := emit (EvClose h).

Definition close : K unit :=
  handles <- gets _handles ;;
  for_each (rev handles) CloseHandle ;;;
  modify (set_handles (fun _ => [])) ;;;
  modify (set_directories (fun _ => ∅)).

Definition release_for_mutation : K unit := close.

(** [self._handles.remove(handle)] and [CloseHandle] *)
Fixpoint remove_first (h : Z) (l : list Z) : list Z :=
  match l with [] => [] | x :: r => if x =? h then r else x :: remove_first h r end.
Definition release (h : Z) : K unit :=
  handles <- gets _handles ;;
  raise_if (negb (bool_decide (h ∈ handles))) (ValueError "list.remove(x): x not in list") ;;;
  modify (set_handles (remove_first h)) ;;;
  CloseHandle h.

(** *** Entering *)

Definition DRIVE_FIXED : Z := 3.
Definition _assert_fixed_drive (root : wpath) : K unit :=
  let drive := head root in
  answer <- ask (fun l => GetDriveType l (default [] drive)) (EvDriveType (default [] drive)) ;;
  raise_if (negb (answer =? DRIVE_FIXED)) (AgentError "invalid_project_root" false []).
Definition _assert_supported_filesystem (root : wpath) : K unit :=
  let drive := head root in
  answer <- ask (fun l => GetVolumeInformation l (default [] drive)) (EvVolume (default [] drive)) ;;
  match answer with
  | None => raise (OSError "GetVolumeInformationW failed")
  | Some name => raise_if (negb (bool_decide (ascii_upper name ∈ [lit "NTFS"; lit "REFS"]))) (AgentError "invalid_project_root" false [])
  end.

Fixpoint open_chain (current : wpath) (components : list str) (info : _FileInfo) : K _FileInfo :=
  match components with
  | [] => ret info
  | component :: r =>
      opened <- _open (current ++ [component]) true ;;
      open_chain (current ++ [component]) r opened.2
  end.

(** [except BaseException: self.close(); raise] *)
Definition closing {A} (m : K A) : K A := fun s =>
  match m s with (Err e, s') => (Err e, (close s').2) | r => r end.

Definition enter : K unit := closing (
  root <- gets sc_root ;;
  _assert_fixed_drive root ;;;
  _assert_supported_filesystem root ;;;
  opened <- _open (take 1 root) true ;;
  info <- open_chain (take 1 root) (drop 1 root) opened.2 ;;
  modify (set_identity (info_identity info))).

(** *** Below the scope *)

Fixpoint open_target (current : wpath) (components : list str) (directory : bool) (last : option (Z * _FileInfo))
    : K (wpath * option (Z * _FileInfo)) :=
  match components with
  | [] => ret (current, last)
  | component :: r =>
      opened <- _open (current ++ [component]) (directory || negb (bool_decide (r = []))) ;;
      open_target (current ++ [component]) r directory (Some opened)
  end.

Definition _target (relative : str) (is_dir : bool) : K (wpath * option (Z * _FileInfo)) :=
  parts <- lift (validate_relative_path relative is_dir) ;;
  root <- gets sc_root ;;
  open_target root (posix_parts parts) is_dir None.

Definition directory (relative : str) : K wpath := t <- _target relative true ;; ret t.1.

Definition file_size (relative : str) : K Z :=
  t <- _target relative false ;;
  match t.2 with
  | None => fail "invalid_path"
  | Some (handle, info) => release handle ;;; ret (info_size info)
  end.

(** *** Reading *)

Definition READ_TURNS : nat := 25.

Definition read_body (handle : Z) (check : events -> X -> res unit) (maximum : Z) (data : bytes) : K (bytes + bytes) :=
  run_check check ;;;
  answer <- ask (fun l => ReadFile l handle) (EvRead handle) ;;
  match answer with
  | None => fail "read_failed"
  | Some [] => ret (inr data)
  | Some chunk =>
      let data := data ++ chunk in
      if maximum <? Z.of_nat (length data) then fail "file_too_large" else ret (inl data)
  end.

Definition _read_handle (handle : Z) (info : _FileInfo) (check : events -> X -> res unit) (maximum : Z) : K bytes :=
  if negb ((0 <=? maximum) && (maximum <=? MAX_SCOPE_READ)) then fail "invalid_request"
  else if maximum <? info_size info then fail "file_too_large"
  else loop READ_TURNS (read_body handle check maximum) [].

Definition read_bytes (relative : str) (check : events -> X -> res unit) (release_file : bool) (max_bytes : Z) : K bytes :=
  t <- _target relative false ;;
  match t.2 with
  | None => fail "invalid_path"
  | Some (handle, info) =>
      try_finally (_read_handle handle info check max_bytes) (when release_file (release handle))
  end.

(** *** [with WindowsReadScope(scope_path) as scope: body] *)

Definition with_scope {A} (body : K A) : K A := enter ;;; try_finally body close.

(** [os.scandir] of a pinned directory. *)
Definition scandir (p : wpath) : K unit :=
  answer <- ask (fun l => scandir_opens l p) (EvScan p) ;;
  raise_if (negb answer) (OSError "scandir").
Definition next_entry (p : wpath) : K (option dir_entry) :=
  answer <- ask (fun l => scandir_next l p) (EvNext p) ;;
  match answer with None => raise (OSError "scandir") | Some e => ret e end.

(** ** Running *)

Lemma ask_run {A B} (answer : events -> A) (e : A -> event X) (k : A -> K B) s :
  bind (ask answer e) k s = k (answer (log s)) (emit (e (answer (log s))) s).2.
Proof. done. Qed.
Lemma gets_run {A B} (f : pinned X -> A) (k : A -> K B) s : bind (gets f) k s = k (f s) s.
Proof. done. Qed.
Lemma lift_run {A B} (a : A) (k : A -> K B) s : bind (lift (Ok a)) k s = k a s.
Proof. done. Qed.
Lemma modify_run {B} f (k : unit -> K B) s : bind (modify f) k s = k tt (f s).
Proof. done. Qed.

(** A body that decreases a variant stops within the turns. *)
Lemma turns_decrease {A B} n (body : A -> K (A + B)) (m : A -> Z) :
  (forall a s a' s', body a s = (Ok (inl a'), s') -> 0 <= m a' < m a) ->
  forall a s a' s', turns n body a s = (Ok (inl a'), s') -> 0 <= m a' /\ m a' + 2 ^ Z.of_nat n <= m a.
Proof.
  intros Hb. induction n as [|n IH]; intros a s a' s'; cbn [turns].
  { intros H%Hb. cbn. lia. }
  unfold bind. destruct (turns n body a s) as [[[a1|b]|e] s1] eqn:E1; [|done|done].
  intros H. apply IH in E1, H. rewrite Nat2Z.inj_succ, Z.pow_succ_r by lia. lia.
Qed.

Lemma turns_stop {A B} n (body : A -> K (A + B)) (m : A -> Z) a s :
  (forall a s a' s', body a s = (Ok (inl a'), s') -> 0 <= m a' < m a) -> m a < 2 ^ Z.of_nat n ->
  forall a', (turns n body a s).1 <> Ok (inl a').
Proof.
  intros Hb Hm a' H. destruct (turns n body a s) as [r s'] eqn:E. cbn in H. subst r.
  apply (turns_decrease n body m Hb) in E. lia.
Qed.

(** Reading a handle stops within the turns, whatever Windows answers. *)
Lemma reading_stops handle check maximum s : maximum <= MAX_SCOPE_READ ->
  forall data, (turns READ_TURNS (read_body handle check maximum) [] s).1 <> Ok (inl data).
Proof.
  intros Hm. apply (turns_stop _ _ (fun data => maximum - Z.of_nat (length data))).
  - intros data s1 data' s2. unfold read_body. unfold bind at 1. destruct (run_check check s1) as [[[]|e] s3]; [|done].
    rewrite ask_run. destruct (ReadFile (log s3) handle) as [[|x chunk]|]; [done| |done].
    destruct (maximum <? _) eqn:E; [done|]. intros [= <- _]. rewrite length_app in *. cbn [length] in *. lia.
  - unfold READ_TURNS, MAX_SCOPE_READ in *. cbn. lia.
Qed.

(** ** What the log tells *)

(** The handle is one of a local file or directory, as it was opened, that is no
    reparse point and no placeholder, and a file has one name only. *)
Definition good_object (o : object) : Prop :=
  o_type o = Some 1 /\ exists i, o_info o = Some i /\ blocked (attributes i) = false /\
    is_directory (attributes i) = o_directory o /\ (o_directory o = false -> links i = 1).

(** A handle of the directory at [p], up to letter case, is open. *)
Definition pinned_at (l : events) (p : wpath) : Prop :=
  exists h o, object_of l h = Some o /\ good_object o /\ o_directory o = true /\ path_key (o_path o) = path_key p.
Definition ancestors_pinned (l : events) (p : wpath) : Prop :=
  forall q, q <> [] -> q `prefix_of` p -> q <> p -> pinned_at l q.

Lemma closed_object hs (l : events) h : object_of (map EvClose hs ++ l) h = if bool_decide (h ∈ hs) then None else object_of l h.
Proof.
  induction hs as [|x hs IH]; cbn [map app object_of]; [done|]. rewrite IH.
  destruct (Z.eqb_spec h x) as [->|Hne]; [by rewrite bool_decide_eq_true_2 by apply list_elem_of_here|].
  case_bool_decide as H1; case_bool_decide as H2; rewrite elem_of_cons in *; naive_solver.
Qed.

Section safe.
  Context (check : events -> X -> res unit) (root : wpath).

(** The handle is read after a check that passed just now; its file was opened
    below the root, and it and every directory above it are still held. *)
Definition safe_read (h : Z) (older : events) : Prop :=
  (exists o, object_of older h = Some o /\ good_object o /\ o_directory o = false /\ root `prefix_of` o_path o /\
     ancestors_pinned older (o_path o)) /\
  exists x l, older = EvCheck x true :: l /\ check l x = Ok tt.
Definition safe_listing (p : wpath) (older : events) : Prop :=
  root `prefix_of` p /\ pinned_at older p /\ ancestors_pinned older p.

Definition safe_event (e : event X) (older : events) : Prop :=
  match e with
  | EvCreate p d _ => ancestors_pinned older p /\ (d = false -> root `prefix_of` p)
  | EvRead h _ => safe_read h older
  | EvScan p _ | EvNext p _ => safe_listing p older
  | EvCheck x passed => is_ok (check older x) = passed
  | _ => True
  end.

Fixpoint safe_log (l : events) : Prop :=
  match l with [] => True | e :: older => safe_event e older /\ safe_log older end.

(** ** The invariant of a scope *)

Record ok (s : pinned X) : Prop := {
  ok_root : sc_root s = root;
  ok_safe : safe_log (log s);
  ok_handles : forall h, h ∈ _handles s <-> is_Some (object_of (log s) h);
  ok_nodup : NoDup (_handles s);
  ok_directories : forall k h i, _directories s !! k = Some (h, i) -> exists o, object_of (log s) h = Some o /\
    good_object o /\ o_directory o = true /\ path_key (o_path o) = k /\ o_info o = Some i;
}.

(** Entered and not released: the root and the directories above it are known. *)
Definition known (s : pinned X) (p : wpath) : Prop := is_Some (_directories s !! path_key p).
Definition chain_known (s : pinned X) (p : wpath) : Prop := forall q, q <> [] -> q `prefix_of` p -> known s q.
Definition grown (s s' : pinned X) : Prop := forall k, is_Some (_directories s !! k) -> is_Some (_directories s' !! k).

Lemma known_pinned s p : ok s -> known s p -> pinned_at (log s) p.
Proof. intros Hs [[h i] Hd]. destruct (ok_directories s Hs _ _ _ Hd) as (o & Ho & Hg & Hb & Hk & _). by exists h, o. Qed.

Lemma chain_pinned s p q : ok s -> chain_known s p -> q <> [] -> q `prefix_of` p -> pinned_at (log s) q.
Proof. intros Hs Hc Hq Hp. apply known_pinned; [done|by apply Hc]. Qed.

Lemma chain_grown s s' p : grown s s' -> chain_known s p -> chain_known s' p.
Proof. intros Hg Hc q Hq Hp. by apply Hg, Hc. Qed.

Lemma chain_snoc s p c : chain_known s p -> known s (p ++ [c]) -> chain_known s (p ++ [c]).
Proof.
  intros Hc Hk q Hq Hp. destruct (decide (q = p ++ [c])) as [->|Hne]; [done|]. apply Hc; [done|].
  destruct Hp as [r Hr]. destruct r as [|x r] using rev_ind; [by rewrite app_nil_r in Hr|].
  rewrite app_assoc in Hr. apply app_inj_tail in Hr as [-> _]. by exists r.
Qed.

Lemma chain_ancestors s p c : ok s -> chain_known s p -> ancestors_pinned (log s) (p ++ [c]).
Proof.
  intros Hs Hc q Hq Hp Hne. apply (chain_pinned s p); [done|done|done|].
  destruct Hp as [r Hr]. destruct r as [|x r _] using rev_ind; [rewrite app_nil_r in Hr; congruence|].
  rewrite app_assoc in Hr. apply app_inj_tail in Hr as [-> _]. by exists r.
Qed.

(** An event that opens and closes nothing. *)
Definition quiet (e : event X) : bool :=
  match e with EvCreate _ _ (inl _) | EvInfo _ _ | EvType _ _ | EvClose _ => false | _ => true end.

Lemma quiet_object e l h : quiet e = true -> object_of (e :: l) h = object_of l h.
Proof. by destruct e as [| |? ? []| | | | | | | | | |]. Qed.

Lemma emit_quiet e s : ok s -> quiet e = true -> safe_event e (log s) -> ok (emit e s).2.
Proof.
  intros [H1 H2 H3 H4 H5] Hq He. split; cbn [emit modify snd log sc_root _handles _directories]; try done.
  - intros h. by rewrite quiet_object.
  - intros k h i Hk. rewrite quiet_object by done. by apply H5.
Qed.

(** A fresh handle. *)
Lemma emit_create p d h s : ok s -> ancestors_pinned (log s) p -> (d = false -> root `prefix_of` p) ->
  CreateFile (log s) p d = inl h -> ok (set_handles (fun l => l ++ [h]) (emit (EvCreate p d (inl h)) s).2).
Proof.
  intros [H1 H2 H3 H4 H5] Ha Hr Hc. pose proof (create_fresh _ _ _ _ Hc) as Hf.
  split; cbn [emit modify snd log sc_root _handles _directories set_handles]; try done.
  - intros h'. cbn [object_of]. rewrite elem_of_app, H3, list_elem_of_singleton. destruct (Z.eqb_spec h' h) as [->|Hne].
    + split; [eauto|by right].
    + split; [by intros [?|?]|by left].
  - apply NoDup_app. split_and!; [done| |apply NoDup_singleton].
    intros x Hx ->%list_elem_of_singleton. apply H3 in Hx. rewrite Hf in Hx. by apply is_Some_None in Hx.
  - intros k h' i Hk. destruct (H5 _ _ _ Hk) as (o & Ho & Hrest). exists o. cbn [object_of].
    destruct (Z.eqb_spec h' h) as [->|]; [congruence|done].
Qed.

(** Asking about a handle that no directory is known by. *)
Lemma emit_about e h s : ok s -> (e = EvType h (GetFileTypeOf (log s) h) \/ e = EvInfo h (GetFileInformation (log s) h)) ->
  (forall k i, _directories s !! k <> Some (h, i)) -> ok (emit e s).2.
Proof.
  intros [H1 H2 H3 H4 H5] He Hd. split; cbn [emit modify snd log sc_root _handles _directories]; try done.
  - by destruct He as [-> | ->].
  - intros h'. rewrite H3. destruct He as [-> | ->]; cbn [object_of]; destruct (h' =? h); rewrite ?fmap_is_Some; done.
  - intros k h' i Hk. destruct (H5 _ _ _ Hk) as (o & Ho & Hrest). exists o. split; [|done].
    assert (h' <> h) as Hne by (intros ->; by apply (Hd k i)).
    destruct He as [-> | ->]; cbn [object_of]; destruct (Z.eqb_spec h' h); done.
Qed.

Lemma remember_ok s p h i o : ok s -> object_of (log s) h = Some o -> good_object o -> o_directory o = true ->
  o_path o = p -> o_info o = Some i -> ok (set_directories (fun d => <[path_key p := (h, i)]> d) s).
Proof.
  intros [H1 H2 H3 H4 H5] Ho Hg Hd Hp Hi. split; cbn [log sc_root _handles _directories set_directories]; try done.
  intros k h' i' [[<- [= <- <-]]|[_ Hk]]%lookup_insert_Some; [|by apply H5].
  exists o. by rewrite Hp.
Qed.

(** What a call of [_open] leaves. *)
Definition opened (s : pinned X) (p : wpath) (d : bool) (r : res (Z * _FileInfo) * pinned X) : Prop :=
  ok r.2 /\ grown s r.2 /\
  match r.1 with
  | Ok (h, i) => exists o, object_of (log r.2) h = Some o /\ good_object o /\ o_info o = Some i /\ o_directory o = d /\
      if d then known r.2 p else o_path o = p
  | Err _ => True
  end.

Lemma open_ok s p d : ok s -> ancestors_pinned (log s) p -> (d = false -> root `prefix_of` p) -> opened s p d (_open p d s).
Proof.
  intros Hs Ha Hr. unfold _open. rewrite gets_run.
  destruct (if d then _directories s !! path_key p else None) as [[h i]|] eqn:Hk.
  { destruct d; [|done]. destruct (ok_directories s Hs _ _ _ Hk) as (o & Ho & Hg & Hd & _ & Hi).
    split_and!; [done|by intros ?|]. cbn. exists o. split_and!; try done. unfold known. by rewrite Hk. }
  rewrite ask_run. destruct (CreateFile (log s) p d) as [h|err] eqn:Hc.
  2: { pose proof (emit_quiet (EvCreate p d (inr err)) s Hs eq_refl (conj Ha Hr)) as He.
       case_bool_decide; (split_and!; [exact He|by intros ?|done]). }
  rewrite modify_run. pose proof (emit_create p d h s Hs Ha Hr Hc) as H1. set (s1 := set_handles _ _) in *.
  assert (forall k i, _directories s1 !! k <> Some (h, i)) as Hn.
  { intros k i Hd. destruct (ok_directories s Hs k h i Hd) as (o & Ho & _). by rewrite (create_fresh _ _ _ _ Hc) in Ho. }
  rewrite ask_run.
  pose proof (emit_about (EvInfo h (GetFileInformation (log s1) h)) h s1 H1 (or_intror eq_refl) Hn) as H2.
  set (s2 := (emit _ s1).2) in *.
  destruct (GetFileInformation (log s1) h) as [i|] eqn:Hi; [|split_and!; [exact H2|by intros ?|done]].
  assert (forall k i, _directories s2 !! k <> Some (h, i)) as Hn2 by exact Hn.
  rewrite ask_run.
  pose proof (emit_about (EvType h (GetFileTypeOf (log s2) h)) h s2 H2 (or_introl eq_refl) Hn2) as H3.
  set (s3 := (emit _ s2).2) in *.
  assert (forall e, opened s p d (Err e, s3)) as Hfail by (intros e; split_and!; [exact H3|by intros ?|done]).
  destruct (GetFileTypeOf (log s2) h =? 1) eqn:Ht; [|apply Hfail]. apply Z.eqb_eq in Ht. cbn [negb].
  destruct (blocked (attributes i)) eqn:Hb; [apply Hfail|].
  destruct (Bool.eqb (is_directory (attributes i)) d) eqn:Hd; [|apply Hfail]. apply Bool.eqb_prop in Hd. cbn [negb].
  destruct (negb d && negb (links i =? 1)) eqn:Hl; [apply Hfail|].
  set (o := {| o_path := p; o_directory := d; o_info := Some i; o_type := Some 1 |}).
  assert (object_of (log s3) h = Some o) as Ho.
  { unfold s3, s2, s1 in *. cbn [log set_handles emit modify snd object_of] in *. rewrite !Z.eqb_refl. cbn. by rewrite Ht. }
  assert (good_object o) as Hg.
  { split; [done|]. exists i. split_and!; try done. cbn. intros ->. cbn in Hl. lia. }
  destruct d; cbn [when].
  - rewrite modify_run. pose proof (remember_ok s3 p h i o H3 Ho Hg eq_refl eq_refl eq_refl) as H4.
    split_and!; [done| |].
    + intros k Hk'. unfold s3, s2, s1. cbn. destruct (decide (path_key p = k)) as [<-|]; [rewrite lookup_insert_eq; eauto|by rewrite lookup_insert_ne].
    + exists o. split_and!; try done. unfold known. cbn. rewrite lookup_insert_eq. eauto.
  - split_and!; [done|by intros k|]. exists o. split_and!; done.
Qed.

Lemma grown_refl s : grown s s.
Proof. by intros k. Qed.
Lemma grown_trans s1 s2 s3 : grown s1 s2 -> grown s2 s3 -> grown s1 s3.
Proof. intros H1 H2 k Hk. auto. Qed.

(** [m] keeps the invariant and, if it returns, gives what [Q] says. *)
Definition keeps {A} (s : pinned X) (m : K A) (Q : A -> pinned X -> Prop) : Prop :=
  ok (m s).2 /\ grown s (m s).2 /\ match (m s).1 with Ok a => Q a (m s).2 | Err _ => True end.

Lemma keeps_bind {A B} s (m : K A) (k : A -> K B) Q R :
  keeps s m Q -> (forall a s', ok s' -> grown s s' -> Q a s' -> keeps s' (k a) R) -> keeps s (bind m k) R.
Proof.
  unfold keeps, bind. destruct (m s) as [[a|e] s']; cbn [fst snd]; intros (H1 & H2 & H3) Hk; [|done].
  destruct (Hk a s' H1 H2 H3) as (H4 & H5 & H6). split_and!; [done|by eapply grown_trans|done].
Qed.
Lemma keeps_gets {A B} s (f : pinned X -> A) (k : A -> K B) Q : keeps s (k (f s)) Q -> keeps s (bind (gets f) k) Q.
Proof. done. Qed.
Lemma keeps_ret {A} s (a : A) (Q : A -> pinned X -> Prop) : ok s -> Q a s -> keeps s (ret a) Q.
Proof. intros. split_and!; [done|apply grown_refl|done]. Qed.
Lemma keeps_raise {A} s e (Q : A -> pinned X -> Prop) : ok s -> keeps s (raise e) Q.
Proof. intros. split_and!; [done|apply grown_refl|done]. Qed.
Lemma keeps_lift {A} s (r : res A) (Q : A -> pinned X -> Prop) : ok s -> (forall a, r = Ok a -> Q a s) -> keeps s (lift r) Q.
Proof. intros. split_and!; [done|apply grown_refl|]. cbn. destruct r; auto. Qed.
Lemma keeps_weaken {A} s (m : K A) (Q R : A -> pinned X -> Prop) :
  keeps s m Q -> (forall a s', ok s' -> grown s s' -> Q a s' -> R a s') -> keeps s m R.
Proof. intros (H1 & H2 & H3) H. split_and!; [done|done|]. destruct (m s).1; auto. Qed.
Lemma keeps_quiet s e (Q : unit -> pinned X -> Prop) :
  ok s -> quiet e = true -> safe_event e (log s) -> Q tt (emit e s).2 -> keeps s (emit e) Q.
Proof. intros Hs He Hsafe HQ. split_and!; [by apply emit_quiet|by intros k|done]. Qed.

(** Two letters of the same key stand for each other. *)
Lemma keeps_open s p d : ok s -> ancestors_pinned (log s) p -> (d = false -> root `prefix_of` p) ->
  keeps s (_open p d) (fun hi s' => exists o, object_of (log s') hi.1 = Some o /\ good_object o /\ o_info o = Some hi.2 /\
    o_directory o = d /\ if d then known s' p else o_path o = p).
Proof.
  intros H1 H2 H3. destruct (open_ok s p d H1 H2 H3) as (H4 & H5 & H6). split_and!; [done|done|].
  by destruct (_open p d s) as [[[h i]|e] s'].
Qed.

Lemma keeps_chain cs : forall s current i, ok s -> current <> [] -> chain_known s current ->
  keeps s (open_chain current cs i) (fun _ s' => chain_known s' (current ++ cs)).
Proof.
  induction cs as [|c cs IH]; intros s current i Hs Hne Hc; cbn [open_chain].
  { apply keeps_ret; [done|by rewrite app_nil_r]. }
  eapply keeps_bind.
  { apply keeps_open; [done|by apply chain_ancestors|done]. }
  intros a s' Hs' Hg (o & _ & _ & _ & _ & Hk). rewrite (app_assoc current [c] cs : current ++ c :: cs = _).
  apply IH; [done|by destruct current|]. apply chain_snoc; [by eapply chain_grown|done].
Qed.

(** A file below the scope that is open. *)
Definition file_open (p : wpath) (hi : Z * _FileInfo) (s : pinned X) : Prop :=
  exists o, object_of (log s) hi.1 = Some o /\ good_object o /\ o_info o = Some hi.2 /\ o_directory o = false /\ o_path o = p /\
    root `prefix_of` p /\ exists parent c, p = parent ++ [c] /\ chain_known s parent.

Lemma keeps_target d cs : forall s current last, ok s -> current <> [] -> root `prefix_of` current -> chain_known s current ->
  keeps s (open_target current cs d last) (fun r s' => r.1 = current ++ cs /\
    if bool_decide (cs = []) then r.2 = last
    else if d then chain_known s' (current ++ cs) else exists hi, r.2 = Some hi /\ file_open (current ++ cs) hi s').
Proof.
  induction cs as [|c cs IH]; intros s current last Hs Hne Hr Hc; cbn [open_target].
  { apply keeps_ret; [done|]. cbn. by rewrite app_nil_r. }
  assert (root `prefix_of` current ++ [c]) as Hr' by (by apply prefix_app_r).
  eapply keeps_bind.
  { apply keeps_open; [done|by apply chain_ancestors|done]. }
  intros a s' Hs' Hg (o & Ho & Hgood & Hi & Hd & Hk). rewrite (app_assoc current [c] cs : current ++ c :: cs = _).
  rewrite bool_decide_eq_false_2 by done. destruct cs as [|c' cs].
  - rewrite orb_false_r in *. cbn [open_target]. apply keeps_ret; [done|]. cbn [fst snd]. rewrite !app_nil_r. split; [done|].
    destruct d; [apply chain_snoc; [by eapply chain_grown|done]|]. exists a. split; [done|]. exists o. split_and!; try done.
    exists current, c. split; [done|by eapply chain_grown].
  - rewrite orb_true_r in *. eapply keeps_weaken.
    { apply IH; [done|by destruct current|done|]. apply chain_snoc; [by eapply chain_grown|done]. }
    intros r s'' _ _ [H1 H2]. by rewrite bool_decide_eq_false_2 in H2.
Qed.

(** ** Entering and closing *)

Definition nothing_open (s : pinned X) : Prop := forall h, object_of (log s) h = None.

Lemma close_log hs : forall s, for_each hs CloseHandle s = (Ok tt, (for_each hs CloseHandle s).2) /\
  let s' := (for_each hs CloseHandle s).2 in
  log s' = map EvClose (rev hs) ++ log s /\ sc_root s' = sc_root s /\ _handles s' = _handles s /\ _directories s' = _directories s.
Proof.
  induction hs as [|h hs IH]; intros s; cbn [for_each]; [done|].
  change (bind (CloseHandle h) (fun _ => for_each hs CloseHandle) s) with (for_each hs CloseHandle (emit (EvClose h) s).2).
  set (s1 := (emit (EvClose h) s).2). destruct (IH s1) as (H1 & H2 & H3 & H4 & H5). cbn zeta in *. split; [done|].
  rewrite H2, H3, H4, H5. cbn [rev]. rewrite map_app, <-app_assoc. done.
Qed.

Lemma closed_safe hs (l : events) : safe_log l -> safe_log (map EvClose hs ++ l).
Proof. induction hs; cbn; auto. Qed.

Lemma close_ok s : ok s -> (close s).1 = Ok tt /\ ok (close s).2 /\ nothing_open (close s).2 /\
  exists hs, log (close s).2 = map EvClose hs ++ log s.
Proof.
  intros [H1 H2 H3 H4 H5]. unfold close. rewrite gets_run. unfold bind.
  destruct (close_log (rev (_handles s)) s) as (E & El & Er & Eh & Ed). rewrite E. cbn zeta in *. cbn [modify fst snd]. rewrite rev_involutive in El.
  assert (forall h, object_of (map EvClose (_handles s) ++ log s) h = None) as Hn.
  { intros h. rewrite closed_object. case_bool_decide as Hh; [done|]. rewrite H3 in Hh.
    destruct (object_of (log s) h); [|done]. by destruct Hh. }
  split; [done|]. split; [|split].
  - split; cbn [log sc_root _handles _directories set_handles set_directories]; rewrite ?El, ?Er; try done.
    + by apply closed_safe.
    + intros h. rewrite Hn. split; [by intros ?%elem_of_nil|by intros ?%is_Some_None].
    + apply NoDup_nil_2.
  - intros h. cbn [log set_handles set_directories]. rewrite El. apply Hn.
  - eexists. cbn [log set_handles set_directories]. exact El.
Qed.

Lemma keeps_identity s i : ok s -> keeps s (modify (set_identity i)) (fun _ s' => forall p, chain_known s p -> chain_known s' p).
Proof. intros [H1 H2 H3 H4 H5]. split_and!; [by split|by intros k|by intros q]. Qed.

Lemma keeps_ask {A} s (answer : events -> A) (e : A -> event X) (Q : A -> pinned X -> Prop) :
  ok s -> (forall a, quiet (e a) = true /\ safe_event (e a) (log s)) ->
  (forall a, Q a (emit (e a) s).2) -> keeps s (ask answer e) Q.
Proof.
  intros Hs He HQ. unfold ask. apply keeps_gets. destruct (He (answer (log s))) as [H1 H2].
  eapply keeps_bind; [by apply (keeps_quiet s _ (fun _ s' => Q (answer (log s)) s'))|]. intros [] s' Hs' _ H. by apply keeps_ret.
Qed.

Lemma enter_ok s : ok s -> root <> [] ->
  ok (enter s).2 /\ match (enter s).1 with Ok _ => chain_known (enter s).2 root | Err _ => nothing_open (enter s).2 end.
Proof.
  intros Hs Hne. unfold enter.
  match goal with |- context [closing ?m] => assert (keeps s m (fun _ s' => chain_known s' root)) as (H1 & _ & H3) end.
  { apply keeps_gets. rewrite (ok_root s Hs). unfold _assert_fixed_drive, _assert_supported_filesystem.
    eapply (keeps_bind _ _ _ (fun _ _ => True)).
    { eapply (keeps_bind _ _ _ (fun _ _ => True)); [by apply keeps_ask|]. intros a s' Hs' _ _. unfold raise_if.
      case_match; [by apply keeps_raise|by apply keeps_ret]. }
    intros [] s1 Hs1 _ _. eapply (keeps_bind _ _ _ (fun _ _ => True)).
    { eapply (keeps_bind _ _ _ (fun _ _ => True)); [by apply keeps_ask|]. intros [a|] s' Hs' _ _; [|by apply keeps_raise].
      unfold raise_if. case_bool_decide; [by apply keeps_ret|by apply keeps_raise]. }
    intros [] s2 Hs2 _ _. destruct root as [|anchor comps]; [done|]. cbn [take drop]. rewrite take_0, drop_0.
    eapply keeps_bind.
    { apply keeps_open; [done| |done]. intros q Hq [r Hr] Hn. destruct q as [|x [|]]; [done| |by inversion Hr].
      injection Hr as -> _. done. }
    intros a s3 Hs3 _ (o & _ & _ & _ & _ & Hk). eapply keeps_bind.
    { apply keeps_chain; [done|done|]. intros q Hq [r Hr]. destruct q as [|x [|]]; [done| |by inversion Hr]. by injection Hr as -> _. }
    intros i s4 Hs4 _ Hc. eapply keeps_weaken; [by apply keeps_identity|]. auto. }
  unfold closing. match goal with |- context [match ?m s with _ => _ end] => destruct (m s) as [[[]|e] s'] end; cbn [fst snd] in *; [done|].
  by destruct (close_ok s' H1) as (_ & ? & ? & _).
Qed.

(** Entered and not closed. *)
Definition inside (s : pinned X) : Prop := ok s /\ chain_known s root /\ root <> [].

Lemma inside_grown s s' : inside s -> ok s' -> grown s s' -> inside s'.
Proof. intros (H1 & H2 & H3) Hs Hg. split_and!; [done|by eapply chain_grown|done]. Qed.

Lemma remove_first_elem h l x : NoDup l -> x ∈ remove_first h l <-> x ∈ l /\ x <> h.
Proof.
  induction 1 as [|y l Hy Hl IH]; cbn; [set_solver|]. destruct (Z.eqb_spec y h) as [->|]; [set_solver|].
  rewrite !elem_of_cons, IH. set_solver.
Qed.
Lemma remove_first_nodup h l : NoDup l -> NoDup (remove_first h l).
Proof.
  induction 1 as [|y l Hy Hl IH]; cbn; [apply NoDup_nil_2|]. destruct (y =? h); [done|].
  apply NoDup_cons. split; [|done]. rewrite remove_first_elem by done. tauto.
Qed.

Lemma keeps_release s h o : ok s -> object_of (log s) h = Some o -> o_directory o = false -> keeps s (release h) (fun _ _ => True).
Proof.
  intros [H1 H2 H3 H4 H5] Ho Hd. unfold release. apply keeps_gets. rewrite bool_decide_eq_true_2 by (apply H3; eauto).
  split_and!; [|by intros k|done].
  split; cbn [negb raise_if ret bind modify CloseHandle emit fst snd log sc_root _handles _directories set_handles safe_log];
    [done|by split| |by apply remove_first_nodup|].
  - intros x. cbn [object_of]. rewrite remove_first_elem, H3 by done. destruct (Z.eqb_spec x h) as [->|].
    + split; [by intros [_ ?]|by intros ?%is_Some_None].
    + tauto.
  - intros k h' i Hk. destruct (H5 _ _ _ Hk) as (o' & Ho' & Hg & Hd' & Hrest). exists o'. cbn [object_of].
    destruct (Z.eqb_spec h' h) as [->|]; [|done]. exfalso. rewrite Ho in Ho'. injection Ho' as ->. congruence.
Qed.

(** ** The operations *)

Lemma keeps_directory s relative : inside s -> keeps s (directory relative) (fun p s' => root `prefix_of` p /\ chain_known s' p).
Proof.
  intros (Hs & Hc & Hne). unfold directory, _target.
  eapply (keeps_bind _ _ _ (fun r s' => root `prefix_of` r.1 /\ chain_known s' r.1)).
  { eapply keeps_bind; [by apply (keeps_lift _ _ (fun _ s' => s' = s))|]. intros parts s' _ _ ->. apply keeps_gets. rewrite (ok_root s Hs).
    eapply keeps_weaken; [by apply keeps_target|]. intros [p l] s' _ Hg [Hpl Hl]. cbn [fst snd] in *. subst p. split; [by apply prefix_app_r|].
    case_bool_decide as Hp; [|done]. rewrite Hp, app_nil_r. by eapply chain_grown. }
  intros r s' Hs' _ H. by apply keeps_ret.
Qed.

Lemma keeps_file s relative : inside s ->
  keeps s (_target relative false) (fun r s' => forall hi, r.2 = Some hi -> exists p, file_open p hi s').
Proof.
  intros (Hs & Hc & Hne). unfold _target. eapply keeps_bind; [by apply (keeps_lift _ _ (fun _ s' => s' = s))|].
  intros parts s' _ _ ->. apply keeps_gets. rewrite (ok_root s Hs). eapply keeps_weaken; [by apply keeps_target|].
  intros [p l] s' _ Hg [Hpl Hl] hi Hhi. cbn [fst snd] in *. case_bool_decide; [congruence|].
  destruct Hl as (hi' & Hl & Hf). assert (hi' = hi) as -> by congruence. eauto.
Qed.

Lemma keeps_file_size s relative : inside s -> keeps s (file_size relative) (fun _ _ => True).
Proof.
  intros H. unfold file_size. eapply keeps_bind; [by apply keeps_file|]. intros [p [[h i]|]] s' Hs' _ Hf; cbn [fst snd] in *.
  - destruct (Hf _ eq_refl) as (q & o & Ho & _ & _ & Hd & _). eapply keeps_bind; [by eapply keeps_release|].
    intros [] s'' Hs'' _ _. by apply keeps_ret.
  - by apply keeps_raise.
Qed.

(** Opens and closes nothing. *)
Definition steady (s s' : pinned X) : Prop :=
  (forall h, object_of (log s') h = object_of (log s) h) /\ _directories s' = _directories s.
#[local] Instance steady_preorder : PreOrder steady.
Proof.
  split; [by intros s|]. intros s1 s2 s3 [H1 H2] [H3 H4]. split; [|congruence]. intros h. by rewrite H3.
Qed.

Lemma steady_emit s e : quiet e = true -> steady s (emit e s).2.
Proof. intros He. split; [|done]. intros h. by apply quiet_object. Qed.
Lemma steady_ask {A} (answer : events -> A) (e : A -> event X) : (forall a, quiet (e a) = true) -> along steady (ask answer e).
Proof. intros He s. unfold ask. rewrite gets_run. unfold bind. cbn. by apply steady_emit. Qed.
Lemma steady_check c : along steady (run_check c).
Proof. intros s. by apply steady_emit. Qed.
Lemma steady_turns {A B} n (body : A -> K (A + B)) : (forall a, along steady (body a)) -> forall a, along steady (turns n body a).
Proof.
  intros Hb. induction n as [|n IH]; intros a; cbn [turns]; [apply Hb|]. apply along_bind; [apply _|apply IH|].
  intros [a'|b]; [apply IH|apply along_ret, _].
Qed.
Lemma steady_loop {A B} n (body : A -> K (A + B)) : (forall a, along steady (body a)) -> forall a, along steady (loop n body a).
Proof.
  intros Hb a. apply along_bind; [apply _|by apply steady_turns|]. intros [a'|b]; [apply along_raise, _|apply along_ret, _].
Qed.
#[local] Hint Resolve steady_check : along.
#[local] Hint Extern 1 (along steady (ask _ _)) => by apply steady_ask : along.

Lemma steady_read_handle h i c maximum : along steady (_read_handle h i c maximum).
Proof.
  unfold _read_handle, fail. repeat (case_match; [apply along_raise, _|]). apply steady_loop. intros data.
  unfold read_body, fail. along_steps.
Qed.

Lemma file_open_steady p hi s s' : steady s s' -> file_open p hi s -> file_open p hi s'.
Proof.
  intros [H1 H2] (o & Ho & Hg & Hi & Hd & Hp & Hr & parent & c & Hpc & Hk). exists o. rewrite H1. split_and!; try done.
  exists parent, c. split; [done|]. intros q Hq Hpre. unfold known. rewrite H2. by apply Hk.
Qed.

Lemma keeps_check s (Q : unit -> pinned X -> Prop) : ok s ->
  (check (log s) (rest s) = Ok tt -> Q tt (emit (EvCheck (rest s) true) s).2) -> keeps s (run_check check) Q.
Proof.
  intros Hs HQ. unfold run_check, keeps. cbn [fst snd].
  split_and!; [by apply emit_quiet|by intros k|]. destruct (check (log s) (rest s)) as [[]|]; auto.
Qed.

Lemma keeps_turns {A B} n (body : A -> K (A + B)) (Q : A + B -> pinned X -> Prop) :
  (forall a s, ok s -> Q (inl a) s -> keeps s (body a) Q) -> forall a s, ok s -> Q (inl a) s -> keeps s (turns n body a) Q.
Proof.
  intros Hb. induction n as [|n IH]; intros a s Hs Ha; cbn [turns]; [by apply Hb|].
  eapply keeps_bind; [by apply IH|]. intros [a'|b] s' Hs' _ H; [by apply IH|by apply keeps_ret].
Qed.
Lemma keeps_loop {A B} n (body : A -> K (A + B)) (Q : A + B -> pinned X -> Prop) a s :
  (forall a s, ok s -> Q (inl a) s -> keeps s (body a) Q) -> ok s -> Q (inl a) s ->
  keeps s (loop n body a) (fun b s' => Q (inr b) s').
Proof.
  intros Hb Hs Ha. eapply keeps_bind; [by apply keeps_turns|]. intros [a'|b] s' Hs' _ H; [by apply keeps_raise|by apply keeps_ret].
Qed.

Lemma keeps_read_handle s p h i maximum : ok s -> file_open p (h, i) s -> keeps s (_read_handle h i check maximum) (fun _ _ => True).
Proof.
  intros Hs Hf. unfold _read_handle. case_match; [by apply keeps_raise|]. case_match; [by apply keeps_raise|].
  eapply keeps_weaken; [apply (keeps_loop READ_TURNS _ (fun _ s' => file_open p (h, i) s'))|done]; [|done|done].
  clear s Hs Hf. intros data s Hs Hf. unfold read_body. eapply keeps_bind.
  { apply (keeps_check s (fun _ s' => steady s s' /\ exists x l, log s' = EvCheck x true :: l /\ check l x = Ok tt)); [done|].
    intros Hc. split; [by apply steady_emit|]. by exists (rest s), (log s). }
  intros [] s1 Hs1 _ [Hst Hck]. pose proof (file_open_steady _ _ _ _ Hst Hf) as Hf1.
  destruct Hf1 as (o & Ho & Hg & Hi & Hd & Hp & Hr & parent & c & -> & Hk).
  eapply (keeps_bind _ _ _ (fun _ s' => steady s1 s')).
  { apply keeps_ask; [done| |intros a; by apply steady_emit]. intros a. split; [done|]. cbn. split; [|done].
    exists o. rewrite Hp. split_and!; try done. by apply chain_ancestors. }
  intros [[|x chunk]|] s2 Hs2 _ Hst2; [| |by apply keeps_raise].
  - apply keeps_ret; [done|]. eapply file_open_steady; [done|]. by eapply file_open_steady.
  - case_match; [by apply keeps_raise|]. apply keeps_ret; [done|]. eapply file_open_steady; [done|]. by eapply file_open_steady.
Qed.

Lemma keeps_read_bytes s relative release_file maximum : inside s ->
  keeps s (read_bytes relative check release_file maximum) (fun _ _ => True).
Proof.
  intros H. unfold read_bytes. eapply keeps_bind; [by apply keeps_file|]. intros [p [[h i]|]] s1 Hs1 _ Hf; cbn [fst snd] in *;
    [|by apply keeps_raise].
  destruct (Hf _ eq_refl) as (q & Hq). destruct (keeps_read_handle s1 q h i maximum Hs1 Hq) as (H1 & H2 & _).
  pose proof (steady_read_handle h i check maximum s1) as Hst. unfold keeps, try_finally.
  destruct (_read_handle h i check maximum s1) as [r s2]. cbn [fst snd] in *.
  assert (keeps s2 (when release_file (release h)) (fun _ _ => True)) as (H3 & H4 & _).
  { destruct release_file; [|by apply keeps_ret]. destruct (file_open_steady _ _ _ _ Hst Hq) as (o & Ho & _ & _ & Hd & _).
    by eapply keeps_release. }
  destruct (when release_file (release h) s2) as [[[]|e] s3]; cbn [fst snd] in *; destruct r as [b|[]];
    split_and!; try done; by eapply grown_trans.
Qed.

Lemma keeps_scandir s p : inside s -> root `prefix_of` p -> chain_known s p -> keeps s (scandir p) (fun _ s' => chain_known s' p).
Proof.
  intros (Hs & _ & Hne) Hr Hk.
  assert (safe_listing p (log s)) as Hl.
  { split_and!; [done| |].
    - apply (chain_pinned s p); try done. intros ->. by apply prefix_nil_inv in Hr.
    - intros q Hq Hp _. by apply (chain_pinned s p). }
  unfold scandir. eapply (keeps_bind _ _ _ (fun _ s' => chain_known s' p)); [by apply keeps_ask|].
  intros a s' Hs' _ H. unfold raise_if. case_match; [by apply keeps_raise|by apply keeps_ret].
Qed.
Lemma keeps_next s p : inside s -> root `prefix_of` p -> chain_known s p -> keeps s (next_entry p) (fun _ s' => chain_known s' p).
Proof.
  intros (Hs & _ & Hne) Hr Hk.
  assert (safe_listing p (log s)) as Hl.
  { split_and!; [done| |].
    - apply (chain_pinned s p); try done. intros ->. by apply prefix_nil_inv in Hr.
    - intros q Hq Hp _. by apply (chain_pinned s p). }
  unfold next_entry. eapply (keeps_bind _ _ _ (fun _ s' => chain_known s' p)); [by apply keeps_ask|].
  intros [a|] s' Hs' _ H; [by apply keeps_ret|by apply keeps_raise].
Qed.

(** ** Programs that run inside a scope *)

Lemma keeps_except {A} s (m : K A) h (Q : A -> pinned X -> Prop) : keeps s m Q ->
  (forall e s', ok s' -> grown s s' -> keeps s' (h e) Q) -> keeps s (try_except m h) Q.
Proof.
  unfold keeps, try_except. destruct (m s) as [[a|e] s']; cbn [fst snd]; intros (H1 & H2 & H3) Hh; [done|].
  destruct (caught e); [|done]. destruct (Hh e s' H1 H2) as (H4 & H5 & H6). split_and!; [done|by eapply grown_trans|done].
Qed.

Definition runs_inside {A} (m : K A) : Prop := forall s, inside s -> keeps s m (fun _ _ => True).

Lemma inside_bind {A B} (m : K A) (k : A -> K B) : runs_inside m -> (forall a, runs_inside (k a)) -> runs_inside (bind m k).
Proof.
  intros Hm Hk s Hs. eapply keeps_bind; [by apply Hm|]. intros a s' H1 H2 _. apply Hk. by eapply inside_grown.
Qed.
Lemma inside_except {A} (m : K A) h : runs_inside m -> (forall e, runs_inside (h e)) -> runs_inside (try_except m h).
Proof. intros Hm Hh s Hs. apply keeps_except; [by apply Hm|]. intros e s' H1 H2. apply Hh. by eapply inside_grown. Qed.
Lemma inside_ret {A} (a : A) : runs_inside (ret a).
Proof. intros s (H & _). by apply keeps_ret. Qed.
Lemma inside_raise {A} e : runs_inside (@raise _ A e).
Proof. intros s (H & _). by apply keeps_raise. Qed.
Lemma inside_lift {A} (r : res A) : runs_inside (lift r).
Proof. intros s (H & _). by apply keeps_lift. Qed.
Lemma inside_check : runs_inside (run_check check).
Proof. intros s (H & _). by apply keeps_check. Qed.
Lemma inside_file_size relative : runs_inside (file_size relative).
Proof. intros s H. by apply keeps_file_size. Qed.
Lemma inside_read_bytes relative release_file maximum : runs_inside (read_bytes relative check release_file maximum).
Proof. intros s H. by apply keeps_read_bytes. Qed.
Lemma inside_directory relative : runs_inside (directory relative).
Proof. intros s H. eapply keeps_weaken; [by apply keeps_directory|done]. Qed.

(** Programs that only keep the invariant, wherever they run. *)
Definition runs_ok {A} (m : K A) : Prop := forall s, ok s -> ok (m s).2.

Lemma ok_bind {A B} (m : K A) (k : A -> K B) : runs_ok m -> (forall a, runs_ok (k a)) -> runs_ok (bind m k).
Proof.
  intros Hm Hk s Hs. unfold bind. specialize (Hm s Hs). destruct (m s) as [[a|e] s']; cbn [snd] in *; [by apply Hk|done].
Qed.
Lemma ok_ret {A} (a : A) : runs_ok (ret a).
Proof. by intros s. Qed.
Lemma ok_raise {A} e : runs_ok (@raise _ A e).
Proof. by intros s. Qed.
Lemma ok_lift {A} (r : res A) : runs_ok (lift r).
Proof. by intros s. Qed.
Lemma ok_gets {A} (f : pinned X -> A) : runs_ok (gets f).
Proof. by intros s. Qed.
Lemma ok_raise_if b e : runs_ok (raise_if b e).
Proof. destruct b; [apply ok_raise|apply ok_ret]. Qed.
Lemma ok_when b m : runs_ok m -> runs_ok (when b m).
Proof. destruct b; [done|intros; apply ok_ret]. Qed.
Lemma ok_rest s f : ok s -> ok (set_rest f s).
Proof. by intros [H1 H2 H3 H4 H5]. Qed.
Lemma ok_check : runs_ok (run_check check).
Proof. intros s Hs. by apply (keeps_check s (fun _ _ => True)). Qed.
Lemma ok_close : runs_ok close.
Proof. intros s Hs. by apply close_ok. Qed.
Lemma ok_emit e : quiet e = true -> (forall l, safe_event e l) -> runs_ok (emit e).
Proof. intros Hq He s Hs. by apply emit_quiet. Qed.

(** What changes only the rest of the agent keeps a scope entered. *)
Lemma inside_rest s f : inside s -> inside (set_rest f s).
Proof. intros (H1 & H2 & H3). split_and!; [by apply ok_rest|done|done]. Qed.
Lemma inside_gets {A} (f : pinned X -> A) : runs_inside (gets f).
Proof. intros s (H & _). split_and!; [done|by intros k|done]. Qed.
Lemma inside_raise_if b e : runs_inside (raise_if b e).
Proof. destruct b; [apply inside_raise|apply inside_ret]. Qed.
Lemma inside_when b m : runs_inside m -> runs_inside (when b m).
Proof. destruct b; [done|intros; apply inside_ret]. Qed.
Lemma inside_emit e : quiet e = true -> (forall l, safe_event e l) -> runs_inside (emit e).
Proof. intros Hq He s (H & _). by apply keeps_quiet. Qed.
Lemma inside_state {A} (m : K A) s : runs_inside m -> inside s -> inside (m s).2.
Proof. intros Hm Hs. destruct (Hm s Hs) as (H1 & H2 & _). by eapply inside_grown. Qed.
Lemma inside_runs_ok {A} (m : K A) s : runs_inside m -> inside s -> ok (m s).2.
Proof. intros Hm Hs. by destruct (Hm s Hs). Qed.

Lemma with_scope_ok {A} (body : K A) s : ok s -> root <> [] -> (forall s', inside s' -> ok (body s').2) ->
  ok (with_scope body s).2 /\ ((with_scope body s).1 <> Err Crash -> nothing_open (with_scope body s).2).
Proof.
  intros Hs Hne Hb. destruct (enter_ok s Hs Hne) as [H1 H2]. unfold with_scope, bind, try_finally.
  destruct (enter s) as [[[]|e] s1]; cbn [fst snd] in *; [|done].
  specialize (Hb s1). destruct (body s1) as [r s2]. cbn [fst snd] in *.
  assert (ok s2) as H5 by (by apply Hb). destruct (close_ok s2 H5) as (E & H3 & H4 & _).
  destruct (close s2) as [[[]|e] s3]; cbn [fst snd] in *; [|done]. by destruct r as [a|[]]; cbn.
Qed.
End safe.
End scope.

Create HintDb inside discriminated.
#[export] Hint Resolve inside_ret inside_raise inside_lift inside_check inside_file_size inside_read_bytes inside_directory
  inside_gets inside_raise_if : inside.

(** Peels a program down to calls the database knows. *)
Ltac inside_steps :=
  repeat first
    [ solve [eauto with inside]
    | apply inside_bind; [|intros]
    | apply inside_except; [|intros]
    | apply inside_when
    | case_match ].

#[export] Hint Resolve ok_ret ok_raise ok_lift ok_gets ok_raise_if ok_check ok_close : inside.
Ltac ok_steps :=
  repeat first
    [ solve [eauto with inside]
    | apply ok_bind; [|intros]
    | apply ok_when
    | case_match ].
