(* ===== verification/ScopedReads.v ===== *)
(** * Reads below a pinned directory: scoped_read_tools.py

    Listing, reading and searching through a [WindowsReadScope], in the monad of
    [DevicePaths]: every call of Windows and every check of the caller is one
    event, in the order the code makes them. *)
From S2P Require Import Prelude Utf8 PyStr Models Paths PatchFormat Database ReadText ReadTools DevicePaths.

Open Scope Z_scope.

Definition _MAX_DEPTH : Z := 128.

Inductive entry_kind := KDirectory | KFile.
#[export] Instance entry_kind_eq_dec : EqDecision entry_kind.
Proof. solve_decision. Defined.

Record _Entry := { e_path : str; e_kind : entry_kind; e_size : option Z }.

(** [str(PurePosixPath(directory) / name)]; an absolute name replaces the
    directory. *)
Definition join_path (directory name : str) : str :=
  if starts_with [SLASH] name then name
  else match posix_parts directory ++ posix_parts name with [] => [DOT] | l => join [SLASH] l end.

(** [PurePosixPath(path).relative_to(base)] *)
Fixpoint relative_parts (base path : list str) : option (list str) :=
  match base, path with
  | [], _ => Some path
  | b :: base, p :: path => if decide (b = p) then relative_parts base path else None
  | _ :: _, [] => None
  end.
Definition relative_to (path base : str) : option str :=
  l ← relative_parts (posix_parts base) (posix_parts path); Some (match l with [] => [DOT] | _ => join [SLASH] l end).

Definition _matches (path base pattern : str) : res bool :=
  match relative_to path base with
  | None => Err (ValueError "not in the subpath")
  | Some below_base => Ok (_glob_matches path pattern || _glob_matches below_base pattern)
  end.

(** The comprehension [[entry for entry in ... if keep(entry)]]. *)
Fixpoint filter_entries (keep : _Entry -> res bool) (l : list _Entry) : res (list _Entry) :=
  match l with
  | [] => Ok []
  | e :: r => k <-? keep e ;; r <-? filter_entries keep r ;; Ok (if k : bool then e :: r else r)
  end.

Section scoped.
  Context {X : Type} {windows : Windows X}.
  Context (sha256_hex : bytes -> str) (unicode_decimal : N -> option Z) (casefold_text : str -> str).
  Context (check : list (event X) -> X -> res unit).
Notation K := (ST (pinned X)).

(** ** _walk

    [pending] is the stack, [current] the directory that is being enumerated,
    [found] what was yielded, the last first. *)
Record walker := {
  w_pending : list (str * Z);
  w_current : option (str * Z * wpath);
  w_scanned : Z;
  w_found : list _Entry;
}.

Definition walk_open (w : walker) : K (walker + list _Entry) :=
  match w_pending w with
  | [] => ret (inr (rev (w_found w)))
  | (dir, depth) :: pending =>
      run_check check ;;;
      if _MAX_DEPTH <? depth then fail "result_limit"
      else pinned_directory <- directory dir ;;
           scandir pinned_directory ;;;
           ret (inl {| w_pending := pending; w_current := Some (dir, depth, pinned_directory);
                       w_scanned := w_scanned w; w_found := w_found w |})
  end.

(** [validate_relative_path] and [stat] of an entry; [None]: it is skipped. *)
Definition entry_stat (dir : str) (e : dir_entry) : option (str * stat_info) :=
  match validate_relative_path (join_path dir (d_name e)) false, d_stat e with
  | Ok child, Some info => if blocked (st_attributes info) then None else Some (child, info)
  | _, _ => None
  end.

Definition skipped_code (e : exn) : bool :=
  match e with AgentError code _ _ => bool_decide (code ∈ ["unsafe_path"; "read_failed"]%string) | _ => false end.

Definition walk_entry (recursive : bool) (dir : str) (depth : Z) (w : walker) (e : dir_entry) : K walker :=
  match entry_stat dir e with
  | None => ret w
  | Some (child, info) =>
      if st_is_dir info then
        ret {| w_pending := (if recursive then [(child, depth + 1)] else []) ++ w_pending w; w_current := w_current w;
               w_scanned := w_scanned w; w_found := {| e_path := child; e_kind := KDirectory; e_size := None |} :: w_found w |}
      else if st_is_file info then
        size <- try_except (s <- file_size child ;; ret (Some s)) (fun e => if skipped_code e then ret None else raise e) ;;
        match size with
        | None => ret w
        | Some size =>
            ret {| w_pending := w_pending w; w_current := w_current w; w_scanned := w_scanned w;
                   w_found := {| e_path := child; e_kind := KFile; e_size := Some size |} :: w_found w |}
        end
      else ret w
  end.

Definition walk_body (recursive : bool) (w : walker) : K (walker + list _Entry) :=
  match w_current w with
  | None => walk_open w
  | Some (dir, depth, path) =>
      e <- next_entry path ;;
      match e with
      | None => ret (inl {| w_pending := w_pending w; w_current := None; w_scanned := w_scanned w; w_found := w_found w |})
      | Some e =>
          run_check check ;;;
          let w := {| w_pending := w_pending w; w_current := w_current w; w_scanned := w_scanned w + 1; w_found := w_found w |} in
          if MAX_DIRECTORY_SCANNED <? w_scanned w then fail "result_limit"
          else w <- walk_entry recursive dir depth w e ;; ret (inl w)
      end
  end.

Definition WALK_TURNS : nat := 15.
Definition _walk (relative : str) (recursive : bool) : K (list _Entry) :=
  base <- lift (validate_relative_path relative true) ;;
  loop WALK_TURNS (walk_body recursive) {| w_pending := [(base, 0)]; w_current := None; w_scanned := 0; w_found := [] |}.

(** ** list_directory *)

Definition text_leb (x y : str) : bool :=
  if bool_decide (casefold_text x = casefold_text y) then str_leb x y else str_leb (casefold_text x) (casefold_text y).
Definition entry_leb (x y : _Entry) : bool :=
  match e_kind x, e_kind y with
  | KDirectory, KFile => true
  | KFile, KDirectory => false
  | _, _ => text_leb (e_path x) (e_path y)
  end.

Record list_request := {
  lq_path : str; lq_limit : Z; lq_glob : str; lq_cursor : option str; lq_recursive : bool;
}.
Record list_response := { lr_path : str; lr_entries : list _Entry; lr_continuation : option str }.
Definition lr_truncated (r : list_response) : bool := match lr_continuation r with Some _ => true | None => false end.

Definition _list_directory (q : list_request) : K list_response :=
  path <- lift (validate_relative_path (lq_path q) true) ;;
  if negb ((1 <=? lq_limit q) && (lq_limit q <=? MAX_DIRECTORY_RESULTS)) then fail "invalid_request" else
  lift (check_glob (lq_glob q)) ;;;
  offset <- lift (_decode_cursor unicode_decimal (lq_cursor q)) ;;
  if MAX_DIRECTORY_SCANNED <? offset then fail "invalid_cursor" else
  walked <- _walk path (lq_recursive q) ;;
  kept <- lift (filter_entries (fun e => _matches (e_path e) path (lq_glob q)) walked) ;;
  let entries := stable_sort entry_leb kept in
  if Z.of_nat (length entries) <? offset then fail "invalid_cursor" else
  let page := take (Z.to_nat (lq_limit q)) (drop (Z.to_nat offset) entries) in
  let next := offset + Z.of_nat (length page) in
  ret {| lr_path := path; lr_entries := page;
         lr_continuation := if next <? Z.of_nat (length entries) then Some (_encode_cursor next) else None |}.

(** ** read_file *)

Definition scoped_read_checks (q : read_request) : res unit :=
  if negb ((1 <=? q_max_bytes q) && (q_max_bytes q <=? MAX_READ_BYTES)) then invalid_request
  else if match truthy_cursor (q_cursor q) with Some _ => given (q_end q) | None => false end then invalid_request
  else if bad_line (q_start q) then invalid_request
  else if match q_end q with
          | Some (Some e) => e <? match q_start q with Some (Some s) => s | _ => 1 end
          | Some None => true
          | None => false
          end then invalid_request
  else if match q_max_lines q with Some n => n <? 1 | None => false end then invalid_request
  else Ok tt.

(** The loop over the selected lines. *)
Fixpoint take_checked (e : encoding) (remaining : Z) (index offset : nat) (ls : list str) (selected : list str)
    (next : nat * nat) : K (list str * (nat * nat)) :=
  match ls with
  | [] => ret (selected, next)
  | l :: r =>
      run_check check ;;;
      let part := drop offset l in
      let n := payload_size e part in
      if n <=? remaining then take_checked e (remaining - n) (S index) 0 r (selected ++ [part]) (S index, 0%nat)
      else
        let low := fit_search (length part) e part remaining 0 (length part) in
        if (low =? 0)%nat then if bool_decide (selected = []) then fail "result_limit" else ret (selected, next)
        else ret (selected ++ [take low part], (index, offset + low)%nat)
  end.

Definition scoped_read_page (q : read_request) (path : str) (raw : bytes) : K read_result :=
  run_check check ;;;
  decoded <- lift (_detect_text raw) ;;
  let '(content, e) := decoded in
  let ls := splitlines_keepends content in
  position <- lift (match truthy_cursor (q_cursor q) with
                    | Some c => _decode_read_cursor unicode_decimal c
                    | None => Ok (match q_start q with Some (Some s) => s - 1 | _ => 0 end, 0)
                    end) ;;
  let '(line, character) := position in
  let total := Z.of_nat (length ls) in
  if (total <? line) || ((line =? total) && negb (character =? 0)) then fail "invalid_cursor"
  else if (line <? total) && (Z.of_nat (length (nth (Z.to_nat line) ls [])) <? character) then fail "invalid_cursor" else
  let requested_stop := match q_end q with Some (Some n) => Z.min n total | _ => total end in
  let stop_index := match q_max_lines q with Some n => Z.min requested_stop (line + n) | None => requested_stop end in
  let first := Z.to_nat line in
  let selected := take (Z.to_nat stop_index - first) (drop first ls) in
  taken <- take_checked e (q_max_bytes q) first (Z.to_nat character) selected [] (first, Z.to_nat character) ;;
  let '(parts, (next_line, next_character)) := taken in
  let text := concat parts in
  let truncated := (Z.of_nat next_line <? requested_stop) || (0 <? Z.of_nat next_character) in
  ret {| r_path := path; r_text := text; r_numbered := number_lines (line + 1) (splitlines_keepends text);
         r_encoding := e; r_newline := _newline_style content; r_size := Z.of_nat (length raw); r_sha256 := sha256_hex raw;
         r_first_line := line + 1;
         r_last_line := if bool_decide (text = []) then 0 else line + Z.of_nat (length (splitlines text));
         r_truncated := truncated;
         r_continuation := if truncated then Some (_encode_read_cursor (Z.of_nat next_line) (Z.of_nat next_character)) else None |}.

Definition _read_file (q : read_request) : K read_result :=
  path <- lift (validate_relative_path (q_relative q) false) ;;
  lift (scoped_read_checks q) ;;;
  raw <- read_bytes path check true MAX_SCOPE_READ ;;
  scoped_read_page q path raw.

(** ** search_text *)

(** [sr_regex]: what compiling the query as an expression gives. *)
Record search_request := {
  sr_path : str; sr_query : str; sr_glob : str; sr_case : bool; sr_regex : option (res (str -> res (option Z)));
  sr_limit : Z; sr_preview : Z; sr_cursor : option str;
}.

Definition scoped_column (k : query) (line : str) : res (option Z) :=
  match s_expression k with
  | Some search => match search line with Err TimeoutError => agent_error "search_timeout" | r => r end
  | None => Ok (Z.of_nat <$> (if s_case k then find_text (s_query k) line
                              else find_text (casefold_text (s_query k)) (casefold_text line)))
  end.

(** The lines of one file: matches, and the index after the line that reached
    the limit. *)
Fixpoint lines_checked (k : query) (path : str) (index : nat) (ls : list str) (found : Z) : K (list search_match * option nat) :=
  match ls with
  | [] => ret ([], None)
  | line :: r =>
      run_check check ;;;
      c <- lift (scoped_column k line) ;;
      match c with
      | None => lines_checked k path (S index) r found
      | Some c =>
          let m := {| m_path := path; m_line := Z.of_nat index + 1; m_column := c + 1; m_preview := preview (s_preview k) line |} in
          if s_limit k <=? found + 1 then ret ([m], Some (S index))
          else rest <- lines_checked k path (S index) r (found + 1) ;; ret (m :: rest.1, rest.2)
      end
  end.

(** What is read of one candidate. *)
Inductive candidate_bytes := Content (raw : bytes) | Skipped | TooLarge.
Definition read_candidate (path : str) (remaining : Z) : K candidate_bytes :=
  try_except (raw <- read_bytes path check true remaining ;; ret (Content raw))
    (fun e => match e with
              | AgentError code _ _ => if bool_decide (code = "file_too_large"%string) then ret TooLarge
                                       else if bool_decide (code = "unsafe_path"%string) then ret Skipped else raise e
              | _ => raise e
              end).

Fixpoint files_checked (k : query) (total index offset : nat) (es : list _Entry) (scanned found : Z)
    : K (list search_match * option (nat * nat) * Z) :=
  match es with
  | [] => ret ([], None, scanned)
  | e :: r =>
      let skip scanned := files_checked k total (S index) 0 r scanned found in
      run_check check ;;;
      if match e_size e with Some n => MAX_SEARCH_FILE_BYTES <? n | None => false end then skip scanned
      else if negb (scanned =? 0) && (MAX_SEARCH_SCANNED_BYTES <? scanned + default 0 (e_size e))
      then ret ([], Some (index, 0%nat), scanned)
      else
        content <- read_candidate (e_path e) (Z.min MAX_SEARCH_FILE_BYTES (MAX_SEARCH_SCANNED_BYTES - scanned)) ;;
        match content with
        | Skipped => skip scanned
        | TooLarge => if scanned =? 0 then skip scanned else ret ([], Some (index, 0%nat), scanned)
        | Content raw =>
            let scanned := scanned + Z.of_nat (length raw) in
            if MAX_SEARCH_FILE_BYTES <? Z.of_nat (length raw) then skip scanned else
            t <- lift (text_lines (Ok raw)) ;;
            match t with
            | None => skip scanned
            | Some ls =>
                if (length ls <? offset)%nat then fail "invalid_cursor" else
                here <- lines_checked k (e_path e) offset (drop offset ls) found ;;
                let '(ms, stopped) := here in
                match stopped with
                | Some n =>
                    ret (ms, if (n <? length ls)%nat then Some (index, n)
                             else if (S index <? total)%nat then Some (S index, 0%nat) else None, scanned)
                | None =>
                    rest <- files_checked k total (S index) 0 r scanned (found + Z.of_nat (length ms)) ;;
                    ret (ms ++ rest.1.1, rest.1.2, rest.2)
                end
            end
        end
  end.

Definition _search_text (q : search_request) : K search_result :=
  path <- lift (validate_relative_path (sr_path q) true) ;;
  if bool_decide (sr_query q = []) || (4096 <? Z.of_nat (length (sr_query q))) then fail "invalid_request"
  else if negb ((1 <=? sr_limit q) && (sr_limit q <=? MAX_SEARCH_RESULTS)) ||
          negb ((128 <=? sr_preview q) && (sr_preview q <=? 16384)) then fail "invalid_request" else
  lift (check_glob (sr_glob q)) ;;;
  position <- lift (match truthy_cursor (sr_cursor q) with
                    | Some c => _decode_read_cursor unicode_decimal c
                    | None => Ok (0, 0)
                    end) ;;
  let '(file_index, start_line) := position in
  walked <- _walk path true ;;
  kept <- lift (filter_entries (fun e => if decide (e_kind e = KFile) then _matches (e_path e) path (sr_glob q) else Ok false) walked) ;;
  let entries := stable_sort (fun x y => text_leb (e_path x) (e_path y)) kept in
  let total := Z.of_nat (length entries) in
  if (total <? file_index) || ((file_index =? total) && negb (start_line =? 0)) then fail "invalid_cursor" else
  expression <- lift (match sr_regex q with
                      | None => Ok None
                      | Some (Ok search) => Ok (Some search)
                      | Some (Err _) => agent_error "invalid_request"
                      end) ;;
  let k := {| s_query := sr_query q; s_case := sr_case q; s_expression := expression; s_preview := sr_preview q; s_limit := sr_limit q |} in
  r <- files_checked k (length entries) (Z.to_nat file_index) (Z.to_nat start_line) (drop (Z.to_nat file_index) entries) 0 0 ;;
  let '(ms, next, scanned) := r in
  ret {| x_matches := ms; x_truncated := match next with Some _ => true | None => false end;
         x_continuation := (fun p => _encode_read_cursor (Z.of_nat p.1) (Z.of_nat p.2)) <$> next; x_scanned := scanned |}.

(** ** read_scoped_files *)

Inductive scoped_request := ScopedList (q : list_request) | ScopedRead (q : read_request) | ScopedSearch (q : search_request) | ScopedOther.
Inductive scoped_response := ListedEntries (r : list_response) | ReadPage (r : read_result) | FoundMatches (r : search_result).

Definition scoped_operation (q : scoped_request) : K scoped_response :=
  match q with
  | ScopedList q => r <- _list_directory q ;; ret (ListedEntries r)
  | ScopedRead q => r <- _read_file q ;; ret (ReadPage r)
  | ScopedSearch q => r <- _search_text q ;; ret (FoundMatches r)
  | ScopedOther => fail "invalid_request"
  end.

Definition read_scoped_files (q : scoped_request) : K scoped_response :=
  run_check check ;;;
  result <- try_except (scoped_operation q)
              (fun e => match e with OSError _ => fail "read_failed" | e => raise e end) ;;
  run_check check ;;;
  ret result.

(** ** The walk *)

(** The directory that is enumerated is pinned. *)
Definition walker_ok (root : wpath) (w : walker) (s : pinned X) : Prop :=
  match w_current w with None => True | Some (_, _, p) => root `prefix_of` p /\ chain_known s p end.

Section keeps.
  Context (root : wpath).
Notation keeps := (keeps check root).
Notation ok := (ok check root).
Notation inside := (inside check root).
Notation runs_inside := (runs_inside check root).

Lemma keeps_walk_entry recursive dir depth w e s : inside s -> walker_ok root w s ->
  keeps s (walk_entry recursive dir depth w e) (fun w' s' => walker_ok root w' s').
Proof.
  intros (Hs & Hr & Hne) Hw. unfold walk_entry. destruct (entry_stat dir e) as [[child info]|]; [|by apply keeps_ret].
  destruct (st_is_dir info); [by apply keeps_ret|]. destruct (st_is_file info); [|by apply keeps_ret].
  eapply (keeps_bind _ _ _ _ _ (fun _ s' => walker_ok root w s')).
  { eapply keeps_weaken.
    - apply (inside_except _ _ (s <- file_size child ;; ret (Some s))); [inside_steps|intros ?; inside_steps|by split_and!].
    - intros x s' _ Hg _. unfold walker_ok in *. destruct (w_current w) as [[[??]p]|]; [|done].
      destruct Hw. split; [done|by eapply chain_grown]. }
  intros [n|] s' Hs' _ H; by apply keeps_ret.
Qed.

Lemma keeps_walk_body recursive w s : inside s -> walker_ok root w s ->
  keeps s (walk_body recursive w) (fun x s' => inside s' /\ match x with inl w' => walker_ok root w' s' | inr _ => True end).
Proof.
  intros Hin Hw. pose proof Hin as (Hs & Hr & Hne).
  enough (keeps s (walk_body recursive w) (fun x s' => match x with inl w' => walker_ok root w' s' | inr _ => True end)) as H.
  { eapply keeps_weaken; [exact H|]. intros x s' H1 H2 H3. split; [by eapply inside_grown|done]. }
  unfold walk_body. destruct (w_current w) as [[[dir depth] path]|] eqn:Hc.
  - assert (root `prefix_of` path /\ chain_known s path) as [Hp Hk] by (unfold walker_ok in Hw; by rewrite Hc in Hw).
    eapply keeps_bind; [by apply keeps_next|]. intros [e|] s1 Hs1 Hg1 Hk1; [|by apply keeps_ret].
    eapply (keeps_bind _ _ _ _ _ (fun _ s' => chain_known s' path)); [by apply keeps_check|].
    intros [] s2 Hs2 Hg2 Hk2. case_match; [by apply keeps_raise|].
    eapply keeps_bind; [|intros w' s3 Hs3 _ Hw'; by apply keeps_ret].
    apply keeps_walk_entry; [by eapply (inside_grown _ _ s1); [eapply inside_grown| |]|].
    done.
  - unfold walk_open. destruct (w_pending w) as [|[dir depth] pending]; [by apply keeps_ret|].
    eapply (keeps_bind _ _ _ _ _ (fun _ _ => True)); [by apply keeps_check|]. intros [] s1 Hs1 Hg1 _.
    case_match; [by apply keeps_raise|].
    eapply keeps_bind; [apply keeps_directory; by eapply inside_grown|]. intros p s2 Hs2 Hg2 [Hp Hk].
    eapply keeps_bind; [apply keeps_scandir; [|done|done]|].
    { eapply (inside_grown _ _ s1); [by eapply inside_grown|done|done]. }
    intros [] s3 Hs3 _ Hk3. by apply keeps_ret.
Qed.

Lemma inside_walk relative recursive : runs_inside (_walk relative recursive).
Proof.
  intros s Hin. pose proof Hin as (Hs & _). unfold _walk. eapply keeps_bind; [by apply (keeps_lift _ _ _ _ (fun _ s' => s' = s))|].
  intros base s' _ _ ->. eapply keeps_weaken.
  - apply (keeps_loop _ _ WALK_TURNS (walk_body recursive)
      (fun x s' => inside s' /\ match x with inl w' => walker_ok root w' s' | inr _ => True end)); [|done|done].
    intros w s1 _ [H1 H2]. by apply keeps_walk_body.
  - done.
Qed.

(** ** The operations keep the scope *)

#[local] Hint Resolve inside_walk : inside.

Lemma inside_take e remaining index offset ls selected next :
  runs_inside (take_checked e remaining index offset ls selected next).
Proof.
  revert remaining index offset selected next.
  induction ls as [|l r IH]; intros; cbn [take_checked]; unfold fail; inside_steps.
Qed.
Lemma inside_lines k path index ls found : runs_inside (lines_checked k path index ls found).
Proof.
  revert index found. induction ls as [|l r IH]; intros; cbn [lines_checked]; inside_steps.
Qed.
#[local] Hint Resolve inside_take inside_lines : inside.
Lemma inside_files k total es : forall index offset scanned found,
  runs_inside (files_checked k total index offset es scanned found).
Proof.
  induction es as [|e r IH]; intros; cbn [files_checked]; unfold read_candidate, fail; inside_steps.
Qed.
#[local] Hint Resolve inside_files : inside.

Lemma inside_scoped q : runs_inside (read_scoped_files q).
Proof.
  unfold read_scoped_files, scoped_operation, _list_directory, _read_file, scoped_read_page, _search_text, fail.
  inside_steps.
Qed.
End keeps.

End scoped.

(** ** The walk ends *)

Section walk_ends.
  Context {X : Type} {windows : Windows X} (check : list (event X) -> X -> res unit).

Definition walk_variant (w : walker) : Z :=
  3 * Z.max 0 (MAX_DIRECTORY_SCANNED - w_scanned w) + 2 * Z.of_nat (length (w_pending w)) +
  match w_current w with Some _ => 1 | None => 0 end.

Lemma walk_entry_variant recursive dir depth w e s w' s' : walk_entry recursive dir depth w e s = (Ok w', s') ->
  w_scanned w' = w_scanned w /\ w_current w' = w_current w /\ (length (w_pending w') <= S (length (w_pending w)))%nat.
Proof.
  unfold walk_entry. destruct (entry_stat dir e) as [[child info]|]; [|intros [= <- _]; split_and!; (done || lia)].
  destruct (st_is_dir info); [intros [= <- _]; cbn; destruct recursive; cbn; split_and!; (done || lia)|].
  destruct (st_is_file info); [|intros [= <- _]; split_and!; (done || lia)].
  unfold bind at 1. destruct (try_except _ _ s) as [[[n|]|e'] s1]; [| |done];
    intros [= <- _]; cbn; split_and!; (done || lia).
Qed.

(** However many entries, directories and links Windows reports, the walk stops
    within its turns. *)
Lemma walk_stops recursive base s w' :
  (turns WALK_TURNS (walk_body check recursive) {| w_pending := [(base, 0)]; w_current := None; w_scanned := 0; w_found := [] |} s).1
  <> Ok (inl w').
Proof.
  revert w'. apply (turns_stop _ _ walk_variant); [|done].
  intros w s1 w' s2. unfold walk_body, walk_variant. destruct (w_current w) as [[[dir depth] path]|].
  - unfold bind at 1. destruct (next_entry path s1) as [[[e|]|e] s3]; [| |done].
    + unfold bind at 1. destruct (run_check check s3) as [[[]|e'] s4]; [|done]. cbn [w_scanned].
      destruct (MAX_DIRECTORY_SCANNED <? w_scanned w + 1) eqn:E; [done|]. unfold bind.
      destruct (walk_entry _ _ _ _ _ s4) as [[w1|e'] s5] eqn:Ew; [|done]. intros [= <- _].
      apply walk_entry_variant in Ew. cbn in Ew. destruct Ew as (H1 & H2 & H3). rewrite H1.
      destruct (w_current w1); lia.
    + intros [= <- _]. cbn. lia.
  - unfold walk_open. destruct (w_pending w) as [|[dir depth] pending]; [done|].
    unfold bind at 1. destruct (run_check check s1) as [[[]|e'] s4]; [|done]. destruct (_MAX_DEPTH <? depth); [done|].
    unfold bind at 1. destruct (directory dir s4) as [[p|e] s5]; [|done].
    unfold bind at 1. destruct (scandir p s5) as [[[]|e] s6]; [|done]. intros [= <- _]. cbn [length w_pending w_scanned w_current]. lia.
Qed.
End walk_ends.

(** ** Reading page by page *)

Lemma text_from_app (A B : list str) p : position_ok A p -> text_from (A ++ B) p = text_from A p ++ concat B.
Proof.
  unfold text_from. intros Hp. pose proof (position_bounds A p Hp) as [Hb _]. rewrite drop_app_le, concat_app by done.
  apply drop_app_le. destruct Hp as [[-> _]|(l & H1 & H2)]; [lia|].
  rewrite (drop_S _ l) by done. cbn [concat]. rewrite length_app. lia.
Qed.
Lemma position_app (A B : list str) p : position_ok A p -> position_ok (A ++ B) p.
Proof.
  intros [[H1 H2]|(l & H1 & H2)]; [left; rewrite length_app; lia|right]. exists l. split; [|done].
  by apply lookup_app_l_Some.
Qed.
Lemma text_from_end (ls : list str) p : Forall (fun l => l <> []) ls -> position_ok ls p -> text_from ls p = [] <-> p = (length ls, 0%nat).
Proof.
  intros Hne. destruct p as [n c]. intros [[H1 H2]|(l & H1 & H2)]; cbn [fst snd] in *; unfold text_from; cbn [fst snd].
  - subst c. rewrite drop_0. split.
    + intros E. destruct (decide (n = length ls)) as [->|]; [done|]. exfalso.
      destruct (lookup_lt_is_Some_2 ls n ltac:(lia)) as [l Hl]. rewrite (drop_S _ l) in E by done. cbn in E.
      apply app_eq_nil in E as [-> _]. by apply (Forall_lookup_1 _ _ _ _ Hne Hl).
    + intros [= ->]. by rewrite drop_ge.
  - split; [|intros [= -> ->]; by apply line_in_range in H1; lia].
    intros E. exfalso. rewrite (drop_S _ l) in E by done. cbn [concat] in E.
    apply (f_equal length) in E. rewrite length_drop, length_app in E. cbn in E. lia.
Qed.

(** One page of the loop, below [m] lines. *)
Lemma take_page e maximum m (ls : list str) p : position_ok ls p -> Forall (fun l => l <> []) ls -> 0 <= maximum -> (0 < m)%nat ->
  let S := take m (drop p.1 ls) in
  let '(t, next) := take_lines e maximum p.1 p.2 S (p.1, p.2) in
  position_ok ls next /\ text_from ls p = t ++ text_from ls next /\ payload_size e t <= maximum /\
  (next.1 <= p.1 + m)%nat /\ (4 <= maximum -> text_from ls p <> [] -> t <> []) /\
  (text_from ls p <> [] -> S <> [] /\ forall l r, S = l :: r -> drop p.2 l <> []).
Proof.
  destruct p as [n c]. cbn [fst snd]. intros Hp Hne Hmax Hm. set (L := drop n ls). set (S := take m L).
  pose proof (proj1 (position_shift ls (n, c)) Hp) as [HL Hb]. cbn [fst snd] in HL, Hb. fold L in HL.
  assert (position_ok S (0%nat, c)) as HS.
  { destruct HL as [[Hc _]|(l & H1 & H2)]; cbn [fst snd] in *; [left; cbn; split; [done|lia]|right; exists l]. cbn [fst snd].
    split; [|done]. unfold S. by rewrite lookup_take_lt. }
  assert (Forall (fun l => l <> []) L) as HneL by (by apply Forall_drop).
  assert (text_from ls (n, c) <> [] -> S <> [] /\ forall l r, S = l :: r -> drop c l <> []) as Hfirst.
  { intros Ht. unfold text_from in Ht. cbn [fst snd] in Ht. fold L in Ht. unfold S. destruct m as [|m]; [lia|].
    destruct L as [|l L'] eqn:EL; [exfalso; apply Ht, drop_nil|]. cbn [take]. split; [done|]. intros l' r' [= <- _] Hd.
    apply (f_equal length) in Hd. rewrite length_drop in Hd. cbn in Hd.
    destruct HL as [[Hc _]|(l' & H1 & H2)]; cbn [fst snd] in *; [subst c|simplify_eq/=; lia].
    rewrite Nat.sub_0_r in Hd. apply Forall_cons in HneL as [Hl _]. by destruct l. }
  pose proof (take_lines_spec e maximum n c S Hmax) as Ht. destruct (take_lines e maximum n c S (n, c)) as [t [nl nc]].
  destruct Ht as (H1 & H2 & H3 & H4 & H5); [by apply Forall_take, Forall_drop|done|].
  pose proof (position_bounds _ _ H2) as [H6 _]. cbn [fst] in H6. unfold S in H6. rewrite length_take in H6.
  assert (L = S ++ drop m L) as EL by (symmetry; apply take_drop).
  assert (position_ok L ((nl - n)%nat, nc)) as H7 by (rewrite EL; by apply position_app).
  assert (position_ok ls (nl, nc)) as Hn.
  { apply (proj2 (position_shift ls (nl, nc))). cbn [fst snd]. apply (proj1 (position_shift _ _)) in H7 as [H7 H8]. cbn [fst snd] in *.
    unfold L in H7, H8. rewrite drop_drop in H7. rewrite length_drop in H8. replace (n + (nl - n))%nat with nl in H7 by lia. split; [done|lia]. }
  split; [done|]. split; [|split; [done|]; split; [cbn; lia|]; split; [|done]].
  - transitivity (text_from L (0%nat, c)); [done|]. rewrite EL, text_from_app by done. rewrite H3, <-app_assoc. f_equal.
    rewrite <-text_from_app, <-EL by done. unfold text_from, L. cbn [fst snd]. rewrite drop_drop. by replace (n + (nl - n))%nat with nl by lia.
  - intros H8 H9. apply H5; [done|by apply Hfirst].
Qed.

Section paging.
  Context {X : Type} {windows : Windows X}.
  Context (check : list (event X) -> X -> res unit) (passes : forall l x, check l x = Ok tt).
  #[local] Set Default Proof Using "Type*".
Notation K := (ST (pinned X)).

Lemma check_passes {B} (k : unit -> K B) s : bind (run_check check) k s = k tt (run_check check s).2.
Proof. unfold bind, run_check. cbn [snd]. rewrite passes. reflexivity. Qed.

(** The checked loop is the plain one, but for a page on which nothing fits. *)
Lemma take_checked_spec e remaining index offset ls selected next s :
  let '(t, pos) := take_lines e remaining index offset ls next in
  match (take_checked check e remaining index offset ls selected next s).1 with
  | Ok (parts, pos') => pos' = pos /\ concat parts = concat selected ++ t /\
      (selected = [] -> ls <> [] -> (forall l r, ls = l :: r -> drop offset l <> []) -> t <> [])
  | Err x => x = AgentError "result_limit" false [] /\ selected = [] /\ t = []
  end.
Proof.
  revert remaining index offset selected next s.
  induction ls as [|l r IH]; intros remaining index offset selected next s; cbn [take_lines take_checked].
  { cbn. by rewrite app_nil_r. }
  rewrite check_passes. destruct (payload_size e (drop offset l) <=? remaining) eqn:E.
  - specialize (IH (remaining - payload_size e (drop offset l)) (S index) 0%nat (selected ++ [drop offset l]) (S index, 0%nat)
      (run_check check s).2).
    destruct (take_lines e _ (S index) 0 r (S index, 0%nat)) as [t pos].
    destruct (take_checked _ _ _ _ _ _ _ _ _).1 as [[parts pos']|x].
    + destruct IH as (-> & -> & _). split; [done|]. rewrite concat_app. cbn [concat]. rewrite app_nil_r, <-app_assoc. split; [done|].
      intros _ _ Hl Ht. apply app_eq_nil in Ht as [Ht _]. by apply (Hl l r).
    + destruct IH as (_ & Hn & _). by apply app_eq_nil in Hn as [_ ?].
  - set (low := fit_search _ _ _ _ _ _). destruct (low =? 0)%nat eqn:El.
    + case_bool_decide as Hs; [done|]. cbn. rewrite app_nil_r. split; [done|]. by split.
    + cbn. rewrite concat_app. cbn [concat]. rewrite app_nil_r. split; [done|]. split; [done|].
      intros _ _ Hl Ht. apply (f_equal length) in Ht. rewrite length_take in Ht. cbn in Ht.
      specialize (Hl l r eq_refl). destruct (drop offset l); [done|]. apply Nat.eqb_neq in El. cbn [length] in Ht. lia.
Qed.

Context (sha256_hex : bytes -> str) (unicode_decimal : N -> option Z).

(** A request for everything from a position, with or without a line cap. *)
Definition scoped_from (q : read_request) (p : nat * nat) : Prop :=
  q_start q = None /\ q_end q = None /\ match q_max_lines q with Some n => 1 <= n | None => True end /\
  match truthy_cursor (q_cursor q) with
  | Some c => _decode_read_cursor unicode_decimal c = Ok (Z.of_nat p.1, Z.of_nat p.2)
  | None => p = (0%nat, 0%nat)
  end.

(** One page: nothing of the text before [next] is left out, and there is a next
    page exactly when something is left. *)
Definition page_of (q : read_request) (e : encoding) (ls : list str) (p : nat * nat) (r : read_result) (next : nat * nat) : Prop :=
  position_ok ls next /\ text_from ls p = r_text r ++ text_from ls next /\ payload_size e (r_text r) <= q_max_bytes q /\
  (text_from ls p <> [] -> r_text r <> []) /\
  match q_max_lines q with Some n => Z.of_nat next.1 <= Z.of_nat p.1 + n | None => True end /\
  r_continuation r = if bool_decide (text_from ls next = []) then None
                     else Some (_encode_read_cursor (Z.of_nat next.1) (Z.of_nat next.2)).

Lemma scoped_page_from q path raw t e p s :
  _detect_text raw = Ok (t, e) -> scoped_from q p -> let ls := splitlines_keepends t in
  position_ok ls p -> 1 <= q_max_bytes q ->
  match (scoped_read_page sha256_hex unicode_decimal check q path raw s).1 with
  | Ok r => exists next, page_of q e ls p r next
  | Err x => x = AgentError "result_limit" false [] /\ q_max_bytes q < 4
  end.
Proof.
  intros Hd (Hs & He & Hm & Hc) ls Hp Hmax. pose proof (position_bounds ls p Hp) as [Hb Hend].
  pose proof (keepends_nonempty t) as Hne. fold ls in Hne.
  unfold scoped_read_page. rewrite check_passes, Hd, lift_run. fold ls.
  assert ((match truthy_cursor (q_cursor q) with Some c => _decode_read_cursor unicode_decimal c
    | None => Ok (match q_start q with Some (Some s) => s - 1 | _ => 0 end, 0) end) = Ok (Z.of_nat p.1, Z.of_nat p.2)) as ->.
  { rewrite Hs. destruct (truthy_cursor (q_cursor q)); [done|by subst p]. }
  rewrite lift_run, He.
  replace ((Z.of_nat (length ls) <? Z.of_nat p.1) || ((Z.of_nat p.1 =? Z.of_nat (length ls)) && negb (Z.of_nat p.2 =? 0))) with false.
  2: { symmetry. apply orb_false_iff. split; [lia|]. destruct (Z.of_nat p.1 =? Z.of_nat (length ls)) eqn:E; [|done].
       assert (p.2 = 0%nat) as -> by (apply Hend; lia). done. }
  rewrite !Nat2Z.id.
  replace ((Z.of_nat p.1 <? Z.of_nat (length ls)) && (Z.of_nat (length (nth p.1 ls [])) <? Z.of_nat p.2)) with false.
  2: { symmetry. apply andb_false_iff. right. destruct Hp as [[-> _]|(l & H1 & H2)]; [lia|]. rewrite (nth_lookup_Some _ _ _ _ H1). lia. }
  set (stop := match q_max_lines q with Some n => _ | None => _ end).
  destruct (decide (p.1 = length ls)) as [Hlast|Hlast].
  { (* the end of the file *)
    assert (p = (length ls, 0%nat)) as -> by (destruct p; cbn in *; rewrite Hend by done; congruence). cbn [fst snd] in *.
    rewrite drop_ge, take_nil by done. cbn [take_checked]. unfold bind, ret. cbn [fst]. exists (length ls, 0%nat).
    unfold page_of. cbn [r_text r_continuation concat fst snd]. rewrite (proj2 (text_from_end ls _ Hne Hp) eq_refl).
    rewrite bool_decide_eq_true_2 by done. split_and!; try done; [|by destruct (q_max_lines q); lia|].
    - change (payload_size e []) with 0. lia.
    - by replace (Z.of_nat (length ls) <? Z.of_nat (length ls)) with false by lia. }
  assert (0 < Z.to_nat stop - p.1)%nat as Hstop by (unfold stop; destruct (q_max_lines q); lia).
  pose proof (take_page e (q_max_bytes q) (Z.to_nat stop - p.1)%nat ls p Hp Hne ltac:(lia) Hstop) as Ht.
  pose proof (take_checked_spec e (q_max_bytes q) p.1 p.2 (take (Z.to_nat stop - p.1) (drop p.1 ls)) [] (p.1, p.2) (run_check check s).2) as Hk.
  cbv zeta in Ht.
  destruct (take_lines e (q_max_bytes q) p.1 p.2 _ (p.1, p.2)) as [text next]. destruct Ht as (H1 & H2 & H3 & H4 & H5 & H6).
  assert (text_from ls p <> []) as Hsome.
  { intros E. apply text_from_end in E as ->; [done|done|done]. }
  unfold bind. destruct (take_checked _ _ _ _ _ _ _ _ _) as [[[parts pos]|x] s'].
  - cbn [fst concat app] in Hk. destruct Hk as (-> & Hk1 & Hk2). destruct next as [nl nc]. cbn [ret fst]. exists (nl, nc).
    unfold page_of. cbn [r_text r_continuation fst snd]. rewrite Hk1. split_and!; try done.
    + intros _. destruct (H6 Hsome) as [H7 H8]. by apply Hk2.
    + unfold stop in H4. cbn [fst] in H4. destruct (q_max_lines q); [lia|done].
    + pose proof (text_from_end ls (nl, nc) Hne H1) as Hl. case_bool_decide as E.
      * apply Hl in E as [= -> ->]. by replace (Z.of_nat (length ls) <? Z.of_nat (length ls)) with false by lia.
      * pose proof (position_bounds ls (nl, nc) H1) as [H7 H8]. cbn [fst snd] in H7, H8.
        destruct ((Z.of_nat nl <? Z.of_nat (length ls)) || (0 <? Z.of_nat nc)) eqn:Em; [done|]. exfalso. apply E, Hl.
        f_equal; lia.
  - cbn [fst] in *. destruct Hk as (-> & _ & ->). split; [done|]. destruct (decide (4 <= q_max_bytes q)); [|lia].
    exfalso. by apply (H5 ltac:(done) Hsome).
Qed.

(** A client that asks for the next page as long as there is one, while the file
    keeps its content. *)
Fixpoint scoped_read_all (fuel : nat) (q : read_request) (path : str) (raw : bytes) (s : pinned X) : res (list read_result) :=
  match fuel with
  | O => Err UNFINISHED
  | S fuel =>
      _ <-? scoped_read_checks q ;;
      match scoped_read_page sha256_hex unicode_decimal check q path raw s with
      | (Err x, _) => Err x
      | (Ok r, s') => match r_continuation r with
                      | None => Ok [r]
                      | Some c => pages <-? scoped_read_all fuel (with_cursor c q) path raw s' ;; Ok (r :: pages)
                      end
      end
  end.

Lemma scoped_read_all_from path raw t e : Z.of_nat (length raw) <= MAX_READ_BYTES * 8 -> _detect_text raw = Ok (t, e) ->
  forall fuel q p s, scoped_read_checks q = Ok tt -> scoped_from q p -> position_ok (splitlines_keepends t) p ->
  (length (text_from (splitlines_keepends t) p) < fuel)%nat ->
  match scoped_read_all fuel q path raw s with
  | Ok pages => concat (map r_text pages) = text_from (splitlines_keepends t) p /\
      Forall (fun r => payload_size e (r_text r) <= q_max_bytes q) pages
  | Err x => x = AgentError "result_limit" false [] /\ q_max_bytes q < 4
  end.
Proof.
  intros Hraw Hd. set (ls := splitlines_keepends t).
  assert (length (concat ls) <= length raw)%nat as Hl.
  { unfold ls. rewrite splitlines_keepends_concat. by apply (detect_length raw t e). }
  induction fuel as [|fuel IH]; intros q p s Hq Hf Hp Hfuel; [lia|]. cbn [scoped_read_all]. rewrite Hq. cbn [rbind].
  assert (1 <= q_max_bytes q) as Hmax by (revert Hq; unfold scoped_read_checks; destruct (1 <=? q_max_bytes q) eqn:E; [lia|done]).
  pose proof (scoped_page_from q path raw t e p s Hd Hf Hp Hmax) as Hpage.
  destruct (scoped_read_page _ _ _ _ _ _ _) as [[r|x] s']; [|done]. cbn [fst] in Hpage. fold ls in Hpage.
  destruct Hpage as (next & Hn & Et & Hsize & Hprog & _ & Hcont). rewrite Hcont. case_bool_decide as Hend.
  { split; [|by constructor]. cbn. by rewrite app_nil_r, Et, Hend, app_nil_r. }
  set (c := _encode_read_cursor (Z.of_nat next.1) (Z.of_nat next.2)).
  assert (text_from ls p <> []) as Hne by (rewrite Et; intros E; apply app_eq_nil in E as [_ E]; done).
  assert (small (Z.of_nat next.1) /\ small (Z.of_nat next.2)) as [Hs1 Hs2] by (by apply (position_small ls next (length raw)); [apply keepends_nonempty| | |]).
  pose proof (read_cursor_truthy _ _ Hs1 Hs2) as Hc. fold c in Hc.
  specialize (IH (with_cursor c q) next s').
  assert (scoped_read_checks (with_cursor c q) = Ok tt) as Hq'.
  { revert Hq. unfold scoped_read_checks. cbn [with_cursor q_max_bytes q_max_lines q_cursor q_start q_end]. rewrite Hc. cbn [given bad_line].
    destruct (negb _); [done|]. destruct (match truthy_cursor (q_cursor q) with Some _ => _ | None => _ end); [done|].
    destruct (bad_line _); [done|]. destruct (match q_end q with Some _ => _ | None => _ end); done. }
  assert (scoped_from (with_cursor c q) next) as Hf'.
  { unfold scoped_from. cbn [with_cursor q_start q_end q_max_lines q_cursor]. rewrite Hc. split_and!; [done|done|apply Hf|].
    by apply read_cursor_roundtrip. }
  assert (length (text_from ls next) < fuel)%nat as Hfuel'.
  { assert (r_text r <> []) as Hr by auto. apply (f_equal length) in Et. rewrite length_app in Et.
    destruct (r_text r); [done|]. cbn [length] in Et. lia. }
  specialize (IH Hq' Hf' Hn Hfuel'). cbn [with_cursor q_max_bytes] in IH.
  destruct (scoped_read_all fuel (with_cursor c q) path raw s') as [pages|x]; [|done]. cbn [rbind]. destruct IH as [E1 E2].
  split; [cbn; by rewrite E1, Et|by constructor].
Qed.

(** C19. Reading a file below a consented directory page by page, with or without a
    line cap, ends: the texts of the pages joined are the decoded file and no
    page is larger than asked for; the only error is [result_limit], and only for
    pages of less than four bytes.  (The checks are taken to pass and the file to
    keep its content of at most 16 MiB.) *)
Theorem scoped_reading_is_complete path raw t e q s :
  scoped_read_checks q = Ok tt -> q_start q = None -> q_end q = None -> q_cursor q = None ->
  Z.of_nat (length raw) <= MAX_READ_BYTES * 8 -> _detect_text raw = Ok (t, e) ->
  match scoped_read_all (S (length t)) q path raw s with
  | Ok pages => concat (map r_text pages) = t /\ Forall (fun r => payload_size e (r_text r) <= q_max_bytes q) pages
  | Err x => x = AgentError "result_limit" false [] /\ q_max_bytes q < 4
  end.
Proof.
  intros Hq Hs He Hc Hraw Hd. pose proof (splitlines_keepends_concat t) as Et.
  assert (text_from (splitlines_keepends t) (0%nat, 0%nat) = t) as E0 by (unfold text_from; cbn [fst snd]; by rewrite !drop_0).
  pose proof (scoped_read_all_from path raw t e Hraw Hd (S (length t)) q (0%nat, 0%nat) s Hq) as H. rewrite E0 in H.
  apply H; [|left; cbn; lia|lia]. unfold scoped_from. rewrite Hc. split_and!; try done.
  revert Hq. unfold scoped_read_checks. rewrite Hs, He. destruct (negb _); [done|].
  destruct (match truthy_cursor (q_cursor q) with Some _ => _ | None => _ end); [done|]. cbn [bad_line].
  destruct (q_max_lines q) as [n|]; [|done]. destruct (n <? 1) eqn:E; [done|lia].
Qed.
End paging.
