(* ===== verification/DeviceReads.v ===== *)
(** * File targets and device reads: file_targets.py and device_read.py

    The state of the agent that the file tools share, the pinning of an external
    root around an operation, and [DeviceReadService]: consent first, then the
    data, with a check before every piece of it. *)
From S2P Require Import Prelude Utf8 PyStr Models Paths PatchFormat Database Json Approvals ReadText ReadTools PatchService DevicePaths.

Open Scope Z_scope.

(** The approval manager with the journal database, and what the patch service
    works on: the files of each root, what an interrupted replacement left, the
    transaction journal. *)
Record agent := {
  ag_approvals : approvals;
  ag_files : gmap str (gmap str bytes);
  ag_temporaries : gmap nat bytes;
  ag_journal : gmap str txn;
}.
Definition set_approvals (a : approvals) (x : agent) : agent :=
  {| ag_approvals := a; ag_files := ag_files x; ag_temporaries := ag_temporaries x; ag_journal := ag_journal x |}.

Notation events := (list (event agent)).
Notation K := (ST (pinned agent)).

(** Windows and the clock, whether the coroutine of the operation was cancelled
    by now, what the user does with a question asked now, the file system as the
    path resolver sees it, and SHA-256. *)
Class Device := {
  device_windows :: Windows agent;
  clock_at : events -> Z;
  cancelled_at : events -> bool;
  answers : events -> awaiting;
  project_files : events -> fs;
  fresh_id : events -> str;
  sha256_hex : bytes -> str;
  sha256_text : str -> str;
}.

(** The relay's authorization of a call. *)
Record caller := { cl_grant_id : str; cl_link_id : str; cl_connection_epoch : Z; cl_deadline_at : option Z }.
(** The enrolment the services were made with. *)
Record identity := { account : str; device : str }.

Section device.
  Context {dev : Device} (self : identity).

Definition on_approvals {T} (m : A T) : K T := fun s =>
  let '(r, a) := m (ag_approvals (rest s)) in (r, set_rest (set_approvals a) s).

(** A suspension of the coroutine: others run, and it may be cancelled. *)
Definition await : K unit :=
  emit EvAwait ;;;
  c <- gets (fun s => cancelled_at (log s)) ;;
  raise_if c CancelledError.

Definition now {T} (k : Z -> K T) : K T := n <- gets (fun s => clock_at (log s)) ;; k n.

Definition get_project (id : str) : K Project := on_approvals (on_database (Database.get_project id)).

Definition build_request (c : caller) (p : Project) (capability digest : str) (risk : ApprovalRisk) (summary : str)
    (patch : option str) (external : list str) : K ApprovalRequest :=
  id <- gets (fun s => fresh_id (log s)) ;;
  ret {| request_id := id; account_id := account self; grant_id := cl_grant_id c; link_id := cl_link_id c;
         device_id := device self; ar_project_id := project_id p; project_title := title p;
         capability := capability; ar_action_digest := digest; connection_epoch := cl_connection_epoch c;
         deadline_at := cl_deadline_at c; risk := risk; summary := summary; command := None; ar_patch := patch;
         working_directory := None; environment_differences := None; requested_network := false;
         requested_external_paths := external; session_eligible := false; persistent_read_eligible := false;
         persistent_shell_eligible := false; persistent_screen_eligible := false |}.

(** [action_digest(request)] of the validated request as JSON. *)
Definition action_digest (request : json) : K str :=
  match compute_action_digest sha256_hex request with
  | Some d => ret d
  | None => raise (ValueError "UnicodeEncodeError")
  end.

(** The consent is logged with the state it was asked in. *)
Definition consenting (m : Z -> awaiting -> A unit) : K unit :=
  l <- gets log ;; x <- gets rest ;;
  on_approvals (m (clock_at l) (answers l)) ;;;
  emit (EvConsent x).

(** ** file_targets.py *)

Record FileTarget := {
  ft_project : Project; ft_inside_project : bool; ft_scope_path : option str; ft_scope_identity : str; ft_pinned : bool;
}.

Definition set_root (p : wpath) (s : pinned agent) : pinned agent :=
  {| sc_root := p; _handles := _handles s; _directories := _directories s; sc_identity := sc_identity s; log := log s; rest := rest s |}.

(** [with WindowsReadScope(scope_path) as scope] *)
Definition with_read_scope {T} (scope_path : str) (body : str -> K T) : K T :=
  normalized <- lift (normalize_read_scope scope_path) ;;
  modify (set_root (scope_parts normalized)) ;;;
  with_scope (body normalized).

Definition verify_now (p : Project) : K unit :=
  l <- gets log ;; lift (verify_project sha256_text (project_files l) p).

(** [Path(value)] of a rooted Windows path, and [is_relative_to]: names are
    compared without case. *)
Definition windows_parts (value : str) : wpath := scope_parts (slashes value).
Definition is_relative_to (p base : wpath) : bool :=
  existsb (fun n => bool_decide (path_key (take n p) = path_key base)) (seq 1 (length p)).

Definition resolve_file_target {T} (project : Project) (scope_path : option str) (body : FileTarget -> K T) : K T :=
  if negb (enabled project) then fail "project_disabled" else
  verify_now project ;;;
  match scope_path with
  | None => body {| ft_project := project; ft_inside_project := true; ft_scope_path := None; ft_scope_identity := []; ft_pinned := false |}
  | Some scope =>
      with_read_scope scope (fun normalized =>
        path <- gets sc_root ;;
        l <- gets log ;;
        fp <- lift (file_identity (project_files l) path) ;;
        id <- gets sc_identity ;;
        body {| ft_project := {| project_id := project_id project; title := title project; root := path_str path;
                  root_fingerprint := fingerprint sha256_text fp; mode := mode project; enabled := enabled project |};
                ft_inside_project := is_relative_to path (windows_parts (root project));
                ft_scope_path := Some normalized; ft_scope_identity := id; ft_pinned := true |})
  end.

(** ** A worker thread that is drained

    A cancelled coroutine tells the worker and waits for it; what the worker
    returned or raised is then dropped. *)
Definition drain {T} (work : K T) : K T := fun s =>
  let '(r, s') := work s in
  if cancelled_at (log s') then (Err CancelledError, s') else (r, s').

(** ** device_read.py *)

Inductive device_operation := DListDirectory | DReadFile.
#[export] Instance device_operation_eq_dec : EqDecision device_operation.
Proof. solve_decision. Defined.

Record DeviceReadInput := {
  dq_project_id : option str; dq_operation : device_operation; dq_scope_path : str; dq_path : str; dq_purpose : str;
  dq_offset : Z; dq_limit : Z; dq_start_line : Z; dq_max_lines : Z; dq_max_bytes : Z; dq_json : json;
}.

Inductive entry_view := BlockedEntry | DirectoryEntry | FileEntry (size_bytes : Z).
Record DeviceReadListing := { dl_entries : list (str * entry_view); dl_truncated : bool; dl_next_offset : option Z }.
Record DeviceReadText := {
  dt_numbered_text : str; dt_encoding : encoding; dt_newline : str; dt_size_bytes : Z; dt_sha256 : str;
  dt_truncated : bool; dt_next_line : option Z;
}.
Inductive DeviceReadResult := DeviceListing (r : DeviceReadListing) | DeviceText (r : DeviceReadText).

Section read.
  Context (check : events -> agent -> res unit).

Definition view_entry (e : dir_entry) : entry_view :=
  match d_stat e with
  | None => BlockedEntry
  | Some info => if blocked (st_attributes info) then BlockedEntry
                 else if st_is_dir info then DirectoryEntry
                 else if st_is_file info && (st_nlink info =? 1) then FileEntry (st_size info) else BlockedEntry
  end.

Definition DEVICE_SCAN_LIMIT : Z := 10000.
Definition listing_body (q : DeviceReadInput) (p : wpath) (st : Z * list (str * entry_view))
    : K (Z * list (str * entry_view) + DeviceReadListing) :=
  let '(index, entries) := st in
  e <- next_entry p ;;
  match e with
  | None => ret (inr {| dl_entries := entries; dl_truncated := false; dl_next_offset := None |})
  | Some e =>
      run_check check ;;;
      if DEVICE_SCAN_LIMIT <=? index then ret (inr {| dl_entries := entries; dl_truncated := true; dl_next_offset := None |})
      else if index <? dq_offset q then ret (inl (index + 1, entries))
      else if dq_limit q <=? Z.of_nat (length entries)
      then ret (inr {| dl_entries := entries; dl_truncated := true; dl_next_offset := Some index |})
      else ret (inl (index + 1, entries ++ [(d_name e, view_entry e)]))
  end.

Definition LISTING_TURNS : nat := 14.

(** [f"{index + 1}: {line}\n"] *)
Definition device_line (index : Z) (line : str) : str := str_of_Z (index + 1) ++ [COLON; SPACE] ++ line ++ [LF].

(** The loop over the lines from [index] on; [count] lines are selected. *)
Fixpoint device_lines (max_lines max_bytes : Z) (index : Z) (ls : list str) (count size : Z) : K (str * Z) :=
  match ls with
  | [] => ret ([], index)
  | line :: r =>
      if max_lines <=? count then ret ([], index) else
      run_check check ;;;
      let numbered := device_line index line in
      let n := payload_size UTF8 numbered in
      if max_bytes <? size + n then if count =? 0 then fail "result_limit" else ret ([], index)
      else rest <- device_lines max_lines max_bytes (index + 1) r (count + 1) (size + n) ;;
           ret (numbered ++ rest.1, rest.2)
  end.

Definition device_text (q : DeviceReadInput) (raw : bytes) : K DeviceReadText :=
  decoded <- lift (_detect_text raw) ;;
  let '(text, e) := decoded in
  let ls := splitlines text in
  let first := dq_start_line q - 1 in
  selected <- device_lines (dq_max_lines q) (dq_max_bytes q) first (drop (Z.to_nat first) ls) 0 0 ;;
  let '(numbered, index) := selected in
  let more := index <? Z.of_nat (length ls) in
  ret {| dt_numbered_text := numbered; dt_encoding := e; dt_newline := _newline_style text;
         dt_size_bytes := Z.of_nat (length raw); dt_sha256 := sha256_hex raw;
         dt_truncated := more; dt_next_line := if more then Some (index + 1) else None |}.

Definition _read (q : DeviceReadInput) : K DeviceReadResult :=
  match dq_operation q with
  | DListDirectory =>
      p <- directory (dq_path q) ;;
      scandir p ;;;
      r <- loop LISTING_TURNS (listing_body q p) (0, []) ;;
      ret (DeviceListing r)
  | DReadFile =>
      raw <- read_bytes (dq_path q) check false MAX_SCOPE_READ ;;
      r <- device_text q raw ;;
      ret (DeviceText r)
  end.
End read.

(** The check of one call: [cancelled] and [ensure_current]. *)
Definition device_check (generation : nat) (deadline : option Z) (l : events) (x : agent) : res unit :=
  if cancelled_at l then agent_error "approval_expired"
  else (ensure_current (clock_at l) generation deadline (ag_approvals x)).1.

Definition device_summary (q : DeviceReadInput) : str :=
  lit "Read outside projects: " ++ (match dq_operation q with DListDirectory => lit "list_directory" | DReadFile => lit "read_file" end) ++
  [LF] ++ lit "Scope: " ++ dq_scope_path q ++ [LF] ++ lit "Path: " ++
  (if bool_decide (dq_path q = []) then lit "(scope root)" else dq_path q) ++ [LF] ++ lit "Purpose: " ++ dq_purpose q.

Definition outside_projects : Project :=
  {| project_id := []; title := lit "Outside projects"; root := []; root_fingerprint := []; mode := NATIVE_APPROVAL; enabled := true |}.

(** The question and whether it has to be asked. *)
Definition device_consent (r : ApprovalRequest) (policy : option LocalAccessPolicy) (scope_path scope_identity : str)
    (n : Z) (w : awaiting) : A unit :=
  if match policy with None => true | Some p => requires_approval p end
  then request sha256_hex n w r false
         {| read_scope := if match policy with None => true | Some p => allow_saved_permissions p end
                          then Some (scope_path, scope_identity) else None;
            shell_scope := None; screen_scope := None |} true
  else ret tt.

Definition device_body (q : DeviceReadInput) (c : caller) (project : option Project) (policy : option LocalAccessPolicy)
    (check : events -> agent -> res unit) : K DeviceReadResult :=
  identity <- gets sc_identity ;;
  digest <- action_digest (dq_json q) ;;
  approval <- build_request c (default outside_projects project) (lit "device:read") digest READ (device_summary q)
                None [dq_scope_path q] ;;
  consenting (device_consent approval policy (dq_scope_path q) identity) ;;;
  await ;;;
  run_check check ;;;
  result <- drain (_read check q) ;;
  run_check check ;;;
  ret result.

(** Windows errors below the pinned scope become [read_failed]. *)
Definition read_failed_on_os_error {T} (m : K T) : K T :=
  try_except m (fun e => match e with OSError _ => fail "read_failed" | e => raise e end).

Definition execute (q : DeviceReadInput) (c : caller) : K DeviceReadResult :=
  generation <- on_approvals generation ;;
  project <- match dq_project_id q with
             | None => ret None
             | Some id => p <- get_project id ;; ret (Some p)
             end ;;
  policy <- match project with
            | None => ret None
            | Some p => a <- lift (project_access_policy p false false) ;; ret (Some a)
            end ;;
  let check := device_check generation (cl_deadline_at c) in
  run_check check ;;;
  read_failed_on_os_error
    (with_read_scope (dq_scope_path q) (fun _ => device_body q c project policy check)).
(** A listing stops within its turns, however many entries Windows reports. *)
Lemma listing_stops check q p s st : (turns LISTING_TURNS (listing_body check q p) (0, []) s).1 <> Ok (inl st).
Proof.
  revert st. apply (turns_stop _ _ (fun st => DEVICE_SCAN_LIMIT - st.1)); [|done].
  intros [i es] s1 st s2. unfold listing_body. unfold bind at 1. destruct (next_entry p s1) as [[[e|]|x] s3]; [|done|done].
  unfold bind at 1. destruct (run_check check s3) as [[[]|x] s4]; [|done].
  destruct (DEVICE_SCAN_LIMIT <=? i) eqn:E; [done|].
  destruct (i <? dq_offset q); [|destruct (dq_limit q <=? _); [done|]]; intros [= <- _]; cbn [fst]; lia.
Qed.
End device.
