(* ===== verification/Handler.v ===== *)
(** * The operation handler: protocol_adapter.py and project_management.py

    A validated tool call is routed to its service.  File tools resolve and pin
    their target, ask for the local consent that the project's access mode needs,
    and hand a worker thread the work together with the check it makes before
    every step.  Requests and results are the validated models of the protocol;
    the services modelled over a state of their own are operations of [services]. *)
From S2P Require Import Prelude Utf8 PyStr Models Paths PatchFormat Database Json Approvals PatchService ReadText ReadTools DevicePaths ScopedReads DeviceReads.

Open Scope Z_scope.

(** ** Requests and answers of project_read and project_apply_patch *)

Record list_projects_input := { lp_cursor : option str; lp_limit : Z }.
Record project_summary := { ps_project_id : str; ps_title : str; ps_device_id : str; ps_mode : ProjectMode; ps_online : bool }.
Record project_page := { pp_projects : list project_summary; pp_continuation : option (str * Z) }.

(** The three file operations; the requests are those of the tools. *)
Inductive file_read :=
| ReadList (q : list_request)
| ReadFileRange (path : str) (start_line : Z) (end_line : option Z) (max_bytes : Z) (max_lines : option Z) (continuation : option str)
| ReadSearch (q : search_request).

Record patch_input := {
  pi_patch : str; pi_base_hashes : list (str * option str); pi_idempotency_key : str; pi_dry_run : bool;
}.
Inductive file_work := Reading (q : file_read) | Patching (q : patch_input).

Record file_request := {
  fr_project_id : str; fr_scope_path : option str; fr_purpose : option str; fr_work : file_work; fr_json : json;
}.

Record listing_view := { lv_path : str; lv_entries : list (str * entry_kind * option Z); lv_continuation : option str }.
Record text_view := {
  tv_path : str; tv_numbered : str; tv_encoding : encoding; tv_newline : str; tv_size : Z; tv_sha256 : str;
  tv_first_line : Z; tv_last_line : Z; tv_truncated : bool; tv_continuation : option str;
}.
Record search_view := { sv_matches : list search_match; sv_truncated : bool; sv_continuation : option str }.
Inductive read_view := ListingView (v : listing_view) | TextView (v : text_view) | SearchView (v : search_view).
Inductive file_answer := ReadAnswer (v : read_view) | PatchAnswer (result : json).

(** [_normalize_read_response]: the root is the empty path, an empty cursor is
    none, and what the protocol does not name is dropped. *)
Definition public_path (path : str) : str := if bool_decide (path = [DOT]) then [] else path.
Definition normalize_listing (path : str) (entries : list (str * entry_kind * option Z)) (c : option str) : read_view :=
  ListingView {| lv_path := public_path path; lv_entries := entries; lv_continuation := truthy_cursor c |}.
Definition normalize_text (r : read_result) : read_view :=
  TextView {| tv_path := public_path (r_path r); tv_numbered := r_numbered r; tv_encoding := r_encoding r; tv_newline := r_newline r;
              tv_size := r_size r; tv_sha256 := r_sha256 r; tv_first_line := r_first_line r; tv_last_line := r_last_line r;
              tv_truncated := r_truncated r; tv_continuation := truthy_cursor (r_continuation r) |}.
Definition normalize_search (r : search_result) : read_view :=
  SearchView {| sv_matches := x_matches r; sv_truncated := x_truncated r; sv_continuation := truthy_cursor (x_continuation r) |}.

Definition _normalize_scoped (r : scoped_response) : read_view :=
  match r with
  | ListedEntries r => normalize_listing (lr_path r) (map (fun e => (ScopedReads.e_path e, e_kind e, ScopedReads.e_size e)) (lr_entries r)) (lr_continuation r)
  | ReadPage r => normalize_text r
  | FoundMatches r => normalize_search r
  end.
Definition _normalize_listed (path : str) (r : list_result) : read_view :=
  normalize_listing path
    (map (fun e => (ReadTools.e_path e, if e_directory e then KDirectory else KFile, ReadTools.e_size e)) (l_entries r)) (l_continuation r).

(** A continuation replaces the requested range. *)
Definition range_request (path : str) (start_line : Z) (end_line : option Z) (max_bytes : Z) (max_lines : option Z)
    (continuation : option str) : read_request :=
  let resumed := match truthy_cursor continuation with Some _ => true | None => false end in
  {| q_relative := path; q_start := if resumed then None else Some (Some start_line);
     q_end := if resumed then None else Some <$> end_line; q_max_bytes := max_bytes; q_max_lines := max_lines;
     q_cursor := continuation |}.

Definition scoped_request_of (q : file_read) : scoped_request :=
  match q with
  | ReadList q => ScopedList q
  | ReadFileRange path s e b m c => ScopedRead (range_request path s e b m c)
  | ReadSearch q => ScopedSearch q
  end.

(** ** What the handler uses *)

(** The file system as the plain tools of [ReadTools] see it, the fault oracle
    and the platform of the patch service, and Unicode. *)
Class Handling := {
  handling_device :: Device;
  plain_children : events -> Project -> list_request -> res unit * list child;
  plain_opened : events -> Project -> read_request -> res bytes;
  plain_files : events -> Project -> search_request -> res unit * list (candidate * bool);
  patch_faults : events -> nat -> option exn;
  linesep : str;
  scope_fingerprint : str -> option str;
  unicode_decimal : N -> option Z;
  casefold_text : str -> str;
}.

Section handler.
  Context {handling : Handling} (self : identity) (online : bool).

(** ** _read: without a scope *)

Definition _list_projects (q : list_projects_input) : K project_page :=
  projects <- on_approvals (on_database (list_projects false)) ;;
  offset <- lift (_decode_cursor unicode_decimal (lp_cursor q)) ;;
  let page := take (Z.to_nat (lp_limit q)) (drop (Z.to_nat offset) projects) in
  let next_offset := offset + Z.of_nat (length page) in
  let total := Z.of_nat (length projects) in
  ret {| pp_projects := map (fun p => {| ps_project_id := project_id p; ps_title := title p; ps_device_id := device self;
           ps_mode := mode p; ps_online := online |}) page;
         pp_continuation := if next_offset <? total then Some (_encode_cursor next_offset, total - next_offset) else None |}.

(** [self.reads.execute(value)]: the project is looked up again. *)
Definition read_project (project_id : str) (q : file_read) : K read_view :=
  project <- get_project project_id ;;
  if negb (enabled project) then fail "project_disabled" else
  l <- gets log ;;
  match q with
  | ReadList q =>
      let '(resolved, children) := plain_children l project q in
      r <- lift (list_directory unicode_decimal casefold_text (lq_limit q) (lq_cursor q) (Some (lq_glob q)) resolved children) ;;
      path <- lift (validate_relative_path (lq_path q) true) ;;
      ret (_normalize_listed path r)
  | ReadFileRange path s e b m c =>
      let q := range_request path s e b m c in
      r <- lift (read_file sha256_hex unicode_decimal q (plain_opened l project q)) ;;
      ret (normalize_text r)
  | ReadSearch q =>
      expression <- lift (match sr_regex q with
                          | None => Ok None
                          | Some (Ok search) => Ok (Some search)
                          | Some (Err _) => agent_error "invalid_request"
                          end) ;;
      let '(resolved, files) := plain_files l project q in
      r <- lift (search_text unicode_decimal casefold_text
                   {| s_query := sr_query q; s_case := sr_case q; s_expression := expression; s_preview := sr_preview q; s_limit := sr_limit q |}
                   [sr_glob q] (sr_cursor q) resolved files) ;;
      ret (normalize_search r)
  end.

(** ** _file_operation *)

(** [ensure_policy] and the check of a worker. *)
Definition ensure_policy (generation : nat) (deadline : option Z) (project : Project) (l : events) (x : agent) : res unit :=
  (ensure_current (clock_at l) generation deadline (ag_approvals x)).1 ;;?
  current <-? (on_database (Database.get_project (project_id project)) (ag_approvals x)).1 ;;
  if negb (enabled current) || negb (bool_decide (mode current = mode project)) then agent_error "approval_expired" else Ok tt.
Definition worker_check (generation : nat) (deadline : option Z) (project : Project) (l : events) (x : agent) : res unit :=
  if cancelled_at l then agent_error "approval_expired" else ensure_policy generation deadline project l x.

Definition check_now (check : events -> agent -> res unit) : K unit :=
  l <- gets log ;; x <- gets rest ;; lift (check l x).

Definition parent_path (p : str) : str :=
  match removelast (posix_parts (slashes p)) with [] => [DOT] | l => join [SLASH] l end.

(** The parents a patch needs are pinned, then every pin is given back. *)
Definition pin_parents (sections : list PatchSection) : K unit :=
  for_each sections (fun s =>
    directory (parent_path (path s)) ;;;
    match destination s with
    | Some d => if bool_decide (d = []) then ret tt else directory (parent_path d) ;;; ret tt
    | None => ret tt
    end) ;;;
  release_for_mutation.

Definition binding_of (c : caller) : Binding :=
  {| b_account_id := account self; b_grant_id := cl_grant_id c; b_link_id := cl_link_id c; b_device_id := device self |}.

(** A run of the patch service on the files of [root]. *)
Definition on_patches {T} (root : str) (m : (nat -> option exn) -> W T) : K T := fun s =>
  let x := rest s in
  match a_database (ag_approvals x) with
  | None => (Err (ValueError "no database"), s)
  | Some d =>
      let '(r, w) := m (patch_faults (log s)) {| files := default ∅ (ag_files x !! root); temporaries := ag_temporaries x;
        journal := ag_journal x; database := d; mutated := false; records := []; clock := O |} in
      (r, set_rest (fun _ => {|
            ag_approvals := {| a_database := Some (database w); _grants := _grants (ag_approvals x);
                               _security_generation := _security_generation (ag_approvals x) |};
            ag_files := <[root := files w]> (ag_files x); ag_temporaries := temporaries w; ag_journal := journal w |}) s)
  end.

Definition patch_request_of (project_id : str) (q : patch_input) (c : caller) (scope_path : option str) : patch_request :=
  {| q_project_id := project_id; q_patch := pi_patch q; q_base_hashes := pi_base_hashes q;
     q_idempotency_key := pi_idempotency_key q; q_dry_run := pi_dry_run q; q_binding := binding_of c; q_scope_path := scope_path |}.

Definition apply_patch (project_id : str) (q : patch_input) (c : caller) (target : FileTarget) (check : events -> agent -> res unit) : K json :=
  run_check check ;;;
  x <- gets rest ;;
  emit (EvApply x) ;;;
  uuid <- gets (fun s => fresh_id (log s)) ;;
  on_patches (root (ft_project target)) (fun faults =>
    apply sha256_hex linesep scope_fingerprint faults
      (patch_request_of project_id q c (ft_scope_path target)) false
      (match ft_scope_path target with Some _ => Some (ft_project target) | None => None end) uuid).

Definition perform (request : file_request) (c : caller) (target : FileTarget) (check : events -> agent -> res unit) : K file_answer :=
  match fr_work request with
  | Patching q => r <- apply_patch (fr_project_id request) q c target check ;; ret (PatchAnswer r)
  | Reading q =>
      run_check check ;;;
      if ft_pinned target then
        r <- read_scoped_files sha256_hex unicode_decimal casefold_text check (scoped_request_of q) ;;
        ret (ReadAnswer (_normalize_scoped r))
      else r <- read_project (fr_project_id request) q ;; ret (ReadAnswer r)
  end.

Definition operation_name (w : file_work) : str :=
  match w with
  | Patching _ => lit "file_patch"
  | Reading (ReadList _) => lit "list_directory"
  | Reading (ReadFileRange _ _ _ _ _ _) => lit "read_file"
  | Reading (ReadSearch _) => lit "search_text"
  end.
Definition shown_path (w : file_work) : str :=
  match w with
  | Patching _ => lit "(patch document)"
  | Reading q =>
      let p := match q with ReadList q => lq_path q | ReadFileRange p _ _ _ _ _ => p | ReadSearch q => sr_path q end in
      if bool_decide (p = []) then lit "(root)" else p
  end.
Definition file_summary (request : file_request) (target : FileTarget) : str :=
  operation_name (fr_work request) ++ lit ": " ++ default (lit "None") (fr_purpose request) ++ [LF] ++
  lit "Target root: " ++ root (ft_project target) ++ [LF] ++ lit "Path: " ++ shown_path (fr_work request).

(** What the operation asks for, by what it does and where. *)
Definition writes (w : file_work) : bool := match w with Patching q => negb (pi_dry_run q) | Reading _ => false end.
Definition mutates (w : file_work) : bool := match w with Patching _ => true | Reading _ => false end.
Definition deletes (w : file_work) (sections : list PatchSection) : bool :=
  writes w && existsb (fun s => bool_decide (action s ∈ [Delete; Move])) sections.
Definition file_capability (w : file_work) (external : bool) : str :=
  if writes w then lit "files:write" else if external then lit "device:read" else lit "files:read".
Definition file_risk (w : file_work) (sections : list PatchSection) : ApprovalRisk :=
  if deletes w sections then DELETE else if writes w then WRITE else READ.
Definition file_scopes (w : file_work) (target : FileTarget) (saved : bool) : scopes :=
  {| read_scope := match ft_scope_path target with
                   | Some p => if negb (ft_inside_project target) && negb (mutates w) && negb (bool_decide (p = [])) &&
                                  negb (bool_decide (ft_scope_identity target = [])) && saved
                               then Some (p, ft_scope_identity target) else None
                   | None => None
                   end;
     shell_scope := None; screen_scope := None |}.

(** From the resolved target to the permission. *)
Definition authorize_file (request : file_request) (c : caller) (project : Project) (target : FileTarget)
    (sections : list PatchSection) : K unit :=
  let w := fr_work request in
  digest <- action_digest (fr_json request) ;;
  approval <- build_request self c project (file_capability w (negb (ft_inside_project target))) digest (file_risk w sections)
    (file_summary request target) (match w with Patching q => Some (pi_patch q) | Reading _ => None end)
    (match ft_scope_path target with
     | Some p => if negb (ft_inside_project target) && negb (bool_decide (p = [])) then [p] else []
     | None => []
     end) ;;
  d <- gets (fun s => a_database (ag_approvals (rest s))) ;;
  consenting (fun n a => authorize_project_operation sha256_hex n a project approval (ft_inside_project target) false
                (file_scopes w target (match d with Some _ => true | None => false end))).

Definition file_body (request : file_request) (c : caller) (generation : nat) (project : Project) (target : FileTarget) : K file_answer :=
  sections <- lift (match fr_work request with Patching q => parse (pi_patch q) | Reading _ => Ok [] end) ;;
  authorize_file request c project target sections ;;;
  await ;;;
  check_now (fun l x => (ensure_current (clock_at l) generation (cl_deadline_at c) (ag_approvals x)).1) ;;;
  when (mutates (fr_work request) && ft_pinned target) (pin_parents sections) ;;;
  result <- drain (perform request c target (worker_check generation (cl_deadline_at c) project)) ;;
  await ;;;
  check_now (ensure_policy generation (cl_deadline_at c) project) ;;;
  ret result.

Definition _file_operation (request : file_request) (c : caller) : K file_answer :=
  project <- get_project (fr_project_id request) ;;
  await ;;;
  generation <- on_approvals generation ;;
  check_now (fun l x => (ensure_current (clock_at l) generation (cl_deadline_at c) (ag_approvals x)).1) ;;;
  resolve_file_target project (fr_scope_path request) (file_body request c generation project).
End handler.
