(* ===== verification/HandlerCalls.v ===== *)
(** * Calls of the agent: the rest of protocol_adapter.py and project_management.py

    Project management, code intelligence with its repeated authorization, and the
    routing of [execute]. *)
From S2P Require Import Prelude Utf8 PyStr Models Paths PatchFormat Database Json Approvals PatchService ReadText ReadTools DevicePaths ScopedReads DeviceReads Handler.

Open Scope Z_scope.

(** ** project_management.py *)

Inductive manage_input :=
| GetProjects (limit : Z)
| RequestAddProject (title : str)
| RenameProject (project_id new_title : str) (request : json)
| RemoveProject (project_id : str) (request : json).

Inductive manage_answer :=
| ProjectsFound (l : list project_summary)
| RegistrationRequested (request_id title : str)
| ProjectRenamed (project_id title : str)
| ProjectRemoved (project_id title : str).

(** ** Code intelligence *)

Record code_input := { ci_project_id : str; ci_operation : str; ci_purpose : str; ci_json : json }.

(** The analysis itself is a task of its own: whether it is done by now and what
    it gives are the answers of [Analysis]. *)
Class Analysis := {
  analysis_done : events -> bool;
  analysis_result : events -> res json;
}.

(** ** The other services, as the adapter calls them *)

Record services := {
  device_desktop : json -> caller -> K json;
  device_screenshot : json -> caller -> K json;
  project_shell : json -> caller -> K json;
  project_frontend : option (json -> caller -> K json);
}.

(** A validated call, and the answer before its validation. *)
Inductive tool_call :=
| CallDesktop (q : json)
| CallScreenshot (q : json)
| CallDeviceRead (q : DeviceReadInput)
| CallListProjects (q : list_projects_input)
| CallProjectRead (q : file_request)
| CallApplyPatch (q : file_request)
| CallShell (q : json)
| CallFrontend (q : json)
| CallManage (q : manage_input)
| CallCode (q : code_input).
Inductive tool_answer :=
| JsonAnswer (j : json)
| DeviceReadAnswer (r : DeviceReadResult)
| ProjectsAnswer (r : project_page)
| FileAnswer (r : file_answer)
| ManageAnswer (r : manage_answer).

(** [pydantic.ValidationError] *)
Definition INVALID : exn := ValueError "ValidationError".

Section calls.
  Context {handling : Handling} {analysis : Analysis} (self : identity) (online : bool).

Definition summary_of (p : Project) (on : bool) : project_summary :=
  {| ps_project_id := project_id p; ps_title := title p; ps_device_id := device self; ps_mode := mode p; ps_online := on |}.

Definition current_check (generation : nat) (deadline : option Z) (l : events) (x : agent) : res unit :=
  (ensure_current (clock_at l) generation deadline (ag_approvals x)).1.

(** What a rename or a removal does once it is allowed: the project and its mode
    are looked at again. *)
Definition change_metadata (c : caller) (project : Project) (request : json) (risk : ApprovalRisk) (verb : str)
    (generation : nat) (change : Z -> DB unit) : K unit :=
  digest <- action_digest request ;;
  approval <- build_request self c project (lit "projects:write") digest risk
    (lit "Allow ChatGPT to " ++ verb ++ lit " the registered project metadata?") None [] ;;
  consenting (fun n a => authorize_project_operation sha256_hex n a project approval true false no_scopes) ;;;
  await ;;;
  check_now (current_check generation (cl_deadline_at c)) ;;;
  current <- get_project (project_id project) ;;
  lift (project_access_policy current true false) ;;;
  (if negb (bool_decide (mode current = mode project)) then fail "approval_expired" else ret tt) ;;;
  n <- gets (fun s => clock_at (log s)) ;;
  on_approvals (on_database (change n)).

Definition manage (q : manage_input) (c : caller) : K manage_answer :=
  generation <- on_approvals generation ;;
  check_now (current_check generation (cl_deadline_at c)) ;;;
  match q with
  | GetProjects limit =>
      projects <- on_approvals (on_database (list_projects false)) ;;
      ret (ProjectsFound (map (fun p => summary_of p true) (take (Z.to_nat limit) projects)))
  | RequestAddProject title =>
      n <- gets (fun s => clock_at (log s)) ;;
      fresh <- gets (fun s => fresh_id (log s)) ;;
      id <- on_approvals (on_database (create_project_registration_request n fresh title (account self) (cl_grant_id c)
              (cl_link_id c) (device self) (cl_connection_epoch c))) ;;
      ret (RegistrationRequested id title)
  | RenameProject id new_title request =>
      project <- get_project id ;;
      change_metadata c project request WRITE (lit "rename") generation
        (fun n => set_project_title n (project_id project) new_title) ;;;
      ret (ProjectRenamed (project_id project) (strip new_title))
  | RemoveProject id request =>
      project <- get_project id ;;
      change_metadata c project request DELETE (lit "unregister") generation
        (fun n => set_project_enabled n (project_id project) false) ;;;
      ret (ProjectRemoved (project_id project) (title project))
  end.

(** ** _code_operation *)

Definition native_analysis (operation : str) : bool :=
  negb (bool_decide (operation ∈ [lit "code_intelligence_status"; lit "code_workspace_summary"])).

Definition code_check (generation : nat) (deadline : option Z) (project : Project) (l : events) (x : agent) : res unit :=
  (ensure_current (clock_at l) generation deadline (ag_approvals x)).1 ;;?
  current <-? (on_database (Database.get_project (project_id project)) (ag_approvals x)).1 ;;
  if negb (enabled current) || negb (bool_decide (mode current = mode project)) ||
     negb (bool_decide (root current = root project)) ||
     negb (bool_decide (root_fingerprint current = root_fingerprint project)) then agent_error "approval_expired"
  else verify_project sha256_text (project_files l) project.

(** [await asyncio.to_thread(ensure_authorized_sync)] *)
Definition ensure_authorized (generation : nat) (deadline : option Z) (project : Project) : K unit :=
  await ;;; run_check (code_check generation deadline project).

(** [while not task.done()]: the authorization is checked, then at most 0.2
    seconds pass. *)
Fixpoint watch (fuel : nat) (generation : nat) (deadline : option Z) (project : Project) : K unit :=
  finished <- gets (fun s => analysis_done (log s)) ;;
  if finished : bool then ret tt
  else match fuel with
       | O => raise UNFINISHED
       | S fuel => ensure_authorized generation deadline project ;;; await ;;; watch fuel generation deadline project
       end.

Definition code_summary (q : code_input) (p : Project) : str :=
  ci_operation q ++ lit ": " ++ ci_purpose q ++ [LF] ++ lit "Project: " ++ title p ++
  (if native_analysis (ci_operation q)
   then [LF] ++ lit "May start trusted native analysis tools and write private analysis cache." else []).

Definition _code_operation (fuel : nat) (q : code_input) (c : caller) : K json :=
  project <- get_project (ci_project_id q) ;;
  await ;;;
  generation <- on_approvals generation ;;
  let native := native_analysis (ci_operation q) in
  let authorized := ensure_authorized generation (cl_deadline_at c) project in
  authorized ;;;
  digest <- action_digest (ci_json q) ;;
  approval <- build_request self c project (if native then lit "shell:execute" else lit "files:read") digest
    (if native then NATIVE_EXECUTION else READ) (code_summary q project) None [] ;;
  consenting (fun n a => authorize_project_operation sha256_hex n a project approval true native no_scopes) ;;;
  authorized ;;;
  await ;;;
  authorized ;;;
  x <- gets rest ;;
  emit (EvApply x) ;;;
  watch fuel generation (cl_deadline_at c) project ;;;
  l <- gets log ;;
  result <- lift (analysis_result l) ;;
  authorized ;;;
  ret result.

(** ** execute *)

(** [None]: the service is not available. *)
Definition available {T} (s : option T) : K T := match s with Some s => ret s | None => fail "invalid_request" end.

(** A slot may have to be waited for. *)
Definition in_read_slot {T} (m : K T) : K T := await ;;; m.

Section execute.
  Context (tools : services) (managed analysed : bool) (fuel : nat).
  (** The validators of the protocol, for the payload of a tool ([None]: the name
      is unknown) and for an answer. *)
  Context (validate_call : str -> json -> option (res tool_call)) (validate_answer : tool_answer -> res tool_answer).

(** The root the patch service works on. *)
Definition target_root (q : file_request) (a : approvals) : str :=
  match fr_scope_path q with
  | Some scope => path_str (scope_parts scope)
  | None => match a_database a with
            | Some d => match projects d !! fr_project_id q with Some row => root (pr_project row) | None => [] end
            | None => []
            end
  end.

(** A redelivered patch that is settled is answered without asking again. *)
Definition reconcile (q : file_request) (c : caller) : K (option json) :=
  match fr_work q with
  | Patching p =>
      files_root <- gets (fun s => target_root q (ag_approvals (rest s))) ;;
      r <- on_patches files_root (fun faults =>
        reconcile_duplicate sha256_hex scope_fingerprint faults (patch_request_of self (fr_project_id q) p c (fr_scope_path q))) ;;
      await ;;; ret r
  | Reading _ => ret None
  end.

Definition run_call (call : tool_call) (c : caller) (reconcile_duplicate : bool) : K tool_answer :=
  match call with
  | CallDesktop q => r <- device_desktop tools q c ;; ret (JsonAnswer r)
  | CallScreenshot q => in_read_slot (r <- device_screenshot tools q c ;; ret (JsonAnswer r))
  | CallDeviceRead q => in_read_slot (r <- DeviceReads.execute self q c ;; ret (DeviceReadAnswer r))
  | CallListProjects q => in_read_slot (r <- _list_projects self online q ;; await ;;; ret (ProjectsAnswer r))
  | CallProjectRead q => in_read_slot (r <- _file_operation self q c ;; ret (FileAnswer r))
  | CallApplyPatch q =>
      cached <- (if reconcile_duplicate then reconcile q c else ret None) ;;
      match cached with
      | Some r => ret (FileAnswer (PatchAnswer r))
      | None => r <- _file_operation self q c ;; ret (FileAnswer r)
      end
  | CallShell q => r <- project_shell tools q c ;; ret (JsonAnswer r)
  | CallFrontend q => run <- available (project_frontend tools) ;; r <- run q c ;; ret (JsonAnswer r)
  | CallManage q => if managed then r <- manage q c ;; ret (ManageAnswer r) else fail "invalid_request"
  | CallCode q => if analysed then r <- _code_operation fuel q c ;; ret (JsonAnswer r) else fail "invalid_request"
  end.

Definition execute (tool_name : str) (payload : json) (c : caller) (reconcile_duplicate : bool) : K tool_answer :=
  try_except
    (match validate_call tool_name payload with
     | None => fail "invalid_request"
     | Some call =>
         call <- lift call ;;
         r <- run_call call c reconcile_duplicate ;;
         lift (validate_answer r)
     end)
    (fun e => if bool_decide (e = INVALID) then fail "invalid_request" else raise e).
End execute.
End calls.
