(* ===== verification/HandlerGuarantees.v ===== *)
(** * What the operation handler guarantees

    In every run of a file operation, whatever Windows, the user and the other
    tasks do meanwhile: no data is read and no patch is started before the local
    consent, every read is of a validated and pinned file below the consented
    scope right after a check that passed, and no handle is left behind. *)
From S2P Require Import Prelude Utf8 PyStr Models Paths PatchFormat Database Json Approvals PatchService ReadText ReadTools DevicePaths ScopedReads DeviceReads Handler.

Open Scope Z_scope.

(** ** Consent before data *)

Section consent.
  Context {dev : Device} (E : agent -> events -> Prop).

(** Data is only touched after a consent, and every consent has its evidence
    [E]: the state it was asked in and what had happened. *)
Fixpoint consent_log (l : events) : Prop :=
  match l with
  | [] => True
  | e :: older =>
      match e with
      | EvConsent x => E x older
      | EvRead _ _ | EvApply _ => exists x, EvConsent x ∈ older
      | _ => True
      end /\ consent_log older
  end.

Definition consented (s : pinned agent) : Prop := exists x, EvConsent x ∈ log s.

(** A stretch of a run: with [after], one that starts after a consent. *)
Definition lawful (after : bool) (s s' : pinned agent) : Prop :=
  (after = true -> consented s) ->
  (consent_log (log s) -> consent_log (log s')) /\ (forall x, EvConsent x ∈ log s -> EvConsent x ∈ log s').

#[local] Instance lawful_preorder after : PreOrder (lawful after).
Proof.
  split; [by intros s _|]. intros s1 s2 s3 H1 H2 Hc. destruct (H1 Hc) as [H3 H4]. destruct H2 as [H5 H6].
  { intros Ha. destruct (Hc Ha) as [x Hx]. exists x. auto. }
  auto.
Qed.

Definition emits (after : bool) (e : event agent) : bool :=
  match e with EvConsent _ => false | EvRead _ _ | EvApply _ => after | _ => true end.

Lemma lawful_emit after e : emits after e = true -> along (lawful after) (emit e).
Proof.
  intros He s Hc. cbn [emit modify snd log consent_log]. split; [|by intros x; right].
  intros Hl. split; [|done]. destruct e; cbn in He; try done; destruct (Hc He) as [x Hx]; eauto.
Qed.
Lemma lawful_same after s s' : log s' = log s -> lawful after s s'.
Proof. intros H _. by rewrite H. Qed.
Lemma lawful_modify after f : (forall s, log (f s) = log s) -> along (lawful after) (modify f).
Proof. intros H s. apply lawful_same, H. Qed.
Lemma lawful_check after c : along (lawful after) (run_check c).
Proof. intros s. exact (lawful_emit after (EvCheck (rest s) (is_ok (c (log s) (rest s)))) eq_refl s). Qed.
Lemma lawful_ask after {T} (answer : events -> T) (e : T -> event agent) :
  (forall t, emits after (e t) = true) -> along (lawful after) (ask answer e).
Proof. intros He s. apply (lawful_emit after _ (He (answer (log s)))). Qed.
Lemma lawful_approvals after {T} (m : A T) : along (lawful after) (on_approvals m).
Proof. intros s. unfold on_approvals. destruct (m _) as [r a]. by apply lawful_same. Qed.
Lemma lawful_turns after {T U} n (body : T -> K (T + U)) :
  (forall t, along (lawful after) (body t)) -> forall t, along (lawful after) (turns n body t).
Proof.
  intros Hb. induction n as [|n IH]; intros t; cbn [turns]; [apply Hb|]. apply along_bind; [apply _|apply IH|].
  intros [t'|u]; [apply IH|apply along_ret, _].
Qed.
Lemma lawful_loop after {T U} n (body : T -> K (T + U)) t :
  (forall t, along (lawful after) (body t)) -> along (lawful after) (loop n body t).
Proof.
  intros Hb. apply along_bind; [apply _|by apply lawful_turns|]. intros [t'|u]; [apply along_raise, _|apply along_ret, _].
Qed.
Lemma lawful_finally after {T} (m : K T) f : along (lawful after) m -> along (lawful after) f -> along (lawful after) (try_finally m f).
Proof.
  intros Hm Hf s. unfold try_finally. specialize (Hm s). destruct (m s) as [r s1]. cbn [snd] in Hm. specialize (Hf s1).
  destruct (f s1) as [[[]|e] s2]; cbn [snd] in Hf; destruct r as [t|[]]; try exact Hm; by transitivity s1.
Qed.
Lemma lawful_for_each after {T} (l : list T) body :
  (forall t, along (lawful after) (body t)) -> along (lawful after) (for_each l body).
Proof. intros Hb. induction l as [|t l IH]; cbn [for_each]; [apply along_ret, _|]. apply along_bind; [apply _|apply Hb|done]. Qed.

#[local] Hint Resolve lawful_check @lawful_approvals : along.
#[local] Hint Extern 1 (along (lawful _) (emit _)) => by apply lawful_emit : along.
#[local] Hint Extern 1 (along (lawful _) (modify _)) => by apply lawful_modify : along.
#[local] Hint Extern 1 (along (lawful _) (ask _ _)) => by apply lawful_ask : along.
#[local] Hint Extern 1 (along (lawful _) (fail _)) => apply along_raise, _ : along.

(** *** The operations of a scope *)

Lemma lawful_open after p d : along (lawful after) (_open p d).
Proof. unfold _open. along_steps. Qed.
#[local] Hint Resolve lawful_open : along.
Lemma lawful_close after : along (lawful after) close.
Proof. unfold close, CloseHandle. along_steps. apply lawful_for_each. intros h. along_steps. Qed.
Lemma lawful_release after h : along (lawful after) (release h).
Proof. unfold release, CloseHandle. along_steps. Qed.
Lemma lawful_target after cs : forall current d last, along (lawful after) (open_target current cs d last).
Proof. induction cs as [|c cs IH]; intros; cbn [open_target]; along_steps. Qed.
Lemma lawful_chain after cs : forall current i, along (lawful after) (open_chain current cs i).
Proof. induction cs as [|c cs IH]; intros; cbn [open_chain]; along_steps. Qed.
#[local] Hint Resolve lawful_close lawful_release lawful_target lawful_chain : along.

Lemma lawful_directory after relative : along (lawful after) (directory relative).
Proof. unfold directory, _target. along_steps. Qed.
Lemma lawful_file_size after relative : along (lawful after) (file_size relative).
Proof. unfold file_size, _target. along_steps. Qed.
Lemma lawful_scandir after p : along (lawful after) (scandir p).
Proof. unfold scandir. along_steps. Qed.
Lemma lawful_next after p : along (lawful after) (next_entry p).
Proof. unfold next_entry. along_steps. Qed.
Lemma lawful_enter after : along (lawful after) enter.
Proof.
  intros s. unfold enter, closing. match goal with |- context [match ?m s with _ => _ end] => assert (lawful after s (m s).2) as H end.
  { unfold _assert_fixed_drive, _assert_supported_filesystem. apply (fun m (H : along (lawful after) m) => H s). along_steps. }
  match goal with |- context [match ?m s with _ => _ end] => destruct (m s) as [[[]|e] s1] end; [done|]. cbn [snd] in *.
  transitivity s1; [done|]. apply lawful_close.
Qed.
Lemma lawful_read_bytes relative c release_file n : along (lawful true) (read_bytes relative c release_file n).
Proof.
  unfold read_bytes, _target. along_steps. apply lawful_finally; [|along_steps].
  unfold _read_handle. repeat (case_match; [along_steps|]). apply lawful_loop. intros data. unfold read_body. along_steps.
Qed.
#[local] Hint Resolve lawful_directory lawful_file_size lawful_scandir lawful_next lawful_enter lawful_read_bytes : along.
#[local] Hint Extern 2 (along (lawful _) (loop _ _ _)) => apply lawful_loop; intros : along.

(** *** Reads through a scope *)

Section reading.
  Context (sha : bytes -> str) (dec : N -> option Z) (fold_text : str -> str) (check : events -> agent -> res unit).

Lemma lawful_walk relative recursive : along (lawful true) (_walk check relative recursive).
Proof.
  unfold _walk. apply along_bind; [apply _|apply along_lift, _|]. intros base. apply lawful_loop. intros w.
  unfold walk_body, walk_open, walk_entry. along_steps.
Qed.
Lemma lawful_take e ls : forall remaining index offset selected next,
  along (lawful true) (take_checked check e remaining index offset ls selected next).
Proof. induction ls as [|l r IH]; intros; cbn [take_checked]; along_steps. Qed.
Lemma lawful_lines k path ls : forall index found, along (lawful true) (lines_checked fold_text check k path index ls found).
Proof. induction ls as [|l r IH]; intros; cbn [lines_checked]; along_steps. Qed.
#[local] Hint Resolve lawful_walk lawful_take lawful_lines : along.
Lemma lawful_files k total es : forall index offset scanned found,
  along (lawful true) (files_checked fold_text check k total index offset es scanned found).
Proof. induction es as [|e r IH]; intros; cbn [files_checked]; unfold read_candidate; along_steps. Qed.
#[local] Hint Resolve lawful_files : along.
Lemma lawful_scoped q : along (lawful true) (read_scoped_files sha dec fold_text check q).
Proof.
  unfold read_scoped_files, scoped_operation, _list_directory, _read_file, scoped_read_page, _search_text. along_steps.
Qed.
End reading.

(** *** Between the services *)

Lemma lawful_await after : along (lawful after) await.
Proof. unfold await. along_steps. Qed.
Lemma lawful_check_now after c : along (lawful after) (check_now c).
Proof. unfold check_now. along_steps. Qed.
Lemma lawful_digest after j : along (lawful after) (action_digest j).
Proof. unfold action_digest. along_steps. Qed.
Lemma lawful_request after self c p cap d r m pa ex : along (lawful after) (build_request self c p cap d r m pa ex).
Proof. unfold build_request. along_steps. Qed.
Lemma lawful_drain after {T} (m : K T) : along (lawful after) m -> along (lawful after) (drain m).
Proof. intros H s. unfold drain. specialize (H s). destruct (m s) as [r s1]. by destruct (cancelled_at _). Qed.

(** The first half of a program, and the second half after a consent. *)
Lemma lawful_split {T U} (m : K T) (k : T -> K U) s : lawful false s (m s).2 ->
  (forall a s1, m s = (Ok a, s1) -> lawful false s1 (k a s1).2) -> lawful false s (bind m k s).2.
Proof.
  intros Hm Hk. unfold bind. destruct (m s) as [[a|e] s1] eqn:E1; [|done]. transitivity s1; [done|]. by apply Hk.
Qed.
Lemma lawful_after s s' : consented s -> lawful true s s' -> lawful false s s'.
Proof. intros Hc H _. by apply H. Qed.

Lemma lawful_consenting (m : Z -> awaiting -> A unit) s :
  ((m (clock_at (log s)) (answers (log s)) (ag_approvals (rest s))).1 = Ok tt -> E (rest s) (log s)) ->
  lawful false s (consenting m s).2 /\ ((consenting m s).1 = Ok tt -> consented (consenting m s).2).
Proof.
  intros HE. unfold consenting. rewrite !gets_run. unfold bind, on_approvals.
  destruct (m (clock_at (log s)) (answers (log s)) (ag_approvals (rest s))) as [[[]|e] a]; cbn [fst snd] in *;
    [|split; [by apply lawful_same|done]].
  split; [|intros _; exists (rest s); apply list_elem_of_here]. intros _. cbn [emit modify snd log set_rest consent_log].
  split; [intros Hl; split; [by apply HE|done]|by intros x; right].
Qed.
End consent.

#[export] Hint Resolve lawful_check @lawful_approvals lawful_close lawful_directory lawful_enter lawful_read_bytes
  lawful_scoped lawful_await lawful_check_now lawful_digest lawful_request lawful_scandir lawful_next : along.
#[export] Hint Extern 1 (along (lawful _ _) (emit _)) => by apply lawful_emit : along.
#[export] Hint Extern 1 (along (lawful _ _) (modify _)) => by apply lawful_modify : along.
#[export] Hint Extern 1 (along (lawful _ _) (fail _)) => apply along_raise, _ : along.
#[export] Existing Instance lawful_preorder.

(** ** The invariant of the scope through the handler *)

Section scope_kept.
  Context {dev : Device} (check : events -> agent -> res unit) (root : wpath).
Notation runs_inside := (runs_inside check root).
Notation runs_ok := (runs_ok check root).

Lemma inside_approvals {T} (m : A T) : runs_inside (on_approvals m).
Proof.
  intros s Hs. unfold on_approvals, keeps. destruct (m _) as [r a]. cbn [fst snd].
  destruct (inside_rest check root s (set_approvals a) Hs) as [H _]. split_and!; [done|by intros k|by destruct r].
Qed.
Lemma ok_approvals {T} (m : A T) : runs_ok (on_approvals m).
Proof. intros s Hs. unfold on_approvals. destruct (m _) as [r a]. by apply ok_rest. Qed.
#[local] Hint Resolve @inside_approvals @ok_approvals : inside.
#[local] Hint Extern 1 (DevicePaths.runs_inside _ _ (emit _)) => by apply inside_emit : inside.
#[local] Hint Extern 1 (DevicePaths.runs_ok _ _ (emit _)) => by apply ok_emit : inside.

Lemma inside_await : runs_inside await.
Proof. unfold await. inside_steps. Qed.
Lemma ok_await : runs_ok await.
Proof. unfold await. ok_steps. Qed.
Lemma inside_consenting m : runs_inside (consenting m).
Proof. unfold consenting. inside_steps. Qed.
Lemma ok_consenting m : runs_ok (consenting m).
Proof. unfold consenting. ok_steps. Qed.
Lemma inside_check_now c : runs_inside (check_now c).
Proof. unfold check_now. inside_steps. Qed.
Lemma ok_check_now c : runs_ok (check_now c).
Proof. unfold check_now. ok_steps. Qed.
Lemma inside_digest j : runs_inside (action_digest j).
Proof. unfold action_digest. inside_steps. Qed.
Lemma ok_digest j : runs_ok (action_digest j).
Proof. unfold action_digest. ok_steps. Qed.
Lemma inside_request self c p cap d r m pa ex : runs_inside (build_request self c p cap d r m pa ex).
Proof. unfold build_request. inside_steps. Qed.
Lemma ok_request self c p cap d r m pa ex : runs_ok (build_request self c p cap d r m pa ex).
Proof. unfold build_request. ok_steps. Qed.
Lemma inside_drain {T} (m : K T) : runs_inside m -> runs_inside (drain m).
Proof.
  intros H s Hs. unfold drain, keeps. destruct (H s Hs) as (H1 & H2 & _). destruct (m s) as [r s1]. cbn [fst snd] in *.
  destruct (cancelled_at _); [done|]. split_and!; [done|done|by destruct r].
Qed.
Lemma ok_drain {T} (m : K T) : runs_ok m -> runs_ok (drain m).
Proof. intros H s Hs. unfold drain. specialize (H s Hs). destruct (m s) as [r s1]. by destruct (cancelled_at _). Qed.
End scope_kept.

#[export] Hint Resolve @inside_approvals @ok_approvals inside_await ok_await inside_consenting ok_consenting inside_check_now
  ok_check_now inside_digest ok_digest inside_request ok_request inside_scoped : inside.
#[export] Hint Extern 1 (DevicePaths.runs_inside _ _ (emit _)) => by apply inside_emit : inside.
#[export] Hint Extern 1 (DevicePaths.runs_ok _ _ (emit _)) => by apply ok_emit : inside.

(** ** Calls *)

Section idle.
  Context {dev : Device}.

(** Before anything is opened. *)

Definition idle (s : pinned agent) : Prop := sc_root s = [] /\ _handles s = [] /\ _directories s = ∅ /\ Forall (eq EvAwait) (log s).
Definition stays_idle (s s' : pinned agent) : Prop := idle s -> idle s'.
#[local] Instance stays_idle_preorder : PreOrder stays_idle.
Proof. split; [intros s H; exact H|]. intros s1 s2 s3 H1 H2 H. apply H2, H1, H. Qed.

Lemma idle_await : along stays_idle await.
Proof.
  intros s (H0 & H1 & H2 & H3). unfold await. unfold bind, gets, raise_if. cbn [emit modify].
  destruct (cancelled_at _); (split_and!; [exact H0|exact H1|exact H2|by constructor]).
Qed.
Lemma idle_approvals {T} (m : A T) : along stays_idle (on_approvals m).
Proof. intros s H. unfold on_approvals. by destruct (m _). Qed.
#[local] Hint Resolve idle_await @idle_approvals : along.

Lemma idle_then {T U} (m : K T) (k : T -> K U) s r s' : along stays_idle m -> idle s -> bind m k s = (r, s') ->
  idle s' \/ exists a s1, idle s1 /\ m s = (Ok a, s1) /\ k a s1 = (r, s').
Proof.
  intros Hm Hs. specialize (Hm s Hs). unfold bind. destruct (m s) as [[a|e] s1]; cbn [snd] in Hm.
  - intros H. right. eauto.
  - intros [= _ <-]. by left.
Qed.

Lemma idle_safe check wroot s : idle s -> safe_log check wroot (log s).
Proof. intros (_ & _ & _ & H). induction H as [|e l <- Hl IH]; [done|]. by split. Qed.
Lemma idle_nothing s : idle s -> nothing_open s.
Proof. intros (_ & _ & _ & H) h. induction H as [|e l <- Hl IH]; [done|]. exact IH. Qed.
Lemma idle_ok check s : idle s -> ok check (sc_root s) s.
Proof.
  intros H. pose proof (idle_nothing s H) as Hn. destruct H as (H0 & H1 & H2 & H3).
  split; [done|apply idle_safe; done| | |].
  - intros h. rewrite H1, Hn. split; [by intros ?%elem_of_nil|by intros ?%is_Some_None].
  - rewrite H1. apply NoDup_nil_2.
  - intros k h i. by rewrite H2, lookup_empty.
Qed.
Lemma idle_consent E s : idle s -> consent_log E (log s).
Proof. intros (_ & _ & _ & H). induction H as [|e l <- Hl IH]; [done|]. by split. Qed.

(** A call starts with nothing open. *)
Definition fresh_call (x : agent) : pinned agent :=
  {| sc_root := []; _handles := []; _directories := ∅; sc_identity := []; log := []; rest := x |}.

(** The events that touch data. *)
Definition data_event (e : event agent) : bool := match e with EvRead _ _ | EvApply _ => true | _ => false end.

Lemma consent_log_at E newer e older : consent_log E (newer ++ e :: older) -> data_event e = true ->
  exists mid y oldest, older = mid ++ EvConsent y :: oldest /\ E y oldest.
Proof.
  intros H He. assert (consent_log E older /\ exists y, EvConsent y ∈ older) as [Ho [y Hy]].
  { induction newer as [|n l IH]; cbn in H; destruct H as [H1 H2]; [split; [done|]|by apply IH]. by destruct e. }
  apply list_elem_of_split in Hy as (mid & oldest & ->). exists mid, y, oldest. split; [done|].
  clear H. induction mid as [|m l IH]; cbn in Ho; [apply Ho|]. apply IH, Ho.
Qed.
Lemma safe_log_at check wroot newer e (older : events) : safe_log check wroot (newer ++ e :: older) -> safe_event check wroot e older.
Proof. induction newer as [|n l IH]; cbn; intros [H1 H2]; [done|by apply IH]. Qed.

End idle.
#[export] Existing Instance stays_idle_preorder.
#[export] Hint Resolve idle_await @idle_approvals : along.

(** ** A program around a scope *)

Section around.
  Context {dev : Device} (E : agent -> events -> Prop) (check : events -> agent -> res unit) (wroot : wpath).

Lemma lawful_finally_at {T} (m : K T) s : lawful E false s (m s).2 -> lawful E false s (try_finally m close s).2.
Proof.
  intros Hm. unfold try_finally. destruct (m s) as [r s1]. cbn [snd] in Hm. pose proof (lawful_close E false s1) as Hc.
  destruct (close s1) as [[[]|e] s2]; cbn [snd] in Hc; destruct r as [t|[]]; try exact Hm; by transitivity s1.
Qed.

Lemma with_scope_guarded {T} (inner : K T) s : ok check wroot s -> wroot <> [] -> consent_log E (log s) ->
  (forall s2, sc_root s2 = wroot -> (inside check wroot s2 -> ok check wroot (inner s2).2) /\ lawful E false s2 (inner s2).2) ->
  consent_log E (log (with_scope inner s).2) /\ safe_log check wroot (log (with_scope inner s).2) /\
  ((with_scope inner s).1 <> Err Crash -> nothing_open (with_scope inner s).2).
Proof.
  intros Hok Hne Hc Hinner. destruct (with_scope_ok check wroot inner s Hok) as [H1 H2]; [done| |].
  { intros s2 Hin. apply Hinner; [apply Hin|done]. }
  split; [|split; [apply H1|exact H2]].
  assert (lawful E false s (with_scope inner s).2) as Hl; [|by apply Hl].
  unfold with_scope, bind. pose proof (lawful_enter E false s) as He. pose proof (enter_ok check wroot s Hok Hne) as [He' _].
  destruct (enter s) as [[[]|e] s2]; cbn [snd] in *; [|done]. transitivity s2; [done|].
  apply lawful_finally_at, Hinner, (ok_root _ _ _ He').
Qed.
End around.

(** ** File operations *)

Section file_operations.
  Context {handling : Handling} (self : identity) (request : file_request) (c : caller).

(** What a consent to a file operation is: the policy of the project allowed it,
    or the question about exactly this request was answered with yes, in the
    state [x] and at the instant in which it was asked. *)
Definition file_consent (project : Project) (x : agent) (older : events) : Prop :=
  exists approval inside sc,
    (authorize_project_operation sha256_hex (clock_at older) (answers older) project approval inside false sc (ag_approvals x)).1 = Ok tt /\
    compute_action_digest sha256_hex (fr_json request) = Some (ar_action_digest approval) /\
    account_id approval = account self /\ device_id approval = device self /\ grant_id approval = cl_grant_id c /\
    link_id approval = cl_link_id c /\ connection_epoch approval = cl_connection_epoch c /\
    deadline_at approval = cl_deadline_at c /\ ar_project_id approval = project_id project /\
    capability approval = file_capability (fr_work request) (negb inside) /\
    match fr_scope_path request with
    | None => inside = true
    | Some scope => forall n, normalize_read_scope scope = Ok n -> inside = is_relative_to (scope_parts n) (windows_parts (root project))
    end.

(** The target was resolved for this request. *)
Definition target_of (project : Project) (target : FileTarget) : Prop :=
  (ft_pinned target = true <-> fr_scope_path request <> None) /\
  match fr_scope_path request with
  | None => ft_inside_project target = true
  | Some scope => forall n, normalize_read_scope scope = Ok n ->
      ft_inside_project target = is_relative_to (scope_parts n) (windows_parts (root project))
  end.

Lemma authorize_lawful project target sections s : target_of project target ->
  lawful (file_consent project) false s (authorize_file self request c project target sections s).2 /\
  ((authorize_file self request c project target sections s).1 = Ok tt ->
   consented (authorize_file self request c project target sections s).2).
Proof.
  intros Ht. unfold authorize_file, action_digest.
  destruct (compute_action_digest sha256_hex (fr_json request)) as [d|] eqn:Hd; [|by split; [apply lawful_same|]].
  unfold build_request. unfold bind, ret, gets. cbv beta iota.
  match goal with |- context [consenting ?m] => pose proof (lawful_consenting (file_consent project) m s) as H end.
  apply H. clear H. intros Hok. eexists _, _, _. split; [exact Hok|].
  cbn [ar_action_digest account_id device_id grant_id link_id connection_epoch deadline_at ar_project_id capability].
  split_and!; try done. apply Ht.
Qed.

(** *** The order *)

Section order.
  Context (E : agent -> events -> Prop).

Lemma lawful_patches after {T} files_root (m : (nat -> option exn) -> W T) : along (lawful E after) (on_patches files_root m).
Proof.
  intros s. unfold on_patches. destruct (a_database _) as [d|]; [|by apply lawful_same].
  destruct (m _ _) as [r w]. by apply lawful_same.
Qed.
#[local] Hint Resolve @lawful_patches : along.

Lemma lawful_read_project id q : along (lawful E true) (read_project id q).
Proof. unfold read_project, get_project. along_steps. Qed.
#[local] Hint Resolve lawful_read_project : along.

Lemma lawful_perform target check : along (lawful E true) (perform self request c target check).
Proof. unfold perform, apply_patch. along_steps. Qed.

Lemma lawful_pin sections : along (lawful E true) (pin_parents sections).
Proof.
  unfold pin_parents, release_for_mutation. apply along_bind; [apply _| |intros; along_steps].
  apply lawful_for_each. intros s. along_steps.
Qed.
End order.
#[local] Hint Resolve lawful_pin lawful_perform : along.

Lemma file_body_lawful generation project target s : target_of project target ->
  lawful (file_consent project) false s (file_body self request c generation project target s).2.
Proof.
  intros Ht. unfold file_body. apply lawful_split; [by apply lawful_same|]. intros sections s1 _.
  destruct (authorize_lawful project target sections s1 Ht) as [H1 H2]. apply lawful_split; [exact H1|].
  intros [] s2 Hs2. rewrite Hs2 in H2. apply lawful_after; [by apply H2|].
  match goal with |- lawful ?E true s2 (?m s2).2 => enough (along (lawful E true) m) as Ha by exact (Ha s2) end.
  along_steps. apply lawful_drain. along_steps.
Qed.

(** *** The scope *)

Section kept.
  Context (generation : nat) (project : Project) (wroot : wpath).
Notation check := (worker_check generation (cl_deadline_at c) project).
Notation runs_inside := (runs_inside check wroot).
Notation runs_ok := (runs_ok check wroot).

Lemma inside_read_project id q : runs_inside (read_project id q).
Proof. unfold read_project, get_project. inside_steps. Qed.
Lemma ok_read_project id q : runs_ok (read_project id q).
Proof. unfold read_project, get_project. ok_steps. Qed.
Lemma ok_patches {T} files_root (m : (nat -> option exn) -> W T) : runs_ok (on_patches files_root m).
Proof.
  intros s Hs. unfold on_patches. destruct (a_database _) as [d|]; [|done]. destruct (m _ _) as [r w]. by apply ok_rest.
Qed.
#[local] Hint Resolve inside_read_project ok_read_project @ok_patches : inside.

Lemma inside_authorize target sections : runs_inside (authorize_file self request c project target sections).
Proof. unfold authorize_file. inside_steps. Qed.
Lemma ok_authorize target sections : runs_ok (authorize_file self request c project target sections).
Proof. unfold authorize_file. ok_steps. Qed.
#[local] Hint Resolve inside_authorize ok_authorize : inside.

(** Reading through the scope keeps it entered. *)
Lemma inside_perform target q : fr_work request = Reading q -> runs_inside (perform self request c target check).
Proof. intros Hw. unfold perform. rewrite Hw. inside_steps. Qed.
(** A patch no longer needs it, nor do the plain tools. *)
Lemma ok_perform target : (ft_pinned target = true -> mutates (fr_work request) = true) ->
  runs_ok (perform self request c target check).
Proof.
  intros Hp. unfold perform, apply_patch. destruct (fr_work request) as [q|q]; [|ok_steps].
  destruct (ft_pinned target); [by specialize (Hp eq_refl)|ok_steps].
Qed.

Lemma ok_pin sections s : inside check wroot s -> ok check wroot (pin_parents sections s).2.
Proof.
  intros Hs. unfold pin_parents, release_for_mutation, bind.
  assert (runs_inside (for_each sections (fun s => directory (parent_path (path s)) ;;;
    match destination s with
    | Some d => if bool_decide (d = []) then ret tt else directory (parent_path d) ;;; ret tt
    | None => ret tt
    end))) as H.
  { clear Hs. induction sections as [|x l IH]; cbn [for_each]; inside_steps. }
  destruct (H s Hs) as (H1 & _). destruct (for_each _ _ s) as [[[]|e] s1]; [|done]. by apply ok_close.
Qed.

(** The end of [file_body], once nothing is pinned any more or nothing was. *)
Lemma ok_finish target : (ft_pinned target = true -> mutates (fr_work request) = true) ->
  runs_ok (result <- drain (perform self request c target check) ;;
           await ;;; check_now (ensure_policy generation (cl_deadline_at c) project) ;;; ret result).
Proof. intros Hp. apply ok_bind; [by apply ok_drain, ok_perform|]. intros. ok_steps. Qed.

Lemma ok_then {T U} (m : K T) (k : T -> K U) s : runs_inside m -> inside check wroot s ->
  (forall a s', inside check wroot s' -> ok check wroot (k a s').2) -> ok check wroot (bind m k s).2.
Proof.
  intros Hm Hs Hk. pose proof (inside_state check wroot m s Hm Hs) as H. unfold bind.
  destruct (m s) as [[a|e] s1]; cbn [snd] in *; [by apply Hk|apply H].
Qed.

Lemma file_body_ok target s : (if ft_pinned target then inside check wroot s else ok check wroot s) ->
  ok check wroot (file_body self request c generation project target s).2.
Proof.
  unfold file_body. destruct (ft_pinned target) eqn:Hp; intros Hs.
  - apply ok_then; [inside_steps|done|]. intros sections s1 H1. apply ok_then; [inside_steps|done|]. intros [] s2 H2.
    apply ok_then; [inside_steps|done|]. intros [] s3 H3. apply ok_then; [inside_steps|done|]. intros [] s4 H4.
    rewrite andb_true_r. destruct (mutates (fr_work request)) eqn:Hw; cbn [when].
    + unfold bind at 1. pose proof (ok_pin sections s4 H4) as H5. destruct (pin_parents sections s4) as [[[]|e] s5]; [|done].
      by apply (ok_finish target).
    + destruct (fr_work request) as [q|q] eqn:Hq; [|done].
      apply ok_then; [inside_steps|done|]. intros [] s5 H5.
      apply ok_then; [by eapply inside_drain, inside_perform|done|]. intros r s6 H6.
      apply (inside_runs_ok check wroot); [inside_steps|done].
  - revert s Hs. match goal with |- forall s, _ -> ok _ _ (?m s).2 => change (runs_ok m) end.
    apply ok_bind; [ok_steps|]. intros sections. apply ok_bind; [ok_steps|]. intros _. apply ok_bind; [ok_steps|]. intros _.
    apply ok_bind; [ok_steps|]. intros _. rewrite andb_false_r. apply ok_bind; [apply ok_ret|]. intros _.
    apply (ok_finish target). by rewrite Hp.
Qed.
End kept.

(** Without a scope nothing is pinned. *)
Definition untouched (s s' : pinned agent) : Prop := _handles s' = _handles s.
#[local] Instance untouched_preorder : PreOrder untouched.
Proof. split; [by intros s|]. intros s1 s2 s3. unfold untouched. congruence. Qed.
Lemma untouched_emit e : along untouched (emit e).
Proof. by intros s. Qed.
Lemma untouched_check k : along untouched (run_check k).
Proof. by intros s. Qed.
Lemma untouched_approvals {T} (m : A T) : along untouched (on_approvals m).
Proof. intros s. unfold on_approvals. by destruct (m _). Qed.
Lemma untouched_patches {T} files_root (m : (nat -> option exn) -> W T) : along untouched (on_patches files_root m).
Proof. intros s. unfold on_patches. destruct (a_database _) as [d|]; [|done]. by destruct (m _ _). Qed.
#[local] Hint Resolve untouched_emit untouched_check @untouched_approvals @untouched_patches : along.

Lemma untouched_file_body generation project target : ft_pinned target = false ->
  along untouched (file_body self request c generation project target).
Proof.
  intros Hp. unfold file_body, authorize_file, action_digest, build_request, consenting, await, check_now.
  apply along_bind; [apply _|along_steps|]. intros sections. apply along_bind; [apply _|along_steps|]. intros _.
  apply along_bind; [apply _|along_steps|]. intros _. apply along_bind; [apply _|along_steps|]. intros _.
  rewrite Hp, andb_false_r. apply along_bind; [apply _|apply along_ret, _|]. intros _.
  apply along_bind; [apply _| |intros; along_steps].
  assert (along untouched (perform self request c target (worker_check generation (cl_deadline_at c) project))) as H.
  { unfold perform, apply_patch, read_project, get_project, fail. rewrite Hp. along_steps. }
  intros s. unfold drain. specialize (H s). destruct (perform _ _ _ _ _ s) as [r s1]. by destruct (cancelled_at _).
Qed.

(** *** The whole operation *)

(** What holds of the log at the end. *)
Record guarded (generation : nat) (project : Project) (wroot : wpath) (r : res file_answer) (s' : pinned agent) : Prop := {
  g_consent : consent_log (file_consent project) (log s');
  g_safe : safe_log (worker_check generation (cl_deadline_at c) project) wroot (log s');
  g_root : forall scope n, fr_scope_path request = Some scope -> normalize_read_scope scope = Ok n -> wroot = scope_parts n;
  g_closed : r <> Err Crash -> nothing_open s';
}.

(** The root of the scope that was asked for. *)
Definition asked_root : wpath :=
  match fr_scope_path request with
  | Some scope => match normalize_read_scope scope with Ok n => scope_parts n | Err _ => [] end
  | None => []
  end.

Lemma asked_root_spec scope n : fr_scope_path request = Some scope -> normalize_read_scope scope = Ok n -> asked_root = scope_parts n.
Proof. unfold asked_root. by intros -> ->. Qed.

Lemma idle_guarded generation project r s : idle s -> guarded generation project asked_root r s.
Proof.
  intros Hs. split; [by apply idle_consent|by apply idle_safe|exact asked_root_spec|intros _; by apply idle_nothing].
Qed.

Lemma target_guarded generation project s r s' : idle s ->
  resolve_file_target project (fr_scope_path request) (file_body self request c generation project) s = (r, s') ->
  guarded generation project asked_root r s'.
Proof.
  intros Hs. assert (sc_root s = []) as Hroot by apply Hs. pose proof (idle_consent (file_consent project) s Hs) as Hcl.
  set (check := worker_check generation (cl_deadline_at c) project). pose proof (idle_ok check s Hs) as Hok.
  unfold resolve_file_target. destruct (negb (enabled project)); [intros [= _ <-]; by apply idle_guarded|].
  unfold verify_now. unfold bind at 1. rewrite gets_run. unfold lift at 1.
  destruct (verify_project _ _ _) as [[]|e]; [|intros [= _ <-]; by apply idle_guarded].
  destruct (fr_scope_path request) as [scope|] eqn:Hsc.
  - unfold with_read_scope. unfold bind at 1, lift at 1.
    destruct (normalize_read_scope scope) as [n|e] eqn:Hn; [|intros [= _ <-]; by apply idle_guarded].
    rewrite modify_run. set (s1 := set_root (scope_parts n) s).
    assert (asked_root = scope_parts n) as Ha by (by eapply asked_root_spec).
    cbv beta. match goal with |- with_scope ?b s1 = _ -> _ => set (inner := b) end. intros Hrun.
    assert (ok check (scope_parts n) s1) as Hok1 by (destruct Hok as [H1 H2 H3 H4 H5]; split; try done; exact (idle_safe _ _ s Hs)).
    assert (Htarget : forall fp id, target_of project
      {| ft_project := {| project_id := project_id project; title := title project; root := path_str (scope_parts n);
           root_fingerprint := fingerprint sha256_text fp; mode := mode project; enabled := enabled project |};
         ft_inside_project := is_relative_to (scope_parts n) (windows_parts (root project));
         ft_scope_path := Some n; ft_scope_identity := id; ft_pinned := true |}).
    { intros fp id. split; rewrite Hsc; [done|]. intros n' Hn'. cbn [ft_inside_project]. by assert (n' = n) as -> by congruence. }
    assert (Hinner : forall s2, sc_root s2 = scope_parts n -> (inside check (scope_parts n) s2 -> ok check (scope_parts n) (inner s2).2) /\
      lawful (file_consent project) false s2 (inner s2).2).
    { intros s2 Hr2. unfold inner. rewrite !gets_run, Hr2. unfold bind, lift. destruct (file_identity _ _) as [fp|e]; cbn [snd];
        [|split; [by intros []|by apply lawful_same]].
      unfold gets. split; [intros Hin; by apply file_body_ok|by apply file_body_lawful]. }
    destruct (with_scope_guarded (file_consent project) check (scope_parts n) inner s1 Hok1) as (H1 & H2 & H3); [done|done|exact Hinner|].
    rewrite Hrun in H1, H2, H3. cbn [fst snd] in *. split; [exact H1|by rewrite Ha|exact asked_root_spec|exact H3].
  - intros Hrun. set (target := {| ft_pinned := false |}) in *.
    pose proof (file_body_ok generation project (sc_root s) target s Hok) as H.
    assert (target_of project target) as Ht by (split; rewrite Hsc; done).
    pose proof (file_body_lawful generation project target s Ht) as Hl. rewrite Hrun in H, Hl. cbn [snd] in H, Hl.
    rewrite Hroot in H.
    assert (asked_root = []) as Ha by (unfold asked_root; by rewrite Hsc).
    split; [by apply Hl|rewrite Ha; apply H|exact asked_root_spec|]. intros _ h. pose proof (untouched_file_body generation project target eq_refl s) as Hu. rewrite Hrun in Hu. cbn [snd] in Hu.
    unfold untouched in Hu. destruct Hs as (_ & Hh & _). rewrite Hh in Hu.
    destruct (object_of (log s') h) eqn:Ho; [|done]. assert (h ∈ _handles s') as Hin by (apply (ok_handles _ _ _ H); eauto).
    rewrite Hu in Hin. by apply elem_of_nil in Hin.
Qed.

Lemma file_operation_guarded x r s' : _file_operation self request c (fresh_call x) = (r, s') ->
  exists generation project, guarded generation project asked_root r s'.
Proof.
  assert (idle (fresh_call x)) as H0 by done. unfold _file_operation.
  assert (Hg : forall s, idle s -> exists generation project, guarded generation project asked_root r s)
    by (intros s Hs; exists 0%nat, outside_projects; by apply idle_guarded).
  intros H. apply idle_then in H as [?|(project & s1 & H1 & _ & H)]; [by apply Hg| |unfold get_project; along_steps|done].
  apply idle_then in H as [?|([] & s2 & H2 & _ & H)]; [by apply Hg| |along_steps|done].
  apply idle_then in H as [?|(generation & s3 & H3 & _ & H)]; [by apply Hg| |along_steps|done].
  apply idle_then in H as [?|([] & s4 & H4 & _ & H)]; [by apply Hg| |unfold check_now; along_steps|done].
  exists generation, project. by apply (target_guarded _ _ s4).
Qed.

End file_operations.

(** ** Device reads *)

Section device_reads.
  Context {dev : Device} (self : identity) (q : DeviceReadInput) (c : caller).

(** The consent to a device read: the question about exactly this request, or the
    access mode of the project it came from. *)
Definition device_permission (project : option Project) (policy : option LocalAccessPolicy) (x : agent) (older : events) : Prop :=
  exists approval scope_identity,
    (device_consent approval policy (dq_scope_path q) scope_identity (clock_at older) (answers older) (ag_approvals x)).1 = Ok tt /\
    compute_action_digest sha256_hex (dq_json q) = Some (ar_action_digest approval) /\
    account_id approval = account self /\ device_id approval = device self /\ grant_id approval = cl_grant_id c /\
    link_id approval = cl_link_id c /\ connection_epoch approval = cl_connection_epoch c /\
    deadline_at approval = cl_deadline_at c /\ ar_project_id approval = default [] (project_id <$> project) /\
    capability approval = lit "device:read" /\ requested_external_paths approval = [dq_scope_path q].

Section body.
  Context (E : agent -> events -> Prop) (check : events -> agent -> res unit).

Lemma lawful_device_lines max_lines max_bytes ls : forall index count size,
  along (lawful E true) (device_lines check max_lines max_bytes index ls count size).
Proof. induction ls as [|l r IH]; intros; cbn [device_lines]; along_steps. Qed.
#[local] Hint Resolve lawful_device_lines : along.
Lemma lawful_device_read : along (lawful E true) (DeviceReads._read check q).
Proof.
  unfold DeviceReads._read, device_text. destruct (dq_operation q); [|along_steps].
  apply along_bind; [apply _|along_steps|intros p]. apply along_bind; [apply _|along_steps|intros _].
  apply along_bind; [apply _| |intros r; along_steps]. apply lawful_loop. intros [index entries]. unfold listing_body. along_steps.
Qed.
End body.

Section kept.
  Context (check : events -> agent -> res unit) (wroot : wpath).

Lemma inside_device_lines max_lines max_bytes ls : forall index count size,
  runs_inside check wroot (device_lines check max_lines max_bytes index ls count size).
Proof. induction ls as [|l r IH]; intros; cbn [device_lines]; unfold fail; inside_steps. Qed.
#[local] Hint Resolve inside_device_lines : inside.

Lemma keeps_listing p st s : inside check wroot s -> wroot `prefix_of` p -> chain_known s p ->
  keeps check wroot s (listing_body check q p st) (fun x s' => inside check wroot s' /\ chain_known s' p).
Proof.
  intros Hs Hr Hk. destruct st as [index entries]. unfold listing_body.
  eapply keeps_bind; [by apply keeps_next|]. intros [e|] s1 H1 Hg1 Hk1.
  2: { apply keeps_ret; [done|]. split; [by eapply inside_grown|done]. }
  eapply (keeps_bind _ _ _ _ _ (fun _ s' => chain_known s' p)); [by apply keeps_check|]. intros [] s2 H2 Hg2 Hk2.
  assert (inside check wroot s2) as Hin by (eapply (inside_grown _ _ s1); [by eapply inside_grown| |]; done).
  repeat case_match; by apply keeps_ret.
Qed.

Lemma inside_device_read : runs_inside check wroot (DeviceReads._read check q).
Proof.
  unfold DeviceReads._read, device_text. destruct (dq_operation q); [|inside_steps]. intros s Hs.
  eapply keeps_bind; [by apply keeps_directory|]. intros p s1 H1 Hg1 [Hr Hk].
  assert (inside check wroot s1) as Hin1 by (by eapply inside_grown).
  eapply keeps_bind; [by apply keeps_scandir|]. intros [] s2 H2 Hg2 Hk2.
  assert (inside check wroot s2) as Hin2 by (by eapply inside_grown).
  eapply (keeps_bind _ _ _ _ _ (fun _ _ => True)); [|intros r s3 H3 _ _; by apply keeps_ret].
  eapply keeps_weaken; [apply (keeps_loop _ _ LISTING_TURNS _ (fun _ s' => inside check wroot s' /\ chain_known s' p))|done];
    [|done|done].
  intros st s3 _ [H3 Hk3]. by apply keeps_listing.
Qed.
End kept.

Lemma device_body_guarded project policy check wroot s :
  (inside check wroot s -> ok check wroot (device_body self q c project policy check s).2) /\
  lawful (device_permission project policy) false s (device_body self q c project policy check s).2.
Proof.
  unfold device_body. split.
  - intros Hs. apply (inside_runs_ok check wroot); [|done].
    apply inside_bind; [inside_steps|intros identity]. apply inside_bind; [inside_steps|intros digest].
    apply inside_bind; [inside_steps|intros approval]. apply inside_bind; [inside_steps|intros _].
    apply inside_bind; [apply inside_await|intros _]. apply inside_bind; [inside_steps|intros _].
    apply inside_bind; [apply inside_drain, inside_device_read|intros r]. inside_steps.
  - rewrite gets_run. unfold action_digest.
    destruct (compute_action_digest sha256_hex (dq_json q)) as [d|] eqn:Hd; [|by apply lawful_same].
    unfold build_request. change (bind (ret d) ?k s) with (k d s). cbv beta.
    unfold bind at 1 2. unfold gets at 1. unfold ret at 1. cbv beta iota. apply lawful_split.
    + apply lawful_consenting. intros Hok. eexists _, _. split; [exact Hok|].
      cbn [ar_action_digest account_id device_id grant_id link_id connection_epoch deadline_at ar_project_id capability requested_external_paths].
      split_and!; try done. by destruct project.
    + intros [] s1 Hs1.
      match type of Hs1 with consenting ?m s = _ => assert (consented s1) as Hc end.
      { match type of Hs1 with consenting ?m s = _ =>
          pose proof (lawful_consenting (fun _ _ => True) m s (fun _ => I)) as [_ H] end. rewrite Hs1 in H. by apply H. }
      apply lawful_after; [done|].
      match goal with |- lawful ?E true s1 (?m s1).2 => enough (along (lawful E true) m) as Ha by exact (Ha s1) end.
      along_steps. apply lawful_drain, lawful_device_read.
Qed.

(** The project a device read came from and what its mode asks for. *)
Definition device_policy (x : agent) (project : option Project) (policy : option LocalAccessPolicy) : Prop :=
  match dq_project_id q with
  | None => project = None /\ policy = None
  | Some id => exists p a, project = Some p /\ policy = Some a /\
      (on_database (Database.get_project id) (ag_approvals x)).1 = Ok p /\ project_access_policy p false false = Ok a
  end.

Definition device_root : wpath := match normalize_read_scope (dq_scope_path q) with Ok n => scope_parts n | Err _ => [] end.

Lemma device_scope_guarded generation project policy s : idle s ->
  let check := device_check generation (cl_deadline_at c) in
  let run := (run_check check ;;; read_failed_on_os_error (with_read_scope (dq_scope_path q) (fun _ => device_body self q c project policy check))) s in
  consent_log (device_permission project policy) (log run.2) /\ safe_log check device_root (log run.2) /\
  (run.1 <> Err Crash -> nothing_open run.2).
Proof.
  intros Hs check. set (E := device_permission project policy). cbv zeta.
  assert (Hok : forall r, ok check r (set_root r s)).
  { intros r. destruct (idle_ok check s Hs) as [H1 H2 H3 H4 H5]. split; try done. exact (idle_safe _ _ s Hs). }
  set (s1 := (run_check check s).2).
  assert (Hok1 : forall r, ok check r (set_root r s1)) by (intros r; exact (ok_check check r _ (Hok r))).
  assert (consent_log E (log s1)) as Hc1 by (split; [done|by apply idle_consent]).
  assert (nothing_open s1) as Hn1 by (intros h; exact (idle_nothing s Hs h)).
  assert (Hend : forall r : res DeviceReadResult, consent_log E (log s1) /\ safe_log check device_root (log s1) /\ (r <> Err Crash -> nothing_open s1))
    by (intros r; split_and!; [done|exact (ok_safe _ _ _ (Hok1 device_root))|done]).
  assert (Hb : forall (k : unit -> K DeviceReadResult), bind (run_check check) k s =
    match check (log s) (rest s) with Ok _ => k tt s1 | Err e => (Err e, s1) end).
  { intros k. unfold s1, bind, run_check. by destruct (check (log s) (rest s)) as [[]|]. }
  rewrite Hb. clear Hb. destruct (check (log s) (rest s)) as [[]|e]; [|exact (Hend (Err e))]. clearbody s1. rename s1 into s0.
  unfold read_failed_on_os_error, try_except, with_read_scope, device_root in *. unfold bind, lift.
  destruct (normalize_read_scope (dq_scope_path q)) as [n|e]; [|destruct (caught e), e; apply (Hend (Err _))].
  cbn [modify]. set (s1 := set_root (scope_parts n) s0). set (inner := device_body _ _ _ _ _ _).
  destruct (with_scope_guarded E check (scope_parts n) inner s1 (Hok1 _)) as (H1 & H2 & H3); [done|done|intros; apply device_body_guarded|].
  destruct (with_scope inner s1) as [[r|e] s2]; cbn [fst snd] in *; [done|].
  destruct (caught e) eqn:Hcaught; [|done]. assert (nothing_open s2) as H4 by (apply H3; intros [= ->]; done).
  destruct e; split_and!; done.
Qed.

(** What happens before the scope is opened. *)
Lemma device_prefix x r s' : DeviceReads.execute self q c (fresh_call x) = (r, s') -> log s' = [] \/
  exists generation project policy s, idle s /\ device_policy x project policy /\
    (run_check (device_check generation (cl_deadline_at c)) ;;; read_failed_on_os_error (with_read_scope (dq_scope_path q)
       (fun _ => device_body self q c project policy (device_check generation (cl_deadline_at c))))) s = (r, s').
Proof.
  assert (idle (fresh_call x)) as H0 by done. unfold DeviceReads.execute. intros H.
  pose proof (idle_approvals Approvals.generation _ H0) as H1.
  assert (exists generation s1, idle s1 /\ log s1 = [] /\ ag_approvals (rest s1) = ag_approvals x /\
    on_approvals Approvals.generation (fresh_call x) = (Ok generation, s1)) as (generation & s1 & Hs1 & Hl1 & Hx & E1) by (by eexists _, _).
  unfold bind at 1 in H. rewrite E1 in H. unfold device_policy. destruct (dq_project_id q) as [id|].
  - unfold get_project in H. pose proof (idle_approvals (on_database (Database.get_project id)) s1 Hs1) as Hs2.
    unfold bind at 1 2, on_approvals at 1 in H. unfold on_approvals in Hs2. rewrite Hx in H, Hs2.
    destruct (on_database (Database.get_project id) (ag_approvals x)) as [[p|e] a2] eqn:Ep; [|left; by injection H as _ <-].
    set (s2 := set_rest _ s1) in *. unfold ret at 1 in H. unfold bind at 1 2, lift in H. cbn [snd] in Hs2.
    destruct (project_access_policy p false false) as [a|e] eqn:Ea; [|left; by injection H as _ <-].
    right. exists generation, (Some p), (Some a), s2. split; [done|]. split; [|exact H]. by exists p, a.
  - right. by exists generation, None, None, s1.
Qed.

(** C8. In every run of a device read no data is read before the local consent to
    exactly this request, and every read is of a validated, pinned file below the
    asked directory, directly after a check that found the call not cancelled and
    the deadline and the generation current.  No handle stays open. *)
Theorem device_data_needs_consent x r s' : DeviceReads.execute self q c (fresh_call x) = (r, s') ->
  exists generation project policy, (log s' = [] \/ device_policy x project policy) /\
    (forall newer h a older, log s' = newer ++ EvRead h a :: older ->
       (exists mid y oldest, older = mid ++ EvConsent y :: oldest /\ device_permission project policy y oldest) /\
       safe_read (device_check generation (cl_deadline_at c)) device_root h older) /\
    (r <> Err Crash -> forall h, object_of (log s') h = None).
Proof.
  intros [Hl|(generation & project & policy & s & Hs & Hp & H)]%device_prefix.
  - exists 0%nat, None, None. rewrite Hl. split_and!; [by left| |done]. intros newer h a older Hn. by destruct newer.
  - destruct (device_scope_guarded generation project policy s Hs) as (H1 & H2 & H3). rewrite H in H1, H2, H3. cbn [fst snd] in *.
    exists generation, project, policy. split_and!; [by right| |exact H3].
    intros newer h a older Hn. rewrite Hn in H1, H2. split; [by eapply consent_log_at|exact (safe_log_at _ _ _ _ _ H2)].
Qed.
End device_reads.
