(* ===== verification/HandlerSamples.v ===== *)
(** * A sample machine for the handler

    A Windows with one directory [C:/data] of small text files, a user who answers
    yes, and the witnesses of the handler's guarantees. *)
From S2P Require Import Prelude Utf8 PyStr Models Paths PatchFormat Database Json Approvals PatchService ReadText ReadTools DevicePaths ScopedReads DeviceReads Handler HandlerGuarantees.

Open Scope Z_scope.

(** The next handle is larger than all handles of the log. *)
Fixpoint next_handle (l : events) : Z :=
  match l with
  | [] => 1
  | EvCreate _ _ (inl h) :: r => Z.max (h + 1) (next_handle r)
  | _ :: r => next_handle r
  end.

Lemma next_handle_fresh l h : next_handle l <= h -> object_of l h = None.
Proof.
  induction l as [|e l IH]; intros H; [done|]. cbn [next_handle object_of] in *.
  destruct e as [| |p d [h'|]|h' a|h' a| |h'| | | | | |]; try (by apply IH).
  - destruct (Z.eqb_spec h h'); [lia|]. apply IH. lia.
  - destruct (h =? h'); by rewrite IH.
  - destruct (h =? h'); by rewrite IH.
  - destruct (h =? h'); [done|]. by apply IH.
Qed.

Definition sample_info (directory : bool) : _FileInfo :=
  {| attributes := if directory then 16 else 128; volume := 7; size_high := 0; size_low := 5; links := 1; index_high := 0; index_low := 9 |}.
Definition sample_text : bytes := [97; 10; 98; 99; 10].

(** The names [scandir] has given so far decide about the next one. *)
Definition given_entries (l : events) (p : wpath) : nat :=
  length (List.filter (fun e => match e with EvNext q (Some (Some _)) => bool_decide (q = p) | _ => false end) l).
Definition sample_entries : list dir_entry :=
  [{| d_name := lit "a.txt"; d_stat := Some {| st_attributes := 128; st_is_dir := false; st_is_file := true; st_nlink := 1; st_size := 5 |} |};
   {| d_name := lit "link"; d_stat := Some {| st_attributes := 1040; st_is_dir := true; st_is_file := false; st_nlink := 1; st_size := 0 |} |}].

#[export] Instance sample_windows : Windows agent.
Proof.
  refine {|
    lower := ascii_lower;
    GetDriveType := fun _ _ => 3;
    GetVolumeInformation := fun _ _ => Some (lit "NTFS");
    CreateFile := fun l p d => if bool_decide (last p = Some (lit "missing")) then inr 2 else inl (next_handle l);
    GetFileInformation := fun l h => (fun o => sample_info (o_directory o)) <$> object_of l h;
    GetFileTypeOf := fun _ _ => 1;
    ReadFile := fun l _ => if existsb (fun e => match e with EvRead _ _ => true | _ => false end) l then Some [] else Some sample_text;
    scandir_opens := fun _ _ => true;
    scandir_next := fun l p => Some (nth_error sample_entries (given_entries l p));
    interfere := fun _ x => x;
  |}.
  intros l p d h. case_bool_decide; [done|]. intros [= <-]. by apply next_handle_fresh.
Defined.

Definition sample_node : node :=
  {| n_exists := true; n_lstat := Some {| volume_serial := 7; file_id := 9; link_count := 1 |}; n_reparse := false; n_is_dir := true; n_is_file := false |}.

#[export] Instance sample_device : Device := {|
  clock_at := fun l => Z.of_nat (length l);
  cancelled_at := fun _ => false;
  answers := fun l => {| w_answer := Some ALLOW_ONCE; w_decided := Z.of_nat (length l) + 1; w_added := Z.of_nat (length l) + 1;
                         w_meanwhile := fun a => a; w_between := fun a => a |};
  project_files := fun _ _ => sample_node;
  fresh_id := fun _ => lit "approval_1";
  sha256_hex := sample_sha;
  sha256_text := fun s => s;
|}.

#[export] Instance sample_handling : Handling := {|
  plain_children := fun _ _ _ => (Ok tt, []);
  plain_opened := fun _ _ _ => Ok sample_text;
  plain_files := fun _ _ _ => (Ok tt, []);
  patch_faults := fun _ _ => None;
  linesep := [LF];
  scope_fingerprint := fun _ => None;
  unicode_decimal := fun _ => None;
  casefold_text := fun s => s;
|}.

Definition sample_self : identity := {| account := lit "acc"; device := lit "dev" |}.
Definition sample_caller : caller :=
  {| cl_grant_id := lit "gr"; cl_link_id := lit "ln"; cl_connection_epoch := 1; cl_deadline_at := Some 100000 |}.
Definition sample_registered : Project :=
  {| project_id := lit "p1"; title := lit "P"; root := lit "C:/srv"; root_fingerprint := fingerprint_raw {| volume_serial := 7; file_id := 9; link_count := 1 |};
     mode := NATIVE_APPROVAL; enabled := true |}.
Definition sample_agent : agent :=
  {| ag_approvals := {| a_database := Some (on_projects <[lit "p1" := {| pr_project := sample_registered; pr_created_at := 0; pr_updated_at := 0 |}]> empty_db);
                        _grants := []; _security_generation := 0 |};
     ag_files := ∅; ag_temporaries := ∅; ag_journal := ∅ |}.
Definition sample_read_request (work : file_read) : file_request :=
  {| fr_project_id := lit "p1"; fr_scope_path := Some (lit "c:\data\"); fr_purpose := Some (lit "look");
     fr_work := Reading work; fr_json := JObj [(lit "operation", JStr (lit "read_file"))] |}.
Definition sample_range : file_read := ReadFileRange (lit "a.txt") 1 None 4096 None None.

Definition sample_run (work : file_read) : res file_answer * pinned agent :=
  _file_operation sample_self (sample_read_request work) sample_caller (fresh_call sample_agent).


Definition sample_device_read : DeviceReadInput :=
  {| dq_project_id := None; dq_operation := DReadFile; dq_scope_path := lit "c:\data\"; dq_path := lit "a.txt"; dq_purpose := lit "look";
     dq_offset := 0; dq_limit := 10; dq_start_line := 1; dq_max_lines := 10; dq_max_bytes := 4096;
     dq_json := JObj [(lit "operation", JStr (lit "read_file"))] |}.

Lemma device_data_needs_consent_witness :
  exists v s', DeviceReads.execute sample_self sample_device_read sample_caller (fresh_call sample_agent) = (Ok v, s') /\
    exists newer h a older, log s' = newer ++ EvRead h a :: older /\ exists y, EvConsent y ∈ older.
Proof.
  destruct (DeviceReads.execute sample_self sample_device_read sample_caller (fresh_call sample_agent)) as [r s'] eqn:Hr.
  assert (exists v, r = Ok v) as [v ->].
  { change r with (r, s').1. rewrite <-Hr. eexists. vm_compute. reflexivity. }
  exists v, s'. split; [reflexivity|].
  assert (existsb (fun e => match e with EvRead _ _ => true | _ => false end) (log s') = true) as Hd
    by (change s' with (Ok v, s').2; rewrite <-Hr; vm_compute; reflexivity).
  apply existsb_exists in Hd as (e & Hin & He). destruct e as [ | | | | |h a| | | | | | | ]; try discriminate He.
  apply list_elem_of_In, list_elem_of_split in Hin as (newer & older & Hl). exists newer, h, a, older. split; [done|].
  destruct (device_data_needs_consent _ _ _ _ _ _ Hr) as (generation & project & policy & _ & H & _).
  destruct (H _ _ _ _ Hl) as [(mid & y & oldest & -> & _) _]. exists y. apply elem_of_app. right. apply list_elem_of_here.
Defined.

Lemma scoped_reading_is_complete_witness :
  match scoped_read_all (X:=agent) (fun _ _ => Ok tt) sample_sha (fun _ => None) 6 (sample_read 4 (Some 1)) (lit "a.txt") sample_text (fresh_call sample_agent) with
  | Ok pages => length pages = 2%nat /\ concat (map r_text pages) = lit "a" ++ [LF] ++ lit "bc" ++ [LF]
  | Err _ => False
  end.
Proof.
  pose proof (scoped_reading_is_complete (X:=agent) (fun _ _ => Ok tt) (fun _ _ => eq_refl) sample_sha (fun _ => None) (lit "a.txt") sample_text
    (lit "a" ++ [LF] ++ lit "bc" ++ [LF]) UTF8 (sample_read 4 (Some 1)) (fresh_call sample_agent)
    ltac:(vm_compute; reflexivity) eq_refl eq_refl eq_refl ltac:(vm_compute; discriminate) ltac:(vm_compute; reflexivity)) as H.
  change (S _) with 6%nat in H.
  destruct (scoped_read_all _ _ _ _ _ _ _ _) as [pages|] eqn:Hr; [|by destruct H as [_ ?]].
  split; [|apply H]. revert Hr. vm_compute. by intros [= <-].
Defined.
