(* ===== verification/HandlerTasks.v ===== *)
(** * Schedulers of the adapter: _read_slot, _drain_file_worker

    The two places where coroutines of the operation handler wait for each other
    or for a thread, as step machines over explicit events, and the
    end of the watched analysis. *)
From S2P Require Import Prelude PyStr Models Paths Database Approvals DevicePaths DeviceReads Handler HandlerCalls.

(** ** _read_slot

    A read takes a permit of its project's lane first and a global one after it,
    and gives both back in the other order.  A permit may be given to any task
    that waits for it. *)
Module Slots.

Inductive stage := WaitLane (key : str) | WaitGlobal (key : str) | Inside (key : str).
#[export] Instance stage_eq_dec : EqDecision stage.
Proof. solve_decision. Defined.

Record slots := {
  read_concurrency : nat;
  read_concurrency_per_project : nat;
  lane_free : str -> nat;
  global_free : nat;
  tasks : list (nat * stage);
}.

(** [__init__]: the lane is at most four permits, and never more than all. *)
Definition read_slots (n : nat) (per_project : option nat) : res slots :=
  if (n <? 1)%nat then Err (ValueError "read_concurrency must be positive")
  else if match per_project with Some m => (m <? 1)%nat | None => false end
  then Err (ValueError "read_concurrency_per_project must be positive")
  else let m := Nat.min n (match per_project with Some m => m | None => Nat.min 4 n end) in
       Ok {| read_concurrency := n; read_concurrency_per_project := m; lane_free := fun _ => m; global_free := n; tasks := [] |}.

Inductive slot_event :=
| Enter (task : nat) (project_id : option str)
| TakeLane (task : nat)
| TakeGlobal (task : nat)
| Leave (task : nat)
| Cancel (task : nat).

Definition lane_key (project_id : option str) : str :=
  match project_id with Some (c :: r) => c :: r | _ => lit "__device__" end.

Fixpoint stage_of (t : nat) (l : list (nat * stage)) : option stage :=
  match l with [] => None | (u, st) :: r => if (u =? t)%nat then Some st else stage_of t r end.
(** Replaces the stage of a task, or removes the task. *)
Fixpoint put (t : nat) (st : option stage) (l : list (nat * stage)) : list (nat * stage) :=
  match l with
  | [] => []
  | (u, x) :: r => if (u =? t)%nat then match st with Some st => (t, st) :: r | None => r end else (u, x) :: put t st r
  end.
Definition add_free (key : str) (d : nat -> nat) (f : str -> nat) : str -> nat :=
  fun k => if decide (k = key) then d (f k) else f k.

Definition with_tasks (s : slots) (lanes : str -> nat) (g : nat) (l : list (nat * stage)) : slots :=
  {| read_concurrency := read_concurrency s; read_concurrency_per_project := read_concurrency_per_project s;
     lane_free := lanes; global_free := g; tasks := l |}.

(** [None]: the event cannot happen now. *)
Definition slot_step (s : slots) (e : slot_event) : option slots :=
  match e with
  | Enter t p => match stage_of t (tasks s) with
                 | Some _ => None
                 | None => Some (with_tasks s (lane_free s) (global_free s) ((t, WaitLane (lane_key p)) :: tasks s))
                 end
  | TakeLane t => match stage_of t (tasks s) with
                  | Some (WaitLane k) => if (lane_free s k =? 0)%nat then None
                      else Some (with_tasks s (add_free k pred (lane_free s)) (global_free s) (put t (Some (WaitGlobal k)) (tasks s)))
                  | _ => None
                  end
  | TakeGlobal t => match stage_of t (tasks s) with
                    | Some (WaitGlobal k) => if (global_free s =? 0)%nat then None
                        else Some (with_tasks s (lane_free s) (pred (global_free s)) (put t (Some (Inside k)) (tasks s)))
                    | _ => None
                    end
  | Leave t => match stage_of t (tasks s) with
               | Some (Inside k) => Some (with_tasks s (add_free k S (lane_free s)) (S (global_free s)) (put t None (tasks s)))
               | _ => None
               end
  | Cancel t => match stage_of t (tasks s) with
                | Some (WaitLane _) => Some (with_tasks s (lane_free s) (global_free s) (put t None (tasks s)))
                | Some (WaitGlobal k) => Some (with_tasks s (add_free k S (lane_free s)) (global_free s) (put t None (tasks s)))
                | Some (Inside k) => Some (with_tasks s (add_free k S (lane_free s)) (S (global_free s)) (put t None (tasks s)))
                | None => None
                end
  end.

Inductive slots_reachable (n : nat) (per_project : option nat) : slots -> Prop :=
| reach_start s : read_slots n per_project = Ok s -> slots_reachable n per_project s
| reach_step s e s' : slots_reachable n per_project s -> slot_step s e = Some s' -> slots_reachable n per_project s'.

(** *** Counting permits *)

Definition inside (st : stage) : bool := match st with Inside _ => true | _ => false end.
Definition in_lane (k : str) (st : stage) : bool :=
  match st with WaitGlobal k' | Inside k' => bool_decide (k' = k) | WaitLane _ => false end.
Definition count (p : stage -> bool) (l : list (nat * stage)) : nat := foldr (fun x n => Nat.b2n (p x.2) + n)%nat 0%nat l.
(** Reads of a project that are running. *)
Definition running (k : str) (st : stage) : bool := match st with Inside k' => bool_decide (k' = k) | _ => false end.

Lemma count_put p t st l x : stage_of t l = Some x ->
  (count p (put t st l) + Nat.b2n (p x) = count p l + match st with Some st => Nat.b2n (p st) | None => 0 end)%nat.
Proof.
  induction l as [|[u y] l IH]; cbn [stage_of put count foldr]; [done|]. destruct (u =? t)%nat.
  - intros [= ->]. destruct st; cbn [count foldr snd]; unfold count; lia.
  - intros H. specialize (IH H). cbn [foldr snd]. unfold count in *. lia.
Qed.

Definition sound (s : slots) : Prop :=
  (count inside (tasks s) + global_free s = read_concurrency s)%nat /\
  (forall k, count (in_lane k) (tasks s) + lane_free s k = read_concurrency_per_project s)%nat.

Lemma step_sound s e s' : sound s -> slot_step s e = Some s' ->
  sound s' /\ read_concurrency s' = read_concurrency s /\ read_concurrency_per_project s' = read_concurrency_per_project s.
Proof.
  intros [Hg Hl] H. destruct e as [t p|t|t|t|t]; cbn [slot_step] in H; destruct (stage_of t (tasks s)) as [st|] eqn:Ht; try done.
  - injection H as <-. by split.
  - destruct st as [k|k|k]; [|done|done]. destruct (lane_free s k =? 0)%nat eqn:E; [done|]. apply Nat.eqb_neq in E. injection H as <-. split; [|done].
    pose proof (fun p => count_put p _ (Some (WaitGlobal k)) _ _ Ht) as Hc. unfold with_tasks. split; cbn [tasks global_free lane_free read_concurrency read_concurrency_per_project].
    + specialize (Hc inside). cbn in Hc. lia.
    + intros k'. specialize (Hl k'). specialize (Hc (in_lane k')). cbn [in_lane] in Hc. unfold add_free.
      destruct (decide (k' = k)) as [->|Hne]; [rewrite bool_decide_eq_true_2 in Hc by done|rewrite bool_decide_eq_false_2 in Hc by congruence];
        cbn [Nat.b2n] in Hc; lia.
  - destruct st as [k|k|k]; [done| |done]. destruct (global_free s =? 0)%nat eqn:E; [done|]. apply Nat.eqb_neq in E. injection H as <-. split; [|done].
    pose proof (fun p => count_put p _ (Some (Inside k)) _ _ Ht) as Hc. unfold with_tasks. split; cbn [tasks global_free lane_free read_concurrency read_concurrency_per_project].
    + specialize (Hc inside). cbn in Hc. lia.
    + intros k'. specialize (Hl k'). specialize (Hc (in_lane k')). cbn [in_lane] in Hc. lia.
  - destruct st as [k|k|k]; [done|done|]. injection H as <-. split; [|done].
    pose proof (fun p => count_put p _ None _ _ Ht) as Hc. unfold with_tasks. split; cbn [tasks global_free lane_free read_concurrency read_concurrency_per_project].
    + specialize (Hc inside). cbn in Hc. lia.
    + intros k'. specialize (Hl k'). specialize (Hc (in_lane k')). cbn [in_lane] in Hc. unfold add_free.
      destruct (decide (k' = k)) as [->|Hne]; [rewrite bool_decide_eq_true_2 in Hc by done|rewrite bool_decide_eq_false_2 in Hc by congruence];
        cbn [Nat.b2n] in Hc; lia.
  - pose proof (fun p => count_put p _ None _ _ Ht) as Hc.
    destruct st as [k|k|k]; injection H as <-; (split; [|done]); unfold with_tasks; split; cbn [tasks global_free lane_free read_concurrency read_concurrency_per_project].
    all: try (specialize (Hc inside); cbn in Hc; lia).
    all: intros k'; specialize (Hl k'); specialize (Hc (in_lane k')); cbn [in_lane] in Hc; unfold add_free.
    1: cbn [Nat.b2n] in Hc; lia.
    all: destruct (decide (k' = k)) as [->|Hne]; [rewrite bool_decide_eq_true_2 in Hc by done|rewrite bool_decide_eq_false_2 in Hc by congruence];
        cbn [Nat.b2n] in Hc; lia.
Qed.

Lemma start_sound n m s : read_slots n m = Ok s ->
  sound s /\ read_concurrency s = n /\ (1 <= read_concurrency_per_project s <= n)%nat.
Proof.
  unfold read_slots. destruct (n <? 1)%nat eqn:En; [done|]. apply Nat.ltb_ge in En.
  assert (1 <= Nat.min 4 n <= n)%nat as Hd by lia. set (d := Nat.min 4 n) in *. clearbody d.
  destruct m as [m|]; [destruct (m <? 1)%nat eqn:Em; [done|apply Nat.ltb_ge in Em]|]; intros [= <-];
    (split; [by split|]); cbn [read_concurrency read_concurrency_per_project]; lia.
Qed.

Lemma reachable_sound n m s : slots_reachable n m s ->
  sound s /\ read_concurrency s = n /\ (1 <= read_concurrency_per_project s <= n)%nat.
Proof.
  induction 1 as [s H|s e s' Hr (H1 & H2 & H3) Hs]; [by apply (start_sound n m)|].
  destruct (step_sound s e s' H1 Hs) as (H4 & H5 & H6). split; [done|]. lia.
Qed.

Lemma count_mono p q l : (forall st, p st = true -> q st = true) -> (count p l <= count q l)%nat.
Proof.
  intros H. induction l as [|[u st] l IH]; cbn [count foldr snd]; [done|]. unfold count in *.
  specialize (H st). destruct (p st), (q st); cbn [Nat.b2n]; try lia.
Qed.
Lemma count_pos p t st l : stage_of t l = Some st -> p st = true -> (1 <= count p l)%nat.
Proof.
  induction l as [|[u y] l IH]; cbn [stage_of count foldr snd]; [done|]. destruct (u =? t)%nat.
  - intros [= ->] ->. cbn. lia.
  - intros H1 H2. specialize (IH H1 H2). unfold count in *. lia.
Qed.
Lemma count_witness p l : NoDup l.*1 -> (1 <= count p l)%nat -> exists t st, stage_of t l = Some st /\ p st = true.
Proof.
  induction l as [|[u y] l IH]; cbn [count foldr snd fmap list_fmap fst stage_of]; [lia|]. intros [Hu Hn]%NoDup_cons H.
  destruct (p y) eqn:E; [exists u, y; by rewrite Nat.eqb_refl|]. cbn [Nat.b2n] in H. destruct (IH Hn H) as (t & st & H1 & H2).
  exists t, st. split; [|done]. destruct (Nat.eqb_spec u t) as [->|]; [|done]. exfalso. apply Hu.
  clear -H1. induction l as [|[v z] l IH]; cbn in *; [done|]. destruct (Nat.eqb_spec v t) as [->|]; [left|right; by apply IH].
Qed.

Lemma stage_of_elem t l : t ∈ l.*1 <-> is_Some (stage_of t l).
Proof.
  induction l as [|[u y] l IH]; cbn; [split; [by intros ?%elem_of_nil|by intros ?%is_Some_None]|].
  rewrite elem_of_cons, IH. destruct (Nat.eqb_spec u t) as [->|]; [split; [eauto|by left]|]. split; [by intros [->|]|by right].
Qed.
Lemma put_ids t st l x : x ∈ (put t st l).*1 -> x ∈ l.*1.
Proof.
  induction l as [|[u y] l IH]; cbn; [done|]. destruct (Nat.eqb_spec u t) as [->|]; [destruct st; cbn; [done|by right]|].
  cbn. rewrite !elem_of_cons. intros [?|?]; auto.
Qed.
Lemma put_nodup t st l : NoDup l.*1 -> NoDup (put t st l).*1.
Proof.
  induction l as [|[u y] l IH]; cbn; [done|]. intros [Hu Hn]%NoDup_cons. destruct (Nat.eqb_spec u t) as [->|].
  - destruct st; cbn; [by apply NoDup_cons|done].
  - cbn. apply NoDup_cons. split; [|by apply IH]. intros H%put_ids. by apply Hu.
Qed.
Lemma reachable_nodup n m s : slots_reachable n m s -> NoDup (tasks s).*1.
Proof.
  induction 1 as [s H|s e s' Hr IH Hs].
  - unfold read_slots in H. repeat (case_match; [done|]). injection H as <-. apply NoDup_nil_2.
  - destruct e as [t p|t|t|t|t]; cbn [slot_step] in Hs; destruct (stage_of t (tasks s)) as [st|] eqn:Ht; try done;
      try (destruct st); try (case_match; try done); try done; injection Hs as <-; cbn [with_tasks tasks fmap list_fmap fst]; try (by apply put_nodup).
    apply NoDup_cons. split; [|done]. change (list_fmap _ _ fst (tasks s)) with (tasks s).*1. rewrite stage_of_elem, Ht. by intros [].
Qed.

(** C20. Reads are bounded: at every moment at most [read_concurrency] reads run, and
    of one project at most its lane.  A backlog of one project leaves the others
    room: while only its reads run, every permit beyond its lane is free.  And
    nothing is stuck: while a read waits, some waiting read can take its next
    permit or some read runs and can leave. *)
Theorem read_slots_are_bounded n per_project s : slots_reachable n per_project s ->
  (count inside (tasks s) <= n)%nat /\
  (forall k, count (running k) (tasks s) <= read_concurrency_per_project s)%nat /\
  (forall k, (forall t k', stage_of t (tasks s) = Some (Inside k') -> k' = k) ->
     n - read_concurrency_per_project s <= global_free s)%nat /\
  (tasks s <> [] -> exists t s', slot_step s (TakeLane t) = Some s' \/ slot_step s (TakeGlobal t) = Some s' \/ slot_step s (Leave t) = Some s').
Proof.
  intros Hr. destruct (reachable_sound n per_project s Hr) as ([Hg Hl] & Hn & Hm). pose proof (reachable_nodup _ _ _ Hr) as Hnd.
  assert (Hrun : forall k, (count (running k) (tasks s) <= read_concurrency_per_project s)%nat).
  { intros k. specialize (Hl k). pose proof (count_mono (running k) (in_lane k) (tasks s)) as H. specialize (H (fun st => match st with Inside _ => fun e => e | _ => fun e => ltac:(done) end)). lia. }
  split_and!; [lia|done| |].
  - intros k Honly. specialize (Hrun k).
    assert (count inside (tasks s) <= count (running k) (tasks s))%nat as H; [|lia].
    clear -Honly Hnd. induction (tasks s) as [|[u st] l IH]; cbn [count foldr snd fmap list_fmap fst] in *; [done|].
    apply NoDup_cons in Hnd as [Hu Hnd]. unfold count in *.
    assert (forall t k', stage_of t l = Some (Inside k') -> k' = k) as Honly'.
    { intros t k' Ht. apply (Honly t). cbn [stage_of]. destruct (Nat.eqb_spec u t) as [->|]; [|done]. exfalso. apply Hu. apply stage_of_elem. eauto. }
    specialize (IH Hnd Honly'). destruct st as [k'|k'|k']; cbn [inside running Nat.b2n]; [lia|lia|].
    rewrite (Honly u k') by (cbn [stage_of]; by rewrite Nat.eqb_refl). rewrite bool_decide_eq_true_2 by done. cbn. lia.
  - intros Hne. destruct (decide (1 <= count inside (tasks s))%nat) as [H|H].
    { destruct (count_witness _ _ Hnd H) as (t & st & H1 & H2). destruct st as [k|k|k]; try done.
      exists t. eexists. right. right. cbn [slot_step]. by rewrite H1. }
    assert (0 < global_free s)%nat as Hfree by lia.
    destruct (tasks s) as [|[t st] l] eqn:El; [done|]. assert (stage_of t (tasks s) = Some st) as Ht by (rewrite El; cbn; by rewrite Nat.eqb_refl).
    rewrite <-El in *. destruct st as [k|k|k].
    + destruct (decide (lane_free s k = 0)%nat) as [H0|H0].
      * specialize (Hl k). assert (1 <= count (in_lane k) (tasks s))%nat as Hc by lia.
        destruct (count_witness _ _ Hnd Hc) as (t' & st' & H1 & H2).
        destruct st' as [k'|k'|k']; [done| |].
        -- exists t'. eexists. right. left. cbn [slot_step]. rewrite H1. destruct (global_free s =? 0)%nat eqn:E; [apply Nat.eqb_eq in E; lia|done].
        -- exfalso. apply H. by eapply (count_pos inside t').
      * exists t. eexists. left. cbn [slot_step]. rewrite Ht. apply Nat.eqb_neq in H0. by rewrite H0.
    + exists t. eexists. right. left. cbn [slot_step]. rewrite Ht. destruct (global_free s =? 0)%nat eqn:E; [apply Nat.eqb_eq in E; lia|done].
    + exists t. eexists. right. right. cbn [slot_step]. by rewrite Ht.
Qed.

Definition two_projects : list slot_event :=
  [Enter 0 (Some (lit "a")); Enter 1 (Some (lit "a")); Enter 2 (Some (lit "b")); TakeLane 0; TakeGlobal 0; TakeLane 2].
Fixpoint run_slots (s : slots) (l : list slot_event) : option slots :=
  match l with [] => Some s | e :: r => match slot_step s e with Some s' => run_slots s' r | None => None end end.

Lemma run_reachable n m l : forall s s', slots_reachable n m s -> run_slots s l = Some s' -> slots_reachable n m s'.
Proof.
  induction l as [|e l IH]; intros s s' Hs H; cbn in H; [by injection H as <-|].
  destruct (slot_step s e) as [s1|] eqn:E; [|done]. eapply IH; [|exact H]. by eapply reach_step.
Qed.

Lemma read_slots_are_bounded_witness :
  exists s, slots_reachable 2 (Some 1%nat) s /\ (count (running (lit "a")) (tasks s) = 1)%nat /\ (1 <= global_free s)%nat.
Proof.
  destruct (read_slots 2 (Some 1%nat)) as [s0|] eqn:E0; [|done].
  destruct (run_slots s0 two_projects) as [s|] eqn:E; [|exfalso; revert E; injection E0 as <-; vm_compute; done].
  assert (slots_reachable 2 (Some 1%nat) s) as Hr by (eapply run_reachable; [by apply reach_start|exact E]).
  exists s. split; [done|].
  assert (count (running (lit "a")) (tasks s) = 1%nat /\ read_concurrency_per_project s = 1%nat /\
    forall t k', stage_of t (tasks s) = Some (Inside k') -> k' = lit "a") as (H1 & H2 & H3).
  { injection E0 as <-. vm_compute in E. injection E as <-. split; [by vm_compute|]. split; [done|].
    intros t k'. do 3 (destruct t as [|t]; [by intros [= <-]|]). done. }
  split; [done|]. destruct (read_slots_are_bounded 2 (Some 1%nat) s Hr) as (_ & _ & H & _).
  specialize (H (lit "a") H3). rewrite H2 in H. lia.
Defined.
End Slots.

(** ** _drain_file_worker

    [to_thread] queues [run]; a cancellation sets the flag and waits on, later
    ones are suppressed.  What [Drain] ends with is what [drain] of [DeviceReads]
    gives. *)
Module Drain.
Section worker.
  Context {T : Type}.

Inductive thread := Queued | Running | Finished (r : res T).
Inductive waiter := Awaiting | Draining | Ended (r : res T).
Record worker := { w_thread : thread; w_waiter : waiter; w_cancelled : bool }.

Definition submitted : worker := {| w_thread := Queued; w_waiter := Awaiting; w_cancelled := false |}.

Inductive worker_event := ThreadStarts | ThreadEnds (r : res T) | CancelArrives | CoroutineResumes.

Definition worker_step (s : worker) (e : worker_event) : option worker :=
  match e with
  | ThreadStarts =>
      match w_thread s with
      | Queued => Some {| w_thread := if w_cancelled s then Finished (agent_error "approval_expired") else Running;
                          w_waiter := w_waiter s; w_cancelled := w_cancelled s |}
      | _ => None
      end
  | ThreadEnds r =>
      match w_thread s with
      | Running => Some {| w_thread := Finished r; w_waiter := w_waiter s; w_cancelled := w_cancelled s |}
      | _ => None
      end
  | CancelArrives =>
      match w_waiter s with
      | Ended _ => None
      | _ => Some {| w_thread := w_thread s; w_waiter := Draining; w_cancelled := true |}
      end
  | CoroutineResumes =>
      match w_waiter s, w_thread s with
      | Awaiting, Finished r => Some {| w_thread := w_thread s; w_waiter := Ended r; w_cancelled := w_cancelled s |}
      | Draining, Finished _ => Some {| w_thread := w_thread s; w_waiter := Ended (Err CancelledError); w_cancelled := w_cancelled s |}
      | _, _ => None
      end
  end.

Inductive worker_reachable : worker -> Prop :=
| reach_submitted : worker_reachable submitted
| reach_step s e s' : worker_reachable s -> worker_step s e = Some s' -> worker_reachable s'.

Definition sound (s : worker) : Prop :=
  match w_waiter s with
  | Awaiting => w_cancelled s = false
  | Draining => w_cancelled s = true
  | Ended r => exists x, w_thread s = Finished x /\ r = if w_cancelled s then Err CancelledError else x
  end.

Lemma worker_reachable_sound s : worker_reachable s -> sound s.
Proof.
  induction 1 as [|s e s' _ IH H]; [done|]. destruct s as [th wt fl]. unfold sound in *. cbn in IH.
  destruct e as [|r| |]; cbn in H.
  - destruct th; try done. injection H as <-. cbn. destruct wt; try done. by destruct IH as (x & ? & _).
  - destruct th; try done. injection H as <-. cbn. destruct wt; try done. by destruct IH as (x & ? & _).
  - destruct wt; try done; by injection H as <-.
  - destruct wt, th; try done; injection H as <-; cbn in *; rewrite IH; eauto.
Qed.

(** The coroutine goes on only after the thread is done, so what the thread uses
    is not given back under it; once cancelled it gives nothing of the result
    away; and a finished thread can always be collected. *)
Lemma worker_is_drained s : worker_reachable s ->
  (forall r, w_waiter s = Ended r -> exists x, w_thread s = Finished x /\ r = if w_cancelled s then Err CancelledError else x) /\
  (forall x, w_thread s = Finished x -> (exists r, w_waiter s = Ended r) \/ exists s', worker_step s CoroutineResumes = Some s').
Proof.
  intros Hs%worker_reachable_sound. split.
  - intros r Hr. unfold sound in Hs. by rewrite Hr in Hs.
  - intros x Hx. cbn [worker_step]. rewrite Hx. destruct (w_waiter s); eauto.
Qed.
End worker.
End Drain.

(** ** The watched analysis *)

Section watching.
  Context {handling : Handling} {analysis : Analysis}.

Lemma code_check_error generation deadline project l x e : code_check generation deadline project l x = Err e -> e <> UNFINISHED.
Proof.
  unfold code_check. intros H ->. revert H.
  destruct ((ensure_current (clock_at l) generation deadline (ag_approvals x)).1) as [[]|e] eqn:E; cbn [rbind].
  - destruct ((on_database _ _).1) as [p|e] eqn:Ep; cbn [rbind].
    + case_match; [done|]. unfold verify_project. repeat case_match; cbn [rbind]; try done.
      unfold _is_reparse. repeat case_match; cbn [rbind]; repeat case_match; by intros; simplify_eq.
    + intros [= ->]. revert Ep. unfold on_database, Database.get_project, bind, gets, raise, ret. repeat case_match; by intros; simplify_eq.
  - intros [= ->]. revert E. unfold ensure_current, bind, gets, fail, raise, raise_if, ret. repeat case_match; by intros; simplify_eq.
Qed.

(** One look at the authorization: its check, and what it takes. *)
Lemma ensure_authorized_run generation deadline project s :
  let l := EvAwait :: log s in let x := interfere l (rest s) in
  exists s', ensure_authorized generation deadline project s =
    (if cancelled_at l then Err CancelledError else code_check generation deadline project l x, s') /\
    (length (log s) < length (log s'))%nat.
Proof.
  cbn zeta. unfold ensure_authorized, await, run_check, emit, modify, gets, raise_if, bind, ret, raise. cbn [log rest fst snd].
  destruct (cancelled_at _); cbn [log rest fst snd length]; eexists; (split; [reflexivity|cbn [log length]; lia]).
Qed.

Lemma await_run s : exists s', await s = (if cancelled_at (EvAwait :: log s) then Err CancelledError else Ok tt, s') /\ (length (log s) < length (log s'))%nat.
Proof.
  unfold await, emit, modify, gets, raise_if, bind, ret, raise. cbn [log].
  destruct (cancelled_at _); eexists; (split; [reflexivity|cbn [log length]; lia]).
Qed.

Lemma code_check_expired generation d project l x : (d <= clock_at l)%Z -> is_ok (code_check generation (Some d) project l x) = false.
Proof.
  intros Hd. unfold code_check, ensure_current, bind, gets, fail, raise, raise_if, ret. cbn [fst].
  destruct (negb _); [done|]. by rewrite (proj2 (Z.leb_le _ _) Hd).
Qed.

(** However long the analysis takes, it is not watched beyond the deadline: when
    the deadline is over after [n] more events, [n + 1] turns are enough, and the
    loop ends with the analysis or with an error of the authorization. *)
Lemma watch_ends generation d project n : forall s,
  (forall l, (length (log s) + n < length l)%nat -> (d <= clock_at l)%Z) ->
  (watch (S n) generation (Some d) project s).1 <> Err UNFINISHED.
Proof.
  induction n as [|n IH]; intros s Hd; cbn [watch]; rewrite gets_run; (destruct (analysis_done (log s)); [done|]).
  all: destruct (ensure_authorized_run generation (Some d) project s) as (s1 & E1 & L1); unfold bind at 1; rewrite E1; destruct (cancelled_at _); [done|].
  all: destruct (code_check _ _ _ _ _) as [[]|e] eqn:E; [|by intros [= ->]; eapply code_check_error].
  - assert (d <= clock_at (EvAwait :: log s))%Z as H by (apply Hd; cbn; lia).
    apply (code_check_expired generation d project _ (interfere (EvAwait :: log s) (rest s))) in H. by rewrite E in H.
  - destruct (await_run s1) as (s2 & E2 & L2). unfold bind at 1. rewrite E2. destruct (cancelled_at _); [done|].
    apply IH. intros l Hl. apply Hd. lia.
Qed.
End watching.
