(* ===== verification/DevServers.v ===== *)
(** * Development servers: dev_servers.py

    The launch configuration of a project's frontend and the origin it is bound
    to; DevServerPool runs the servers.  URL parsing, JSON parsing and what the
    resolver finds below a project are answers. *)
From S2P Require Import Prelude Utf8 PyStr Models Paths Database.

Open Scope Z_scope.

Definition MAX_CONFIG_BYTES : Z := 256 * 1024.
Definition MAX_SERVER_OUTPUT_BYTES : Z := 256 * 1024.

(** ** urllib.parse and ipaddress *)

(** What [urlsplit] gives; [s_port] is the property, which may raise. *)
Record split := {
  s_scheme : str; s_username : option str; s_password : option str; s_hostname : option str;
  s_port : res (option Z); s_path : str; s_query : str; s_fragment : str;
}.
Class Urls := {
  urlsplit : str -> res split;
  urlunsplit : str -> str -> str -> str;   (* scheme, netloc, path *)
  is_loopback_ip : str -> res bool;        (* [ip_address(host).is_loopback] *)
}.

Definition unless_value_error {T} (r : res T) (e : res T) : res T :=
  match r with Err (ValueError _) => e | _ => r end.

Section urls.
  Context {urls : Urls}.

(** [f"[{host}]" if ":" in host else host] *)
Definition bracketed (host : str) : str := if bool_decide (COLON ∈ host) then [91%N] ++ host ++ [93%N] else host.
Definition with_port (host : str) (port : Z) : str := host ++ [COLON] ++ str_of_Z port.

Definition loopback_origin (url : str) : res str :=
  parsed <-? unless_value_error (urlsplit url) (agent_error "invalid_frontend_config") ;;
  port <-? unless_value_error (s_port parsed) (agent_error "invalid_frontend_config") ;;
  if negb (bool_decide (s_scheme parsed = lit "http")) then agent_error "invalid_frontend_config"
  else if negb (bool_decide (s_username parsed = None) && bool_decide (s_password parsed = None)) then agent_error "invalid_frontend_config"
  else
    let hostname := default [] (s_hostname parsed) in
    loopback <-? unless_value_error (if bool_decide (hostname = lit "localhost") then Ok true else is_loopback_ip hostname) (Ok false) ;;
    if negb loopback then agent_error "invalid_frontend_config"
    else if negb (bool_decide (s_query parsed = []) && bool_decide (s_fragment parsed = [])) ||
            negb (bool_decide (s_path parsed ∈ [[]; [SLASH]])) then agent_error "invalid_frontend_config"
    else
      let port := default 80 port in
      if negb ((1 <=? port) && (port <=? 65535)) then agent_error "invalid_frontend_config"
      else Ok (urlunsplit (s_scheme parsed) (if port =? 80 then bracketed hostname else with_port (bracketed hostname) port) []).
End urls.

(** ** Configuration *)

Record FrontendLaunchConfig := {
  fc_working_relative : str; fc_working_directory : str; fc_command : str; fc_base_url : str; fc_source : str;
}.
#[export] Instance FrontendLaunchConfig_eq_dec : EqDecision FrontendLaunchConfig.
Proof. solve_decision. Defined.

(** The project as the resolver sees it: the identity check, the bytes of a file
    (at most one more than the limit), where a path leads (relative, absolute). *)
Class ProjectView := {
  view_verified : res unit;
  view_read : str -> res bytes;
  view_resolve : str -> bool -> res (str * str);
  json_loads : str -> option json;
}.

Definition NUL : N := 0%N.
Definition as_text (v : option json) : option str := match v with Some (JStr s) => Some s | _ => None end.
Definition as_object (v : option json) : option (list (str * json)) := match v with Some (JObj o) => Some o | _ => None end.

Section discover.
  Context {urls : Urls} {view : ProjectView}.

Definition _read_json (relative : str) : res (option (list (str * json))) :=
  match view_read relative with
  | Err (AgentError c r d) => if bool_decide (c = "path_not_found"%string) then Ok None else Err (AgentError c r d)
  | Err e => Err e
  | Ok raw =>
      if MAX_CONFIG_BYTES <? Z.of_nat (length raw) then agent_error "invalid_frontend_config"
      else match (t ← utf8_decode raw; json_loads t) with
           | None => agent_error "invalid_frontend_config"
           | Some (JObj o) => Ok (Some o)
           | Some _ => agent_error "invalid_frontend_config"
           end
  end.

(** [value.get(a, value.get(b))] *)
Definition either_key (a b : str) (o : list (str * json)) : option json :=
  match obj_get a o with Some v => Some v | None => obj_get b o end.

Definition _config_from_mapping (value : list (str * json)) (source : str) : res FrontendLaunchConfig :=
  match as_text (Some (default (JStr [DOT]) (obj_get (lit "cwd") value))),
        as_text (either_key (lit "devCommand") (lit "dev_command") value),
        as_text (either_key (lit "baseUrl") (lit "base_url") value) with
  | Some cwd, Some command, Some base_url =>
      let command := strip command in
      match utf8_encode command with
      | None => Err (ValueError "UnicodeEncodeError")
      | Some encoded =>
          if bool_decide (command = []) || (16384 <? Z.of_nat (length encoded)) || bool_decide (NUL ∈ command)
          then agent_error "invalid_frontend_config"
          else
            resolved <-? view_resolve (if bool_decide (cwd = []) then [DOT] else cwd) true ;;
            origin <-? loopback_origin base_url ;;
            Ok {| fc_working_relative := resolved.1; fc_working_directory := resolved.2; fc_command := command;
                  fc_base_url := origin; fc_source := source |}
      end
  | _, _, _ => agent_error "invalid_frontend_config"
  end.

(** *** package.json without a configuration *)

Definition lockfiles : list (str * str) :=
  [(lit "pnpm-lock.yaml", lit "pnpm"); (lit "yarn.lock", lit "yarn"); (lit "bun.lockb", lit "bun"); (lit "bun.lock", lit "bun");
   (lit "package-lock.json", lit "npm")].
Fixpoint lockfile_managers (l : list (str * str)) : res (list str) :=
  match l with
  | [] => Ok []
  | (lockfile, candidate) :: r =>
      match view_resolve lockfile false with
      | Ok _ => found <-? lockfile_managers r ;; Ok (candidate :: found)
      | Err (AgentError c x d) => if bool_decide (c = "path_not_found"%string) then lockfile_managers r else Err (AgentError c x d)
      | Err e => Err e
      end
  end.

Definition dev_script (scripts : list (str * json)) : option str :=
  match as_text (obj_get (lit "dev") scripts), as_text (obj_get (lit "start") scripts) with
  | Some _, _ => Some (lit "dev")
  | None, Some _ => Some (lit "start")
  | None, None => None
  end.
(** Whether a package is among the dependencies of either group. *)
Definition depends_on (package : list (str * json)) (name : str) : bool :=
  existsb (fun group => match as_object (obj_get group package) with
                        | Some o => match obj_get name o with Some _ => true | None => false end
                        | None => false
                        end) [lit "dependencies"; lit "devDependencies"].
Definition framework_port (package : list (str * json)) : option Z :=
  if depends_on package (lit "@angular/core") then Some 4200
  else if depends_on package (lit "vite") then Some 5173
  else if depends_on package (lit "next") || depends_on package (lit "react-scripts") then Some 3000
  else None.

Definition AUTO_SOURCE : str := lit "package.json:auto".
Definition _package_fallback (project : Project) (package : list (str * json)) : res FrontendLaunchConfig :=
  match as_object (obj_get (lit "scripts") package) with
  | None => agent_error "frontend_config_required"
  | Some scripts =>
      match dev_script scripts with
      | None => agent_error "frontend_config_required"
      | Some script =>
          managers <-? lockfile_managers lockfiles ;;
          match managers with
          | _ :: _ :: _ => agent_error "frontend_config_required"
          | _ =>
              let manager := match managers with m :: _ => m | [] => lit "npm" end in
              match framework_port package with
              | None => agent_error "frontend_config_required"
              | Some port =>
                  Ok {| fc_working_relative := [DOT]; fc_working_directory := root project;
                        fc_command := manager ++ lit " run " ++ script; fc_base_url := lit "http://localhost:" ++ str_of_Z port;
                        fc_source := AUTO_SOURCE |}
              end
          end
      end
  end.

Definition discover (project : Project) : res FrontendLaunchConfig :=
  _ <-? view_verified ;;
  first <-? _read_json (lit ".codito/frontend.json") ;;
  match first with
  | Some raw => _config_from_mapping raw (lit ".codito/frontend.json")
  | None =>
      second <-? _read_json (lit "codito.frontend.json") ;;
      match second with
      | Some raw => _config_from_mapping raw (lit "codito.frontend.json")
      | None =>
          package <-? _read_json (lit "package.json") ;;
          match package with
          | None => agent_error "frontend_config_required"
          | Some package =>
              match (nested ← as_object (obj_get (lit "codito") package); as_object (obj_get (lit "frontend") nested)) with
              | Some frontend => _config_from_mapping frontend (lit "package.json#codito.frontend")
              | None => _package_fallback project package
              end
          end
      end
  end.
End discover.
