(* ===== verification/Frontend.v ===== *)
(** * Frontend sessions: frontend_sessions.py

    A session ties a project, the grant and link that started it, a development
    server and a page of the managed browser together.  Starts, operations and
    closings are coroutines; they are cut at their awaits, and [step] runs one
    segment, so that a history is any interleaving.  The lock [_guard] is never
    held across an await and so needs no state.  What the browser, the development
    servers, the user and the clock answer are the arguments of the events; a
    cancellation arrives as the exception an await raises.  Session objects are
    kept in a store by their identifier, since the tables and tasks share them. *)
From S2P Require Import Prelude Utf8 PyStr Models Paths Database Json Approvals ReadText DevServers.

Open Scope Z_scope.

Definition MAX_SESSIONS : nat := 8.
Definition MAX_SOURCE_BYTES : Z := 4 * 1024 * 1024.
Definition SESSION_MAX : Z := 30 * 60 * 1000000.
Definition SESSION_IDLE : Z := 10 * 60 * 1000000.
Definition TOMBSTONE_MAX : nat := 128.
Definition FRONTEND_BROWSER_RESERVE : Z := 95 * 1000000.
Definition MIN_FRONTEND_APPROVAL_WINDOW : Z := 5 * 1000000.
Definition ACTS_MAX : nat := 128.

(** ** Requests *)

Record caller := { c_grant_id : str; c_link_id : str; c_connection_epoch : Z; c_deadline_at : Z }.

(** [sq_json]: the request as [model_dump] gives it. *)
Record start_request := {
  sq_project_id : str; sq_idempotency_key : str; sq_route : str; sq_purpose : str; sq_ready_timeout_seconds : Z;
  sq_viewport : Z * Z; sq_json : json;
}.

Inductive operation :=
| Snapshot (max_elements : Z)
| Inspect (snapshot : str) (element : option str) (x y : option Z)
| Act (idempotency_key snapshot element action : str) (value : json)
| Source (snapshot element : str).
Record operation_request := { oq_project_id : str; oq_session_id : str; oq_operation : operation }.
Record stop_request := { tq_project_id : str; tq_session_id : str }.

(** ** What the browser shows *)

(** An element as the browser gives it; [el_json] is its description. *)
Record raw_element := { raw_backend : option Z; raw_parent : option Z; raw_json : json }.
Record element := { el_id : str; el_parent : option str; el_json : json }.
Record console_entry := { ce_level : str; ce_text : str }.
(** [ne_upper_method]: the method in upper case, [GET] where there is none. *)
Record network_entry := { ne_ok : bool; ne_status : option Z; ne_upper_method : str; ne_url : str; ne_error : str }.
Record BrowserSnapshot := {
  cap_elements : list raw_element; cap_document_token : str; cap_url : str; cap_truncated : bool;
  cap_console : list console_entry; cap_network : list network_entry; cap_warnings : list str;
}.

Record network_issue := { ni_method : str; ni_url : str; ni_status : option Z; ni_failure : option str }.
Record snapshot_result := {
  sr_snapshot_id : str; sr_url : str; sr_elements : list element; sr_console : list (str * str);
  sr_network : list network_issue; sr_truncated : bool; sr_warnings : list str;
}.
Record location := { loc_path : str; loc_line : Z; loc_character : Z }.
#[export] Instance location_eq_dec : EqDecision location.
Proof. solve_decision. Defined.
Record source_result := { so_confidence : str; so_consumer : option location; so_design_system : list location; so_warnings : nat }.
Record act_result := { ac_session_id : str; ac_snapshot_id : str; ac_element_id : str; ac_action : str }.
Record start_response := { re_session_id : str; re_base_url : str; re_url : str; re_owned : bool; re_recovered : bool }.
Record stop_response := { st_session_id : str; st_already : bool; st_dev_server_stopped : bool }.

Inductive answer :=
| Started (r : start_response)
| Captured (r : snapshot_result)
| Inspected (e : element)
| Acted (r : act_result) (again : bool)
| Located (r : source_result).

(** ** State *)

(** A development server as [acquire] hands it out. *)
Record server := { sv_key : str; sv_handle : nat; sv_owned : bool }.

(** What is known of the page since the last snapshot. *)
Record page_view := {
  snapshot_id : option str; document_token : option str;
  registry : gmap str Z; reverse_registry : gmap Z str; next_element : Z;
}.

(** How far a session or an abandoned start is closed. *)
Record fate := { browser_closed : bool; server_released : bool; dev_server_stopped : bool }.

(** The dataclass; what never changes first. *)
Record FrontendSession := {
  fs_session_id : str; fs_project_id : str; fs_project_root : str; fs_root_fingerprint : str; fs_project_mode : ProjectMode;
  fs_grant_id : str; fs_link_id : str; fs_security_generation : nat; fs_config : FrontendLaunchConfig;
  fs_server : server; fs_browser : nat; fs_viewport : Z * Z; fs_public_url : str; fs_created_at : Z;
  fs_connection_epoch : Z; fs_last_used_at : Z; fs_view : page_view; fs_acts : list (str * (str * option act_result));
  fs_lock : option nat; fs_closed : bool; fs_fate : fate;
}.

Record _StoppedSession := { t_project_id : str; t_grant_id : str; t_link_id : str; t_connection_epoch : Z; t_dev_server_stopped : bool }.

(** An abandoned start; the object is named by the start it comes from. *)
Record _PartialStartCleanup := { pc_project_id : str; pc_page : option nat; pc_server : option server; pc_fate : fate; pc_task : nat }.

Definition start_key : Type := str * str * str * str.

Record start_info := {
  si_request : start_request; si_key : start_key; si_digest : str; si_caller : caller; si_lifecycle_generation : nat;
}.
(** Where a start waits. *)
Inductive start_stage :=
| SNew
| SAsking (p : Project) (c : FrontendLaunchConfig) (generation : nat)
| SAcquiring (p : Project) (c : FrontendLaunchConfig) (generation : nat)
| SOpening (p : Project) (c : FrontendLaunchConfig) (generation : nat) (v : server) (url : str)
| SCleaning (e : exn)
| SDone (r : res answer).

(** An operation waits for its turn, then for the browser; an action keeps the
    digest of its value. *)
Inductive operation_stage := OWaiting | OCalling (digest : str) | ODone (r : res answer).

(** Where a closing waits: for its turn, for the page, for the server. *)
Inductive close_stage := CNew | CPage | CServer (failure : option exn) | CDone (r : res bool).

Inductive task :=
| StartTask (i : start_info) (st : start_stage)
| OperationTask (q : operation_request) (c : caller) (st : operation_stage)
| CloseTask (sid : str) (st : close_stage)
| CleanupTask (start : nat) (st : close_stage).

(** What the browser, the servers and the user see, newest first; [approvals] is
    the state of the agent at that moment.  [EConsent]: the user has agreed, or
    the project needs no consent; [EUsed]: the call has returned and its
    operation is over. *)
Inductive effect :=
| ENew (start : nat) (i : start_info)
| EAsk (start : nat) (r : ApprovalRequest)
| EConsent (start : nat) (p : Project) (c : FrontendLaunchConfig)
| EFence
| EOpen (start : nat) (p : Project) (url : str) (now : Z) (a : approvals)
| EPage (start : nat) (project_id : str) (page : nat)
| ESession (sid : str) (start : nat) (page : nat) (now : Z)
| EUse (user : nat) (sid : str) (page : nat) (q : operation_request) (c : caller) (node : option Z) (now : Z) (a : approvals)
| EUsed (user : nat) (completed : bool)
| ESnapshot (sid snapshot : str)
| EClose (page : nat)
| EClosed (page : nat) (ok : bool).

Record manager := {
  fm_approvals : approvals;
  objects : gmap str FrontendSession;
  partials : gmap nat _PartialStartCleanup;
  _sessions : gset str;
  _project_sessions : gmap str str;
  _starts : gmap start_key (str * str);
  _start_tasks : gmap start_key (str * nat);
  _project_starts : gmap str start_key;
  _stopped : list (str * _StoppedSession);
  _closing : gmap str nat;
  _partial_cleanups : gmap str nat;
  _lifecycle_generation : nat;
  _shutdown : bool;
  tasks : gmap nat task;
  effects : list effect;
}.
Definition F := ST manager.

(** *** Updates of one field *)

Definition set_approvals (f : approvals -> approvals) (s : manager) : manager :=
  {| fm_approvals := f (fm_approvals s); objects := objects s; partials := partials s; _sessions := _sessions s; _project_sessions
     := _project_sessions s; _starts := _starts s; _start_tasks := _start_tasks s; _project_starts := _project_starts s; _stopped
     := _stopped s; _closing := _closing s; _partial_cleanups := _partial_cleanups s; _lifecycle_generation :=
     _lifecycle_generation s; _shutdown := _shutdown s; tasks := tasks s; effects := effects s |}.
Definition on_objects (f : gmap str FrontendSession -> gmap str FrontendSession) (s : manager) : manager :=
  {| fm_approvals := fm_approvals s; objects := f (objects s); partials := partials s; _sessions := _sessions s; _project_sessions
     := _project_sessions s; _starts := _starts s; _start_tasks := _start_tasks s; _project_starts := _project_starts s; _stopped
     := _stopped s; _closing := _closing s; _partial_cleanups := _partial_cleanups s; _lifecycle_generation :=
     _lifecycle_generation s; _shutdown := _shutdown s; tasks := tasks s; effects := effects s |}.
Definition on_partials (f : gmap nat _PartialStartCleanup -> gmap nat _PartialStartCleanup) (s : manager) : manager :=
  {| fm_approvals := fm_approvals s; objects := objects s; partials := f (partials s); _sessions := _sessions s; _project_sessions
     := _project_sessions s; _starts := _starts s; _start_tasks := _start_tasks s; _project_starts := _project_starts s; _stopped
     := _stopped s; _closing := _closing s; _partial_cleanups := _partial_cleanups s; _lifecycle_generation :=
     _lifecycle_generation s; _shutdown := _shutdown s; tasks := tasks s; effects := effects s |}.
Definition on_sessions (f : gset str -> gset str) (s : manager) : manager :=
  {| fm_approvals := fm_approvals s; objects := objects s; partials := partials s; _sessions := f (_sessions s); _project_sessions
     := _project_sessions s; _starts := _starts s; _start_tasks := _start_tasks s; _project_starts := _project_starts s; _stopped
     := _stopped s; _closing := _closing s; _partial_cleanups := _partial_cleanups s; _lifecycle_generation :=
     _lifecycle_generation s; _shutdown := _shutdown s; tasks := tasks s; effects := effects s |}.
Definition on_project_sessions (f : gmap str str -> gmap str str) (s : manager) : manager :=
  {| fm_approvals := fm_approvals s; objects := objects s; partials := partials s; _sessions := _sessions s; _project_sessions :=
     f (_project_sessions s); _starts := _starts s; _start_tasks := _start_tasks s; _project_starts := _project_starts s; _stopped
     := _stopped s; _closing := _closing s; _partial_cleanups := _partial_cleanups s; _lifecycle_generation :=
     _lifecycle_generation s; _shutdown := _shutdown s; tasks := tasks s; effects := effects s |}.
Definition on_starts (f : gmap start_key (str * str) -> gmap start_key (str * str)) (s : manager) : manager :=
  {| fm_approvals := fm_approvals s; objects := objects s; partials := partials s; _sessions := _sessions s; _project_sessions :=
     _project_sessions s; _starts := f (_starts s); _start_tasks := _start_tasks s; _project_starts := _project_starts s; _stopped
     := _stopped s; _closing := _closing s; _partial_cleanups := _partial_cleanups s; _lifecycle_generation :=
     _lifecycle_generation s; _shutdown := _shutdown s; tasks := tasks s; effects := effects s |}.
Definition on_start_tasks (f : gmap start_key (str * nat) -> gmap start_key (str * nat)) (s : manager) : manager :=
  {| fm_approvals := fm_approvals s; objects := objects s; partials := partials s; _sessions := _sessions s; _project_sessions :=
     _project_sessions s; _starts := _starts s; _start_tasks := f (_start_tasks s); _project_starts := _project_starts s; _stopped
     := _stopped s; _closing := _closing s; _partial_cleanups := _partial_cleanups s; _lifecycle_generation :=
     _lifecycle_generation s; _shutdown := _shutdown s; tasks := tasks s; effects := effects s |}.
Definition on_project_starts (f : gmap str start_key -> gmap str start_key) (s : manager) : manager :=
  {| fm_approvals := fm_approvals s; objects := objects s; partials := partials s; _sessions := _sessions s; _project_sessions :=
     _project_sessions s; _starts := _starts s; _start_tasks := _start_tasks s; _project_starts := f (_project_starts s); _stopped
     := _stopped s; _closing := _closing s; _partial_cleanups := _partial_cleanups s; _lifecycle_generation :=
     _lifecycle_generation s; _shutdown := _shutdown s; tasks := tasks s; effects := effects s |}.
Definition on_stopped (f : list (str * _StoppedSession) -> list (str * _StoppedSession)) (s : manager) : manager :=
  {| fm_approvals := fm_approvals s; objects := objects s; partials := partials s; _sessions := _sessions s; _project_sessions :=
     _project_sessions s; _starts := _starts s; _start_tasks := _start_tasks s; _project_starts := _project_starts s; _stopped :=
     f (_stopped s); _closing := _closing s; _partial_cleanups := _partial_cleanups s; _lifecycle_generation :=
     _lifecycle_generation s; _shutdown := _shutdown s; tasks := tasks s; effects := effects s |}.
Definition on_closing (f : gmap str nat -> gmap str nat) (s : manager) : manager :=
  {| fm_approvals := fm_approvals s; objects := objects s; partials := partials s; _sessions := _sessions s; _project_sessions :=
     _project_sessions s; _starts := _starts s; _start_tasks := _start_tasks s; _project_starts := _project_starts s; _stopped :=
     _stopped s; _closing := f (_closing s); _partial_cleanups := _partial_cleanups s; _lifecycle_generation :=
     _lifecycle_generation s; _shutdown := _shutdown s; tasks := tasks s; effects := effects s |}.
Definition on_partial_cleanups (f : gmap str nat -> gmap str nat) (s : manager) : manager :=
  {| fm_approvals := fm_approvals s; objects := objects s; partials := partials s; _sessions := _sessions s; _project_sessions :=
     _project_sessions s; _starts := _starts s; _start_tasks := _start_tasks s; _project_starts := _project_starts s; _stopped :=
     _stopped s; _closing := _closing s; _partial_cleanups := f (_partial_cleanups s); _lifecycle_generation :=
     _lifecycle_generation s; _shutdown := _shutdown s; tasks := tasks s; effects := effects s |}.
Definition on_lifecycle (f : nat -> nat) (s : manager) : manager :=
  {| fm_approvals := fm_approvals s; objects := objects s; partials := partials s; _sessions := _sessions s; _project_sessions :=
     _project_sessions s; _starts := _starts s; _start_tasks := _start_tasks s; _project_starts := _project_starts s; _stopped :=
     _stopped s; _closing := _closing s; _partial_cleanups := _partial_cleanups s; _lifecycle_generation := f
     (_lifecycle_generation s); _shutdown := _shutdown s; tasks := tasks s; effects := effects s |}.
Definition on_shutdown (f : bool -> bool) (s : manager) : manager :=
  {| fm_approvals := fm_approvals s; objects := objects s; partials := partials s; _sessions := _sessions s; _project_sessions :=
     _project_sessions s; _starts := _starts s; _start_tasks := _start_tasks s; _project_starts := _project_starts s; _stopped :=
     _stopped s; _closing := _closing s; _partial_cleanups := _partial_cleanups s; _lifecycle_generation := _lifecycle_generation
     s; _shutdown := f (_shutdown s); tasks := tasks s; effects := effects s |}.
Definition on_tasks (f : gmap nat task -> gmap nat task) (s : manager) : manager :=
  {| fm_approvals := fm_approvals s; objects := objects s; partials := partials s; _sessions := _sessions s; _project_sessions :=
     _project_sessions s; _starts := _starts s; _start_tasks := _start_tasks s; _project_starts := _project_starts s; _stopped :=
     _stopped s; _closing := _closing s; _partial_cleanups := _partial_cleanups s; _lifecycle_generation := _lifecycle_generation
     s; _shutdown := _shutdown s; tasks := f (tasks s); effects := effects s |}.
Definition on_effects (f : list effect -> list effect) (s : manager) : manager :=
  {| fm_approvals := fm_approvals s; objects := objects s; partials := partials s; _sessions := _sessions s; _project_sessions :=
     _project_sessions s; _starts := _starts s; _start_tasks := _start_tasks s; _project_starts := _project_starts s; _stopped :=
     _stopped s; _closing := _closing s; _partial_cleanups := _partial_cleanups s; _lifecycle_generation := _lifecycle_generation
     s; _shutdown := _shutdown s; tasks := tasks s; effects := f (effects s) |}.

Definition emit (e : effect) : F unit := modify (on_effects (cons e)).
Definition goto (t : nat) (x : task) : F unit := modify (on_tasks <[t := x]>).
(** [asyncio.create_task] *)
Definition spawn (x : task) : F nat :=
  t <- gets (fun s => base.fresh (dom (tasks s) : gset nat)) ;;
  goto t x ;;; ret t.
Definition on_approvals {T} (m : A T) : F T := fun s => let '(r, a) := m (fm_approvals s) in (r, set_approvals (fun _ => a) s).
Definition refuse {T} (code : string) : F T := raise (AgentError code false []).
Definition get_project (id : str) : F Project := on_approvals (on_database (Database.get_project id)).
Definition ensure_current (now : Z) (generation : nat) (deadline : Z) : F unit :=
  on_approvals (Approvals.ensure_current now generation (Some deadline)).

(** *** Updates of a session *)

Definition on_object (sid : str) (f : FrontendSession -> FrontendSession) : F unit := modify (on_objects (alter f sid)).
Definition get_object (sid : str) : F FrontendSession :=
  o <- gets (fun s => objects s !! sid) ;; match o with Some o => ret o | None => refuse "frontend_session_not_found" end.

Definition update (o : FrontendSession) (epoch used : Z) (v : page_view) (acts : list (str * (str * option act_result)))
    (lock : option nat) (closed : bool) (f : fate) : FrontendSession :=
  {| fs_session_id := fs_session_id o; fs_project_id := fs_project_id o; fs_project_root := fs_project_root o;
     fs_root_fingerprint := fs_root_fingerprint o; fs_project_mode := fs_project_mode o; fs_grant_id := fs_grant_id o;
     fs_link_id := fs_link_id o; fs_security_generation := fs_security_generation o; fs_config := fs_config o;
     fs_server := fs_server o; fs_browser := fs_browser o; fs_viewport := fs_viewport o; fs_public_url := fs_public_url o;
     fs_created_at := fs_created_at o; fs_connection_epoch := epoch; fs_last_used_at := used; fs_view := v; fs_acts := acts;
     fs_lock := lock; fs_closed := closed; fs_fate := f |}.
Definition with_use (epoch used : Z) (o : FrontendSession) : FrontendSession :=
  update o epoch used (fs_view o) (fs_acts o) (fs_lock o) (fs_closed o) (fs_fate o).
Definition with_view (v : page_view) (o : FrontendSession) : FrontendSession :=
  update o (fs_connection_epoch o) (fs_last_used_at o) v (fs_acts o) (fs_lock o) (fs_closed o) (fs_fate o).
Definition with_acts (acts : list (str * (str * option act_result))) (o : FrontendSession) : FrontendSession :=
  update o (fs_connection_epoch o) (fs_last_used_at o) (fs_view o) acts (fs_lock o) (fs_closed o) (fs_fate o).
Definition with_lock (lock : option nat) (o : FrontendSession) : FrontendSession :=
  update o (fs_connection_epoch o) (fs_last_used_at o) (fs_view o) (fs_acts o) lock (fs_closed o) (fs_fate o).
Definition with_closed (o : FrontendSession) : FrontendSession :=
  update o (fs_connection_epoch o) (fs_last_used_at o) (fs_view o) (fs_acts o) (fs_lock o) true (fs_fate o).
Definition with_fate (f : fate) (o : FrontendSession) : FrontendSession :=
  update o (fs_connection_epoch o) (fs_last_used_at o) (fs_view o) (fs_acts o) (fs_lock o) (fs_closed o) f.

Definition empty_view : page_view :=
  {| snapshot_id := None; document_token := None; registry := ∅; reverse_registry := ∅; next_element := 1 |}.
Definition open_fate : fate := {| browser_closed := false; server_released := false; dev_server_stopped := false |}.
Definition page_is_closed (f : fate) : fate :=
  {| browser_closed := true; server_released := server_released f; dev_server_stopped := dev_server_stopped f |}.
Definition server_is_released (stopped : bool) (f : fate) : fate :=
  {| browser_closed := browser_closed f; server_released := true; dev_server_stopped := stopped |}.

(** ** Sessions and their bindings *)

Section frontend.
  Context {urls : Urls} (sha256_hex : bytes -> str) (unicode_decimal : N -> option Z) (account device : str).

Definition digest_of (v : json) : F str :=
  match compute_action_digest sha256_hex v with Some d => ret d | None => raise (ValueError "UnicodeEncodeError") end.

Definition _ensure_lifecycle (generation : nat) : F unit :=
  down <- gets _shutdown ;; current <- gets _lifecycle_generation ;;
  if down || negb (generation =? current)%nat then refuse "approval_expired" else ret tt.

Definition _stable_binding_matches (o : FrontendSession) (project_id : str) (c : caller) : bool :=
  bool_decide (fs_project_id o = project_id) && bool_decide (fs_grant_id o = c_grant_id c) && bool_decide (fs_link_id o = c_link_id c).

Definition _validate_project (p : Project) : res unit :=
  if negb (enabled p) then agent_error "project_disabled"
  else if bool_decide (mode p = ISOLATED) then agent_error "sandbox_unavailable" else Ok tt.

Definition _same_project (expected current : Project) : res unit :=
  if negb (enabled current) || negb (bool_decide (root current = root expected)) ||
     negb (bool_decide (root_fingerprint current = root_fingerprint expected)) || negb (bool_decide (mode current = mode expected))
  then agent_error "approval_expired" else Ok tt.

(** The project of a session as it was. *)
Definition same_access (o : FrontendSession) (p : Project) : bool :=
  enabled p && bool_decide (root p = fs_project_root o) && bool_decide (root_fingerprint p = fs_root_fingerprint o) &&
  bool_decide (mode p = fs_project_mode o).

Definition expired (o : FrontendSession) (now : Z) : bool :=
  (SESSION_MAX <? now - fs_created_at o) || (SESSION_IDLE <? now - fs_last_used_at o).

(** [verified]: what the resolver says of the project now. *)
Definition _ensure_session (sid project_id : str) (c : caller) (now : Z) (verified : res unit) : F unit :=
  o <- get_object sid ;;
  if fs_closed o then refuse "frontend_session_closed"
  else if expired o now then refuse "frontend_session_expired"
  else if negb (_stable_binding_matches o project_id c) then refuse "binding_mismatch"
  else if c_connection_epoch c <? fs_connection_epoch o then refuse "stale_connection"
  else
    ensure_current now (fs_security_generation o) (c_deadline_at c) ;;;
    p <- get_project (fs_project_id o) ;;
    if negb (same_access o p) then refuse "approval_expired"
    else lift verified ;;; on_object sid (with_use (c_connection_epoch c) now).

Definition _get_session (q : operation_request) (c : caller) (now : Z) (verified : res unit) : F unit :=
  live <- gets (fun s => bool_decide (oq_session_id q ∈ _sessions s)) ;;
  if live : bool then _ensure_session (oq_session_id q) (oq_project_id q) c now verified
  else refuse "frontend_session_not_found".

(** ** Starting *)

Definition _start_response (o : FrontendSession) (recovered : bool) : answer :=
  Started {| re_session_id := fs_session_id o; re_base_url := fc_base_url (fs_config o); re_url := fs_public_url o;
             re_owned := sv_owned (fs_server o); re_recovered := recovered |}.

(** Answers with an existing session, which the caller may use. *)
Definition answer_existing (sid : str) (q : start_request) (c : caller) (now : Z) (verified : res unit) : F bool :=
  o <- get_object sid ;;
  _ensure_session sid (sq_project_id q) c now verified ;;;
  ret (fs_connection_epoch o <? c_connection_epoch c).

(** The session of the project, when a newer connection of its owner may have it
    back. *)
Definition recoverable (q : start_request) (c : caller) (s : manager) : option str :=
  match _project_sessions s !! sq_project_id q with
  | Some sid =>
      match objects s !! sid with
      | Some o => if bool_decide (sid ∈ _sessions s) && _stable_binding_matches o (sq_project_id q) c &&
                     (fs_connection_epoch o <? c_connection_epoch c) then Some sid else None
      | None => None
      end
  | None => None
  end.

Definition reserved (project_id : str) (s : manager) : bool :=
  bool_decide (is_Some (_project_sessions s !! project_id)) || bool_decide (is_Some (_project_starts s !! project_id)) ||
  bool_decide (is_Some (_partial_cleanups s !! project_id)).
Definition occupied (s : manager) : nat :=
  (size (_sessions s) + size (_closing s) + size (_project_starts s) + size (_partial_cleanups s))%nat.

(** Either the answer or the task that will give it. *)
Definition _start_session (q : start_request) (c : caller) (now : Z) (verified : res unit) : F (answer + nat) :=
  route <- lift (urlsplit (sq_route q)) ;;
  if negb (bool_decide (s_query route = []) && bool_decide (s_fragment route = [])) then refuse "invalid_request" else
  digest <- digest_of (sq_json q) ;;
  let key := (c_grant_id c, c_link_id c, sq_project_id q, sq_idempotency_key q) in
  down <- gets _shutdown ;;
  if down : bool then refuse "frontend_session_closed" else
  prior <- gets (fun s => _starts s !! key) ;;
  match prior with
  | Some (d, sid) =>
      if negb (bool_decide (d = digest)) then refuse "idempotency_conflict" else
      live <- gets (fun s => bool_decide (sid ∈ _sessions s)) ;;
      if live : bool then
        recovered <- answer_existing sid q c now verified ;;
        o <- get_object sid ;;
        ret (inl (_start_response o recovered))
      else refuse "outcome_unknown"
  | None =>
      pending <- gets (fun s => _start_tasks s !! key) ;;
      match pending with
      | Some (d, t) => if negb (bool_decide (d = digest)) then refuse "idempotency_conflict" else ret (inr t)
      | None =>
          existing <- gets (recoverable q c) ;;
          match existing with
          | Some sid =>
              answer_existing sid q c now verified ;;;
              modify (on_starts <[key := (digest, sid)]>) ;;;
              o <- get_object sid ;;
              ret (inl (_start_response o true))
          | None =>
              s <- gets id ;;
              if reserved (sq_project_id q) s then refuse "frontend_session_exists"
              else if (MAX_SESSIONS <=? occupied s)%nat then refuse "too_many_sessions"
              else
                let i := {| si_request := q; si_key := key; si_digest := digest; si_caller := c;
                            si_lifecycle_generation := _lifecycle_generation s |} in
                t <- spawn (StartTask i SNew) ;;
                modify (on_start_tasks <[key := (digest, t)]>) ;;;
                modify (on_project_starts <[sq_project_id q := key]>) ;;;
                emit (ENew t i) ;;;
                ret (inr t)
          end
      end
  end.

(** *** The task of a start *)

(** [s.split()] *)
Fixpoint words_go (word : str) (s : str) : list str :=
  match s with
  | [] => if bool_decide (word = []) then [] else [word]
  | c :: r => if is_space c then (if bool_decide (word = []) then [] else [word]) ++ words_go [] r else words_go (word ++ [c]) r
  end.
Definition words (s : str) : list str := words_go [] s.

Definition mode_value (m : ProjectMode) : str :=
  match m with
  | ISOLATED => lit "isolated" | NATIVE_APPROVAL => lit "native_approval" | NATIVE_TRUSTED => lit "native_trusted"
  | NATIVE_PROJECT => lit "native_project" | FULL_ACCESS => lit "full_access"
  end.
Definition viewport_json (v : Z * Z) : json := JObj [(lit "width", JNum v.1); (lit "height", JNum v.2)].

(** What the digest of the consent covers. *)
Definition consent_json (q : start_request) (p : Project) (c : FrontendLaunchConfig) : json :=
  JObj [(lit "project_id", JStr (project_id p)); (lit "root_fingerprint", JStr (root_fingerprint p));
        (lit "mode", JStr (mode_value (mode p))); (lit "command", JStr (fc_command c));
        (lit "working_directory", JStr (fc_working_relative c)); (lit "base_url", JStr (fc_base_url c));
        (lit "route", JStr (sq_route q)); (lit "viewport", viewport_json (sq_viewport q))].

Definition start_summary (q : start_request) (c : FrontendLaunchConfig) : str :=
  lit "Frontend origin: " ++ fc_base_url c ++ [LF] ++
  lit "Viewport: " ++ str_of_Z (sq_viewport q).1 ++ lit " x " ++ str_of_Z (sq_viewport q).2 ++ [LF] ++
  lit "Route: " ++ sq_route q ++ [LF] ++ lit "Purpose: " ++ join [SPACE] (words (sq_purpose q)) ++ [LF] ++
  lit "Start a project dev server if needed and control a Codito-owned browser." ++ [LF] ++
  lit "Popups, downloads, password entry, and navigation away from this loopback origin are blocked.".

Definition start_consent (rid digest : str) (i : start_info) (p : Project) (c : FrontendLaunchConfig) (deadline : Z) : ApprovalRequest :=
  {| request_id := rid; account_id := account; grant_id := c_grant_id (si_caller i); link_id := c_link_id (si_caller i);
     device_id := device; ar_project_id := project_id p; project_title := title p; capability := lit "frontend:control";
     ar_action_digest := digest; connection_epoch := c_connection_epoch (si_caller i); deadline_at := Some deadline;
     risk := NATIVE_EXECUTION; summary := start_summary (si_request i) c;
     command := Some (JObj [(lit "kind", JStr (lit "script")); (lit "shell", JStr (lit "powershell")); (lit "script", JStr (fc_command c))]);
     ar_patch := None; working_directory := Some (fc_working_directory c); environment_differences := Some [];
     requested_network := true; requested_external_paths := []; session_eligible := false; persistent_read_eligible := false;
     persistent_shell_eligible := false; persistent_screen_eligible := false |}.

(** [finally]: the reservation of the start is given back. *)
Definition give_back (t : nat) (i : start_info) (s : manager) : manager :=
  let project := sq_project_id (si_request i) in
  let s := match _start_tasks s !! si_key i with
           | Some (_, u) => if (u =? t)%nat then on_start_tasks (delete (si_key i)) s else s
           | None => s
           end in
  if bool_decide (_project_starts s !! project = Some (si_key i)) then on_project_starts (delete project) s else s.
Definition end_start (t : nat) (i : start_info) (r : res answer) : F unit :=
  modify (give_back t i) ;;; goto t (StartTask i (SDone r)).

(** [except BaseException]: what the start already has is closed by a task of its
    own. *)
Definition abandon (t : nat) (i : start_info) (page : option nat) (v : option server) (e : exn) : F unit :=
  match page, v with
  | None, None => end_start t i (Err e)
  | _, _ =>
      let project := sq_project_id (si_request i) in
      cleanup <- spawn (CleanupTask t CNew) ;;
      modify (on_partials <[t := {| pc_project_id := project; pc_page := page; pc_server := v; pc_fate := open_fate; pc_task := cleanup |}]>) ;;;
      modify (on_partial_cleanups <[project := t]>) ;;;
      goto t (StartTask i (SCleaning e))
  end.
(** A segment of the task: an exception abandons the start. *)
Definition start_segment (t : nat) (i : start_info) (page : option nat) (v : option server) (body : F unit) : F unit := fun s =>
  match body s with
  | (Err e, s') => abandon t i page v e s'
  | r => r
  end.

(** The looks that are repeated after every await. *)
Definition still_allowed (i : start_info) (p : Project) (generation : nat) (now : Z) : F unit :=
  _ensure_lifecycle (si_lifecycle_generation i) ;;;
  ensure_current now generation (c_deadline_at (si_caller i)) ;;;
  current <- get_project (project_id p) ;;
  lift (_same_project p current).

(** After the consent: the configuration must still be the one shown. *)
Definition start_approved (t : nat) (i : start_info) (p : Project) (c : FrontendLaunchConfig) (generation : nat)
    (answer : res unit) (now : Z) (found : res FrontendLaunchConfig) : F unit :=
  lift answer ;;;
  emit (EConsent t p c) ;;;
  still_allowed i p generation now ;;;
  config <- lift found ;;
  if negb (bool_decide (config = c)) then refuse "approval_expired"
  else goto t (StartTask i (SAcquiring p c generation)).

Definition start_begins (t : nat) (i : start_info) (rid : str) (now : Z) (found again : res FrontendLaunchConfig) : F unit :=
  let q := si_request i in
  _ensure_lifecycle (si_lifecycle_generation i) ;;;
  p <- get_project (sq_project_id q) ;;
  lift (_validate_project p) ;;;
  c <- lift found ;;
  generation <- on_approvals generation ;;
  let full := bool_decide (mode p = FULL_ACCESS) in
  let deadline := c_deadline_at (si_caller i) in
  let approval_deadline := if full then deadline else deadline - (sq_ready_timeout_seconds q * 1000000 + FRONTEND_BROWSER_RESERVE) in
  if negb full && (approval_deadline <=? now + MIN_FRONTEND_APPROVAL_WINDOW) then refuse "deadline_exceeded"
  else
    digest <- digest_of (consent_json q p c) ;;
    if full then start_approved t i p c generation (Ok tt) now again
    else emit (EAsk t (start_consent rid digest i p c approval_deadline)) ;;; goto t (StartTask i (SAsking p c generation)).

Definition _strip_url_query (url : str) : res str :=
  parsed <-? urlsplit url ;;
  port <-? s_port parsed ;;
  let host := bracketed (default [] (s_hostname parsed)) in
  Ok (urlunsplit (s_scheme parsed) (match port with Some p => with_port host p | None => host end) (s_path parsed)).
Definition _page_origin (url : str) : res str :=
  parsed <-? urlsplit url ;;
  port <-? s_port parsed ;;
  let port := match port with Some p => if p =? 0 then 80 else p | None => 80 end in
  let host := bracketed (default [] (s_hostname parsed)) in
  Ok (urlunsplit (s_scheme parsed) (if port =? 80 then host else with_port host port) []).

(** [base_url.rstrip("/") + route] *)
Fixpoint rstrip_slash_rev (s : str) : str := match s with c :: r => if bool_decide (c = SLASH) then rstrip_slash_rev r else s | [] => [] end.
Definition full_url (c : FrontendLaunchConfig) (q : start_request) : str := rev (rstrip_slash_rev (rev (fc_base_url c))) ++ sq_route q.

Definition start_acquired (t : nat) (i : start_info) (p : Project) (c : FrontendLaunchConfig) (generation : nat) (v : server) (now : Z) : F unit :=
  still_allowed i p generation now ;;;
  let url := full_url c (si_request i) in
  public <- lift (_strip_url_query url) ;;
  a <- gets fm_approvals ;;
  emit (EOpen t p url now a) ;;;
  goto t (StartTask i (SOpening p c generation v public)).

Definition new_session (sid : str) (i : start_info) (p : Project) (c : FrontendLaunchConfig) (generation : nat) (v : server)
    (page : nat) (url : str) (now : Z) : FrontendSession :=
  {| fs_session_id := sid; fs_project_id := project_id p; fs_project_root := root p; fs_root_fingerprint := root_fingerprint p;
     fs_project_mode := mode p; fs_grant_id := c_grant_id (si_caller i); fs_link_id := c_link_id (si_caller i);
     fs_security_generation := generation; fs_config := c; fs_server := v; fs_browser := page;
     fs_viewport := sq_viewport (si_request i); fs_public_url := url; fs_created_at := now;
     fs_connection_epoch := c_connection_epoch (si_caller i); fs_last_used_at := now; fs_view := empty_view; fs_acts := [];
     fs_lock := None; fs_closed := false; fs_fate := open_fate |}.

(** [current]: what [current_url] gives when the browser has it; [sid]: the
    token drawn. *)
Definition start_opened (t : nat) (i : start_info) (p : Project) (c : FrontendLaunchConfig) (generation : nat) (v : server)
    (url : str) (page : nat) (current : option str) (now : Z) (sid : str) : F unit :=
  url <- lift (match current with Some u => _strip_url_query u | None => Ok url end) ;;
  origin <- lift (_page_origin url) ;;
  if negb (bool_decide (origin = fc_base_url c)) then refuse "navigation_blocked" else
  still_allowed i p generation now ;;;
  _ensure_lifecycle (si_lifecycle_generation i) ;;;
  reserved <- gets (fun s => bool_decide (_project_starts s !! project_id p = Some (si_key i))) ;;
  if negb reserved then refuse "approval_expired"
  else
    let o := new_session sid i p c generation v page url now in
    modify (on_objects <[sid := o]>) ;;;
    modify (on_sessions (fun l => {[sid]} ∪ l)) ;;;
    modify (on_project_sessions <[project_id p := sid]>) ;;;
    modify (on_starts <[si_key i := (si_digest i, sid)]>) ;;;
    emit (ESession sid t page now) ;;;
    end_start t i (Ok (_start_response o false)).

(** ** Operations on a session *)

(** [token]: the document the page shows now. *)
Definition _require_snapshot (sid snapshot : str) (token : str) : F unit :=
  o <- get_object sid ;;
  let v := fs_view o in
  if negb (bool_decide (snapshot_id v = Some snapshot)) then refuse "stale_snapshot"
  else if negb (bool_decide (document_token v = Some token)) then
    on_object sid (with_view {| snapshot_id := None; document_token := document_token v; registry := ∅; reverse_registry := ∅;
                                next_element := next_element v |}) ;;;
    refuse "stale_snapshot"
  else ret tt.

Definition _invalidate_snapshot (sid : str) : F unit :=
  on_object sid (fun o => with_view {| snapshot_id := None; document_token := document_token (fs_view o); registry := ∅;
                                       reverse_registry := ∅; next_element := next_element (fs_view o) |} o).

(** *** snapshot *)

Definition element_name (n : Z) : str := [101%N] ++ str_of_Z n.

(** The first pass: every node gets an identifier once. *)
Fixpoint register (l : list raw_element) (v : page_view) : page_view :=
  match l with
  | [] => v
  | e :: r =>
      register r
        match raw_backend e with
        | Some b =>
            match reverse_registry v !! b with
            | Some _ => v
            | None =>
                let name := element_name (next_element v) in
                {| snapshot_id := snapshot_id v; document_token := document_token v; registry := <[name := b]> (registry v);
                   reverse_registry := <[b := name]> (reverse_registry v); next_element := next_element v + 1 |}
            end
        | None => v
        end
  end.
(** The second pass: the elements with their parents. *)
Definition present (v : page_view) (e : raw_element) : option element :=
  b ← raw_backend e; name ← reverse_registry v !! b;
  Some {| el_id := name; el_parent := (p ← raw_parent e; reverse_registry v !! p); el_json := raw_json e |}.

Definition console_level (l : str) : str :=
  if bool_decide (l = lit "debug") then lit "debug"
  else if bool_decide (l ∈ [lit "warn"; lit "warning"]) then lit "warning"
  else if bool_decide (l = lit "error") then lit "error" else lit "info".
Definition console_view (e : console_entry) : option (str * str) :=
  let text := take 4096 (ce_text e) in
  if bool_decide (text = []) then None else Some (console_level (ce_level e), text).

Definition allowed_methods : list str :=
  [lit "GET"; lit "HEAD"; lit "POST"; lit "PUT"; lit "PATCH"; lit "DELETE"; lit "OPTIONS"].
Definition network_view (e : network_entry) : option network_issue :=
  if ne_ok e || match ne_status e with Some s => s <? 400 | None => false end then None
  else
    let m := ne_upper_method e in
    Some {| ni_method := if bool_decide (m ∈ allowed_methods) then m else lit "GET"; ni_url := take 2048 (ne_url e);
            ni_status := match ne_status e with Some s => if (100 <=? s) && (s <=? 599) then Some s else None | None => None end;
            ni_failure := if bool_decide (ne_error e = []) then None else Some (take 1024 (ne_error e)) |}.
(** [l[-n:]] *)
Definition last_n {T} (n : nat) (l : list T) : list T := drop (length l - n) l.

(** [snap]: the token drawn for the snapshot. *)
Definition _snapshot (sid snap : str) (capture : BrowserSnapshot) : F answer :=
  let v := register (cap_elements capture)
    {| snapshot_id := Some snap; document_token := Some (cap_document_token capture); registry := ∅; reverse_registry := ∅; next_element := 1 |} in
  on_object sid (with_view v) ;;;
  emit (ESnapshot sid snap) ;;;
  url <- lift (_strip_url_query (cap_url capture)) ;;
  ret (Captured {|
    sr_snapshot_id := snap; sr_url := url; sr_elements := omap (present v) (cap_elements capture);
    sr_console := last_n 100 (omap console_view (cap_console capture)); sr_network := last_n 100 (omap network_view (cap_network capture));
    sr_truncated := cap_truncated capture;
    sr_warnings := take 15 (cap_warnings capture) ++ (if cap_truncated capture then [lit "Element list was truncated."] else []) |}).

(** *** inspect *)

Definition inspect_target (o : FrontendSession) (element : option str) (x y : option Z) : res (option Z) :=
  match element with
  | Some e => match registry (fs_view o) !! e with Some b => Ok (Some b) | None => agent_error "element_not_found" end
  | None =>
      match x, y with
      | Some x, Some y => if ((fs_viewport o).1 <=? x) || ((fs_viewport o).2 <=? y) then agent_error "invalid_request" else Ok None
      | _, _ => agent_error "invalid_request"
      end
  end.

(** The node found: its identifier, a new one where it has none. *)
Definition inspect_element (element : option str) (b : Z) (v : page_view) : str * page_view :=
  match element with
  | Some e => (e, v)
  | None =>
      match reverse_registry v !! b with
      | Some e => (e, v)
      | None =>
          let e := element_name (next_element v) in
          (e, {| snapshot_id := snapshot_id v; document_token := document_token v; registry := <[e := b]> (registry v);
                 reverse_registry := <[b := e]> (reverse_registry v); next_element := next_element v + 1 |})
      end
  end.
Definition _inspected (sid snapshot token : str) (element : option str) (raw : raw_element) : F answer :=
  _require_snapshot sid snapshot token ;;;
  match raw_backend raw with
  | None => refuse "element_not_found"
  | Some b =>
      o <- get_object sid ;;
      let '(e, v) := inspect_element element b (fs_view o) in
      on_object sid (with_view v) ;;;
      ret (Inspected {| el_id := e; el_parent := None; el_json := raw_json raw |})
  end.

(** *** act *)

(** [dict[key] = value]: a known key keeps its place. *)
Fixpoint dict_put {V} (k : str) (v : V) (l : list (str * V)) : list (str * V) :=
  match l with
  | [] => [(k, v)]
  | (k', w) :: r => if bool_decide (k = k') then (k, v) :: r else (k', w) :: dict_put k v r
  end.
Definition dict_get {V} (k : str) (l : list (str * V)) : option V := snd <$> find (fun kv => bool_decide (kv.1 = k)) l.

Definition _bound_acts (acts : list (str * (str * option act_result))) : list (str * (str * option act_result)) :=
  if (ACTS_MAX <? length acts)%nat then tail acts else acts.
Definition remember (sid key digest : str) (r : option act_result) : F unit :=
  on_object sid (fun o => with_acts (_bound_acts (dict_put key (digest, r) (fs_acts o))) o) ;;;
  _invalidate_snapshot sid.

(** What the browser said of the action. *)
Definition _acted (sid snapshot key element action digest : str) (outcome : res unit) : F answer :=
  match outcome with
  | Err e =>
      match e with
      | AgentError c _ _ => when (bool_decide (c = "outcome_unknown"%string)) (remember sid key digest None)
      | _ => ret tt
      end ;;; raise e
  | Ok _ =>
      let r := {| ac_session_id := sid; ac_snapshot_id := snapshot; ac_element_id := element; ac_action := action |} in
      remember sid key digest (Some r) ;;;
      ret (Acted r false)
  end.

(** *** source *)

(** [raw.rsplit(":", 2)], three parts or none *)
Definition rsplit_location (raw : str) : option (str * str * str) :=
  match rev (split_on COLON raw) with
  | character :: line :: first :: r => Some (join [COLON] (rev (first :: r)), line, character)
  | _ => None
  end.
(** [opened]: the resolved path and the first bytes of the file there. *)
Definition _validated_location (sid : str) (raw : option str) (opened : str -> res (str * bytes)) : F (option location) :=
  match raw with
  | None => ret None
  | Some raw =>
      if (2048 <? length raw)%nat then ret None else
      try_except
        (match rsplit_location raw with
         | None => raise (ValueError "not enough values to unpack")
         | Some (relative, line_raw, character_raw) =>
             relative <- lift (validate_relative_path relative false) ;;
             match py_int unicode_decimal line_raw, py_int unicode_decimal character_raw with
             | Some line, Some character =>
                 if bool_decide (relative = []) || negb ((1 <=? line) && (line <=? 10000000)) ||
                    negb ((1 <=? character) && (character <=? 100000)) then ret None
                 else
                   o <- get_object sid ;;
                   get_project (fs_project_id o) ;;;
                   found <- lift (opened relative) ;;
                   let '(resolved, source) := found in
                   if (MAX_SOURCE_BYTES <? Z.of_nat (length source)) || bool_decide (0 ∈ source) then ret None
                   else match utf8_decode source with
                        | None => ret None
                        | Some text =>
                            match nth_error (splitlines text) (Z.to_nat (line - 1)) with
                            | None => ret None
                            | Some l => if Z.of_nat (length l) + 1 <? character then ret None
                                        else ret (Some {| loc_path := resolved; loc_line := line; loc_character := character |})
                            end
                        end
             | _, _ => raise (ValueError "invalid literal for int()")
             end
         end)
        (fun e => match e with AgentError _ _ _ | ValueError _ => ret None | _ => raise e end)
  end.

Definition _located (sid snapshot token : str) (instrumented host : option str) (opened : str -> res (str * bytes)) : F answer :=
  _require_snapshot sid snapshot token ;;;
  consumer_source <- _validated_location sid instrumented opened ;;
  host_source <- _validated_location sid host opened ;;
  o <- get_object sid ;;
  let owned := sv_owned (fs_server o) in
  let given s := match s with Some (_ :: _) => true | _ => false end in
  let consumer := match consumer_source with Some l => Some l | None => host_source end in
  ret (Located {|
    so_confidence := match consumer_source with
                     | Some _ => if owned then lit "exact" else lit "heuristic"
                     | None => match host_source with Some _ => lit "heuristic" | None => lit "unavailable" end
                     end;
    so_consumer := consumer;
    so_design_system := match consumer_source, host_source with
                        | Some a, Some b => if bool_decide (b = a) then [] else [b]
                        | _, _ => []
                        end;
    so_warnings := (Nat.b2n (given instrumented && negb (is_some consumer_source)) + Nat.b2n (given host && negb (is_some host_source)) +
                    Nat.b2n (is_some consumer && negb owned))%nat |}).

(** *** The segments of an operation *)

(** The call that is made of the browser. *)
Definition calling (t : nat) (q : operation_request) (c : caller) (now : Z) (node : option Z) (digest : str) : F (option answer) :=
  o <- get_object (oq_session_id q) ;;
  a <- gets fm_approvals ;;
  emit (EUse t (oq_session_id q) (fs_browser o) q c node now a) ;;;
  goto t (OperationTask q c (OCalling digest)) ;;;
  ret None.

Definition registered (sid element : str) : F Z :=
  o <- get_object sid ;;
  match registry (fs_view o) !! element with Some b => ret b | None => refuse "element_not_found" end.

(** Up to the call, or to the answer of an action already done. *)
Definition operation_body (t : nat) (q : operation_request) (c : caller) (now : Z) (verified : res unit) (token : str) : F (option answer) :=
  let sid := oq_session_id q in
  _ensure_session sid (oq_project_id q) c now verified ;;;
  match oq_operation q with
  | Snapshot _ => calling t q c now None []
  | Inspect snapshot element x y =>
      _require_snapshot sid snapshot token ;;;
      o <- get_object sid ;;
      node <- lift (inspect_target o element x y) ;;
      calling t q c now node []
  | Act key snapshot element _ value =>
      digest <- digest_of value ;;
      o <- get_object sid ;;
      match dict_get key (fs_acts o) with
      | Some (d, r) =>
          if negb (bool_decide (d = digest)) then refuse "idempotency_conflict"
          else match r with Some r => ret (Some (Acted r true)) | None => refuse "outcome_unknown" end
      | None =>
          _require_snapshot sid snapshot token ;;;
          b <- registered sid element ;;
          calling t q c now (Some b) digest
      end
  | Source snapshot element =>
      _require_snapshot sid snapshot token ;;;
      b <- registered sid element ;;
      calling t q c now (Some b) []
  end.

(** [async with session.lock] *)
Definition set_lock (sid : str) (l : option nat) : F unit := on_object sid (with_lock l).
Definition operation_ends (t : nat) (q : operation_request) (c : caller) (r : res answer) : F unit :=
  set_lock (oq_session_id q) None ;;;
  goto t (OperationTask q c (ODone r)).
Definition operation_segment (t : nat) (q : operation_request) (c : caller) (body : F (option answer)) : F unit := fun s =>
  match body s with
  | (Ok None, s') => (Ok tt, s')
  | (Ok (Some a), s') => operation_ends t q c (Ok a) s'
  | (Err e, s') => operation_ends t q c (Err e) s'
  end.
Definition operation_enters (t : nat) (q : operation_request) (c : caller) (now : Z) (verified : res unit) (token : str) : F unit :=
  set_lock (oq_session_id q) (Some t) ;;;
  operation_segment t q c (operation_body t q c now verified token).

(** What a call of the browser gives. *)
Inductive outcome :=
| GotSnapshot (r : res BrowserSnapshot)
| GotElement (r : res raw_element)
| GotAct (r : res unit)
| GotSource (r : res (option str * option str)).
(** An action may have happened unless its exception says that it did not: the
    driver turns one that comes after the first side effect, a cancellation too,
    into [outcome_unknown]. *)
Definition completed (x : outcome) : bool :=
  match x with
  | GotSnapshot r => is_ok r
  | GotElement r => is_ok r
  | GotSource r => is_ok r
  | GotAct (Ok _) => true
  | GotAct (Err (AgentError c _ _)) => bool_decide (c = "outcome_unknown"%string)
  | GotAct (Err _) => false
  end.

(** The browser answers what it was asked. *)
Definition fits (q : operation_request) (x : outcome) : bool :=
  match oq_operation q, x with
  | Snapshot _, GotSnapshot _ | Inspect _ _ _ _, GotElement _ | Act _ _ _ _ _, GotAct _ | Source _ _, GotSource _ => true
  | _, _ => false
  end.
Definition operation_result (q : operation_request) (digest : str) (x : outcome) (token snap : str) (opened : str -> res (str * bytes)) : F answer :=
  let sid := oq_session_id q in
  match oq_operation q, x with
  | Snapshot _, GotSnapshot r => capture <- lift r ;; _snapshot sid snap capture
  | Inspect snapshot element _ _, GotElement r => raw <- lift r ;; _inspected sid snapshot token element raw
  | Act key snapshot element action _, GotAct r => _acted sid snapshot key element action digest r
  | Source snapshot _, GotSource r => attrs <- lift r ;; _located sid snapshot token attrs.1 attrs.2 opened
  | _, _ => raise (ValueError "TypeError")
  end.
Definition operation_returns (t : nat) (q : operation_request) (c : caller) (digest : str) (x : outcome) (now : Z) (verified : res unit)
    (token snap : str) (opened : str -> res (str * bytes)) : F unit :=
  operation_segment t q c (
    r <- operation_result q digest x token snap opened ;;
    when (match oq_operation q with Act _ _ _ _ _ => false | _ => true end)
      (_ensure_session (oq_session_id q) (oq_project_id q) c now verified) ;;;
    ret (Some r)) ;;;
  emit (EUsed t (completed x)).

(** ** Closing *)

Definition close_task_of (t : nat) (s : manager) : option (res bool) :=
  match tasks s !! t with
  | Some (CloseTask _ (CDone r)) | Some (CleanupTask _ (CDone r)) => Some r
  | _ => None
  end.
(** The task is over without having closed what it should. *)
Definition failed (t : nat) (s : manager) : bool := match close_task_of t s with Some (Err _) => true | _ => false end.

Definition _begin_close_locked (sid : str) : F nat :=
  existing <- gets (fun s => match _closing s !! sid with Some t => if failed t s then None else Some t | None => None end) ;;
  match existing with
  | Some t => ret t
  | None =>
      on_object sid with_closed ;;;
      modify (on_sessions (fun l => l ∖ {[sid]})) ;;;
      modify (on_starts (filter (fun kv => kv.2.2 <> sid))) ;;;
      t <- spawn (CloseTask sid CNew) ;;
      modify (on_closing <[sid := t]>) ;;;
      ret t
  end.

(** [except AgentError] and [except Exception] of the page. *)
Definition page_failure (e : exn) : exn :=
  match e with AgentError _ _ _ => e | _ => AgentError "browser_close_failed" true [] end.

Definition stop_tombstone (o : FrontendSession) : _StoppedSession :=
  {| t_project_id := fs_project_id o; t_grant_id := fs_grant_id o; t_link_id := fs_link_id o;
     t_connection_epoch := fs_connection_epoch o; t_dev_server_stopped := dev_server_stopped (fs_fate o) |}.
Definition bury (sid : str) (x : _StoppedSession) (l : list (str * _StoppedSession)) : list (str * _StoppedSession) :=
  let l := dict_put sid x l in drop (length l - TOMBSTONE_MAX) l.

Definition close_ends (t : nat) (sid : str) (failure : option exn) : F unit :=
  set_lock sid None ;;;
  match failure with
  | Some e => goto t (CloseTask sid (CDone (Err e)))
  | None =>
      o <- get_object sid ;;
      modify (on_stopped (bury sid (stop_tombstone o))) ;;;
      modify (on_closing (delete sid)) ;;;
      s <- gets id ;;
      when (bool_decide (_project_sessions s !! fs_project_id o = Some sid)) (modify (on_project_sessions (delete (fs_project_id o)))) ;;;
      goto t (CloseTask sid (CDone (Ok (dev_server_stopped (fs_fate o)))))
  end.
Definition close_server (t : nat) (sid : str) (failure : option exn) : F unit :=
  o <- get_object sid ;;
  if server_released (fs_fate o) then close_ends t sid failure else goto t (CloseTask sid (CServer failure)).
(** The lock is there: the page is closed first. *)
Definition close_begins (t : nat) (sid : str) : F unit :=
  set_lock sid (Some t) ;;;
  o <- get_object sid ;;
  if browser_closed (fs_fate o) then close_server t sid None
  else emit (EClose (fs_browser o)) ;;; goto t (CloseTask sid CPage).
Definition close_page_done (t : nat) (sid : str) (r : res unit) : F unit :=
  o <- get_object sid ;;
  emit (EClosed (fs_browser o) (is_ok r)) ;;;
  match r with
  | Ok _ => on_object sid (fun o => with_fate (page_is_closed (fs_fate o)) o) ;;; close_server t sid None
  | Err e => if caught e then close_server t sid (Some (page_failure e))
             else set_lock sid None ;;; goto t (CloseTask sid (CDone (Err e)))
  end.
Definition close_server_done (t : nat) (sid : str) (failure : option exn) (r : res bool) : F unit :=
  match r with
  | Ok stopped => on_object sid (fun o => with_fate (server_is_released stopped (fs_fate o)) o) ;;; close_ends t sid failure
  | Err e => if caught e then close_ends t sid (Some (default e failure))
             else set_lock sid None ;;; goto t (CloseTask sid (CDone (Err e)))
  end.

(** *** What an abandoned start left *)

Definition get_partial (id : nat) : F _PartialStartCleanup :=
  x <- gets (fun s => partials s !! id) ;; match x with Some x => ret x | None => refuse "frontend_session_not_found" end.
Definition on_partial (id : nat) (f : _PartialStartCleanup -> _PartialStartCleanup) : F unit := modify (on_partials (alter f id)).
Definition with_partial_fate (f : fate) (x : _PartialStartCleanup) : _PartialStartCleanup :=
  {| pc_project_id := pc_project_id x; pc_page := pc_page x; pc_server := pc_server x; pc_fate := f; pc_task := pc_task x |}.
Definition with_partial_task (t : nat) (x : _PartialStartCleanup) : _PartialStartCleanup :=
  {| pc_project_id := pc_project_id x; pc_page := pc_page x; pc_server := pc_server x; pc_fate := pc_fate x; pc_task := t |}.

Definition _start_partial_cleanup (id : nat) : F unit :=
  t <- spawn (CleanupTask id CNew) ;;
  on_partial id (with_partial_task t).

Definition cleanup_ends (t : nat) (id : nat) (failure : option exn) : F unit :=
  match failure with
  | Some e => goto t (CleanupTask id (CDone (Err e)))
  | None =>
      x <- get_partial id ;;
      s <- gets _partial_cleanups ;;
      when (bool_decide (s !! pc_project_id x = Some id)) (modify (on_partial_cleanups (delete (pc_project_id x)))) ;;;
      goto t (CleanupTask id (CDone (Ok false)))
  end.
Definition cleanup_server (t : nat) (id : nat) (failure : option exn) : F unit :=
  x <- get_partial id ;;
  if is_some (pc_server x) && negb (server_released (pc_fate x)) then goto t (CleanupTask id (CServer failure))
  else cleanup_ends t id failure.
Definition cleanup_begins (t : nat) (id : nat) : F unit :=
  x <- get_partial id ;;
  match pc_page x with
  | Some page => if browser_closed (pc_fate x) then cleanup_server t id None
                 else emit (EClose page) ;;; goto t (CleanupTask id CPage)
  | None => cleanup_server t id None
  end.
Definition cleanup_page_done (t : nat) (id : nat) (r : res unit) : F unit :=
  x <- get_partial id ;;
  emit (EClosed (default 0%nat (pc_page x)) (is_ok r)) ;;;
  match r with
  | Ok _ => on_partial id (fun x => with_partial_fate (page_is_closed (pc_fate x)) x) ;;; cleanup_server t id None
  | Err e => if caught e then cleanup_server t id (Some e) else goto t (CleanupTask id (CDone (Err e)))
  end.
Definition cleanup_server_done (t : nat) (id : nat) (failure : option exn) (r : res bool) : F unit :=
  match r with
  | Ok _ => on_partial id (fun x => with_partial_fate (server_is_released false (pc_fate x)) x) ;;; cleanup_ends t id failure
  | Err e => if caught e then cleanup_ends t id (Some (default e failure)) else goto t (CleanupTask id (CDone (Err e)))
  end.

(** *** Requests and sweeps *)

Definition _ensure_stop_epoch (previous : Z) (c : caller) (now : Z) : F unit :=
  if c_deadline_at c <=? now then refuse "deadline_exceeded"
  else if c_connection_epoch c <? previous then refuse "stale_connection" else ret tt.
Definition _validate_stop_binding (sid project_id : str) (c : caller) (now : Z) : F unit :=
  o <- get_object sid ;;
  if negb (_stable_binding_matches o project_id c) then refuse "binding_mismatch"
  else
    _ensure_stop_epoch (fs_connection_epoch o) c now ;;;
    on_object sid (fun o => with_use (c_connection_epoch c) (fs_last_used_at o) o).

(** Either the answer or the task that closes the session. *)
Definition _stop_request (q : stop_request) (c : caller) (now : Z) : F (stop_response + nat) :=
  let sid := tq_session_id q in
  s <- gets id ;;
  if bool_decide (sid ∈ _sessions s) || bool_decide (is_Some (_closing s !! sid)) then
    _validate_stop_binding sid (tq_project_id q) c now ;;;
    t <- _begin_close_locked sid ;;
    ret (inr t)
  else
    match dict_get sid (_stopped s) with
    | Some x =>
        if bool_decide (t_project_id x = tq_project_id q) && bool_decide (t_grant_id x = c_grant_id c) && bool_decide (t_link_id x = c_link_id c) then
          _ensure_stop_epoch (t_connection_epoch x) c now ;;;
          when (t_connection_epoch x <? c_connection_epoch c)
            (modify (on_stopped (dict_put sid {| t_project_id := t_project_id x; t_grant_id := t_grant_id x; t_link_id := t_link_id x;
                       t_connection_epoch := c_connection_epoch c; t_dev_server_stopped := t_dev_server_stopped x |}))) ;;;
          ret (inl {| st_session_id := sid; st_already := true; st_dev_server_stopped := t_dev_server_stopped x |})
        else refuse "frontend_session_not_found"
    | None => refuse "frontend_session_not_found"
    end.

Definition close_project (project_id : str) : F unit :=
  s <- gets id ;;
  match _project_sessions s !! project_id with
  | Some sid => if bool_decide (sid ∈ _sessions s) || bool_decide (is_Some (_closing s !! sid))
                then _begin_close_locked sid ;;; ret tt else ret tt
  | None => ret tt
  end.

(** The authority of a session is over. *)
Definition invalid (o : FrontendSession) (a : approvals) : bool :=
  fs_closed o || negb (fs_security_generation o =? _security_generation a)%nat ||
  match (on_database (Database.get_project (fs_project_id o)) a).1 with Ok p => negb (same_access o p) | Err _ => true end.
Definition close_sessions (p : FrontendSession -> manager -> bool) : F unit :=
  s <- gets id ;;
  for_each (elements (_sessions s)) (fun sid =>
    o <- get_object sid ;;
    s <- gets id ;;
    when (p o s) (_begin_close_locked sid ;;; ret tt)).
Definition close_invalid_sessions : F unit := close_sessions (fun o s => invalid o (fm_approvals s)).

Definition retry_closings : F unit :=
  s <- gets id ;;
  for_each (map_to_list (_closing s)) (fun kv => s <- gets id ;; when (failed kv.2 s) (_begin_close_locked kv.1 ;;; ret tt)).
Definition retry_partials : F unit :=
  s <- gets id ;;
  for_each (map_to_list (_partial_cleanups s)) (fun kv =>
    x <- get_partial kv.2 ;; s <- gets id ;; when (failed (pc_task x) s) (_start_partial_cleanup kv.2)).

(** One round of [_reap_loop]. *)
Definition reap (now : Z) : F unit :=
  close_sessions (fun o s => invalid o (fm_approvals s) || expired o now) ;;; retry_closings ;;; retry_partials.
Definition _close_all_sessions : F unit := close_sessions (fun _ _ => true) ;;; retry_closings ;;; retry_partials.

(** Starts that wait are then cancelled at their awaits. *)
Definition _cancel_pending_starts (shutdown : bool) : F unit :=
  modify (on_lifecycle S) ;;; modify (on_shutdown (orb shutdown)) ;;; emit EFence.
Definition disconnected : F unit := _cancel_pending_starts false.

(** ** The machine *)

Inductive event :=
| StartRequested (q : start_request) (c : caller) (now : Z) (verified : res unit)
| StartBegins (t : nat) (rid : str) (now : Z) (found again : res FrontendLaunchConfig)
| StartApproved (t : nat) (answer : res unit) (now : Z) (found : res FrontendLaunchConfig)
| StartAcquired (t : nat) (answer : res server) (now : Z)
| StartOpened (t : nat) (answer : res nat) (current : option str) (now : Z) (sid : str)
| StartCleaned (t : nat)
| StartCancelled (t : nat)
| OperationRequested (q : operation_request) (c : caller) (now : Z) (verified : res unit)
| OperationEnters (t : nat) (now : Z) (verified : res unit) (token : str)
| OperationCancelled (t : nat)
| OperationReturns (t : nat) (x : outcome) (now : Z) (verified : res unit) (token snap : str) (opened : str -> res (str * bytes))
| StopRequested (q : stop_request) (c : caller) (now : Z)
| CloseBegins (t : nat)
| ClosePageDone (t : nat) (r : res unit)
| CloseServerDone (t : nat) (r : res bool)
| CleanupBegins (t : nat)
| CleanupPageDone (t : nat) (r : res unit)
| CleanupServerDone (t : nat) (r : res bool)
| CloseProject (project_id : str)
| CloseInvalid
| Disconnected
| Reap (now : Z)
| ShutDown
| CloseAll
| Others (a : approvals).

Definition known_page (page : nat) (s : manager) : bool :=
  existsb (fun e => match e with EPage _ _ p => (p =? page)%nat | _ => false end) (effects s).
Definition known_snapshot (snap : str) (s : manager) : bool :=
  existsb (fun e => match e with ESnapshot _ x => bool_decide (x = snap) | _ => false end) (effects s).
Definition lock_free (sid : str) (s : manager) : bool :=
  match objects s !! sid with Some o => bool_decide (fs_lock o = None) | None => false end.

(** Projects are stored under their identifiers ([Database.journal_well_formed]). *)
Definition keyed (a : approvals) : bool :=
  match a_database a with
  | Some d => bool_decide (map_Forall (fun id row => project_id (pr_project row) = id) (projects d))
  | None => true
  end.

(** An event that cannot happen now changes nothing; identifiers drawn are new,
    and the browser gives every page a name of its own. *)
Definition step (s : manager) (e : event) : manager :=
  match e with
  | StartRequested q c now verified => (_start_session q c now verified s).2
  | StartBegins t rid now found again =>
      match tasks s !! t with
      | Some (StartTask i SNew) => (start_segment t i None None (start_begins t i rid now found again) s).2
      | _ => s
      end
  | StartApproved t answer now found =>
      match tasks s !! t with
      | Some (StartTask i (SAsking p c g)) => (start_segment t i None None (start_approved t i p c g answer now found) s).2
      | _ => s
      end
  | StartAcquired t answer now =>
      match tasks s !! t with
      | Some (StartTask i (SAcquiring p c g)) =>
          match answer with
          | Ok v => (start_segment t i None (Some v) (start_acquired t i p c g v now) s).2
          | Err e => (abandon t i None None e s).2
          end
      | _ => s
      end
  | StartOpened t answer current now sid =>
      match tasks s !! t with
      | Some (StartTask i (SOpening p c g v url)) =>
          match answer with
          | Ok page =>
              if known_page page s || bool_decide (is_Some (objects s !! sid)) then s
              else ((emit (EPage t (sq_project_id (si_request i)) page) ;;;
                     start_segment t i (Some page) (Some v) (start_opened t i p c g v url page current now sid)) s).2
          | Err e => (abandon t i None (Some v) e s).2
          end
      | _ => s
      end
  | StartCleaned t =>
      match tasks s !! t with
      | Some (StartTask i (SCleaning e)) => (end_start t i (Err e) s).2
      | _ => s
      end
  | StartCancelled t =>
      match tasks s !! t with
      | Some (StartTask i SNew) => (goto t (StartTask i (SDone (Err CancelledError))) s).2
      | _ => s
      end
  | OperationRequested q c now verified =>
      ((_get_session q c now verified ;;; spawn (OperationTask q c OWaiting)) s).2
  | OperationEnters t now verified token =>
      match tasks s !! t with
      | Some (OperationTask q c OWaiting) =>
          if lock_free (oq_session_id q) s then (operation_enters t q c now verified token s).2 else s
      | _ => s
      end
  | OperationCancelled t =>
      match tasks s !! t with
      | Some (OperationTask q c OWaiting) => (goto t (OperationTask q c (ODone (Err CancelledError))) s).2
      | _ => s
      end
  | OperationReturns t x now verified token snap opened =>
      match tasks s !! t with
      | Some (OperationTask q c (OCalling digest)) =>
          if known_snapshot snap s || negb (fits q x) then s else (operation_returns t q c digest x now verified token snap opened s).2
      | _ => s
      end
  | StopRequested q c now => (_stop_request q c now s).2
  | CloseBegins t =>
      match tasks s !! t with
      | Some (CloseTask sid CNew) => if lock_free sid s then (close_begins t sid s).2 else s
      | _ => s
      end
  | ClosePageDone t r =>
      match tasks s !! t with Some (CloseTask sid CPage) => (close_page_done t sid r s).2 | _ => s end
  | CloseServerDone t r =>
      match tasks s !! t with Some (CloseTask sid (CServer f)) => (close_server_done t sid f r s).2 | _ => s end
  | CleanupBegins t =>
      match tasks s !! t with Some (CleanupTask id CNew) => (cleanup_begins t id s).2 | _ => s end
  | CleanupPageDone t r =>
      match tasks s !! t with Some (CleanupTask id CPage) => (cleanup_page_done t id r s).2 | _ => s end
  | CleanupServerDone t r =>
      match tasks s !! t with Some (CleanupTask id (CServer f)) => (cleanup_server_done t id f r s).2 | _ => s end
  | CloseProject p => (close_project p s).2
  | CloseInvalid => (close_invalid_sessions s).2
  | Disconnected => (disconnected s).2
  | Reap now => (reap now s).2
  | ShutDown => (_cancel_pending_starts true s).2
  | CloseAll => (_close_all_sessions s).2
  | Others a => if keyed a then set_approvals (fun _ => a) s else s
  end.

Definition initial (a : approvals) : manager :=
  {| fm_approvals := a; objects := ∅; partials := ∅; _sessions := ∅; _project_sessions := ∅; _starts := ∅; _start_tasks := ∅;
     _project_starts := ∅; _stopped := []; _closing := ∅; _partial_cleanups := ∅; _lifecycle_generation := 0; _shutdown := false;
     tasks := ∅; effects := [] |}.
Definition run (s : manager) (l : list event) : manager := foldl step s l.
Definition reachable (s : manager) : Prop := exists a l, keyed a = true /\ s = run (initial a) l.
End frontend.
