(* ===== verification/FrontendMoves.v ===== *)
(** * The moves of the frontend manager

    Every segment of [Frontend] is a sequence of moves: each move changes one
    thing, under the conditions that the code has established by then.  The
    theorems of [FrontendGuarantees] are inductions over moves. *)
From S2P Require Import Prelude Utf8 PyStr Models Paths Database Json Approvals ReadText DevServers Frontend.

Open Scope Z_scope.

(** ** What a segment only reads *)

Definition reads {T} (m : F T) : Prop := forall s, (m s).2 = s.

Lemma set_approvals_same s : set_approvals (fun _ => fm_approvals s) s = s.
Proof. by destruct s. Qed.
Lemma reads_ret {T} (x : T) : reads (ret x).
Proof. done. Qed.
Lemma reads_raise {T} e : reads (raise e : F T).
Proof. done. Qed.
Lemma reads_refuse {T} e : reads (refuse e : F T).
Proof. done. Qed.
Lemma reads_gets {T} (f : manager -> T) : reads (gets f).
Proof. done. Qed.
Lemma reads_lift {T} (r : res T) : reads (lift r).
Proof. done. Qed.
Lemma reads_bind {T U} (m : F T) (k : T -> F U) : reads m -> (forall x, reads (k x)) -> reads (bind m k).
Proof. intros Hm Hk s. unfold bind. specialize (Hm s). destruct (m s) as [[x|e] s']; cbn in *; subst; [apply Hk|done]. Qed.
Lemma reads_on_approvals {T} (m : A T) : (forall a, (m a).2 = a) -> reads (on_approvals m).
Proof.
  intros H s. unfold on_approvals. specialize (H (fm_approvals s)). destruct (m (fm_approvals s)) as [r a]. cbn in *. subst.
  apply set_approvals_same.
Qed.
Lemma on_database_reads {T} (m : DB T) a : (forall d, (m d).2 = d) -> (on_database m a).2 = a.
Proof.
  intros H. unfold on_database. destruct a as [[d|] g n]; [|done]. cbn. specialize (H d). destruct (m d) as [r d']. cbn in *. by subst.
Qed.
Lemma database_get_reads id d : (Database.get_project id d).2 = d.
Proof. unfold Database.get_project, bind, gets. by destruct (projects d !! id). Qed.
Lemma reads_get_project id : reads (get_project id).
Proof. apply reads_on_approvals. intros a. apply on_database_reads, database_get_reads. Qed.
Lemma reads_ensure_current now g d : reads (ensure_current now g d).
Proof.
  apply reads_on_approvals. intros a. unfold Approvals.ensure_current, bind, gets. destruct (negb _); [done|]. by destruct (d <=? now).
Qed.
Lemma reads_get_object sid : reads (get_object sid).
Proof. intros s. unfold get_object, bind, gets. by destruct (objects s !! sid). Qed.
Lemma reads_get_partial id : reads (get_partial id).
Proof. intros s. unfold get_partial, bind, gets. by destruct (partials s !! id). Qed.

Create HintDb reads discriminated.
#[export] Hint Resolve reads_ret reads_raise reads_refuse reads_gets reads_lift reads_get_project reads_ensure_current
  reads_get_object reads_get_partial : reads.
Ltac reads_steps := repeat first [ solve [auto with reads] | apply reads_bind; [|intros] | case_match ].

Lemma reads_digest sha v : reads (digest_of sha v).
Proof. unfold digest_of. reads_steps. Qed.
Lemma reads_lifecycle g : reads (_ensure_lifecycle g).
Proof. unfold _ensure_lifecycle. reads_steps. Qed.
Lemma reads_generation : reads (on_approvals generation).
Proof. by apply reads_on_approvals. Qed.
#[export] Hint Resolve reads_digest reads_lifecycle reads_generation : reads.
Lemma reads_still_allowed i p g now : reads (still_allowed i p g now).
Proof. unfold still_allowed. reads_steps. Qed.
Lemma reads_registered sid e : reads (registered sid e).
Proof. unfold registered. reads_steps. Qed.
Lemma reads_stop_epoch p c now : reads (_ensure_stop_epoch p c now).
Proof. unfold _ensure_stop_epoch. reads_steps. Qed.
#[export] Hint Resolve reads_still_allowed reads_registered reads_stop_epoch : reads.

(** Running what only reads: the value, or the exception at the same state. *)
Lemma reads_run {T} (m : F T) s : reads m -> (exists x, m s = (Ok x, s)) \/ exists e, m s = (Err e, s).
Proof. intros H. specialize (H s). destruct (m s) as [[x|e] s']; cbn in H; subst; eauto. Qed.

(** *** What the checks establish *)

Definition access (a : approvals) (generation : nat) (deadline now : Z) : Prop :=
  (Approvals.ensure_current now generation (Some deadline) a).1 = Ok tt.
Definition stored (a : approvals) (id : str) (p : Project) : Prop := (on_database (Database.get_project id) a).1 = Ok p.

Lemma stored_keyed a id p : keyed a = true -> stored a id p -> project_id p = id.
Proof.
  unfold keyed, stored, on_database, Database.get_project, bind, gets. destruct (a_database a) as [d|]; [|done].
  intros Hk. apply bool_decide_eq_true in Hk. destruct (projects d !! id) as [row|] eqn:E; [|done]. intros [= <-]. exact (Hk _ _ E).
Qed.

Lemma get_project_run id s p : (get_project id s).1 = Ok p -> stored (fm_approvals s) id p.
Proof. unfold get_project, on_approvals, stored. by destruct (on_database _ _) as [[q|] a]. Qed.
Lemma ensure_current_run now g d s : (ensure_current now g d s).1 = Ok tt -> access (fm_approvals s) g d now.
Proof. unfold ensure_current, on_approvals, access. by destruct (Approvals.ensure_current _ _ _ _) as [[[]|] a]. Qed.

(** A later look: nothing of the project has changed. *)
Definition unchanged (p current : Project) : Prop :=
  enabled current = true /\ root current = root p /\ root_fingerprint current = root_fingerprint p /\ mode current = mode p.
Lemma same_project_ok p current : _same_project p current = Ok tt -> unchanged p current.
Proof.
  unfold _same_project, unchanged. destruct (negb (enabled current) || _ || _ || _) eqn:E; [done|]. intros _.
  reflect_bools. repeat match goal with H : negb _ = false |- _ => apply negb_false_iff in H end. by reflect_bools.
Qed.

(** What [still_allowed] has seen when it passes. *)
Definition allowed (s : manager) (i : start_info) (p : Project) (g : nat) (now : Z) : Prop :=
  si_lifecycle_generation i = _lifecycle_generation s /\ _shutdown s = false /\
  access (fm_approvals s) g (c_deadline_at (si_caller i)) now /\
  exists current, stored (fm_approvals s) (project_id p) current /\ unchanged p current.

Lemma lifecycle_run g s : (_ensure_lifecycle g s).1 = Ok tt -> g = _lifecycle_generation s /\ _shutdown s = false.
Proof.
  unfold _ensure_lifecycle, bind, gets. destruct (_shutdown s); [done|]. cbn. destruct (Nat.eqb_spec g (_lifecycle_generation s)); [done|done].
Qed.

(** Takes a passed step of a reading computation apart. *)
Lemma bind_reads_ok {T U} (m : F T) (k : T -> F U) s x s' : reads m -> bind m k s = (Ok x, s') ->
  exists y, m s = (Ok y, s) /\ k y s = (Ok x, s').
Proof. intros Hm. unfold bind. specialize (Hm s). destruct (m s) as [[y|e] s1]; cbn in Hm; [subst; eauto|done]. Qed.

Lemma still_allowed_run i p g now s s' : still_allowed i p g now s = (Ok tt, s') -> s' = s /\ allowed s i p g now.
Proof.
  intros H. pose proof (reads_still_allowed i p g now s) as E. rewrite H in E. cbn in E. split; [done|]. subst s'. unfold still_allowed in H.
  apply bind_reads_ok in H as ([] & H1 & H); [|auto with reads]. apply bind_reads_ok in H as ([] & H2 & H); [|auto with reads].
  apply bind_reads_ok in H as (current & H3 & H); [|auto with reads].
  destruct (lifecycle_run (si_lifecycle_generation i) s) as [Hg Hd]; [by rewrite H1|].
  split_and!; [done|done|apply ensure_current_run; by rewrite H2|]. exists current. split; [apply get_project_run; by rewrite H3|].
  apply same_project_ok. by injection H.
Qed.

Lemma bind_reads {T U} (m : F T) (k : T -> F U) s : reads m ->
  bind m k s = match (m s).1 with Ok x => k x s | Err e => (Err e, s) end.
Proof. intros Hm. unfold bind. specialize (Hm s). destruct (m s) as [[y|e] s1]; cbn in *; by subst. Qed.
Lemma get_object_run sid s : (get_object sid s).1 = match objects s !! sid with Some o => Ok o | None => agent_error "frontend_session_not_found" end.
Proof. unfold get_object, bind, gets. by destruct (objects s !! sid). Qed.

(** The session may be used by this caller now. *)
Record usable (a : approvals) (o : FrontendSession) (project_id : str) (c : caller) (now : Z) : Prop := {
  us_open : fs_closed o = false;
  us_time : expired o now = false;
  us_binding : _stable_binding_matches o project_id c = true;
  us_epoch : fs_connection_epoch o <= c_connection_epoch c;
  us_access : access a (fs_security_generation o) (c_deadline_at c) now;
  us_project : exists p, stored a (fs_project_id o) p /\ same_access o p = true;
}.

Lemma ensure_session_run sid project_id c now verified s :
  match _ensure_session sid project_id c now verified s with
  | (Ok _, s') => exists o, objects s !! sid = Some o /\ usable (fm_approvals s) o project_id c now /\
      s' = on_objects (alter (with_use (c_connection_epoch c) now) sid) s
  | (Err _, s') => s' = s
  end.
Proof.
  unfold _ensure_session. rewrite bind_reads by auto with reads. rewrite get_object_run.
  destruct (objects s !! sid) as [o|] eqn:Ho; [|done]. cbn [agent_error].
  destruct (fs_closed o) eqn:Hc; [done|]. destruct (expired o now) eqn:Ht; [done|].
  destruct (_stable_binding_matches o project_id c) eqn:Hb; [|done]. cbn [negb].
  destruct (c_connection_epoch c <? fs_connection_epoch o) eqn:He; [done|]. apply Z.ltb_ge in He.
  rewrite bind_reads by auto with reads. destruct (ensure_current _ _ _ s).1 as [[]|] eqn:Ha; [|done]. apply ensure_current_run in Ha.
  rewrite bind_reads by auto with reads. destruct (get_project _ s).1 as [p|] eqn:Hp; [|done]. apply get_project_run in Hp.
  destruct (same_access o p) eqn:Hs; [|done]. cbn [negb]. unfold bind, lift. destruct verified as [[]|]; [|done].
  exists o. split; [done|]. split; [|done]. split; try done. by exists p.
Qed.

(** A snapshot that is still the one shown, or a view that is forgotten. *)
Definition forget (v : page_view) : page_view :=
  {| snapshot_id := None; document_token := document_token v; registry := ∅; reverse_registry := ∅; next_element := next_element v |}.
Lemma require_snapshot_run sid snapshot token s :
  match _require_snapshot sid snapshot token s with
  | (Ok _, s') => s' = s /\ exists o, objects s !! sid = Some o /\ snapshot_id (fs_view o) = Some snapshot
  | (Err _, s') => s' = s \/ exists o, objects s !! sid = Some o /\ s' = on_objects (alter (with_view (forget (fs_view o))) sid) s
  end.
Proof.
  unfold _require_snapshot. rewrite bind_reads by auto with reads. rewrite get_object_run.
  destruct (objects s !! sid) as [o|] eqn:Ho; [|by left]. cbn [agent_error].
  case_bool_decide as H1; cbn [negb]; [|by left]. case_bool_decide as H2; cbn [negb]; [split; eauto|].
  right. by exists o.
Qed.

(** ** Moves *)

Definition project_of (i : start_info) : str := sq_project_id (si_request i).
Definition key_ok (i : start_info) : Prop := (si_key i).1.2 = project_of i.
(** The start has neither ended nor given up. *)
Definition active (st : start_stage) : bool := match st with SCleaning _ | SDone _ => false | _ => true end.
Definition running (st : start_stage) : bool := match st with SDone _ => false | _ => true end.

Definition working (st : close_stage) : bool := match st with CDone _ => false | _ => true end.

(** What no theorem below looks at may change at will. *)
Record same_core (s s' : manager) : Prop := {
  sc_keyed : keyed (fm_approvals s) = true -> keyed (fm_approvals s') = true;
  sc_objects : objects s' = objects s;
  sc_partials : partials s' = partials s;
  sc_sessions : _sessions s' = _sessions s;
  sc_project_sessions : _project_sessions s' = _project_sessions s;
  sc_start_tasks : _start_tasks s' = _start_tasks s;
  sc_project_starts : _project_starts s' = _project_starts s;
  sc_closing : _closing s' = _closing s;
  sc_partial_cleanups : _partial_cleanups s' = _partial_cleanups s;
  sc_lifecycle : _lifecycle_generation s' = _lifecycle_generation s;
  sc_tasks : tasks s' = tasks s;
  sc_effects : effects s' = effects s;
}.
#[export] Instance same_core_refl : Reflexive same_core.
Proof. by split. Qed.

Definition log (e : effect) (s : manager) : manager := on_effects (cons e) s.
Definition to (t : nat) (x : task) (s : manager) : manager := on_tasks <[t := x]> s.
Definition edit (sid : str) (f : FrontendSession -> FrontendSession) (s : manager) : manager := on_objects (alter f sid) s.
Definition unlock (sid : str) (s : manager) : manager := edit sid (with_lock None) s.

(** How a call of the browser names its node and snapshot. *)
Definition acts_on (q : operation_request) (snapshot : str) : Prop :=
  match oq_operation q with Act _ x _ _ _ => x = snapshot | _ => False end.

Inductive move (s : manager) : manager -> Prop :=
| mv_quiet s' : same_core s s' -> move s s'
| mv_fence : move s (log EFence (on_lifecycle S s))
(* starts *)
| mv_admit t i : tasks s !! t = None -> _start_tasks s !! si_key i = None -> reserved (project_of i) s = false ->
    (occupied s < MAX_SESSIONS)%nat -> key_ok i -> si_lifecycle_generation i = _lifecycle_generation s ->
    move s (log (ENew t i) (on_project_starts <[project_of i := si_key i]> (on_start_tasks <[si_key i := (si_digest i, t)]>
      (to t (StartTask i SNew) s))))
| mv_ask t i p c g r : tasks s !! t = Some (StartTask i SNew) -> project_id p = project_of i ->
    command r = Some (JObj [(lit "kind", JStr (lit "script")); (lit "shell", JStr (lit "powershell")); (lit "script", JStr (fc_command c))]) ->
    working_directory r = Some (fc_working_directory c) -> grant_id r = c_grant_id (si_caller i) -> ar_project_id r = project_id p ->
    move s (to t (StartTask i (SAsking p c g)) (log (EAsk t r) s))
| mv_consent t i st p c : tasks s !! t = Some (StartTask i st) -> project_id p = project_of i ->
    (st = SNew /\ mode p = FULL_ACCESS \/ exists g, st = SAsking p c g) -> move s (log (EConsent t p c) s)
| mv_acquire t i st p c g : tasks s !! t = Some (StartTask i st) -> active st = true -> project_id p = project_of i -> EConsent t p c ∈ effects s ->
    move s (to t (StartTask i (SAcquiring p c g)) s)
| mv_open t i p c g v url now public : tasks s !! t = Some (StartTask i (SAcquiring p c g)) -> allowed s i p g now ->
    url = full_url c (si_request i) ->
    move s (to t (StartTask i (SOpening p c g v public)) (log (EOpen t p url now (fm_approvals s)) s))
| mv_end t i st r : tasks s !! t = Some (StartTask i st) -> running st = true ->
    move s (to t (StartTask i (SDone r)) (give_back t i s))
| mv_leak t i r : tasks s !! t = Some (StartTask i SNew) -> move s (to t (StartTask i (SDone r)) s)
| mv_commit t i p c g v u sid page url now r : tasks s !! t = Some (StartTask i (SOpening p c g v u)) ->
    known_page page s = false -> objects s !! sid = None -> project_id p = project_of i ->
    move s (to t (StartTask i (SDone r)) (give_back t i
      (log (ESession sid t page now) (on_project_sessions <[project_id p := sid]> (on_sessions (fun l => {[sid]} ∪ l)
        (on_objects <[sid := new_session sid i p c g v page url now]> (log (EPage t (project_of i) page) s)))))))
| mv_abandon t i st page v e cleanup : tasks s !! t = Some (StartTask i st) -> active st = true ->
    match page with Some page => known_page page s = false | None => True end -> tasks s !! cleanup = None ->
    move s (to t (StartTask i (SCleaning e)) (on_partial_cleanups <[project_of i := t]> (on_partials
      <[t := {| pc_project_id := project_of i; pc_page := page; pc_server := v; pc_fate := open_fate; pc_task := cleanup |}]>
        (to cleanup (CleanupTask t CNew) (match page with Some page => log (EPage t (project_of i) page) s | None => s end)))))
(* sessions *)
| mv_touch sid o epoch used : objects s !! sid = Some o -> fs_connection_epoch o <= epoch -> move s (edit sid (with_use epoch used) s)
| mv_forget sid o : objects s !! sid = Some o -> move s (edit sid (with_view (forget (fs_view o))) s)
| mv_snapshot sid o v snap : objects s !! sid = Some o -> snapshot_id v = Some snap -> known_snapshot snap s = false ->
    move s (log (ESnapshot sid snap) (edit sid (with_view v) s))
| mv_view sid o v : objects s !! sid = Some o -> snapshot_id v = snapshot_id (fs_view o) -> move s (edit sid (with_view v) s)
| mv_acts sid f : move s (edit sid (fun o => with_acts (f o) o) s)
| mv_request t q c : tasks s !! t = None -> move s (to t (OperationTask q c OWaiting) s)
| mv_cancelled t q c r : tasks s !! t = Some (OperationTask q c OWaiting) -> move s (to t (OperationTask q c (ODone r)) s)
| mv_lock sid o t : objects s !! sid = Some o -> fs_lock o = None -> move s (edit sid (with_lock (Some t)) s)
| mv_use t q c o0 o now node k : tasks s !! t = Some (OperationTask q c OWaiting) -> objects s !! oq_session_id q = Some o ->
    fs_lock o = Some t -> usable (fm_approvals s) o0 (oq_project_id q) c now ->
    o = with_lock (fs_lock o) (with_view (fs_view o) (with_use (c_connection_epoch c) now o0)) ->
    (forall snap, acts_on q snap -> snapshot_id (fs_view o) = Some snap) ->
    move s (to t (OperationTask q c (OCalling k)) (log (EUse t (oq_session_id q) (fs_browser o) q c node now (fm_approvals s)) s))
| mv_operation_end t q c o r : tasks s !! t = Some (OperationTask q c OWaiting) -> objects s !! oq_session_id q = Some o -> fs_lock o = Some t ->
    move s (to t (OperationTask q c (ODone r)) (unlock (oq_session_id q) s))
| mv_used t q c k o r (b : bool) : tasks s !! t = Some (OperationTask q c (OCalling k)) -> objects s !! oq_session_id q = Some o ->
    fs_lock o = Some t -> (b = true -> forall snap, acts_on q snap -> snapshot_id (fs_view o) <> Some snap) ->
    move s (log (EUsed t b) (to t (OperationTask q c (ODone r)) (unlock (oq_session_id q) s)))
(* closing *)
| mv_begin_close sid o t : objects s !! sid = Some o -> tasks s !! t = None ->
    sid ∈ _sessions s \/ (exists u r, _closing s !! sid = Some u /\ tasks s !! u = Some (CloseTask sid (CDone r))) ->
    move s (on_closing <[sid := t]> (to t (CloseTask sid CNew) (on_sessions (fun l => l ∖ {[sid]}) (edit sid with_closed s))))
| mv_close_page t sid o : tasks s !! t = Some (CloseTask sid CNew) -> objects s !! sid = Some o -> fs_lock o = Some t ->
    move s (to t (CloseTask sid CPage) (log (EClose (fs_browser o)) s))
| mv_closed t sid o (ok : bool) : tasks s !! t = Some (CloseTask sid CPage) -> objects s !! sid = Some o ->
    move s (edit sid (fun o => if ok then with_fate (page_is_closed (fs_fate o)) o else o) (log (EClosed (fs_browser o) ok) s))
| mv_close_server t sid o st f : tasks s !! t = Some (CloseTask sid st) -> (st = CNew \/ st = CPage) -> objects s !! sid = Some o -> fs_lock o = Some t ->
    (f = None -> browser_closed (fs_fate o) = true) -> move s (to t (CloseTask sid (CServer f)) s)
| mv_released sid o stopped : objects s !! sid = Some o -> move s (edit sid (fun o => with_fate (server_is_released stopped (fs_fate o)) o) s)
| mv_close_failed t sid o st e : tasks s !! t = Some (CloseTask sid st) -> working st = true -> objects s !! sid = Some o -> fs_lock o = Some t ->
    move s (to t (CloseTask sid (CDone (Err e))) (unlock sid s))
| mv_close_done t sid o st b stopped : tasks s !! t = Some (CloseTask sid st) -> working st = true -> objects s !! sid = Some o -> fs_lock o = Some t ->
    (browser_closed (fs_fate o) = true \/ st = CServer None) ->
    move s (to t (CloseTask sid (CDone (Ok b)))
      ((if bool_decide (_project_sessions s !! fs_project_id o = Some sid) then on_project_sessions (delete (fs_project_id o)) else id)
        (on_closing (delete sid) (on_stopped stopped (unlock sid s)))))
(* abandoned starts *)
| mv_retry id x t : partials s !! id = Some x -> tasks s !! t = None ->
    move s (on_partials (alter (with_partial_task t) id) (to t (CleanupTask id CNew) s))
| mv_cleanup_page t id x page : tasks s !! t = Some (CleanupTask id CNew) -> partials s !! id = Some x -> pc_page x = Some page ->
    move s (to t (CleanupTask id CPage) (log (EClose page) s))
| mv_cleaned t id x page (ok : bool) : tasks s !! t = Some (CleanupTask id CPage) -> partials s !! id = Some x -> pc_page x = Some page ->
    move s (on_partials (alter (fun x => if ok then with_partial_fate (page_is_closed (pc_fate x)) x else x) id) (log (EClosed page ok) s))
| mv_cleanup_server t id x st f : tasks s !! t = Some (CleanupTask id st) -> partials s !! id = Some x ->
    (f = None -> forall page, pc_page x = Some page -> browser_closed (pc_fate x) = true) -> move s (to t (CleanupTask id (CServer f)) s)
| mv_cleanup_failed t id st e : tasks s !! t = Some (CleanupTask id st) -> move s (to t (CleanupTask id (CDone (Err e))) s)
| mv_cleanup_released id x b : partials s !! id = Some x -> move s (on_partials (alter (fun x => with_partial_fate (server_is_released b (pc_fate x)) x) id) s)
| mv_cleanup_done t id x st b : tasks s !! t = Some (CleanupTask id st) -> partials s !! id = Some x ->
    ((forall page, pc_page x = Some page -> browser_closed (pc_fate x) = true) \/ st = CServer None) ->
    move s (to t (CleanupTask id (CDone (Ok b)))
      ((if bool_decide (_partial_cleanups s !! pc_project_id x = Some id) then on_partial_cleanups (delete (pc_project_id x)) else Datatypes.id) s)).
