(* ===== verification/FrontendInvariant.v ===== *)
(** * What every history of the frontend manager keeps

    The invariant has five parts: starts with their reservations, sessions, closings
    with the locks of pages, the calls made under those locks, and the pages of
    abandoned starts.  Each part is kept by every move; a part
    depends on few projections of the state, so most moves keep it by a frame
    lemma. *)
From S2P Require Import Prelude Utf8 PyStr Models Paths Database Json Approvals ReadText DevServers Frontend FrontendMoves.

Open Scope Z_scope.

(** ** Views of the tasks *)

Definition start_of (s : manager) (t : nat) : option (start_info * start_stage) :=
  match tasks s !! t with Some (StartTask i st) => Some (i, st) | _ => None end.
Definition operation_of (s : manager) (t : nat) : option (operation_request * caller * operation_stage) :=
  match tasks s !! t with Some (OperationTask q c st) => Some (q, c, st) | _ => None end.
Definition close_of (s : manager) (t : nat) : option (str * close_stage) :=
  match tasks s !! t with Some (CloseTask sid st) => Some (sid, st) | _ => None end.
Definition cleanup_of (s : manager) (t : nat) : option (nat * close_stage) :=
  match tasks s !! t with Some (CleanupTask id st) => Some (id, st) | _ => None end.

Lemma start_of_task s t i st : tasks s !! t = Some (StartTask i st) -> start_of s t = Some (i, st).
Proof. unfold start_of. by intros ->. Qed.
Lemma operation_of_task s t q c st : tasks s !! t = Some (OperationTask q c st) -> operation_of s t = Some (q, c, st).
Proof. unfold operation_of. by intros ->. Qed.
Lemma close_of_task s t sid st : tasks s !! t = Some (CloseTask sid st) -> close_of s t = Some (sid, st).
Proof. unfold close_of. by intros ->. Qed.
Lemma cleanup_of_task s t id st : tasks s !! t = Some (CleanupTask id st) -> cleanup_of s t = Some (id, st).
Proof. unfold cleanup_of. by intros ->. Qed.

(** What never changes of a session object. *)
Definition statics (o : FrontendSession) :=
  (fs_project_id o, fs_browser o, fs_created_at o, (fs_grant_id o, fs_link_id o), (fs_project_root o, fs_root_fingerprint o, fs_project_mode o),
   fs_security_generation o).

(** ** The tables *)

Record starts_ok (s : manager) : Prop := {
  st_running : forall t i st, start_of s t = Some (i, st) -> running st = true ->
    key_ok i /\ _project_starts s !! project_of i = Some (si_key i) /\ _start_tasks s !! si_key i = Some (si_digest i, t) /\
    _project_sessions s !! project_of i = None /\ (active st = true -> _partial_cleanups s !! project_of i = None);
  st_project : forall t i st, start_of s t = Some (i, st) ->
    match st with SAsking p _ _ | SAcquiring p _ _ | SOpening p _ _ _ _ => project_id p = project_of i | _ => True end;
}.

Record sessions_ok (s : manager) : Prop := {
  se_project : forall p sid, _project_sessions s !! p = Some sid <->
    exists o, objects s !! sid = Some o /\ fs_project_id o = p /\ (sid ∈ _sessions s \/ is_Some (_closing s !! sid));
  se_disjoint : forall sid, sid ∈ _sessions s -> _closing s !! sid = None;
  se_known : forall sid, sid ∈ _sessions s -> is_Some (objects s !! sid);
}.

Record closings_ok (s : manager) : Prop := {
  cl_task : forall sid t, _closing s !! sid = Some t -> exists st, close_of s t = Some (sid, st);
  cl_object : forall t sid st, close_of s t = Some (sid, st) -> exists o, objects s !! sid = Some o /\ fs_closed o = true /\ sid ∉ _sessions s /\
    (working st = true -> _closing s !! sid = Some t) /\
    match st with CPage => fs_lock o = Some t | CServer f => fs_lock o = Some t /\ (f = None -> browser_closed (fs_fate o) = true) | _ => True end;
}.

Definition calls_locked (s : manager) : Prop := forall t q c k, operation_of s t = Some (q, c, OCalling k) ->
  exists o, objects s !! oq_session_id q = Some o /\ fs_lock o = Some t.

Record partials_ok (s : manager) : Prop := {
  pa_project : forall p id, _partial_cleanups s !! p = Some id ->
    exists x, partials s !! id = Some x /\ pc_project_id x = p /\ _project_sessions s !! p = None;
  pa_cleanup : forall t id st, cleanup_of s t = Some (id, st) -> exists x, partials s !! id = Some x /\
    match st with CPage => is_Some (pc_page x) | CServer None => forall page, pc_page x = Some page -> browser_closed (pc_fate x) = true | _ => True end;
  pa_start : forall id x, partials s !! id = Some x -> exists i st, start_of s id = Some (i, st) /\ active st = false;
}.

(** The projects that have a start, a session or a cleanup. *)
Definition engaged (s : manager) : gset str := dom (_project_sessions s) ∪ dom (_project_starts s) ∪ dom (_partial_cleanups s).

Record tables (s : manager) : Prop := {
  tb_keyed : keyed (fm_approvals s) = true;
  tb_starts : starts_ok s;
  tb_sessions : sessions_ok s;
  tb_closings : closings_ok s;
  tb_calls : calls_locked s;
  tb_partials : partials_ok s;
  tb_bound : (size (engaged s) <= MAX_SESSIONS)%nat;
}.

(** *** Frames *)

Lemma starts_frame s s' : (forall t, start_of s' t = start_of s t) -> _project_starts s' = _project_starts s ->
  _start_tasks s' = _start_tasks s -> _project_sessions s' = _project_sessions s -> _partial_cleanups s' = _partial_cleanups s ->
  starts_ok s -> starts_ok s'.
Proof. intros E1 E2 E3 E4 E5 [H1 H2]. split; intros t i st; rewrite E1; [rewrite E2, E3, E4, E5; apply H1|apply H2]. Qed.

Lemma sessions_frame s s' : (forall sid, fs_project_id <$> objects s' !! sid = fs_project_id <$> objects s !! sid) ->
  _project_sessions s' = _project_sessions s -> _sessions s' = _sessions s -> _closing s' = _closing s -> sessions_ok s -> sessions_ok s'.
Proof.
  intros E1 E2 E3 E4 [H1 H2 H3]. split; [|intros sid; rewrite E3, E4; auto|].
  2:{ intros sid. rewrite E3. intros [o Ho]%H3. specialize (E1 sid). rewrite Ho in E1. by destruct (objects s' !! sid). }
  intros p sid. rewrite E2, H1, E3, E4. specialize (E1 sid). split; intros (o & Ho & Hp & Hs); rewrite Ho in E1; cbn in E1;
    [destruct (objects s' !! sid) as [o'|]|destruct (objects s !! sid) as [o'|]]; cbn in E1; try done; injection E1 as E1; exists o'; split_and!; congruence || done.
Qed.

Definition close_view (o : FrontendSession) := (fs_closed o, fs_lock o, browser_closed (fs_fate o)).
Lemma closings_frame s s' : (forall t, close_of s' t = close_of s t) -> (forall sid, close_view <$> objects s' !! sid = close_view <$> objects s !! sid) ->
  _sessions s' = _sessions s -> _closing s' = _closing s -> closings_ok s -> closings_ok s'.
Proof.
  intros E1 E2 E3 E4 [H1 H2]. split.
  - intros sid t. rewrite E4. setoid_rewrite E1. auto.
  - intros t sid st. rewrite E1, E3, E4. intros (o & Ho & H)%H2. specialize (E2 sid). rewrite Ho in E2.
    destruct (objects s' !! sid) as [o'|]; [|done]. unfold close_view in E2. cbn in E2. injection E2 as Ec El Eb. exists o'.
    by rewrite Ec, El, Eb.
Qed.

Lemma calls_frame s s' : (forall t, operation_of s' t = operation_of s t) -> (forall sid, fs_lock <$> objects s' !! sid = fs_lock <$> objects s !! sid) ->
  calls_locked s -> calls_locked s'.
Proof.
  intros E1 E2 H t q c k. rewrite E1. intros (o & Ho & Hl)%H. specialize (E2 (oq_session_id q)). rewrite Ho in E2.
  destruct (objects s' !! oq_session_id q) as [o'|]; [|done]. cbn in E2. injection E2 as E2. exists o'. by rewrite E2.
Qed.

Definition partial_view (x : _PartialStartCleanup) := (pc_project_id x, pc_page x, browser_closed (pc_fate x)).
Lemma partials_frame s s' : (forall t, cleanup_of s' t = cleanup_of s t) -> (forall id, partial_view <$> partials s' !! id = partial_view <$> partials s !! id) ->
  (forall t, start_of s' t = start_of s t) -> _partial_cleanups s' = _partial_cleanups s -> _project_sessions s' = _project_sessions s ->
  partials_ok s -> partials_ok s'.
Proof.
  intros E1 E2 E3 E4 E5 [H1 H2 H3].
  assert (forall id x, partials s !! id = Some x -> exists x', partials s' !! id = Some x' /\ partial_view x' = partial_view x) as Hto.
  { intros id x Hx. specialize (E2 id). rewrite Hx in E2. destruct (partials s' !! id) as [x'|]; [|done]. exists x'. split; [done|]. cbn in E2. congruence. }
  split.
  - intros p id. rewrite E4, E5. intros (x & Hx & Hp & Hn)%H1. apply Hto in Hx as (x' & Hx' & Hv). injection Hv as Hv _ _. exists x'. by rewrite Hv.
  - intros t id st. rewrite E1. intros (x & Hx & Hs)%H2. apply Hto in Hx as (x' & Hx' & Hv). injection Hv as _ Hpg Hb. exists x'. by rewrite Hpg, Hb.
  - intros id x' Hx'. specialize (E2 id). rewrite Hx' in E2. destruct (partials s !! id) as [x|] eqn:Hx; [|done].
    rewrite (E3 id). by apply (H3 id x).
Qed.

(** Views of an explicit state. *)
Ltac state := cbn [fm_approvals objects partials _sessions _project_sessions _starts _start_tasks _project_starts _stopped _closing
  _partial_cleanups _lifecycle_generation _shutdown tasks effects log to edit unlock set_approvals on_objects on_partials on_sessions
  on_project_sessions on_starts on_start_tasks on_project_starts on_stopped on_closing on_partial_cleanups on_lifecycle on_shutdown
  on_tasks on_effects].
Ltac same_view :=
  let u := fresh "u" in
  intros u; unfold start_of, operation_of, close_of, cleanup_of, edit, unlock, log, to; state;
  repeat match goal with
  | |- context [<[?t:=_]> _ !! u] =>
      destruct (decide (t = u)) as [->|]; [rewrite !lookup_insert_eq|rewrite !(lookup_insert_ne _ t u) by done]
  end;
  repeat match goal with H : tasks _ !! _ = _ |- _ => rewrite H; clear H end; try done; by repeat case_match.
Ltac same_object :=
  let u := fresh "u" in
  intros u; unfold edit, unlock, log, to; state;
  repeat match goal with
  | |- context [alter _ ?t _ !! u] =>
      destruct (decide (t = u)) as [->|]; [rewrite !lookup_alter_eq|rewrite !(lookup_alter_ne _ _ t u) by done]
  end; try done;
  repeat match goal with H : objects _ !! _ = _ |- _ => rewrite H | H : partials _ !! _ = _ |- _ => rewrite H end;
  repeat match goal with |- context [objects _ !! ?x] => destruct (objects _ !! x) | |- context [partials _ !! ?x] => destruct (partials _ !! x) end;
  try done; by repeat case_match.
Ltac frame :=
  lazymatch goal with
  | |- starts_ok _ => eapply starts_frame; [same_view|done|done|done|done|]
  | |- sessions_ok _ => eapply sessions_frame; [same_object|done|done|done|]
  | |- closings_ok _ => eapply closings_frame; [same_view|same_object|done|done|]
  | |- calls_locked _ => eapply calls_frame; [same_view|same_object|]
  | |- partials_ok _ => eapply partials_frame; [same_view|same_object|same_view|done|done|]
  end; by eauto.

Lemma same_core_tables s s' : same_core s s' -> tables s -> tables s'.
Proof.
  intros [Ek Eo Ep Es Eps Est Epst Ec Epc El Et Ee] [Hk H1 H2 H3 H4 H5 H6].
  assert (forall t, start_of s' t = start_of s t) as E1 by (intros t; unfold start_of; by rewrite Et).
  assert (forall t, close_of s' t = close_of s t) as E2 by (intros t; unfold close_of; by rewrite Et).
  assert (forall t, operation_of s' t = operation_of s t) as E3 by (intros t; unfold operation_of; by rewrite Et).
  assert (forall t, cleanup_of s' t = cleanup_of s t) as E4 by (intros t; unfold cleanup_of; by rewrite Et).
  split; auto.
  - by apply (starts_frame s).
  - apply (sessions_frame s); try done. by rewrite Eo.
  - apply (closings_frame s); try done. by rewrite Eo.
  - apply (calls_frame s); try done. by rewrite Eo.
  - apply (partials_frame s); try done. by rewrite Ep.
  - unfold engaged. by rewrite Eps, Epst, Epc.
Qed.

(** *** Starts and their reservations *)

(** [give_back] frees the reservation of the task and nothing else. *)
Lemma give_back_own s t i d : _project_starts s !! project_of i = Some (si_key i) -> _start_tasks s !! si_key i = Some (d, t) ->
  give_back t i s = on_project_starts (delete (project_of i)) (on_start_tasks (delete (si_key i)) s).
Proof.
  intros Hp Hk. unfold give_back. rewrite Hk, Nat.eqb_refl. state. unfold project_of in Hp. by rewrite bool_decide_true.
Qed.
Lemma give_back_running s s1 t i st : starts_ok s -> start_of s t = Some (i, st) -> running st = true ->
  _project_starts s1 = _project_starts s -> _start_tasks s1 = _start_tasks s ->
  give_back t i s1 = on_project_starts (delete (project_of i)) (on_start_tasks (delete (si_key i)) s1).
Proof.
  intros Hs Ht Hr E1 E2. destruct (st_running _ Hs _ _ _ Ht Hr) as (_ & Hp & Hk & _).
  eapply give_back_own; [by rewrite E1|by rewrite E2].
Qed.

(** Two starts that run are of different projects. *)
Lemma running_apart s t u i j st st' : starts_ok s -> start_of s t = Some (i, st) -> start_of s u = Some (j, st') ->
  running st = true -> running st' = true -> project_of i = project_of j \/ si_key i = si_key j -> t = u.
Proof.
  intros Hs Ht Hu Hr Hr' Hp. destruct (st_running _ Hs _ _ _ Ht Hr) as (Hki & Hpi & Hti & _).
  destruct (st_running _ Hs _ _ _ Hu Hr') as (Hkj & Hpj & Htj & _).
  assert (si_key i = si_key j) as Hk by (destruct Hp as [Hp|Hk]; [|done]; rewrite Hp in Hpi; congruence).
  rewrite Hk in Hti. congruence.
Qed.

(** The stage of a start changes: nothing else of the starts does. *)
Lemma starts_stage s t i st st' : starts_ok s -> start_of s t = Some (i, st) -> (running st' = true -> running st = true) ->
  (active st' = true -> active st = true) ->
  match st' with SAsking p _ _ | SAcquiring p _ _ | SOpening p _ _ _ _ => project_id p = project_of i | _ => True end ->
  starts_ok (to t (StartTask i st') s).
Proof.
  intros [H1 H2] Ht Hr Ha Hp.
  assert (forall u, start_of (to t (StartTask i st') s) u = if decide (u = t) then Some (i, st') else start_of s u) as E.
  { intros u. unfold start_of, to. state. destruct (decide (u = t)) as [->|]; [by rewrite lookup_insert_eq|by rewrite lookup_insert_ne]. }
  split; intros u j st1; rewrite E; (destruct (decide (u = t)) as [->|]; [intros [= <- <-]|by (apply H1 || apply H2)]).
  - intros Hr'. destruct (H1 _ _ _ Ht (Hr Hr')) as (Hk & ? & ? & ? & Hc). split_and!; auto.
  - done.
Qed.

(** A start ends, and its reservation with it. *)
Lemma starts_end s t i st r : starts_ok s -> start_of s t = Some (i, st) -> running st = true ->
  starts_ok (to t (StartTask i (SDone r)) (on_project_starts (delete (project_of i)) (on_start_tasks (delete (si_key i)) s))).
Proof.
  intros Hs Ht Hr. pose proof (running_apart s t) as Hap.
  set (s1 := to _ _ _). assert (forall u, start_of s1 u = if decide (u = t) then Some (i, SDone r) else start_of s u) as E.
  { intros u. unfold start_of, s1, to. state. destruct (decide (u = t)) as [->|]; [by rewrite lookup_insert_eq|by rewrite lookup_insert_ne]. }
  split; intros u j st1; rewrite E; destruct (decide (u = t)) as [->|Hu].
  - by intros [= <- <-].
  - intros Hj Hr'. destruct (st_running _ Hs _ _ _ Hj Hr') as (Hk & Hp & Htk & Hrest). split; [done|]. unfold s1. state.
    rewrite !lookup_delete_ne; [split_and!; (done || apply Hrest)| |].
    + intros Ek. apply Hu. symmetry. eapply Hap; eauto.
    + intros Ep. apply Hu. symmetry. eapply Hap; eauto.
  - by intros [= <- <-].
  - apply (st_project _ Hs).
Qed.

(** The tables a start looks at change for projects of no running start. *)
Lemma starts_others s s' : (forall t, start_of s' t = start_of s t) -> _project_starts s' = _project_starts s -> _start_tasks s' = _start_tasks s ->
  (forall t i st, start_of s t = Some (i, st) -> running st = true -> _project_sessions s !! project_of i = None -> _project_sessions s' !! project_of i = None) ->
  (forall t i st, start_of s t = Some (i, st) -> active st = true -> _partial_cleanups s !! project_of i = None -> _partial_cleanups s' !! project_of i = None) ->
  starts_ok s -> starts_ok s'.
Proof.
  intros E1 E2 E3 E4 E5 [H1 H2]. split; intros t i st; rewrite E1; [|apply H2]. intros Ht Hr.
  destruct (H1 _ _ _ Ht Hr) as (? & ? & ? & ? & ?). rewrite E2, E3. split_and!; eauto.
Qed.

Lemma delete_none {V} (m : gmap str V) k l : m !! l = None -> delete k m !! l = None.
Proof. intros H. destruct (decide (k = l)) as [->|]; [by rewrite lookup_delete_eq|by rewrite lookup_delete_ne]. Qed.

Lemma reserved_false p s : reserved p s = false -> _project_sessions s !! p = None /\ _project_starts s !! p = None /\ _partial_cleanups s !! p = None.
Proof.
  unfold reserved. intros H. apply orb_false_iff in H as [[H1 H2]%orb_false_iff H3].
  repeat match goal with H : bool_decide _ = false |- _ => apply bool_decide_eq_false in H; apply eq_None_not_Some in H end. done.
Qed.

Lemma move_starts s s' : tables s -> move s s' -> starts_ok s'.
Proof.
  intros Hs Hm. pose proof (tb_starts _ Hs) as H. destruct Hm; try frame.
  - by apply (same_core_tables s).
  - apply reserved_false in H2 as (Hn1 & Hn2 & Hn3).
    set (s1 := log _ _). assert (forall u, start_of s1 u = if decide (u = t) then Some (i, SNew) else start_of s u) as E.
    { intros u. unfold start_of, s1, to, log. state. destruct (decide (u = t)) as [->|]; [by rewrite lookup_insert_eq|by rewrite lookup_insert_ne]. }
    split; intros u j st; rewrite E; destruct (decide (u = t)) as [->|Hu]; [| | |apply H].
    + intros [= <- <-] _. unfold s1, log, to. state. by rewrite !lookup_insert_eq.
    + intros Hj Hr. destruct (st_running _ H _ _ _ Hj Hr) as (Hk & Hp & Ht & Hrest). split; [done|]. unfold s1, log, to. state.
      rewrite !lookup_insert_ne; [done|congruence|congruence].
    + by intros [= <- <-].
  - apply (starts_stage (log (EAsk t r) s) t i SNew); [frame|by apply start_of_task|done|done|done].
  - apply (starts_stage s t i st); [done|by apply start_of_task|by destruct st|done|done].
  - apply (starts_stage (log (EOpen t p url now (fm_approvals s)) s) t i (SAcquiring p c g)); [frame|by apply start_of_task|done|done|].
    apply (st_project _ H t i (SAcquiring p c g)). by apply start_of_task.
  - rewrite (give_back_running s s t i st) by (done || by apply start_of_task). apply (starts_end _ _ _ st); [done|by apply start_of_task|done].
  - by apply (starts_stage s t i SNew); [|apply start_of_task|..].
  - apply start_of_task in H0. rewrite (give_back_running s _ t i _ H H0) by done.
    pose proof (starts_end s t i _ r H H0 eq_refl) as Ha. eapply starts_others; [| | | | |exact Ha]; [same_view|done|done| |done].
    intros w j st1 Hu Hr _. state. destruct (st_running _ Ha _ _ _ Hu Hr) as (_ & Hp & _ & Hn & _). unfold to in Hp, Hn. cbn in Hp, Hn.
    rewrite lookup_insert_ne; [done|]. intros E. rewrite H3 in E. by rewrite E, lookup_delete_eq in Hp.
  - pose proof (start_of_task _ _ _ _ H0) as Ht. assert (running st = true) as Hr by by destruct st.
    assert (cleanup <> t) as Hct by congruence.
    eapply (starts_others (to t (StartTask i (SCleaning e)) s)); [| | | | |by apply (starts_stage s t i st)].
    + intros u. unfold start_of, to. destruct page; state.
      all: destruct (decide (t = u)) as [->|]; [by rewrite !lookup_insert_eq|rewrite !(lookup_insert_ne _ t u) by done].
      all: destruct (decide (cleanup = u)) as [->|]; [by rewrite lookup_insert_eq, H3|by rewrite lookup_insert_ne].
    + by destruct page.
    + by destruct page.
    + by destruct page.
    + intros u j st1 Hu Ha Hn. unfold to in Hn. destruct page; state; (rewrite lookup_insert_ne; [exact Hn|]); intros Ep.
      all: unfold start_of, to in Hu; cbn in Hu; destruct (decide (t = u)) as [->|Htu]; [rewrite lookup_insert_eq in Hu; by injection Hu as <- <-|].
      all: rewrite lookup_insert_ne in Hu by done; apply Htu; eapply (running_apart s); eauto; by destruct st1.
  - case_bool_decide; unfold id; apply (starts_others s); [same_view|done|done| |by auto|exact H|same_view|done|done|by auto|by auto|exact H].
    intros u j st1 _ _ Hn. state. by apply delete_none.
  - case_bool_decide; unfold Datatypes.id; apply (starts_others s); [same_view|done|done|by auto| |exact H|same_view|done|done|by auto|by auto|exact H].
    intros u j st1 _ _ Hn. state. by apply delete_none.
Qed.

(** *** Sessions *)

Lemma give_back_shape t i s : exists f g, give_back t i s = on_project_starts f (on_start_tasks g s).
Proof.
  unfold give_back. exists (fun m => if bool_decide (_project_starts s !! sq_project_id (si_request i) = Some (si_key i)) then delete (sq_project_id (si_request i)) m else m),
    (fun m => match _start_tasks s !! si_key i with Some (_, u) => if (u =? t)%nat then delete (si_key i) m else m | None => m end).
  destruct (_start_tasks s !! si_key i) as [[d u]|]; [destruct (u =? t)%nat|]; state; case_bool_decide; by destruct s.
Qed.

(** A session that is being closed is in the tables as such. *)
Lemma closing_session s t sid st : tables s -> close_of s t = Some (sid, st) -> working st = true ->
  exists o, objects s !! sid = Some o /\ sid ∉ _sessions s /\ _closing s !! sid = Some t /\ _project_sessions s !! fs_project_id o = Some sid.
Proof.
  intros Hs Ht Hw. destruct (cl_object _ (tb_closings _ Hs) _ _ _ Ht) as (o & Ho & _ & Hn & Hc & _). specialize (Hc Hw).
  exists o. split_and!; try done. apply (se_project _ (tb_sessions _ Hs)). exists o. split_and!; eauto.
Qed.
Lemma unknown_session s sid : tables s -> objects s !! sid = None -> sid ∉ _sessions s /\ _closing s !! sid = None /\
  forall p, _project_sessions s !! p <> Some sid.
Proof.
  intros Hs Ho. assert (forall p, _project_sessions s !! p <> Some sid) as Hp.
  { intros p (o & Ho' & _)%(se_project _ (tb_sessions _ Hs)). congruence. }
  assert (_closing s !! sid = None) as Hc.
  { destruct (_closing s !! sid) as [t|] eqn:E; [|done]. destruct (cl_task _ (tb_closings _ Hs) _ _ E) as [st Ht].
    destruct (cl_object _ (tb_closings _ Hs) _ _ _ Ht) as (o & Ho' & _). congruence. }
  split_and!; try done. intros Hin. destruct (se_known _ (tb_sessions _ Hs) sid Hin) as [o Ho']. congruence.
Qed.

Lemma move_sessions s s' : tables s -> move s s' -> sessions_ok s'.
Proof.
  intros Hs Hm. pose proof (tb_sessions _ Hs) as H. destruct Hm; try frame.
  - by apply (same_core_tables s).
  - destruct (give_back_shape t i s) as (f & g & ->). frame.
  - (* commit *) destruct (give_back_shape t i (log (ESession sid t page now) (on_project_sessions <[project_id p := sid]> (on_sessions (fun l => {[sid]} ∪ l)
        (on_objects <[sid := new_session sid i p c g v page url now]> (log (EPage t (project_of i) page) s)))))) as (f & h & ->).
    destruct (unknown_session s sid Hs H2) as (Hn1 & Hn2 & Hn3).
    destruct (st_running _ (tb_starts _ Hs) t i _ (start_of_task _ _ _ _ H0) eq_refl) as (_ & _ & _ & Hnone & _).
    split; unfold to, log; state.
    + intros p' sid'. rewrite lookup_insert_Some. destruct (decide (sid' = sid)) as [->|Hne].
      * rewrite lookup_insert_eq. split.
        -- intros [[<- _]|[_ []%Hn3]]. eexists. split_and!; [done|done|left; set_solver].
        -- intros (o & [= <-] & <- & _). by left.
      * rewrite lookup_insert_ne by done. split.
        -- intros [[_ ?]|[_ (o & Ho & Hp & Hl)%(se_project _ H)]]; [done|]. exists o. split_and!; [done|done|set_solver].
        -- intros (o & Ho & Hp & Hl). right. assert (_project_sessions s !! p' = Some sid') as Hps.
           { apply (se_project _ H). exists o. split_and!; [done|done|set_solver]. }
           split; [|done]. intros <-. rewrite H3 in Hps. congruence.
    + intros sid' [->%elem_of_singleton|Hin]%elem_of_union; [done|by apply (se_disjoint _ H)].
    + intros sid' [->%elem_of_singleton|Hin]%elem_of_union; [by rewrite lookup_insert_eq|]. apply lookup_insert_is_Some'. right. by apply (se_known _ H).
  - destruct page; frame.
  - (* begin_close *) split; unfold to, edit; state.
    + intros p' sid'. rewrite (se_project _ H). destruct (decide (sid' = sid)) as [->|Hne].
      * rewrite lookup_alter_eq, H0, lookup_insert_eq. cbn. split; intros (o' & [= <-] & Hp & Hl); eexists; (split; [done|]); split; try done; [right; by eexists|].
        destruct H2 as [|(u & r & ? & _)]; [by left|right; by eexists].
      * rewrite lookup_alter_ne, lookup_insert_ne by done. split; intros (o' & Ho & Hp & Hl); exists o'; split_and!; try done; set_solver.
    + intros sid' [Hin Hne]%elem_of_difference. rewrite lookup_insert_ne by set_solver. by apply (se_disjoint _ H).
    + intros sid' [Hin Hne]%elem_of_difference. rewrite lookup_alter_ne by set_solver. by apply (se_known _ H).
  - (* close_done *) destruct (closing_session s t sid st Hs (close_of_task _ _ _ _ H0) H1) as (o' & Ho & Hn & Hc & Hps).
    rewrite H2 in Ho. injection Ho as <-. rewrite bool_decide_true by done. split; unfold to, unlock, edit; state.
    + intros p' sid'. rewrite lookup_delete_Some, (se_project _ H). destruct (decide (sid' = sid)) as [->|Hne].
      * rewrite lookup_alter_eq, H2, lookup_delete_eq. cbn. split.
        -- intros [Hd (o' & [= <-] & Hp & _)]. done.
        -- intros (o' & [= <-] & Hp & [Hin|[? ?]]); done.
      * rewrite lookup_alter_ne, lookup_delete_ne by done. split; [intros [_ ?]; done|]. intros (o' & Ho & Hp & Hl). split; [|by exists o'].
        intros <-. assert (_project_sessions s !! fs_project_id o = Some sid') by (apply (se_project _ H); eauto). congruence.
    + intros sid' Hin. apply delete_none. by apply (se_disjoint _ H).
    + intros sid' Hin. rewrite lookup_alter_ne by congruence. by apply (se_known _ H).
  - case_bool_decide; unfold Datatypes.id; frame.
Qed.

(** *** Closings *)

(** What a closing may rely on at each stage. *)
Definition stage_ok (t : nat) (st : close_stage) (o : FrontendSession) : Prop :=
  match st with CPage => fs_lock o = Some t | CServer f => fs_lock o = Some t /\ (f = None -> browser_closed (fs_fate o) = true) | _ => True end.

Lemma closings_edit s sid f o : closings_ok s -> objects s !! sid = Some o -> (fs_closed o = true -> fs_closed (f o) = true) ->
  (forall t st, close_of s t = Some (sid, st) -> stage_ok t st o -> stage_ok t st (f o)) -> closings_ok (edit sid f s).
Proof.
  intros [H1 H2] Ho Hf Hst. split; [exact H1|]. intros t sid' st Ht. destruct (H2 _ _ _ Ht) as (o' & Ho' & Hc & Hn & Hw & Hs).
  unfold edit. state. destruct (decide (sid' = sid)) as [->|Hne].
  - rewrite Ho in Ho'. injection Ho' as <-. exists (f o). rewrite lookup_alter_eq, Ho. split_and!; auto. by apply (Hst t st).
  - exists o'. by rewrite lookup_alter_ne.
Qed.
Lemma closings_stage s t sid st st' o : closings_ok s -> close_of s t = Some (sid, st) -> working st = true -> objects s !! sid = Some o ->
  stage_ok t st' o -> closings_ok (to t (CloseTask sid st') s).
Proof.
  intros [H1 H2] Ht Hw Ho Hst. set (s1 := to _ _ _).
  assert (forall u, close_of s1 u = if decide (u = t) then Some (sid, st') else close_of s u) as E.
  { intros u. unfold close_of, s1, to. state. destruct (decide (u = t)) as [->|]; [by rewrite lookup_insert_eq|by rewrite lookup_insert_ne]. }
  split.
  - intros sid' u Hu. rewrite E. destruct (decide (u = t)) as [->|]; [|by apply H1].
    destruct (H1 _ _ Hu) as [st1 Hst1]. rewrite Ht in Hst1. injection Hst1 as -> _. by eexists.
  - intros u sid' st1. rewrite E. destruct (decide (u = t)) as [->|]; [|apply H2]. intros [= <- <-].
    destruct (H2 _ _ _ Ht) as (o' & Ho' & Hc & Hn & Hwk & _). rewrite Ho in Ho'. injection Ho' as <-. exists o. split_and!; auto.
Qed.
(** Only the holder of the lock is at work. *)
Lemma closings_unlock s sid o t : closings_ok s -> objects s !! sid = Some o -> fs_lock o = Some t ->
  (forall st, close_of s t = Some (sid, st) -> working st = false) -> closings_ok (unlock sid s).
Proof.
  intros H Ho Hl Ht. apply (closings_edit _ _ _ o); [done|done|done|]. intros u st Hu. unfold stage_ok. destruct st; try done.
  - intros Hu'. rewrite Hl in Hu'. injection Hu' as ->. by apply Ht in Hu.
  - intros [Hu' _]. rewrite Hl in Hu'. injection Hu' as ->. by apply Ht in Hu.
Qed.

Lemma move_closings s s' : tables s -> move s s' -> closings_ok s'.
Proof.
  intros Hs Hm. pose proof (tb_closings _ Hs) as H. destruct Hm; try frame.
  - by apply (same_core_tables s).
  - destruct (give_back_shape t i s) as (f & g & ->). frame.
  - destruct (give_back_shape t i (log (ESession sid t page now) (on_project_sessions <[project_id p := sid]> (on_sessions (fun l => {[sid]} ∪ l)
        (on_objects <[sid := new_session sid i p c g v page url now]> (log (EPage t (project_of i) page) s)))))) as (f & h & ->).
    set (s1 := to _ _ _). assert (forall w, close_of s1 w = close_of s w) as E by (unfold s1; same_view).
    split; [intros sid' w; rewrite E; apply H|]. intros w sid' st. rewrite E. intros Hw.
    destruct (cl_object _ H _ _ _ Hw) as (o & Ho & Hc & Hn & Hwk & Hst). exists o. unfold s1, to, log. state.
    assert (sid' <> sid) as Hne by congruence. rewrite lookup_insert_ne by done. split_and!; try done. set_solver.
  - destruct page; frame.
  - apply (closings_edit _ _ _ o); [done|done|done|]. intros u st _. destruct st; cbn; try done; [congruence|by intros [? _]; congruence].
  - assert (closings_ok (unlock (oq_session_id q) s)) as Hun.
    { apply (closings_unlock _ _ o t); try done. intros st' Hc. unfold close_of in Hc. by rewrite H0 in Hc. }
    apply (closings_frame (unlock (oq_session_id q) s)); [same_view|done|done|done|done].
  - assert (closings_ok (unlock (oq_session_id q) s)) as Hun.
    { apply (closings_unlock _ _ o t); try done. intros st' Hc. unfold close_of in Hc. by rewrite H0 in Hc. }
    apply (closings_frame (unlock (oq_session_id q) s)); [same_view|done|done|done|done].
  - (* begin_close *) set (s1 := on_closing _ _).
    assert (forall u, close_of s1 u = if decide (u = t) then Some (sid, CNew) else close_of s u) as E.
    { intros u. unfold close_of, s1, to. state. destruct (decide (u = t)) as [->|]; [by rewrite lookup_insert_eq|by rewrite lookup_insert_ne]. }
    assert (forall u st, close_of s u = Some (sid, st) -> working st = false) as Hidle.
    { intros u st Hu. destruct (working st) eqn:Hw; [|done]. destruct (cl_object _ H _ _ _ Hu) as (o' & _ & _ & Hn & Hc & _). specialize (Hc Hw).
      destruct H2 as [Hin|(w & r & Hw' & Ht)]; [done|]. rewrite Hc in Hw'. injection Hw' as ->. apply close_of_task in Ht. rewrite Hu in Ht.
      by injection Ht as ->. }
    split.
    + intros sid' u. unfold s1, to. state. rewrite lookup_insert_Some. rewrite E. intros [[<- <-]|[Hne Hc]]; [rewrite decide_True by done; by eexists|].
      destruct (cl_task _ H _ _ Hc) as [st Hst]. exists st. rewrite decide_False; [done|]. intros ->. unfold close_of in Hst. by rewrite H1 in Hst.
    + intros u sid' st. rewrite E. unfold s1, to, edit. state. destruct (decide (u = t)) as [->|Hu].
      * intros [= <- <-]. exists (with_closed o). rewrite lookup_alter_eq, H0, lookup_insert_eq. split_and!; try done. set_solver.
      * intros Hst. destruct (cl_object _ H _ _ _ Hst) as (o' & Ho' & Hc & Hn & Hw & Hs'). destruct (decide (sid' = sid)) as [->|Hne].
        -- rewrite H0 in Ho'. injection Ho' as <-. exists (with_closed o). rewrite lookup_alter_eq, H0. split_and!; try done; [set_solver|].
           rewrite (Hidle _ _ Hst). done.
        -- exists o'. rewrite lookup_alter_ne, lookup_insert_ne by done. split_and!; try done. set_solver.
  - apply (closings_stage (log (EClose (fs_browser o)) s) t sid CNew _ o); [frame|by apply close_of_task|done|done|done].
  - apply (closings_edit _ _ _ o); [frame|done|by destruct ok|]. intros u st _. destruct ok, st; cbn; try done. by intros [? _].
  - apply (closings_stage s t sid st _ o); [done|by apply close_of_task| |done|done]. by destruct H1 as [->| ->].
  - change (closings_ok (unlock sid (to t (CloseTask sid (CDone (Err e))) s))).
    apply (closings_unlock _ _ o t); try done; [apply (closings_stage s t sid st _ o); try done; by apply close_of_task|].
    intros st' Hst. unfold close_of, to in Hst. cbn in Hst. rewrite lookup_insert_eq in Hst. by injection Hst as <-.
  - (* close_done *) pose proof (close_of_task _ _ _ _ H0) as Ht. destruct (closing_session s t sid st Hs Ht H1) as (o' & Ho & Hn & Hc & Hps).
    assert (closings_ok (unlock sid (to t (CloseTask sid (CDone (Ok b))) s))) as [H5 H6].
    { apply (closings_unlock _ _ o t); try done; [by apply (closings_stage s t sid st _ o)|].
      intros st' Hst. unfold close_of, to in Hst. cbn in Hst. rewrite lookup_insert_eq in Hst. by injection Hst as <-. }
    assert (closings_ok (on_closing (delete sid) (unlock sid (to t (CloseTask sid (CDone (Ok b))) s)))) as H7.
    { split; state.
      - intros sid' u [Hne Hu]%lookup_delete_Some. by apply H5.
      - intros u sid' st' Hu. destruct (H6 u sid' st' Hu) as (o1 & Ho1 & Hc1 & Hn1 & Hw1 & Hs1). exists o1. split_and!; try done.
        intros Hw'. specialize (Hw1 Hw'). rewrite lookup_delete_ne; [done|]. intros <-. unfold unlock, edit, to in Hw1. cbn in Hw1.
        rewrite Hc in Hw1. injection Hw1 as <-. unfold close_of, unlock, edit, to in Hu. cbn in Hu. rewrite lookup_insert_eq in Hu. by injection Hu as <-. }
    case_bool_decide; unfold id; (eapply closings_frame; [| | | |exact H7]); [same_view|done|done|done|same_view|done|done|done].
  - case_bool_decide; unfold Datatypes.id; frame.
Qed.

(** *** Calls and abandoned starts *)

Lemma calls_stage s t q c st : calls_locked s ->
  (forall k, st = OCalling k -> exists o, objects s !! oq_session_id q = Some o /\ fs_lock o = Some t) -> calls_locked (to t (OperationTask q c st) s).
Proof.
  intros H Hst u q' c' k. unfold operation_of, to. state. destruct (decide (t = u)) as [->|Hne].
  - rewrite lookup_insert_eq. intros [= -> -> ->]. by apply (Hst k).
  - rewrite lookup_insert_ne by done. apply H.
Qed.
Lemma calls_unlock s sid o t : calls_locked s -> objects s !! sid = Some o -> fs_lock o = Some t ->
  (forall q c k, operation_of s t <> Some (q, c, OCalling k)) -> calls_locked (unlock sid s).
Proof.
  intros H Ho Hl Ht u q c k Hu. destruct (H u q c k Hu) as (o' & Ho' & Hl'). unfold unlock, edit. state.
  destruct (decide (oq_session_id q = sid)) as [Hq|Hne]; [|exists o'; by rewrite lookup_alter_ne].
  rewrite Hq, Ho in Ho'. injection Ho' as <-. rewrite Hl in Hl'. injection Hl' as ->. by apply Ht in Hu.
Qed.

Lemma move_calls s s' : tables s -> move s s' -> calls_locked s'.
Proof.
  intros Hs Hm. pose proof (tb_calls _ Hs) as H. destruct Hm; try frame.
  - by apply (same_core_tables s).
  - destruct (give_back_shape t i s) as (f & g & ->). frame.
  - destruct (give_back_shape t i (log (ESession sid t page now) (on_project_sessions <[project_id p := sid]> (on_sessions (fun l => {[sid]} ∪ l)
        (on_objects <[sid := new_session sid i p c g v page url now]> (log (EPage t (project_of i) page) s)))))) as (f & h & ->).
    set (s1 := to _ _ _). assert (forall w, operation_of s1 w = operation_of s w) as E by (unfold s1; same_view).
    intros w q c' k. rewrite E. intros (o & Ho & Hl)%H. exists o. split; [|done]. unfold s1, to, log. state. by rewrite lookup_insert_ne by congruence.
  - destruct page; (eapply calls_frame; [| |exact H]; [|done]); intros u; unfold operation_of, to; state.
    all: destruct (decide (t = u)) as [->|]; [by rewrite lookup_insert_eq, H0|rewrite (lookup_insert_ne _ t u) by done].
    all: destruct (decide (cleanup = u)) as [->|]; [by rewrite lookup_insert_eq, H3|by rewrite lookup_insert_ne].
  - by apply calls_stage.
  - by apply calls_stage.
  - intros u q c k Hu. destruct (H u q c k Hu) as (o' & Ho' & Hl). unfold edit. state. destruct (decide (oq_session_id q = sid)) as [Hq|Hne].
    + rewrite Hq, H0 in Ho'. injection Ho' as <-. congruence.
    + exists o'. by rewrite lookup_alter_ne.
  - apply calls_stage; [frame|]. intros _ _. by exists o.
  - change (calls_locked (unlock (oq_session_id q) (to t (OperationTask q c (ODone r)) s))).
    apply (calls_unlock _ _ o t); try done; [by apply calls_stage|]. intros q' c' k. unfold operation_of, to. state. by rewrite lookup_insert_eq.
  - change (calls_locked (unlock (oq_session_id q) (to t (OperationTask q c (ODone r)) s))).
    apply (calls_unlock _ _ o t); try done; [by apply calls_stage|]. intros q' c' k'. unfold operation_of, to. state. by rewrite lookup_insert_eq.
  - change (calls_locked (unlock sid (to t (CloseTask sid (CDone (Err e))) s))).
    apply (calls_unlock _ _ o t); try done; [frame|]. intros q' c' k. unfold operation_of, to. state. by rewrite lookup_insert_eq.
  - assert (calls_locked (unlock sid (to t (CloseTask sid (CDone (Ok b))) s))) as Hun.
    { apply (calls_unlock _ _ o t); try done; [frame|]. intros q' c' k. unfold operation_of, to. state. by rewrite lookup_insert_eq. }
    case_bool_decide; unfold id; (eapply calls_frame; [| |exact Hun]); [same_view|done|same_view|done].
  - case_bool_decide; unfold Datatypes.id; frame.
Qed.

(** The cleanups stay; a start that gave up stays so. *)
Lemma partials_others s s' : (forall t, cleanup_of s' t = cleanup_of s t) -> (forall id, partial_view <$> partials s' !! id = partial_view <$> partials s !! id) ->
  (forall t i st, start_of s t = Some (i, st) -> active st = false -> exists i' st', start_of s' t = Some (i', st') /\ active st' = false) ->
  (forall p id, _partial_cleanups s' !! p = Some id -> _partial_cleanups s !! p = Some id /\ (_project_sessions s !! p = None -> _project_sessions s' !! p = None)) ->
  partials_ok s -> partials_ok s'.
Proof.
  intros E1 E2 E3 E4 [H1 H2 H3].
  assert (forall id x, partials s !! id = Some x -> exists x', partials s' !! id = Some x' /\ partial_view x' = partial_view x) as Hto.
  { intros id x Hx. specialize (E2 id). rewrite Hx in E2. destruct (partials s' !! id) as [x'|]; [|done]. exists x'. split; [done|]. cbn in E2. congruence. }
  split.
  - intros p id [Hid Hps]%E4. destruct (H1 _ _ Hid) as (x & Hx & Hp & Hn). apply Hto in Hx as (x' & Hx' & Hv). injection Hv as Hv _ _.
    exists x'. rewrite Hv. split_and!; auto.
  - intros t id st. rewrite E1. intros (x & Hx & Hs)%H2. apply Hto in Hx as (x' & Hx' & Hv). injection Hv as _ Hpg Hb. exists x'. by rewrite Hpg, Hb.
  - intros id x' Hx'. specialize (E2 id). rewrite Hx' in E2. destruct (partials s !! id) as [x|] eqn:Hx; [|done].
    destruct (H3 id x Hx) as (i & st & Hst & Ha). by eapply E3.
Qed.
Lemma stage_inactive s t x : (forall i st, start_of s t = Some (i, st) -> active st = true) \/ (exists i st, x = StartTask i st /\ active st = false) ->
  forall u i st, start_of s u = Some (i, st) -> active st = false -> exists i' st', start_of (to t x s) u = Some (i', st') /\ active st' = false.
Proof.
  intros Hx u i st Hu Ha. unfold start_of, to. state. destruct (decide (t = u)) as [->|Hne].
  - rewrite lookup_insert_eq. destruct Hx as [Hx|(i' & st' & -> & Ha')]; [apply Hx in Hu; congruence|by exists i', st'].
  - rewrite lookup_insert_ne by done. exists i, st. split; [|done]. exact Hu.
Qed.
(** A cleanup moves on. *)
Lemma partials_stage s t id st x : partials_ok s -> (forall i st, start_of s t <> Some (i, st)) -> partials s !! id = Some x ->
  match st with CPage => is_Some (pc_page x) | CServer None => forall page, pc_page x = Some page -> browser_closed (pc_fate x) = true | _ => True end ->
  partials_ok (to t (CleanupTask id st) s).
Proof.
  intros [H1 H2 H3] Ht Hx Hst. split; [exact H1| |].
  - intros u id' st'. unfold cleanup_of, to. state. destruct (decide (t = u)) as [->|Hne].
    + rewrite lookup_insert_eq. intros [= <- <-]. by exists x.
    + rewrite lookup_insert_ne by done. apply H2.
  - intros u y Hy. destruct (H3 _ _ Hy) as (i & st' & Hu & Ha). unfold start_of, to. state. destruct (decide (t = u)) as [->|Hne].
    + by apply Ht in Hu.
    + rewrite lookup_insert_ne by done. by exists i, st'.
Qed.
Lemma partials_edit s id x f : partials_ok s -> partials s !! id = Some x -> (forall x, pc_project_id (f x) = pc_project_id x /\ pc_page (f x) = pc_page x /\
  (browser_closed (pc_fate x) = true -> browser_closed (pc_fate (f x)) = true)) -> partials_ok (on_partials (alter f id) s).
Proof.
  intros [H1 H2 H3] Hx Hf. assert (forall j y, partials s !! j = Some y -> exists y', alter f id (partials s) !! j = Some y' /\
    pc_project_id y' = pc_project_id y /\ pc_page y' = pc_page y /\ (browser_closed (pc_fate y) = true -> browser_closed (pc_fate y') = true)) as Hto.
  { intros j y Hy. destruct (decide (id = j)) as [->|Hne]; [exists (f y); rewrite lookup_alter_eq, Hy; split; [done|apply Hf]|exists y; by rewrite lookup_alter_ne]. }
  split; state.
  - intros p j Hj. destruct (H1 _ _ Hj) as (y & Hy & Hp & Hn). apply Hto in Hy as (y' & Hy' & Hp' & _). exists y'. split_and!; congruence || done.
  - intros t j st Ht. destruct (H2 _ _ _ Ht) as (y & Hy & Hst). apply Hto in Hy as (y' & Hy' & _ & Hpg & Hb). exists y'. split; [done|]. rewrite Hpg.
    destruct st as [| |[e|]|]; try done. intros page Hp. by eapply Hb, Hst.
  - intros j y' Hy'. destruct (decide (id = j)) as [->|Hne]; [by apply (H3 j x)|rewrite lookup_alter_ne in Hy' by done; by apply (H3 j y')].
Qed.

Lemma move_partials s s' : tables s -> move s s' -> partials_ok s'.
Proof.
  intros Hs Hm. pose proof (tb_partials _ Hs) as H. destruct Hm; try frame.
  - by apply (same_core_tables s).
  - apply (partials_others s); [same_view|done| |done|done]. apply (stage_inactive s t (StartTask i SNew)). left. intros j st Hst. unfold start_of in Hst. by rewrite H0 in Hst.
  - apply (partials_others s); [same_view|done| |done|done]. apply (stage_inactive s t (StartTask i (SAsking p c g))). left. intros j st Hst.
    apply start_of_task in H0. rewrite H0 in Hst. by injection Hst as <- <-.
  - apply (partials_others s); [same_view|done| |done|done]. apply (stage_inactive s t (StartTask i (SAcquiring p c g))). left. intros j st' Hst.
    apply start_of_task in H0. rewrite H0 in Hst. by injection Hst as <- <-.
  - apply (partials_others s); [same_view|done| |done|done]. apply (stage_inactive s t (StartTask i (SOpening p c g v public))). left. intros j st' Hst.
    apply start_of_task in H0. rewrite H0 in Hst. by injection Hst as <- <-.
  - destruct (give_back_shape t i s) as (f & g & ->). apply (partials_others s); [same_view|done| |done|done].
    apply (stage_inactive s t (StartTask i (SDone r))). right. by exists i, (SDone r).
  - apply (partials_others s); [same_view|done| |done|done]. apply (stage_inactive s t (StartTask i (SDone r))). right. by exists i, (SDone r).
  - destruct (st_running _ (tb_starts _ Hs) t i _ (start_of_task _ _ _ _ H0) eq_refl) as (_ & _ & _ & _ & Hnone). specialize (Hnone eq_refl).
    destruct (give_back_shape t i (log (ESession sid t page now) (on_project_sessions <[project_id p := sid]> (on_sessions (fun l => {[sid]} ∪ l)
        (on_objects <[sid := new_session sid i p c g v page url now]> (log (EPage t (project_of i) page) s)))))) as (f & h & ->).
    apply (partials_others s); [same_view|done| | |done]; [apply (stage_inactive s t (StartTask i (SDone r))); right; by exists i, (SDone r)|].
    intros p' id Hp. split; [exact Hp|]. unfold to, log. state. rewrite lookup_insert_ne; [done|]. intros <-. rewrite H3 in Hp. cbn in Hp. congruence.
  - (* abandon *) pose proof (start_of_task _ _ _ _ H0) as Ht.
    destruct (st_running _ (tb_starts _ Hs) t i st Ht ltac:(by destruct st)) as (_ & _ & _ & Hno & _).
    assert (cleanup <> t) as Hct by congruence.
    set (x := {| pc_project_id := project_of i |}).
    match goal with |- partials_ok (to _ _ ?z) => set (s1 := z) end.
    assert (tasks s1 = <[cleanup := CleanupTask t CNew]> (tasks s)) as Et by (unfold s1; by destruct page).
    assert (partials s1 = <[t := x]> (partials s)) as Ex by (unfold s1; by destruct page).
    assert (_partial_cleanups s1 = <[project_of i := t]> (_partial_cleanups s)) as Ec by (unfold s1; by destruct page).
    assert (_project_sessions s1 = _project_sessions s) as Es by (unfold s1; by destruct page).
    destruct H as [P1 P2 P3]. split; unfold to; state; rewrite ?Ex, ?Ec, ?Es.
    + intros p id. rewrite lookup_insert_Some. intros [[<- <-]|[Hne Hid]].
      * exists x. by rewrite lookup_insert_eq.
      * destruct (P1 _ _ Hid) as (y & Hy & Hp & Hn). exists y. split; [|done]. rewrite lookup_insert_ne; [done|]. intros <-.
        destruct (P3 _ _ Hy) as (j & st' & Hj & Ha). rewrite Ht in Hj. injection Hj as <- <-. congruence.
    + intros u id st'. unfold cleanup_of. state. rewrite Et. destruct (decide (t = u)) as [->|Htu]; [by rewrite lookup_insert_eq|rewrite (lookup_insert_ne _ t u) by done].
      destruct (decide (cleanup = u)) as [->|Hcu].
      * rewrite lookup_insert_eq. intros [= <- <-]. exists x. by rewrite lookup_insert_eq.
      * rewrite lookup_insert_ne by done. intros (y & Hy & Hst)%P2. destruct (decide (t = id)) as [->|Hne]; [|exists y; by rewrite lookup_insert_ne].
        exfalso. destruct (P3 _ _ Hy) as (j & st1 & Hj & Ha). rewrite Ht in Hj. injection Hj as <- <-. congruence.
    + intros id y. unfold start_of. state. rewrite Et, lookup_insert_Some. destruct (decide (t = id)) as [->|Hne].
      * intros _. rewrite lookup_insert_eq. by exists i, (SCleaning e).
      * intros [[? _]|[_ Hy]]; [done|]. rewrite lookup_insert_ne by done. destruct (P3 _ _ Hy) as (j & st1 & Hj & Ha). exists j, st1. split; [|done].
        unfold start_of in Hj. rewrite lookup_insert_ne; [done|]. intros <-. by rewrite H3 in Hj.
  - case_bool_decide; unfold id; [|frame]. apply (partials_others s); [same_view|done| | |done].
    + intros u i st' Hu Ha. exists i, st'. split; [|done]. rewrite <-Hu. revert u Hu. assert (forall u, start_of (to t (CloseTask sid (CDone (Ok b))) s) u = start_of s u) as E by same_view. intros u _. apply E.
    + intros p id Hp. split; [exact Hp|]. state. intros. by apply delete_none.
  - (* retry *) apply (partials_edit _ _ x); [|done|by intros []]. apply (partials_stage _ _ _ _ x); [done| |done|done].
    intros i st Hst. unfold start_of in Hst. by rewrite H1 in Hst.
  - apply (partials_stage (log (EClose page) s) _ _ _ x); [frame| |done|by eexists]. intros i st Hst. unfold start_of, log in Hst. cbn in Hst. by rewrite H0 in Hst.
  - apply (partials_edit _ _ x); [frame|done|]. intros y. by destruct ok.
  - apply (partials_stage _ _ _ _ x); [done| |done|destruct f; [done|by apply H2]]. intros i st' Hst. unfold start_of in Hst. by rewrite H0 in Hst.
  - destruct (pa_cleanup _ H _ _ _ (cleanup_of_task _ _ _ _ H0)) as (x & Hx & _).
    apply (partials_stage _ _ _ _ x); [done| |done|done]. intros i st' Hst. unfold start_of in Hst. by rewrite H0 in Hst.
  - assert (partials_ok (to t (CleanupTask id (CDone (Ok b))) s)) as H3.
    { apply (partials_stage _ _ _ _ x); [done| |done|done]. intros i st' Hst. unfold start_of in Hst. by rewrite H0 in Hst. }
    case_bool_decide; unfold Datatypes.id; [|exact H3]. eapply partials_others; [| | | |exact H3]; [done|done|by eauto|].
    intros p j. state. intros [_ Hp]%lookup_delete_Some. by split.
Qed.

(** *** How many projects are engaged *)

Lemma size_union_le (X Y : gset str) : (size (X ∪ Y) <= size X + size Y)%nat.
Proof. rewrite size_union_alt. pose proof (subseteq_size (Y ∖ X) Y ltac:(set_solver)). lia. Qed.
Lemma sessions_count s : sessions_ok s -> (size (_project_sessions s) <= size (_sessions s) + size (_closing s))%nat.
Proof.
  intros Hs. set (l := (map_to_list (_project_sessions s)).*2).
  assert (length l = size (_project_sessions s)) as <- by (unfold l; by rewrite length_fmap, length_map_to_list).
  assert (NoDup l) as Hl.
  { unfold l. apply NoDup_fmap_2_strong; [|apply NoDup_map_to_list]. intros [p sid] [p' sid'] H1%elem_of_map_to_list H2%elem_of_map_to_list E. cbn in E. subst sid'.
    apply (se_project _ Hs) in H1 as (o & Ho & <- & _), H2 as (o' & Ho' & <- & _). rewrite Ho in Ho'. by injection Ho' as ->. }
  assert (length l <= size (_sessions s ∪ dom (_closing s)))%nat as H.
  { unfold size at 1, set_size. cbn. apply submseteq_length, NoDup_submseteq; [done|]. intros sid Hin. apply elem_of_elements.
    unfold l in Hin. apply list_elem_of_fmap in Hin as ([p sid'] & -> & Hin%elem_of_map_to_list). cbn.
    apply (se_project _ Hs) in Hin as (o & _ & _ & [Hin|Hc]); [set_solver|]. apply elem_of_union_r. by apply elem_of_dom. }
  etransitivity; [exact H|]. rewrite <-size_dom. apply size_union_le.
Qed.
Lemma engaged_occupied s : sessions_ok s -> (size (engaged s) <= occupied s)%nat.
Proof.
  intros Hs. pose proof (sessions_count s Hs) as H. unfold engaged, occupied.
  pose proof (size_union_le (dom (_project_sessions s) ∪ dom (_project_starts s)) (dom (_partial_cleanups s))) as H1.
  pose proof (size_union_le (dom (_project_sessions s)) (dom (_project_starts s))) as H2. rewrite !size_dom in *. lia.
Qed.

Lemma move_engaged s s' : tables s -> move s s' -> engaged s' ⊆ engaged s \/ (occupied s < MAX_SESSIONS)%nat /\ exists p, engaged s' ⊆ {[p]} ∪ engaged s.
Proof.
  intros Hs Hm. destruct Hm; try by left.
  - left. unfold engaged. destruct H as [Ek Eo Ep Es Eps Est Epst Ec Epc El Et Ee]. by rewrite Eps, Epst, Epc.
  - right. split; [done|]. exists (project_of i). unfold engaged, log, to. state. rewrite dom_insert. set_solver.
  - left. destruct (st_running _ (tb_starts _ Hs) t i st (start_of_task _ _ _ _ H) H0) as (_ & Hp & Hk & _).
    rewrite (give_back_own s t i _ Hp Hk). unfold engaged, to. state. rewrite dom_delete. set_solver.
  - left. destruct (st_running _ (tb_starts _ Hs) t i _ (start_of_task _ _ _ _ H) eq_refl) as (_ & Hp & Hk & _).
    rewrite (give_back_own _ t i (si_digest i)) by done. unfold engaged, to, log. state. rewrite dom_insert, dom_delete, H2.
    assert (project_of i ∈ dom (_project_starts s)) by (apply elem_of_dom; by eexists). set_solver.
  - left. destruct (st_running _ (tb_starts _ Hs) t i _ (start_of_task _ _ _ _ H) ltac:(by destruct st)) as (_ & Hp & Hk & _).
    assert (project_of i ∈ dom (_project_starts s)) by (apply elem_of_dom; by eexists).
    unfold engaged, to, log. destruct page; state; rewrite dom_insert; set_solver.
  - left. case_bool_decide; [|done]. unfold engaged, to. state. rewrite dom_delete. set_solver.
  - left. case_bool_decide; [|done]. unfold engaged, to. state. rewrite dom_delete. set_solver.
Qed.

Lemma move_tables s s' : tables s -> move s s' -> tables s'.
Proof.
  intros Hs Hm. split.
  - destruct Hm; try apply Hs; [by apply H, Hs| | | |..].
    + destruct (give_back_shape t i s) as (f & g & ->). apply Hs.
    + match goal with |- context [give_back t i ?z] => destruct (give_back_shape t i z) as (f & h & ->) end. apply Hs.
    + destruct page; apply Hs.
    + case_bool_decide; apply Hs.
    + case_bool_decide; apply Hs.
  - by apply (move_starts s).
  - by apply (move_sessions s).
  - by apply (move_closings s).
  - by apply (move_calls s).
  - by apply (move_partials s).
  - destruct (move_engaged s s' Hs Hm) as [H|(Ho & p & H)].
    + etransitivity; [apply subseteq_size, H|apply Hs].
    + apply subseteq_size in H. pose proof (size_union_le {[p]} (engaged s)) as H1. rewrite size_singleton in H1.
      pose proof (engaged_occupied s (tb_sessions _ Hs)). lia.
Qed.

Lemma tables_initial a : keyed a = true -> tables (initial a).
Proof.
  intros Ha. split; [done|..].
  - by split.
  - split; [|done|done]. intros p sid. split; [done|]. intros (o & Ho & _). done.
  - by split.
  - done.
  - by split.
  - apply Nat.le_0_l || (unfold engaged; cbn; rewrite !dom_empty_L; cbn; unfold MAX_SESSIONS; vm_compute; lia).
Qed.
