(* ===== verification/FrontendSteps.v ===== *)
(** * Every event of the frontend manager is a sequence of moves

    A segment that only reads goes nowhere; the others are taken apart at their
    changes of the state.  [steps]: from any state that has the invariant;
    [within]: while a task holds the lock of a session. *)
From S2P Require Import Prelude Utf8 PyStr Models Paths Database Json Approvals ReadText DevServers Frontend FrontendMoves FrontendInvariant.

Open Scope Z_scope.

Notation moves := (rtc move).

Lemma moves_tables s s' : moves s s' -> tables s -> tables s'.
Proof. induction 1 as [|s s1 s2 H _ IH]; [done|]. intros Hs. by eapply IH, move_tables. Qed.
Lemma moves_one s s' : move s s' -> moves s s'.
Proof. apply rtc_once. Qed.
#[export] Hint Resolve moves_one : core.

Definition steps {T} (m : F T) : Prop := forall s, tables s -> moves s (m s).2.

Lemma steps_reads {T} (m : F T) : reads m -> steps m.
Proof. intros H s _. rewrite (H s). done. Qed.
Lemma steps_bind {T U} (m : F T) (k : T -> F U) : steps m -> (forall x, steps (k x)) -> steps (bind m k).
Proof.
  intros Hm Hk s Hs. unfold bind. specialize (Hm s Hs). destruct (m s) as [[x|e] s1]; cbn in *; [|done].
  etransitivity; [exact Hm|]. apply Hk. by eapply moves_tables.
Qed.
Lemma steps_gets {T U} (f : manager -> T) (k : T -> F U) : (forall s, tables s -> moves s (k (f s) s).2) -> steps (bind (gets f) k).
Proof. intros H s Hs. exact (H s Hs). Qed.
Lemma steps_quiet f : (forall s, same_core s (f s)) -> steps (modify f).
Proof. intros H s _. apply moves_one. by constructor. Qed.
Lemma steps_when b m : steps m -> steps (when b m).
Proof. intros H. destruct b; [done|]. by apply steps_reads. Qed.

(** *** Changes of a session object *)

Lemma edit_ext sid f g s : (forall o, objects s !! sid = Some o -> f o = g o) -> edit sid f s = edit sid g s.
Proof.
  intros H. unfold edit, on_objects. f_equal. apply map_eq. intros k. destruct (decide (sid = k)) as [->|].
  - rewrite !lookup_alter_eq. destruct (objects s !! k) as [o|]; [|done]. cbn. by rewrite H.
  - by rewrite !lookup_alter_ne.
Qed.
Lemma edit_none sid f s : objects s !! sid = None -> edit sid f s = s.
Proof.
  intros H. unfold edit, on_objects. destruct s. cbn in *. f_equal. apply map_eq. intros k. destruct (decide (sid = k)) as [->|].
  - by rewrite lookup_alter_eq, H.
  - by rewrite lookup_alter_ne.
Qed.

(** A change that is a move wherever the object exists. *)
Lemma edit_moves sid f s : (forall o, objects s !! sid = Some o -> exists g, f o = g o /\ move s (edit sid g s)) -> moves s (edit sid f s).
Proof.
  intros H. destruct (objects s !! sid) as [o|] eqn:Ho; [|by rewrite edit_none].
  destruct (H o eq_refl) as (g & Hg & Hm). rewrite (edit_ext sid f g); [by apply moves_one|]. intros o' Ho'. rewrite Ho in Ho'. by injection Ho' as <-.
Qed.

Lemma steps_ensure_session sid project_id c now verified : steps (_ensure_session sid project_id c now verified).
Proof.
  intros s _. pose proof (ensure_session_run sid project_id c now verified s) as H. destruct (_ensure_session _ _ _ _ _ s) as [[x|e] s']; [|by subst].
  destruct H as (o & Ho & Hu & ->). apply moves_one. eapply (mv_touch s sid o); [done|]. apply (us_epoch _ _ _ _ _ Hu).
Qed.
Lemma steps_require_snapshot sid snapshot token : steps (_require_snapshot sid snapshot token).
Proof.
  intros s _. pose proof (require_snapshot_run sid snapshot token s) as H. destruct (_require_snapshot _ _ _ s) as [[x|e] s'].
  - by destruct H as [-> _].
  - destruct H as [->|(o & Ho & ->)]; [done|]. apply moves_one. by apply (mv_forget s sid o).
Qed.
Lemma steps_invalidate sid : steps (_invalidate_snapshot sid).
Proof.
  intros s _. apply (edit_moves sid). intros o Ho. exists (with_view (forget (fs_view o))). split; [done|]. by apply mv_forget.
Qed.
Lemma steps_remember sid key digest r : steps (remember sid key digest r).
Proof. apply steps_bind; [|intros; apply steps_invalidate]. intros s _. apply moves_one. apply mv_acts. Qed.

Section steps.
  Context {urls : Urls} (sha256_hex : bytes -> str) (unicode_decimal : N -> option Z) (account device : str).

(** *** A start is requested *)

Lemma steps_answer_existing sid q c now verified : steps (answer_existing sid q c now verified).
Proof.
  apply steps_bind; [apply steps_reads; auto with reads|]. intros o. apply steps_bind; [apply steps_ensure_session|].
  intros ?. by apply steps_reads.
Qed.

Lemma spawn_fresh s : tasks s !! base.fresh (dom (tasks s) : gset nat) = None.
Proof. apply not_elem_of_dom, is_fresh. Qed.

Lemma start_session_moves q c now verified : steps (_start_session sha256_hex q c now verified).
Proof.
  apply steps_bind; [apply steps_reads; auto with reads|]. intros route. case_match; [by apply steps_reads|].
  apply steps_bind; [apply steps_reads; auto with reads|]. intros digest. apply steps_bind; [by apply steps_reads|]. intros down.
  destruct down; [by apply steps_reads|]. apply steps_bind; [by apply steps_reads|]. intros [[d sid]|].
  - case_match; [by apply steps_reads|]. apply steps_bind; [by apply steps_reads|]. intros []; [|by apply steps_reads].
    apply steps_bind; [apply steps_answer_existing|]. intros recovered. apply steps_reads. reads_steps.
  - intros s Hs. set (key := (c_grant_id c, c_link_id c, sq_project_id q, sq_idempotency_key q)).
    unfold bind at 1, gets at 1. destruct (_start_tasks s !! key) as [[d t]|] eqn:Hk; [by case_match|].
    unfold bind at 1, gets at 1. destruct (recoverable q c s) as [sid|].
    + revert Hs. apply (steps_bind (answer_existing sid q c now verified)); [apply steps_answer_existing|]. intros ?.
      apply steps_bind; [by apply steps_quiet|]. intros ?. apply steps_reads. reads_steps.
    + unfold bind at 1, gets at 1, id. destruct (reserved (sq_project_id q) s) eqn:Hr; [done|].
      destruct (MAX_SESSIONS <=? occupied s)%nat eqn:Ho; [done|]. apply Nat.leb_gt in Ho. apply moves_one.
      by apply (mv_admit s _ {| si_request := q; si_key := key; si_digest := digest; si_caller := c; si_lifecycle_generation := _lifecycle_generation s |} (spawn_fresh s)).
Qed.
(** *** The task of a start *)

Lemma abandon_moves t i st v e s : tasks s !! t = Some (StartTask i st) -> active st = true -> moves s (abandon t i None v e s).2.
Proof.
  intros Ht Ha. apply moves_one. unfold abandon. destruct v as [v|].
  - by apply (mv_abandon s t i st None (Some v) e _ Ht Ha I (spawn_fresh s)).
  - apply (mv_end s t i st (Err e) Ht). by destruct st.
Qed.

(** A segment that stops at an exception leaves its task where it was. *)
Definition start_goes (t : nat) (i : start_info) (s : manager) (x : res unit * manager) : Prop :=
  moves s x.2 /\ match x.1 with Ok _ => True | Err _ => exists st, tasks x.2 !! t = Some (StartTask i st) /\ active st = true end.
Lemma start_segment_moves t i v body s : start_goes t i s (body s) -> moves s (start_segment t i None v body s).2.
Proof.
  unfold start_segment, start_goes. destruct (body s) as [[x|e] s']; cbn; [by intros [? _]|]. intros (Hm & st & Ht & Ha).
  etransitivity; [exact Hm|]. by apply (abandon_moves t i st).
Qed.
Lemma goes_stop t i st s e : tasks s !! t = Some (StartTask i st) -> active st = true -> start_goes t i s (Err e, s).
Proof. intros. split; [done|]. by exists st. Qed.
Lemma goes_after t i s s1 x : move s s1 -> start_goes t i s1 x -> start_goes t i s x.
Proof. intros Hm [Hx H]. split; [|done]. etransitivity; [by apply moves_one|done]. Qed.
Lemma goes_reads {T} t i st (m : F T) k s : tasks s !! t = Some (StartTask i st) -> active st = true -> reads m ->
  (forall x, m s = (Ok x, s) -> start_goes t i s (k x s)) -> start_goes t i s (bind m k s).
Proof.
  intros Ht Ha Hm Hk. unfold bind. destruct (reads_run m s Hm) as [[x Hx]|[e He]]; [rewrite Hx; by apply Hk|].
  rewrite He. by apply (goes_stop _ _ st).
Qed.

Lemma start_approved_goes t i st p c g answer now found s : tasks s !! t = Some (StartTask i st) -> active st = true ->
  project_id p = project_of i -> (st = SNew /\ mode p = FULL_ACCESS \/ exists g, st = SAsking p c g) ->
  start_goes t i s (start_approved t i p c g answer now found s).
Proof.
  intros Ht Ha Hp Hst. apply (goes_reads _ _ st); [done|done|apply reads_lift|]. intros ? _.
  eapply goes_after; [by eapply (mv_consent s t i st p c)|]. cbn [bind emit modify]. fold (log (EConsent t p c) s).
  apply (goes_reads _ _ st); [done|done|apply reads_still_allowed|]. intros ? _.
  apply (goes_reads _ _ st); [done|done|apply reads_lift|]. intros config _. case_match; [by apply (goes_stop _ _ st)|].
  split; [|done]. apply moves_one. apply (mv_acquire (log (EConsent t p c) s) t i st p c g); try done. by left.
Qed.

Lemma start_begins_goes t i rid now found again s : tables s -> tasks s !! t = Some (StartTask i SNew) ->
  start_goes t i s (start_begins sha256_hex account device t i rid now found again s).
Proof.
  intros Hs Ht. apply (goes_reads _ _ SNew); [done|done|auto with reads|]. intros ? _.
  apply (goes_reads _ _ SNew); [done|done|auto with reads|]. intros p Hp.
  assert (project_id p = project_of i) as Hid by (apply (stored_keyed (fm_approvals s)); [apply Hs|apply get_project_run; unfold project_of; by rewrite Hp]).
  apply (goes_reads _ _ SNew); [done|done|apply reads_lift|]. intros ? _.
  apply (goes_reads _ _ SNew); [done|done|apply reads_lift|]. intros c _.
  apply (goes_reads _ _ SNew); [done|done|auto with reads|]. intros g _.
  case_bool_decide as Hm.
  - cbn [negb andb]. apply (goes_reads _ _ SNew); [done|done|auto with reads|]. intros digest _.
    apply (start_approved_goes _ _ SNew); auto.
  - cbn [negb andb]. destruct (_ <=? _); [by apply (goes_stop _ _ SNew)|]. apply (goes_reads _ _ SNew); [done|done|auto with reads|]. intros digest _.
    split; [|done]. apply moves_one. by apply (mv_ask s t i p c g).
Qed.

Lemma start_acquired_goes t i p c g v now s : tasks s !! t = Some (StartTask i (SAcquiring p c g)) ->
  start_goes t i s (start_acquired t i p c g v now s).
Proof.
  intros Ht. apply (goes_reads _ _ (SAcquiring p c g)); [done|done|apply reads_still_allowed|]. intros [] Ha.
  apply (goes_reads _ _ (SAcquiring p c g)); [done|done|apply reads_lift|]. intros public _. split; [|done]. apply moves_one.
  apply (mv_open s t i p c g v); [done| |done]. by apply still_allowed_run in Ha as [_ Ha].
Qed.

Lemma reads_cases {T U} (m : F T) (k : T -> F U) s (Q : res U * manager -> Prop) : reads m -> (forall e, Q (Err e, s)) ->
  (forall x, m s = (Ok x, s) -> Q (k x s)) -> Q (bind m k s).
Proof. intros Hm He Hk. unfold bind. destruct (reads_run m s Hm) as [[x Hx]|[e Hx]]; rewrite Hx; [by apply Hk|done]. Qed.

Lemma give_back_starts t i f s : same_core (give_back t i s) (give_back t i (on_starts f s)).
Proof. unfold give_back. cbn. destruct (_start_tasks s !! si_key i) as [[d u]|]; [destruct (u =? t)%nat|]; cbn; by case_bool_decide. Qed.
Lemma commit_starts s t i f e x : same_core (to t x (give_back t i (log e s))) (to t x (give_back t i (log e (on_starts f s)))).
Proof.
  pose proof (give_back_starts t i f (log e s)) as H. change (on_starts f (log e s)) with (log e (on_starts f s)) in H.
  destruct H as [E1 E2 E3 E4 E5 E6 E7 E8 E9 E10 E11 E12]. split; try assumption. unfold to. state. by rewrite E11.
Qed.

Lemma start_opened_moves t i p c g v url page current now sid s : tables s -> tasks s !! t = Some (StartTask i (SOpening p c g v url)) ->
  known_page page s = false -> objects s !! sid = None ->
  moves s ((emit (EPage t (project_of i) page) ;;; start_segment t i (Some page) (Some v) (start_opened t i p c g v url page current now sid)) s).2.
Proof.
  intros Hs Ht Hpage Hsid. assert (project_id p = project_of i) as Hp by (apply (st_project _ (tb_starts _ Hs) t i (SOpening p c g v url)); by apply start_of_task).
  cbn [bind emit modify]. fold (log (EPage t (project_of i) page) s). set (s1 := log _ s). unfold start_segment.
  set (Q := fun x : res unit * manager => moves s (match x with (Err e, s') => abandon t i (Some page) (Some v) e s' | (Ok a, s') => (Ok a, s') end).2).
  assert (forall e, Q (Err e, s1)) as Herr.
  { intros e. apply moves_one. by apply (mv_abandon s t i _ (Some page) (Some v) e _ Ht eq_refl Hpage (spawn_fresh s)). }
  change (Q (start_opened t i p c g v url page current now sid s1)). unfold start_opened.
  apply reads_cases; [auto with reads|done|]. intros u _. apply reads_cases; [auto with reads|done|]. intros origin _.
  case_match; [apply Herr|]. apply reads_cases; [auto with reads|done|]. intros [] _. apply reads_cases; [auto with reads|done|]. intros [] _.
  cbn [bind gets]. case_match; [apply Herr|]. unfold Q.
  etransitivity; [apply moves_one; by apply (mv_commit s t i p c g v url sid page u now (Ok (_start_response (new_session sid i p c g v page u now) false)))|].
  apply moves_one, mv_quiet. apply commit_starts.
Qed.

(** *** Operations *)

(** The task holds the lock of the session. *)
Definition holding (t : nat) (sid : str) (x : task) (s : manager) : Prop :=
  tables s /\ tasks s !! t = Some x /\ exists o, objects s !! sid = Some o /\ fs_lock o = Some t.
Definition within (t : nat) (sid : str) (x : task) {T} (m : F T) : Prop :=
  forall s, holding t sid x s -> moves s (m s).2 /\ holding t sid x (m s).2.

Lemma within_reads t sid x {T} (m : F T) : reads m -> within t sid x m.
Proof. intros H s Hs. rewrite (H s). done. Qed.
Lemma within_bind t sid x {T U} (m : F T) (k : T -> F U) : within t sid x m -> (forall y, within t sid x (k y)) -> within t sid x (bind m k).
Proof.
  intros Hm Hk s Hs. unfold bind. destruct (Hm s Hs) as [H1 H2]. destruct (m s) as [[y|e] s1]; cbn in *; [|done].
  destruct (Hk y s1 H2) as [H3 H4]. split; [|done]. by etransitivity.
Qed.
Lemma within_after t sid x {T} (m : F T) s s1 : moves s s1 -> holding t sid x s1 -> within t sid x m ->
  moves s (m s1).2 /\ holding t sid x (m s1).2.
Proof. intros Hm Hs H. destruct (H s1 Hs) as [H1 H2]. split; [|done]. by etransitivity. Qed.
Lemma within_when t sid x b m : within t sid x m -> within t sid x (when b m).
Proof. intros H. destruct b; [done|]. by apply within_reads. Qed.
Lemma holding_edit t sid x s s' f : holding t sid x s -> moves s s' -> s' = edit sid f s -> (forall o, fs_lock (f o) = fs_lock o) -> holding t sid x s'.
Proof.
  intros (Hs & Ht & o & Ho & Hl) Hm -> Hf. split; [by eapply moves_tables|]. split; [done|]. exists (f o). unfold edit. state.
  by rewrite lookup_alter_eq, Ho, Hf.
Qed.
Lemma within_edit t sid x f : (forall s o, objects s !! sid = Some o -> exists g, f o = g o /\ move s (edit sid g s)) ->
  (forall o, fs_lock (f o) = fs_lock o) -> within t sid x (on_object sid f).
Proof.
  intros Hm Hf s Hs. assert (moves s (edit sid f s)) as H by (apply edit_moves; auto). split; [exact H|]. by apply (holding_edit t sid x s _ f).
Qed.

Lemma within_ensure_session t sid x project_id c now verified : within t sid x (_ensure_session sid project_id c now verified).
Proof.
  intros s Hs. assert (moves s (_ensure_session sid project_id c now verified s).2) as Hm by (apply steps_ensure_session; apply Hs).
  split; [done|]. pose proof (ensure_session_run sid project_id c now verified s) as H. destruct (_ensure_session _ _ _ _ _ s) as [[y|e] s']; [|by subst].
  destruct H as (o & _ & _ & E). by apply (holding_edit t sid x s s' (with_use (c_connection_epoch c) now)).
Qed.
Lemma within_require_snapshot t sid x snapshot token : within t sid x (_require_snapshot sid snapshot token).
Proof.
  intros s Hs. assert (moves s (_require_snapshot sid snapshot token s).2) as Hm by (apply steps_require_snapshot; apply Hs).
  split; [done|]. pose proof (require_snapshot_run sid snapshot token s) as H. destruct (_require_snapshot _ _ _ s) as [[y|e] s'].
  - by destruct H as [-> _].
  - destruct H as [->|(o & _ & E)]; [done|]. by apply (holding_edit t sid x s s' (with_view (forget (fs_view o)))).
Qed.
Lemma within_remember t sid x key digest r : within t sid x (remember sid key digest r).
Proof.
  apply within_bind; [|intros _]; (apply within_edit; [|done]).
  - intros s o Ho. eexists (fun o => with_acts _ o). split; [done|]. apply (mv_acts s sid (fun o => _bound_acts (dict_put key (digest, r) (fs_acts o)))).
  - intros s o Ho. exists (with_view (forget (fs_view o))). split; [done|]. by apply mv_forget.
Qed.

Definition operation_goes (t : nat) (q : operation_request) (c : caller) (s : manager) (x : res (option answer) * manager) : Prop :=
  moves s x.2 /\ match x.1 with Ok None => True | _ => holding t (oq_session_id q) (OperationTask q c OWaiting) x.2 end.

Lemma operation_goes_reads t q c {T} (m : F T) k s : holding t (oq_session_id q) (OperationTask q c OWaiting) s -> reads m ->
  (forall x, m s = (Ok x, s) -> operation_goes t q c s (k x s)) -> operation_goes t q c s (bind m k s).
Proof. intros Hs Hm Hk. apply reads_cases; [done| |done]. intros e. by split. Qed.

Lemma calling_goes t q c now node k s o0 : holding t (oq_session_id q) (OperationTask q c OWaiting) s ->
  usable (fm_approvals s) o0 (oq_project_id q) c now -> objects s !! oq_session_id q = Some (with_use (c_connection_epoch c) now o0) ->
  (forall snap, acts_on q snap -> snapshot_id (fs_view o0) = Some snap) -> operation_goes t q c s (calling t q c now node k s).
Proof.
  intros (Hs & Ht & o & Ho & Hl) Hu Ho' Hsnap. rewrite Ho in Ho'. injection Ho' as ->. unfold calling, get_object, bind, gets. rewrite Ho. split; [|done].
  apply moves_one. by apply (mv_use s t q c o0 _ now node k Ht Ho).
Qed.

Lemma operation_goes_snapshot t q c snapshot token (k : F (option answer)) s : holding t (oq_session_id q) (OperationTask q c OWaiting) s ->
  ((exists o, objects s !! oq_session_id q = Some o /\ snapshot_id (fs_view o) = Some snapshot) -> operation_goes t q c s (k s)) ->
  operation_goes t q c s ((_require_snapshot (oq_session_id q) snapshot token ;;; k) s).
Proof.
  intros Hs Hk. pose proof (require_snapshot_run (oq_session_id q) snapshot token s) as H.
  destruct (within_require_snapshot t (oq_session_id q) _ snapshot token s Hs) as [H1 H2]. unfold bind.
  destruct (_require_snapshot _ _ _ s) as [[y|e] s']; [|by split]. destruct H as [-> Ho]. by apply Hk.
Qed.
Lemma operation_body_goes t q c now verified token s : holding t (oq_session_id q) (OperationTask q c OWaiting) s ->
  operation_goes t q c s (operation_body sha256_hex t q c now verified token s).
Proof.
  intros Hs. set (sid := oq_session_id q). unfold operation_body. fold sid.
  pose proof (ensure_session_run sid (oq_project_id q) c now verified s) as H.
  destruct (within_ensure_session t sid _ (oq_project_id q) c now verified s Hs) as [H1 H2]. unfold bind at 1.
  destruct (_ensure_session _ _ _ _ _ s) as [[y|e] s1]; [|by split]. destruct H as (o0 & Ho & Hu & E). cbn in H1, H2.
  assert (usable (fm_approvals s1) o0 (oq_project_id q) c now) as Hu1 by by rewrite E.
  assert (objects s1 !! sid = Some (with_use (c_connection_epoch c) now o0)) as Ho1.
  { rewrite E. state. by rewrite lookup_alter_eq, Ho. }
  assert (forall x, operation_goes t q c s1 x -> operation_goes t q c s x) as Hgo.
  { intros x [Hx Hy]. split; [|done]. by etransitivity. }
  apply Hgo. clear Hgo H1 E Ho Hu Hs s.
  assert (forall snapshot, (exists o, objects s1 !! sid = Some o /\ snapshot_id (fs_view o) = Some snapshot) -> snapshot_id (fs_view o0) = Some snapshot) as Hview.
  { intros snapshot (o & Ho & Hv). rewrite Ho1 in Ho. by injection Ho as <-. }
  destruct (oq_operation q) as [n|snapshot el x' y'|key snapshot el action value|snapshot el] eqn:Hq.
  - apply (calling_goes _ _ _ _ _ _ _ o0); try done. unfold acts_on. by rewrite Hq.
  - apply operation_goes_snapshot; [done|]. intros Hsnap. apply operation_goes_reads; [done|auto with reads|]. intros o _.
    apply operation_goes_reads; [done|auto with reads|]. intros node _. apply (calling_goes _ _ _ _ _ _ _ o0); try done. unfold acts_on. by rewrite Hq.
  - apply operation_goes_reads; [done|auto with reads|]. intros digest _. apply operation_goes_reads; [done|auto with reads|]. intros o _.
    destruct (dict_get key (fs_acts o)) as [[d [r|]]|]; [case_match; by split|case_match; by split|].
    apply operation_goes_snapshot; [done|]. intros Hsnap. apply operation_goes_reads; [done|auto with reads|]. intros b _.
    apply (calling_goes _ _ _ _ _ _ _ o0); try done. unfold acts_on. rewrite Hq. intros ? ->. by apply Hview.
  - apply operation_goes_snapshot; [done|]. intros Hsnap. apply operation_goes_reads; [done|auto with reads|]. intros b _.
    apply (calling_goes _ _ _ _ _ _ _ o0); try done. unfold acts_on. by rewrite Hq.
Qed.

Lemma operation_enters_moves t q c now verified token s : tables s -> tasks s !! t = Some (OperationTask q c OWaiting) ->
  lock_free (oq_session_id q) s = true -> moves s (operation_enters sha256_hex t q c now verified token s).2.
Proof.
  intros Hs Ht Hl. unfold lock_free in Hl. destruct (objects s !! oq_session_id q) as [o|] eqn:Ho; [|done]. apply bool_decide_eq_true in Hl.
  set (s1 := edit (oq_session_id q) (with_lock (Some t)) s). assert (move s s1) as Hm by by apply (mv_lock s _ o).
  assert (holding t (oq_session_id q) (OperationTask q c OWaiting) s1) as Hh.
  { split; [by eapply move_tables|]. split; [done|]. exists (with_lock (Some t) o). unfold s1, edit. state. by rewrite lookup_alter_eq, Ho. }
  etransitivity; [by apply moves_one|]. change (moves s1 (operation_segment t q c (operation_body sha256_hex t q c now verified token) s1).2).
  unfold operation_segment. destruct (operation_body_goes t q c now verified token s1 Hh) as [H1 H2].
  assert (forall r s', moves s1 s' -> holding t (oq_session_id q) (OperationTask q c OWaiting) s' -> moves s1 (operation_ends t q c r s').2) as Hend.
  { intros r s' Hm' (_ & Ht' & o' & Ho' & Hl'). etransitivity; [exact Hm'|]. apply moves_one. by apply (mv_operation_end s' t q c o'). }
  destruct (operation_body _ _ _ _ _ _ _ s1) as [[[a|]|e] s']; cbn in H1, H2; [by apply Hend|done|by apply Hend].
Qed.

(** *** What the browser gives *)

Lemma register_id l v : snapshot_id (register l v) = snapshot_id v.
Proof. revert v. induction l as [|e l IH]; intros v; [done|]. cbn. rewrite IH. by repeat case_match. Qed.
Lemma inspect_element_id e b v : snapshot_id (inspect_element e b v).2 = snapshot_id v.
Proof. unfold inspect_element. by repeat case_match. Qed.

Lemma reads_try {T} (m : F T) h : reads m -> (forall e, reads (h e)) -> reads (try_except m h).
Proof. intros Hm Hh s. unfold try_except. specialize (Hm s). destruct (m s) as [[x|e] s1]; cbn in *; subst; [done|]. case_match; [apply Hh|done]. Qed.
Lemma reads_validated_location sid raw opened : reads (_validated_location unicode_decimal sid raw opened).
Proof. unfold _validated_location. destruct raw as [raw|]; [|auto with reads]. case_match; [auto with reads|]. apply reads_try; intros; reads_steps. Qed.

Lemma snapshot_within t sid x snap capture s : holding t sid x s -> known_snapshot snap s = false ->
  moves s (_snapshot sid snap capture s).2 /\ holding t sid x (_snapshot sid snap capture s).2.
Proof.
  intros Hs Hk. unfold _snapshot. set (v := register _ _). destruct Hs as (Ht & Hx & o & Ho & Hl).
  assert (move s (log (ESnapshot sid snap) (edit sid (with_view v) s))) as Hm.
  { apply (mv_snapshot s sid o); [done| |done]. unfold v. by rewrite register_id. }
  set (s1 := log _ _) in Hm. assert (holding t sid x s1) as Hh.
  { split; [by eapply move_tables|]. split; [done|]. exists (with_view v o). unfold s1, log, edit. state. by rewrite lookup_alter_eq, Ho. }
  cbn [bind emit modify on_object]. apply (within_after t sid x _ s s1); [by apply moves_one|exact Hh|]. apply within_reads. reads_steps.
Qed.

Lemma inspected_within t sid x snapshot token e raw : within t sid x (_inspected sid snapshot token e raw).
Proof.
  apply within_bind; [apply within_require_snapshot|]. intros _. destruct (raw_backend raw) as [b|]; [|by apply within_reads].
  intros s Hs. pose proof Hs as (_ & _ & o & Ho & _). rewrite bind_reads by auto with reads. rewrite get_object_run, Ho.
  pose proof (inspect_element_id e b (fs_view o)) as Hid. destruct (inspect_element e b (fs_view o)) as [n v]. cbn in Hid.
  assert (moves s (edit sid (with_view v) s)) as Hm by by apply moves_one, (mv_view s sid o).
  split; [exact Hm|]. by apply (holding_edit t sid x s _ (with_view v)).
Qed.
Lemma acted_within t sid x snapshot key element action digest outcome : within t sid x (_acted sid snapshot key element action digest outcome).
Proof.
  destruct outcome as [[]|e]; unfold _acted; (apply within_bind; [|intros _; by apply within_reads]); [apply within_remember|].
  destruct e; try by apply within_reads. apply within_when, within_remember.
Qed.
Lemma located_within t sid x snapshot token instrumented host opened : within t sid x (_located unicode_decimal sid snapshot token instrumented host opened).
Proof.
  apply within_bind; [apply within_require_snapshot|]. intros _. apply within_reads.
  apply reads_bind; [apply reads_validated_location|]. intros ?. apply reads_bind; [apply reads_validated_location|]. intros ?. reads_steps.
Qed.

(** An action that may have happened uses its snapshot up. *)
Lemma remember_forgets sid key digest r s o : objects (remember sid key digest r s).2 !! sid = Some o -> snapshot_id (fs_view o) = None.
Proof.
  cbn. rewrite lookup_alter_eq, lookup_alter_eq. destruct (objects s !! sid) as [o'|]; [|done]. cbn. by intros [= <-].
Qed.
Lemma acted_forgets sid snapshot key element action digest outcome s o : completed (GotAct outcome) = true ->
  objects (_acted sid snapshot key element action digest outcome s).2 !! sid = Some o -> snapshot_id (fs_view o) = None.
Proof.
  destruct outcome as [[]|e]; [intros _; apply remember_forgets|]. destruct e; try done. intros Hc. apply bool_decide_eq_true in Hc. subst. cbn [_acted].
  rewrite bool_decide_true by done. apply remember_forgets.
Qed.

Lemma operation_result_within t q x digest out token snap opened s : holding t (oq_session_id q) x s -> known_snapshot snap s = false ->
  let s' := (operation_result unicode_decimal q digest out token snap opened s).2 in moves s s' /\ holding t (oq_session_id q) x s'.
Proof.
  intros Hs Hk. unfold operation_result. destruct (oq_operation q), out; try by split.
  - destruct r as [capture|e]; [|by split]. by apply snapshot_within.
  - destruct r as [raw|e]; [|by split]. by apply inspected_within.
  - by apply acted_within.
  - destruct r as [attrs|e]; [|by split]. by apply located_within.
Qed.

Lemma operation_returns_moves t q c digest out now verified token snap opened s : tables s -> tasks s !! t = Some (OperationTask q c (OCalling digest)) ->
  known_snapshot snap s = false -> fits q out = true -> moves s (operation_returns unicode_decimal t q c digest out now verified token snap opened s).2.
Proof.
  intros Hs Ht Hk Hf. set (x := OperationTask q c (OCalling digest)). assert (holding t (oq_session_id q) x s) as Hh.
  { split; [done|]. split; [done|]. apply (tb_calls _ Hs t q c digest). by apply operation_of_task. }
  assert (forall r s', moves s s' -> holding t (oq_session_id q) x s' ->
    (completed out = true -> forall snap, acts_on q snap -> forall o, objects s' !! oq_session_id q = Some o -> snapshot_id (fs_view o) <> Some snap) ->
    moves s (log (EUsed t (completed out)) (operation_ends t q c r s').2)) as Hend.
  { intros r s' Hm' (_ & Ht' & o' & Ho' & Hl') Hc. etransitivity; [exact Hm'|]. apply moves_one. apply (mv_used s' t q c digest o'); try done. eauto. }
  destruct (operation_result_within t q x digest out token snap opened s Hh Hk) as [H1 H2].
  unfold operation_returns, bind at 1, operation_segment, bind at 1.
  assert (completed out = true -> forall snap', acts_on q snap' -> forall o, objects (operation_result unicode_decimal q digest out token snap opened s).2 !! oq_session_id q = Some o ->
    snapshot_id (fs_view o) <> Some snap') as Hc.
  { intros Hc snap' Hsnap o Ho. unfold acts_on in Hsnap. unfold fits in Hf. unfold operation_result in Ho. destruct (oq_operation q), out; try done.
    apply acted_forgets in Ho; [|done]. by rewrite Ho. }
  destruct (operation_result _ _ _ _ _ _ _ s) as [[r|e] s1]; cbn in H1, H2, Hc; [|by apply Hend].
  unfold bind. destruct (oq_operation q) eqn:Hq; cbn [when].
  all: try (apply Hend; done).
  all: destruct (within_ensure_session t (oq_session_id q) x (oq_project_id q) c now verified s1 H2) as [H3 H4];
    destruct (_ensure_session _ _ _ _ _ s1) as [[[]|e] s2]; cbn in H3, H4;
    (apply Hend; [by etransitivity|done|unfold acts_on; by rewrite Hq]).
Qed.

(** *** Closings *)

Lemma edit_same sid s : edit sid (fun o => o) s = s.
Proof. unfold edit, on_objects. destruct s. cbn. f_equal. apply map_eq. intros k. destruct (decide (sid = k)) as [->|]; [rewrite lookup_alter_eq; by destruct (_ !! k)|by rewrite lookup_alter_ne]. Qed.

Lemma close_ends_moves t sid st failure s : holding t sid (CloseTask sid st) s -> working st = true ->
  (failure = None -> st = CServer None \/ forall o, objects s !! sid = Some o -> browser_closed (fs_fate o) = true) -> moves s (close_ends t sid failure s).2.
Proof.
  intros (Hs & Ht & o & Ho & Hl) Hw Hc. apply moves_one. unfold close_ends. destruct failure as [e|].
  - by apply (mv_close_failed s t sid o st e).
  - assert (objects (unlock sid s) !! sid = Some (with_lock None o)) as Ho' by (unfold unlock, edit; state; by rewrite lookup_alter_eq, Ho).
    unfold bind at 1. cbn [set_lock on_object modify]. fold (unlock sid s). rewrite bind_reads by auto with reads. rewrite get_object_run.
    change (objects (on_objects (alter (with_lock None) sid) s)) with (objects (unlock sid s)). rewrite Ho'.
    assert (browser_closed (fs_fate o) = true \/ st = CServer None) as Hd by (destruct (Hc eq_refl); eauto).
    pose proof (mv_close_done s t sid o st (dev_server_stopped (fs_fate o)) (bury sid (stop_tombstone (with_lock None o))) Ht Hw Ho Hl Hd) as Hm.
    cbn [bind modify gets]. change (fs_project_id (with_lock None o)) with (fs_project_id o).
    change (_project_sessions _ !! fs_project_id o) with (_project_sessions s !! fs_project_id o). case_bool_decide; exact Hm.
Qed.
Lemma close_server_moves t sid st failure s : holding t sid (CloseTask sid st) s -> (st = CNew \/ st = CPage) ->
  (failure = None -> forall o, objects s !! sid = Some o -> browser_closed (fs_fate o) = true) -> moves s (close_server t sid failure s).2.
Proof.
  intros Hh Hst Hc. pose proof Hh as (Hs & Ht & o & Ho & Hl). unfold close_server. rewrite bind_reads by auto with reads. rewrite get_object_run, Ho.
  destruct (server_released (fs_fate o)).
  - apply (close_ends_moves t sid st); [done|by destruct Hst as [->| ->]|]. intros. right. auto.
  - apply moves_one. apply (mv_close_server s t sid o st); auto.
Qed.

Lemma close_begins_moves t sid s : tables s -> tasks s !! t = Some (CloseTask sid CNew) -> lock_free sid s = true -> moves s (close_begins t sid s).2.
Proof.
  intros Hs Ht Hl. unfold lock_free in Hl. destruct (objects s !! sid) as [o|] eqn:Ho; [|done]. apply bool_decide_eq_true in Hl.
  set (s1 := edit sid (with_lock (Some t)) s). assert (move s s1) as Hm by by apply (mv_lock s _ o).
  assert (objects s1 !! sid = Some (with_lock (Some t) o)) as Ho1 by (unfold s1, edit; state; by rewrite lookup_alter_eq, Ho).
  assert (holding t sid (CloseTask sid CNew) s1) as Hh by (split; [by eapply move_tables|]; split; [done|]; eauto).
  etransitivity; [by apply moves_one|]. unfold close_begins.
  match goal with |- moves _ (bind _ (fun _ => ?k) _).2 => change (moves s1 (k s1).2) end. rewrite bind_reads by auto with reads. rewrite get_object_run, Ho1. cbn [fs_fate with_lock update].
  destruct (browser_closed (fs_fate o)) eqn:Hb.
  - apply (close_server_moves t sid CNew); [done|by left|]. intros _ o' Ho'. rewrite Ho1 in Ho'. by injection Ho' as <-.
  - apply moves_one. by apply (mv_close_page s1 t sid _ Ht Ho1).
Qed.

Lemma closing_holds s t sid st : tables s -> tasks s !! t = Some (CloseTask sid st) -> st = CPage \/ (exists f, st = CServer f) -> holding t sid (CloseTask sid st) s.
Proof.
  intros Hs Ht Hst. split; [done|]. split; [done|]. destruct (cl_object _ (tb_closings _ Hs) t sid st) as (o & Ho & _ & _ & _ & Hl); [by apply close_of_task|].
  exists o. split; [done|]. destruct Hst as [->|[f ->]]; [done|by destruct Hl].
Qed.

Lemma close_page_done_moves t sid r s : tables s -> tasks s !! t = Some (CloseTask sid CPage) -> moves s (close_page_done t sid r s).2.
Proof.
  intros Hs Ht. pose proof (closing_holds s t sid CPage Hs Ht (or_introl eq_refl)) as (_ & _ & o & Ho & Hl).
  pose proof (mv_closed s t sid o (is_ok r) Ht Ho) as Hm. pose proof (move_tables _ _ Hs Hm) as Hs1.
  etransitivity; [apply moves_one; exact Hm|]. unfold close_page_done. rewrite bind_reads by auto with reads. rewrite get_object_run, Ho.
  unfold bind at 1. cbn [emit modify]. fold (log (EClosed (fs_browser o) (is_ok r)) s).
  destruct r as [[]|e]; cbn [is_ok] in *.
  - apply (close_server_moves t sid CPage _ (edit sid (fun o => with_fate (page_is_closed (fs_fate o)) o) (log (EClosed (fs_browser o) true) s)));
      [by apply closing_holds; [| |left]|by right|].
    intros _ o' Ho'. unfold edit in Ho'. cbn in Ho'. rewrite lookup_alter_eq, Ho in Ho'. by injection Ho' as <-.
  - rewrite edit_same in *. destruct (caught e).
    + apply (close_server_moves t sid CPage); [by apply closing_holds; [| |left]|by right|done].
    + apply moves_one. by apply (mv_close_failed (log (EClosed (fs_browser o) false) s) t sid o CPage e).
Qed.
Lemma close_server_done_moves t sid f r s : tables s -> tasks s !! t = Some (CloseTask sid (CServer f)) -> moves s (close_server_done t sid f r s).2.
Proof.
  intros Hs Ht. pose proof (closing_holds s t sid _ Hs Ht (or_intror (ex_intro _ f eq_refl))) as Hh. pose proof Hh as (_ & _ & o & Ho & Hl).
  destruct r as [stopped|e]; unfold close_server_done.
  - pose proof (mv_released s sid o stopped Ho) as Hm. etransitivity; [apply moves_one; exact Hm|].
    apply (close_ends_moves t sid (CServer f) f (edit sid (fun o => with_fate (server_is_released stopped (fs_fate o)) o) s)); [|done|intros ->; by left].
    by apply (holding_edit t sid _ s _ (fun o => with_fate (server_is_released stopped (fs_fate o)) o)); [|apply moves_one| |].
  - destruct (caught e); [by apply (close_ends_moves t sid (CServer f))|]. apply moves_one. by apply (mv_close_failed s t sid o (CServer f) e).
Qed.

(** *** Abandoned starts *)

Lemma get_partial_run id s : (get_partial id s).1 = match partials s !! id with Some x => Ok x | None => agent_error "frontend_session_not_found" end.
Proof. unfold get_partial, bind, gets. by destruct (partials s !! id). Qed.

(** What a cleanup knows of its page. *)
Definition page_gone (x : _PartialStartCleanup) : Prop := forall page, pc_page x = Some page -> browser_closed (pc_fate x) = true.

Lemma cleanup_ends_moves t id st x failure s : tasks s !! t = Some (CleanupTask id st) -> partials s !! id = Some x ->
  (failure = None -> page_gone x \/ st = CServer None) -> moves s (cleanup_ends t id failure s).2.
Proof.
  intros Ht Hx Hc. apply moves_one. unfold cleanup_ends. destruct failure as [e|]; [by apply (mv_cleanup_failed s t id st)|].
  rewrite bind_reads by auto with reads. rewrite get_partial_run, Hx. cbn [bind gets modify].
  pose proof (mv_cleanup_done s t id x st false Ht Hx (Hc eq_refl)) as Hm. case_bool_decide; exact Hm.
Qed.
Lemma cleanup_server_moves t id st x failure s : tasks s !! t = Some (CleanupTask id st) -> partials s !! id = Some x ->
  (failure = None -> page_gone x) -> moves s (cleanup_server t id failure s).2.
Proof.
  intros Ht Hx Hc. unfold cleanup_server. rewrite bind_reads by auto with reads. rewrite get_partial_run, Hx. destruct (is_some _ && _).
  - apply moves_one. by apply (mv_cleanup_server s t id x st).
  - apply (cleanup_ends_moves t id st x); auto.
Qed.
Lemma cleanup_partial s t id st : tables s -> tasks s !! t = Some (CleanupTask id st) -> exists x, partials s !! id = Some x /\
  match st with CPage => is_Some (pc_page x) | CServer None => page_gone x | _ => True end.
Proof. intros Hs Ht. apply (pa_cleanup _ (tb_partials _ Hs) t). by apply cleanup_of_task. Qed.

Lemma cleanup_begins_moves t id s : tables s -> tasks s !! t = Some (CleanupTask id CNew) -> moves s (cleanup_begins t id s).2.
Proof.
  intros Hs Ht. destruct (cleanup_partial s t id CNew Hs Ht) as (x & Hx & _). unfold cleanup_begins. rewrite bind_reads by auto with reads.
  rewrite get_partial_run, Hx. destruct (pc_page x) as [page|] eqn:Hp; [destruct (browser_closed (pc_fate x)) eqn:Hb|].
  - apply (cleanup_server_moves t id CNew x); [done|done|]. by intros _ ? _.
  - apply moves_one. by apply (mv_cleanup_page s t id x page).
  - apply (cleanup_server_moves t id CNew x); [done|done|]. intros _ ? Hp'. by rewrite Hp in Hp'.
Qed.
Lemma partials_same id s : on_partials (alter (fun x => x) id) s = s.
Proof. destruct s. unfold on_partials. cbn. f_equal. apply map_eq. intros k. destruct (decide (id = k)) as [->|]; [rewrite lookup_alter_eq; by destruct (_ !! k)|by rewrite lookup_alter_ne]. Qed.
Lemma cleanup_page_done_moves t id r s : tables s -> tasks s !! t = Some (CleanupTask id CPage) -> moves s (cleanup_page_done t id r s).2.
Proof.
  intros Hs Ht. destruct (cleanup_partial s t id CPage Hs Ht) as (x & Hx & [page Hp]).
  etransitivity; [apply moves_one; exact (mv_cleaned s t id x page (is_ok r) Ht Hx Hp)|].
  unfold cleanup_page_done. rewrite bind_reads by auto with reads. rewrite get_partial_run, Hx, Hp. cbn [default].
  match goal with |- moves _ (bind _ (fun _ => ?k) _).2 => change (moves (on_partials (alter (fun x => if is_ok r then with_partial_fate (page_is_closed (pc_fate x)) x else x) id)
    (log (EClosed page (is_ok r)) s)) (k (log (EClosed page (is_ok r)) s)).2) end.
  destruct r as [[]|e]; cbn [is_ok].
  - match goal with |- moves ?s1 _ => apply (cleanup_server_moves t id CPage (with_partial_fate (page_is_closed (pc_fate x)) x) None s1) end; [done| |by intros _ ? _].
    state. by rewrite lookup_alter_eq, Hx.
  - rewrite partials_same. destruct (caught e); [by apply (cleanup_server_moves t id CPage x)|]. apply moves_one. by apply (mv_cleanup_failed _ t id CPage).
Qed.
Lemma cleanup_server_done_moves t id f r s : tables s -> tasks s !! t = Some (CleanupTask id (CServer f)) -> moves s (cleanup_server_done t id f r s).2.
Proof.
  intros Hs Ht. destruct (cleanup_partial s t id _ Hs Ht) as (x & Hx & _). destruct r as [b|e]; unfold cleanup_server_done.
  - etransitivity; [apply moves_one; exact (mv_cleanup_released s id x false Hx)|].
    match goal with |- moves ?s1 _ => apply (cleanup_ends_moves t id (CServer f) (with_partial_fate (server_is_released false (pc_fate x)) x) f s1) end;
      [done| |intros ->; by right]. state. by rewrite lookup_alter_eq, Hx.
  - destruct (caught e); [by apply (cleanup_ends_moves t id (CServer f) x)|]. apply moves_one. by apply (mv_cleanup_failed s t id (CServer f)).
Qed.

(** *** Closings begin *)

Definition live (sid : str) (s : manager) : Prop := sid ∈ _sessions s \/ is_Some (_closing s !! sid).

Lemma live_object sid s : tables s -> live sid s -> exists o, objects s !! sid = Some o.
Proof.
  intros Hs [Hin|[t Ht]]; [by apply (se_known _ (tb_sessions _ Hs))|]. destruct (cl_task _ (tb_closings _ Hs) _ _ Ht) as [st Hst].
  destruct (cl_object _ (tb_closings _ Hs) _ _ _ Hst) as (o & Ho & _). by exists o.
Qed.
Lemma begin_close_moves sid s : tables s -> live sid s ->
  moves s (_begin_close_locked sid s).2 /\ forall sid', live sid' s -> live sid' (_begin_close_locked sid s).2.
Proof.
  intros Hs Hl. unfold _begin_close_locked. cbn [bind gets].
  destruct (match _closing s !! sid with Some t => if failed t s then None else Some t | None => None end) as [t|] eqn:E; [by split|].
  destruct (live_object sid s Hs Hl) as [o Ho].
  assert (sid ∈ _sessions s \/ exists u r, _closing s !! sid = Some u /\ tasks s !! u = Some (CloseTask sid (CDone r))) as Hc.
  { destruct (_closing s !! sid) as [u|] eqn:Hu; [|destruct Hl as [Hl|Hl]; [by left|rewrite Hu in Hl; by destruct Hl]]. right.
    destruct (failed u s) eqn:Hf; [|done]. destruct (cl_task _ (tb_closings _ Hs) _ _ Hu) as [st Hst]. unfold failed, close_task_of in Hf. unfold close_of in Hst.
    destruct (tasks s !! u) as [[| |sid' st'|]|] eqn:Ht; try done. injection Hst as -> ->. destruct st; try done. eauto. }
  split.
  - etransitivity; [apply moves_one; exact (mv_begin_close s sid o _ Ho (spawn_fresh s) Hc)|]. apply moves_one, mv_quiet. by split.
  - intros sid' Hl'. unfold live. cbn. destruct (decide (sid' = sid)) as [->|Hne]; [right; rewrite lookup_insert_eq; by eexists|].
    rewrite lookup_insert_ne by done. destruct Hl' as [Hl'|Hl']; [left; set_solver|by right].
Qed.

Lemma begin_close_tt sid s : (_begin_close_locked sid ;;; ret tt) s = (Ok tt, (_begin_close_locked sid s).2).
Proof.
  unfold _begin_close_locked, bind, gets.
  destruct (match _closing s !! sid with Some t => if failed t s then None else Some t | None => None end); reflexivity.
Qed.
(** A loop over sessions that are live when it starts. *)
Lemma closing_loop {T} (f : T -> str) (body : T -> F unit) (l : list T) s : tables s -> (forall x, x ∈ l -> live (f x) s) ->
  (forall x s, tables s -> live (f x) s -> body x s = (Ok tt, s) \/ (body x s).2 = (_begin_close_locked (f x) s).2 /\ (body x s).1 = Ok tt) ->
  moves s (for_each l body s).2.
Proof.
  intros Hs Hl Hb. revert s Hs Hl. induction l as [|x l IH]; intros s Hs Hl; [done|]. cbn [for_each]. unfold bind.
  destruct (Hb x s Hs (Hl x ltac:(left))) as [E|[E1 E2]].
  - rewrite E. apply IH; [done|]. intros y Hy. apply Hl. by right.
  - destruct (begin_close_moves (f x) s Hs (Hl x ltac:(left))) as [Hm Hk]. destruct (body x s) as [r s1]. cbn in E1, E2. subst r s1.
    etransitivity; [exact Hm|]. apply IH; [by eapply moves_tables|]. intros y Hy. apply Hk, Hl. by right.
Qed.

Lemma close_sessions_moves p : steps (close_sessions p).
Proof.
  intros s Hs. unfold close_sessions. cbn [bind gets]. unfold id at 1. apply (closing_loop (fun sid => sid)); [done| |].
  - intros sid Hin. left. by apply elem_of_elements.
  - intros sid s1 Hs1 Hl. destruct (live_object sid s1 Hs1 Hl) as [o Ho]. rewrite bind_reads by auto with reads. rewrite get_object_run, Ho.
    cbn [bind gets]. unfold id. destruct (p o s1); [right|by left]. cbn [when]. by rewrite begin_close_tt.
Qed.
Lemma retry_closings_moves : steps retry_closings.
Proof.
  intros s Hs. unfold retry_closings. cbn [bind gets]. unfold id at 1. apply (closing_loop (fun kv => kv.1)); [done| |].
  - intros [sid t] Hin%elem_of_map_to_list. right. by eexists.
  - intros [sid t] s1 Hs1 Hl. cbn [bind gets]. unfold id. destruct (failed _ s1); [right|by left]. cbn [when]. by rewrite begin_close_tt.
Qed.
Lemma steps_for_each {T} (l : list T) body : (forall x, steps (body x)) -> steps (for_each l body).
Proof. intros H. induction l as [|x l IH]; [by apply steps_reads|]. apply steps_bind; [apply H|]. by intros _. Qed.
Lemma retry_partials_moves : steps retry_partials.
Proof.
  apply steps_bind; [by apply steps_reads|]. intros s0. apply steps_for_each. intros [p id] s Hs. rewrite bind_reads by auto with reads. rewrite get_partial_run.
  destruct (partials s !! _) as [x|] eqn:Hx; [|done]. cbn [bind gets]. unfold Datatypes.id. destruct (failed _ s); [|done].
  apply moves_one. by apply (mv_retry s _ x _ Hx (spawn_fresh s)).
Qed.
Lemma reap_moves now : steps (reap now).
Proof. apply steps_bind; [apply close_sessions_moves|intros _]. apply steps_bind; [apply retry_closings_moves|intros _; apply retry_partials_moves]. Qed.
Lemma close_all_moves : steps _close_all_sessions.
Proof. apply steps_bind; [apply close_sessions_moves|intros _]. apply steps_bind; [apply retry_closings_moves|intros _; apply retry_partials_moves]. Qed.

Lemma cancel_pending_moves b : steps (_cancel_pending_starts b).
Proof. intros s _. etransitivity; [apply moves_one, mv_fence|]. apply moves_one, mv_quiet. by split. Qed.

Lemma stop_epoch_run p c now s x : (_ensure_stop_epoch p c now s).1 = Ok x -> p <= c_connection_epoch c.
Proof. unfold _ensure_stop_epoch. case_match; [done|]. case_match eqn:E; [done|]. by apply Z.ltb_ge in E. Qed.
Lemma validate_stop_moves sid project_id c now s :
  let s' := (_validate_stop_binding sid project_id c now s).2 in moves s s' /\ _sessions s' = _sessions s /\ _closing s' = _closing s.
Proof.
  unfold _validate_stop_binding. rewrite bind_reads by auto with reads. rewrite get_object_run. destruct (objects s !! sid) as [o|] eqn:Ho; [|done].
  cbn [agent_error]. case_match; [done|]. rewrite bind_reads by auto with reads. destruct (_ensure_stop_epoch _ _ _ s).1 as [x|] eqn:He; [|done].
  apply stop_epoch_run in He. split; [|done]. apply (edit_moves sid). intros o' Ho'. rewrite Ho in Ho'. injection Ho' as <-.
  exists (with_use (c_connection_epoch c) (fs_last_used_at o)). split; [done|]. by apply (mv_touch s sid o).
Qed.
Lemma stop_request_moves q c now : steps (_stop_request q c now).
Proof.
  intros s Hs. unfold _stop_request. unfold bind at 1, gets at 1. cbv beta zeta. unfold id. destruct (bool_decide _ || bool_decide _) eqn:Hl.
  - assert (live (tq_session_id q) s) as Hlive by (apply orb_true_iff in Hl as [Hl|Hl]; apply bool_decide_eq_true in Hl; [by left|by right]).
    destruct (validate_stop_moves (tq_session_id q) (tq_project_id q) c now s) as (Hm & E1 & E2). unfold bind at 1.
    destruct (_validate_stop_binding _ _ _ _ s) as [[x|e] s1]; cbn in Hm, E1, E2; [|done].
    destruct (begin_close_moves (tq_session_id q) s1) as [Hb _]; [by eapply moves_tables|unfold live; by rewrite E1, E2|].
    etransitivity; [exact Hm|]. unfold bind. destruct (_begin_close_locked _ s1) as [[t|e] s2]; exact Hb.
  - destruct (dict_get _ _) as [x|]; [|done]. destruct (_ && _); [|done].
    apply (steps_bind (_ensure_stop_epoch (t_connection_epoch x) c now)); [apply steps_reads, reads_stop_epoch| |done]. intros _.
    apply steps_bind; [by apply steps_when, steps_quiet|]. intros _. by apply steps_reads.
Qed.

Lemma close_project_moves p : steps (close_project p).
Proof.
  intros s Hs. unfold close_project. unfold bind at 1, gets at 1, id. destruct (_project_sessions s !! p) as [sid|]; [|done].
  destruct (bool_decide _ || bool_decide _) eqn:Hl; [|done].
  assert (live sid s) as Hlive by (apply orb_true_iff in Hl as [Hl|Hl]; apply bool_decide_eq_true in Hl; [by left|by right]).
  destruct (begin_close_moves sid s Hs Hlive) as [Hb _]. rewrite begin_close_tt. exact Hb.
Qed.

(** ** Every event *)

Lemma event_moves s e : tables s -> moves s (step sha256_hex unicode_decimal account device s e).
Proof.
  intros Hs. destruct e; cbn [step].
  - by apply start_session_moves.
  - destruct (tasks s !! t) as [[i st| | |]|] eqn:Ht; try done. destruct st; try done. apply start_segment_moves. by apply start_begins_goes.
  - destruct (tasks s !! t) as [[i st| | |]|] eqn:Ht; try done. destruct st as [|p c g| | | |]; try done. apply start_segment_moves.
    apply (start_approved_goes t i (SAsking p c g)); [done|done| |eauto]. apply (st_project _ (tb_starts _ Hs) t i (SAsking p c g)). by apply start_of_task.
  - destruct (tasks s !! t) as [[i st| | |]|] eqn:Ht; try done. destruct st; try done. destruct answer as [v|e]; [|by eapply abandon_moves].
    apply start_segment_moves. by apply start_acquired_goes.
  - destruct (tasks s !! t) as [[i st| | |]|] eqn:Ht; try done. destruct st; try done. destruct answer as [page|e]; [|by eapply abandon_moves].
    destruct (known_page page s || _) eqn:Hk; [done|]. apply orb_false_iff in Hk as [Hk Hsid]. apply bool_decide_eq_false, eq_None_not_Some in Hsid.
    by apply start_opened_moves.
  - destruct (tasks s !! t) as [[i st| | |]|] eqn:Ht; try done. destruct st; try done. apply moves_one. by apply (mv_end s t i _ (Err e) Ht).
  - destruct (tasks s !! t) as [[i st| | |]|] eqn:Ht; try done. destruct st; try done. apply moves_one. by apply mv_leak.
  - revert s Hs. change (steps (_get_session q c now verified ;;; spawn (OperationTask q c OWaiting))). apply steps_bind.
    + apply steps_bind; [by apply steps_reads|]. intros []; [apply steps_ensure_session|by apply steps_reads].
    + intros _ s _. apply moves_one. by apply (mv_request s _ q c (spawn_fresh s)).
  - destruct (tasks s !! t) as [[|q c st| |]|] eqn:Ht; try done. destruct st; try done. destruct (lock_free _ s) eqn:Hl; [|done]. by apply operation_enters_moves.
  - destruct (tasks s !! t) as [[|q c st| |]|] eqn:Ht; try done. destruct st; try done. apply moves_one. by apply mv_cancelled.
  - destruct (tasks s !! t) as [[|q c st| |]|] eqn:Ht; try done. destruct st; try done. destruct (known_snapshot snap s || _) eqn:Hk; [done|].
    apply orb_false_iff in Hk as [Hk Hf%negb_false_iff]. by apply operation_returns_moves.
  - by apply stop_request_moves.
  - destruct (tasks s !! t) as [[| |sid st|]|] eqn:Ht; try done. destruct st; try done. destruct (lock_free _ s) eqn:Hl; [|done]. by apply close_begins_moves.
  - destruct (tasks s !! t) as [[| |sid st|]|] eqn:Ht; try done. destruct st; try done. by apply close_page_done_moves.
  - destruct (tasks s !! t) as [[| |sid st|]|] eqn:Ht; try done. destruct st; try done. by apply close_server_done_moves.
  - destruct (tasks s !! t) as [[| | |id st]|] eqn:Ht; try done. destruct st; try done. by apply cleanup_begins_moves.
  - destruct (tasks s !! t) as [[| | |id st]|] eqn:Ht; try done. destruct st; try done. by apply cleanup_page_done_moves.
  - destruct (tasks s !! t) as [[| | |id st]|] eqn:Ht; try done. destruct st; try done. by apply cleanup_server_done_moves.
  - by apply close_project_moves.
  - by apply close_sessions_moves.
  - by apply cancel_pending_moves.
  - by apply reap_moves.
  - by apply cancel_pending_moves.
  - by apply close_all_moves.
  - destruct (keyed a) eqn:Hk; [|done]. apply moves_one, mv_quiet. by split.
Qed.

(** *** Inductions over histories *)

Lemma run_invariant (I : manager -> Prop) : (forall s s', tables s -> I s -> move s s' -> I s') ->
  forall l s, tables s -> I s -> let s' := run sha256_hex unicode_decimal account device s l in tables s' /\ I s'.
Proof.
  intros HI l. induction l as [|e l IH]; intros s Hs Hi; [done|]. cbn. pose proof (event_moves s e Hs) as Hm. revert Hs Hi.
  change (tables s -> I s -> let s' := run sha256_hex unicode_decimal account device (step sha256_hex unicode_decimal account device s e) l in tables s' /\ I s').
  generalize dependent (step sha256_hex unicode_decimal account device s e). intros s' Hm Hs Hi.
  assert (tables s' /\ I s') as [? ?]; [|by apply IH]. clear IH. induction Hm as [|s s1 s2 H _ IHm]; [done|]. apply IHm; [by eapply move_tables|by eapply HI].
Qed.
Lemma reachable_invariant (I : manager -> Prop) s : (forall a, I (initial a)) -> (forall s s', tables s -> I s -> move s s' -> I s') ->
  reachable sha256_hex unicode_decimal account device s -> tables s /\ I s.
Proof. intros H0 HI (a & l & Ha & ->). apply run_invariant; [done|by apply tables_initial|apply H0]. Qed.
End steps.
