(* ===== verification/FrontendHistory.v ===== *)
(** * What a move may change

    Three readings of [move], each proved by one case analysis, which the
    theorems of [FrontendGuarantees] use instead: how a session object evolves,
    how the page of an abandoned start does, and what an entry of the history
    says of the state it was written in. *)
From S2P Require Import Prelude Utf8 PyStr Models Paths Database Json Approvals ReadText DevServers Frontend FrontendMoves FrontendInvariant.

Open Scope Z_scope.

Lemma known_page_spec page s : known_page page s = true <-> exists t p, EPage t p page ∈ effects s.
Proof.
  unfold known_page. rewrite existsb_exists. split.
  - intros (e & He & H). destruct e; try done. apply Nat.eqb_eq in H. subst. apply list_elem_of_In in He. eauto.
  - intros (t & p & H). exists (EPage t p page). split; [by apply list_elem_of_In|]. cbn. apply Nat.eqb_refl.
Qed.
Lemma known_snapshot_spec snap s : known_snapshot snap s = true <-> exists sid, ESnapshot sid snap ∈ effects s.
Proof.
  unfold known_snapshot. rewrite existsb_exists. split.
  - intros (e & He & H). destruct e; try done. apply bool_decide_eq_true in H. subst. apply list_elem_of_In in He. eauto.
  - intros (t & H). exists (ESnapshot t snap). split; [by apply list_elem_of_In|]. cbn. by apply bool_decide_eq_true.
Qed.

(** ** Session objects *)

Record evolves (s s' : manager) (o o' : FrontendSession) : Prop := {
  ev_statics : statics o' = statics o;
  ev_epoch : fs_connection_epoch o <= fs_connection_epoch o';
  ev_closed : fs_closed o = true -> fs_closed o' = true;
  ev_page : browser_closed (fs_fate o') = true -> browser_closed (fs_fate o) = true \/ EClosed (fs_browser o) true ∈ effects s';
  ev_snapshot : snapshot_id (fs_view o') = snapshot_id (fs_view o) \/ snapshot_id (fs_view o') = None \/
    exists snap, snapshot_id (fs_view o') = Some snap /\ known_snapshot snap s = false /\ known_snapshot snap s' = true;
}.
Lemma evolves_refl s s' o : evolves s s' o o.
Proof. split; auto. lia. Qed.
#[export] Hint Resolve evolves_refl : core.

(** A new object comes from a start that has opened its page. *)
Definition begun (s s' : manager) (sid : str) (o : FrontendSession) : Prop :=
  exists t i p c g v u page url now, start_of s t = Some (i, SOpening p c g v u) /\ o = new_session sid i p c g v page url now /\
    known_page page s = false /\ project_id p = project_of i /\ _project_sessions s' !! project_of i = Some sid /\
    effects s' = ESession sid t page now :: EPage t (project_of i) page :: effects s.

(** [give_back] changes nothing that these readings look at. *)
Ltac shape := try match goal with |- context [give_back ?t ?i ?z] => let f := fresh "f" in let h := fresh "h" in
  destruct (give_back_shape t i z) as (f & h & ->) end;
  try (case_bool_decide; unfold Datatypes.id).

Lemma alter_evolves s s' sid f u o : (forall o, objects s !! sid = Some o -> evolves s s' o (f o)) -> objects s !! u = Some o ->
  exists o', alter f sid (objects s) !! u = Some o' /\ evolves s s' o o'.
Proof.
  intros He Ho. destruct (decide (sid = u)) as [->|Hne].
  - exists (f o). rewrite lookup_alter_eq, Ho. auto.
  - exists o. by rewrite lookup_alter_ne.
Qed.

Lemma move_objects s s' u o : move s s' -> objects s !! u = Some o -> exists o', objects s' !! u = Some o' /\ evolves s s' o o'.
Proof.
  intros Hm Ho. destruct Hm; shape; try (exists o; split; [exact Ho|done]).
  all: try (apply alter_evolves; [|exact Ho]; intros o1 Ho1; simplify_eq; split; state; auto; try lia; done).
  - exists o. rewrite (sc_objects _ _ H). by split.
  - exists o. unfold to, log. state. rewrite lookup_insert_ne by congruence. done.
  - exists o. by destruct page.
  - apply alter_evolves; [|exact Ho]. intros o1 Ho1. simplify_eq. split; [done|cbn; lia|done|by left|]. right. right. exists snap. split_and!; try done.
    apply known_snapshot_spec. exists sid. by left.
  - apply (alter_evolves s _ sid); [|exact Ho]. intros o1 Ho1. simplify_eq. destruct ok; [|done]. split; [done|cbn; lia|done| |by left]. intros _. right. by left.
Qed.

Lemma move_new_object s s' u o : move s s' -> objects s !! u = None -> objects s' !! u = Some o -> begun s s' u o.
Proof.
  intros Hm Hn. destruct Hm; shape; try (intros Ho; exfalso; change (objects s !! u = Some o) in Ho; congruence).
  all: try (intros Ho; exfalso; revert Ho; unfold to, log, unlock, edit; state; rewrite (proj2 (lookup_alter_None _ _ _ _) Hn); done).
  - rewrite (sc_objects _ _ H). congruence.
  - unfold to, log. state. destruct (decide (sid = u)) as [->|Hne]; [|rewrite lookup_insert_ne by done; congruence].
    rewrite lookup_insert_eq. intros [= <-]. exists t, i, p, c, g, v, u0, page, url, now. split_and!; try done; [by apply start_of_task|].
    unfold to, log. state. by rewrite H2, lookup_insert_eq.
  - destruct page; intros Ho; exfalso; change (objects s !! u = Some o) in Ho; congruence.
Qed.

(** ** Pages of abandoned starts *)

Record lingers (s' : manager) (x x' : _PartialStartCleanup) : Prop := {
  li_project : pc_project_id x' = pc_project_id x;
  li_page : pc_page x' = pc_page x;
  li_closed : browser_closed (pc_fate x') = true -> browser_closed (pc_fate x) = true \/ forall page, pc_page x = Some page -> EClosed page true ∈ effects s';
}.
Lemma lingers_refl s' x : lingers s' x x.
Proof. split; auto. Qed.
#[export] Hint Resolve lingers_refl : core.

(** A new one comes from a start that gives up. *)
Definition given_up (s s' : manager) (id : nat) (x : _PartialStartCleanup) : Prop :=
  exists i st, start_of s id = Some (i, st) /\ active st = true /\ pc_project_id x = project_of i /\ browser_closed (pc_fate x) = false /\
    _partial_cleanups s' !! project_of i = Some id /\
    match pc_page x with
    | Some page => known_page page s = false /\ effects s' = EPage id (project_of i) page :: effects s
    | None => effects s' = effects s
    end.

Lemma alter_lingers s' (m : gmap nat _PartialStartCleanup) id f u x : (forall x, m !! id = Some x -> lingers s' x (f x)) -> m !! u = Some x -> exists x', alter f id m !! u = Some x' /\ lingers s' x x'.
Proof.
  intros He Hx. destruct (decide (id = u)) as [->|Hne].
  - exists (f x). rewrite lookup_alter_eq, Hx. auto.
  - exists x. by rewrite lookup_alter_ne.
Qed.
Lemma move_partials_kept s s' u x : tables s -> move s s' -> partials s !! u = Some x -> exists x', partials s' !! u = Some x' /\ lingers s' x x'.
Proof.
  intros Hs Hm Hx. destruct Hm; shape; try (exists x; split; [exact Hx|done]).
  - exists x. by rewrite (sc_partials _ _ H).
  - exists x. split; [|done]. destruct page; unfold to, log; state; (rewrite lookup_insert_ne; [exact Hx|]); intros ->.
    all: destruct (pa_start _ (tb_partials _ Hs) _ _ Hx) as (j & st' & Hj & Ha); apply start_of_task in H; congruence.
  - apply alter_lingers; [|exact Hx]. intros y _. split; auto.
  - apply alter_lingers; [|exact Hx]. intros y Hy. change (partials s !! id = Some y) in Hy. simplify_eq. destruct ok; [|done]. split; [done|done|]. intros _. right. intros page' Hp. simplify_eq. by left.
  - apply alter_lingers; [|exact Hx]. intros y _. split; auto.
Qed.

Lemma move_new_partial s s' u x : tables s -> move s s' -> partials s !! u = None -> partials s' !! u = Some x -> given_up s s' u x.
Proof.
  intros Hs Hm Hn. destruct Hm; shape; try (intros Ho; exfalso; change (partials s !! u = Some x) in Ho; congruence).
  all: try (intros Ho; exfalso; revert Ho; unfold to, log, unlock, edit; state; rewrite (proj2 (lookup_alter_None _ _ _ _) Hn); done).
  - rewrite (sc_partials _ _ H). congruence.
  - intros Hx. assert (u = t /\ x = {| pc_project_id := project_of i; pc_page := page; pc_server := v; pc_fate := open_fate; pc_task := cleanup |}) as [-> ->].
    { destruct page; revert Hx; unfold to, log; state; (destruct (decide (t = u)) as [->|Hne]; [rewrite lookup_insert_eq; by intros [= <-]|rewrite lookup_insert_ne by done; congruence]). }
    exists i, st. split_and!; try done; [by apply start_of_task| |by destruct page]. destruct page; unfold to, log; state; by rewrite lookup_insert_eq.
Qed.

(** ** Entries of the history *)

Definition asked (i : start_info) (p : Project) (c : FrontendLaunchConfig) (r : ApprovalRequest) : Prop :=
  command r = Some (JObj [(lit "kind", JStr (lit "script")); (lit "shell", JStr (lit "powershell")); (lit "script", JStr (fc_command c))]) /\
  working_directory r = Some (fc_working_directory c) /\ grant_id r = c_grant_id (si_caller i) /\ ar_project_id r = project_id p.

(** What the code has established when it writes an entry. *)
Definition justified (s s' : manager) (e : effect) : Prop :=
  match e with
  | ENew t i => tasks s !! t = None /\ start_of s' t = Some (i, SNew) /\ si_lifecycle_generation i = _lifecycle_generation s
  | EAsk t r => exists i p c g, start_of s t = Some (i, SNew) /\ start_of s' t = Some (i, SAsking p c g) /\ asked i p c r
  | EConsent t p c => exists i st, start_of s t = Some (i, st) /\ project_id p = project_of i /\ (mode p = FULL_ACCESS \/ exists g, st = SAsking p c g)
  | EFence => _lifecycle_generation s' = S (_lifecycle_generation s)
  | EOpen t p url now a => exists i c g v u, start_of s t = Some (i, SAcquiring p c g) /\ start_of s' t = Some (i, SOpening p c g v u) /\
      allowed s i p g now /\ url = full_url c (si_request i) /\ a = fm_approvals s
  | EPage t p page => known_page page s = false /\ exists x, given_up s s' t x /\ pc_page x = Some page /\ partials s' !! t = Some x
  | ESession _ _ _ _ => False
  | EUse t sid page q c node now a => exists o o0 k, operation_of s t = Some (q, c, OWaiting) /\ operation_of s' t = Some (q, c, OCalling k) /\
      sid = oq_session_id q /\ objects s !! sid = Some o /\ fs_lock o = Some t /\ page = fs_browser o /\ a = fm_approvals s /\
      usable a o0 (oq_project_id q) c now /\ o = with_lock (fs_lock o) (with_view (fs_view o) (with_use (c_connection_epoch c) now o0)) /\
      (forall snap, acts_on q snap -> snapshot_id (fs_view o) = Some snap)
  | EUsed t b => exists q c k o r, operation_of s t = Some (q, c, OCalling k) /\ operation_of s' t = Some (q, c, ODone r) /\ objects s !! oq_session_id q = Some o /\
      (b = true -> forall snap, acts_on q snap -> snapshot_id (fs_view o) <> Some snap)
  | ESnapshot sid snap => known_snapshot snap s = false
  | EClose page => (exists t sid o, close_of s t = Some (sid, CNew) /\ objects s !! sid = Some o /\ fs_lock o = Some t /\ page = fs_browser o) \/
      (exists t id x, cleanup_of s t = Some (id, CNew) /\ partials s !! id = Some x /\ pc_page x = Some page)
  | EClosed _ _ => True
  end.

Inductive writes (s s' : manager) : Prop :=
| wr_none : effects s' = effects s -> (_lifecycle_generation s' = _lifecycle_generation s) -> writes s s'
| wr_one e : effects s' = e :: effects s -> justified s s' e -> (e = EFence \/ _lifecycle_generation s' = _lifecycle_generation s) -> writes s s'
| wr_session sid t i p page now : effects s' = ESession sid t page now :: EPage t p page :: effects s -> _lifecycle_generation s' = _lifecycle_generation s ->
    p = project_of i -> known_page page s = false -> _project_sessions s' !! p = Some sid -> (exists o, objects s' !! sid = Some o /\ fs_browser o = page) -> writes s s'.

Lemma start_here s t i st m : tasks s = <[t := StartTask i st]> m -> start_of s t = Some (i, st).
Proof. intros E. apply start_of_task. by rewrite E, lookup_insert_eq. Qed.
Ltac one := eapply wr_one; [reflexivity| |by (right + left)].

Lemma move_writes s s' : tables s -> move s s' -> writes s s'.
Proof.
  intros Hs Hm. destruct Hm; shape; try (by apply wr_none).
  - apply wr_none; by destruct H.
  - by one.
  - one. split_and!; try done. by eapply start_here.
  - one. exists i, p, c, g. split_and!; [by apply start_of_task|by eapply start_here|done].
  - one. exists i, st. split_and!; [by apply start_of_task|done|]. destruct H1 as [[_ ?]|[g ->]]; eauto.
  - one. exists i, c, g, v, public. split_and!; [by apply start_of_task|by eapply start_here|done..].
  - eapply (wr_session s _ sid t i); [reflexivity|done|done|done| |]; unfold to, log; state; [by rewrite H2, lookup_insert_eq|].
    eexists. by rewrite lookup_insert_eq.
  - destruct page as [page|]; [|by apply wr_none]. one. split; [done|]. eexists. split; [|split; [|unfold to, log; state; by rewrite lookup_insert_eq]; done].
    exists i, st. split_and!; try done; [by apply start_of_task|]. unfold to, log. state. by rewrite lookup_insert_eq.
  - by one.
  - one. exists o, o0, k. split_and!; try done; [by apply operation_of_task|]. unfold operation_of, to. state. by rewrite lookup_insert_eq.
  - one. exists q, c, k, o, r. split_and!; try done; [by apply operation_of_task|]. unfold operation_of, log, to. state. by rewrite lookup_insert_eq.
  - one. left. exists t, sid, o. split_and!; try done. by apply close_of_task.
  - by one.
  - one. right. exists t, id, x. split_and!; try done. by apply cleanup_of_task.
  - by one.
Qed.

(** ** Tasks *)

(** How a task moves on. *)
Definition task_goes (s s' : manager) (t : nat) (x x' : task) : Prop :=
  match x, x' with
  | StartTask i st, StartTask i' st' => i' = i /\
      match st' with
      | SAsking p c _ => exists r, EAsk t r ∈ effects s' /\ asked i p c r
      | SAcquiring p c _ => EConsent t p c ∈ effects s'
      | SOpening p c g _ _ => exists url now, EOpen t p url now (fm_approvals s) ∈ effects s' /\ allowed s i p g now
      | SNew => False
      | _ => True
      end
  | OperationTask q c st, OperationTask q' c' st' => q' = q /\ c' = c /\
      match st with OCalling _ => exists b, EUsed t b ∈ effects s' | OWaiting => st' <> OWaiting | ODone _ => False end
  | CloseTask sid _, CloseTask sid' _ => sid' = sid
  | CleanupTask id _, CleanupTask id' _ => id' = id
  | _, _ => False
  end.
Definition created (s' : manager) (t : nat) (x : task) : Prop :=
  match x with
  | StartTask i st => st = SNew /\ ENew t i ∈ effects s'
  | OperationTask _ _ st => st = OWaiting
  | CloseTask _ st | CleanupTask _ st => st = CNew
  end.

Definition forward (s s' : manager) : Prop := forall t x, tasks s !! t = Some x -> exists x', tasks s' !! t = Some x' /\ (x' = x \/ task_goes s s' t x x').
Lemma forward_same s s' : tasks s' = tasks s -> forward s s'.
Proof. intros E t x Hx. exists x. rewrite E. auto. Qed.
Lemma forward_insert s s' t0 y : tasks s' = <[t0 := y]> (tasks s) -> (forall x, tasks s !! t0 = Some x -> task_goes s s' t0 x y) -> forward s s'.
Proof.
  intros E Hy t x Hx. rewrite E. destruct (decide (t0 = t)) as [->|Hne]; [exists y; rewrite lookup_insert_eq; auto|exists x; rewrite lookup_insert_ne by done; auto].
Qed.
Definition appears (s s' : manager) : Prop := forall t x, tasks s !! t = None -> tasks s' !! t = Some x -> created s' t x.
Lemma appears_same s s' : tasks s' = tasks s -> appears s s'.
Proof. intros E t x Hn. rewrite E. congruence. Qed.
Lemma appears_insert s s' t0 y : tasks s' = <[t0 := y]> (tasks s) -> (tasks s !! t0 = None -> created s' t0 y) -> appears s s'.
Proof.
  intros E Hy t x Hn. rewrite E. destruct (decide (t0 = t)) as [->|Hne]; [rewrite lookup_insert_eq; intros [= <-]; auto|rewrite lookup_insert_ne by done; congruence].
Qed.

Lemma move_forward s s' : move s s' -> forward s s'.
Proof.
  intros Hm. destruct Hm; shape; try (by apply forward_same).
  all: try (eapply forward_insert; [reflexivity|]; intros x1 Hx1; simplify_eq; done).
  - apply forward_same. by destruct H.
  - eapply forward_insert; [reflexivity|]. intros x1 Hx1. simplify_eq. split; [done|]. exists r. split; [by left|done].
  - eapply forward_insert; [reflexivity|]. intros x1 Hx1. simplify_eq. split; [done|]. exists (full_url c (si_request i)), now. split; [by left|done].
  - intros u x Hx. assert (cleanup <> t) as Hct by congruence. destruct (decide (u = t)) as [->|Hne].
    + exists (StartTask i (SCleaning e)). simplify_eq. split; [unfold to; state; by rewrite lookup_insert_eq|by right].
    + exists x. split; [|by left]. unfold to. state. rewrite lookup_insert_ne by done. destruct page; state; rewrite lookup_insert_ne by congruence; done.
  - eapply forward_insert; [reflexivity|]. intros x1 Hx1. simplify_eq. split_and!; try done. exists b. by left.
Qed.
Lemma move_appears s s' : move s s' -> appears s s'.
Proof.
  intros Hm. destruct Hm; shape; try (by apply appears_same).
  all: try (eapply appears_insert; [reflexivity|]; intros Hn1; simplify_eq; done).
  - apply appears_same. by destruct H.
  - eapply appears_insert; [reflexivity|]. intros _. split; [done|]. by left.
  - intros u x Hn. assert (u <> t) as Hne by congruence. unfold to. state. rewrite lookup_insert_ne by done.
    destruct page; state; (destruct (decide (cleanup = u)) as [->|]; [rewrite lookup_insert_eq; by intros [= <-]|rewrite lookup_insert_ne by done; unfold log; state; congruence]).
Qed.

(** *** What follows for starts and operations *)

Lemma move_grows s s' : tables s -> move s s' -> forall e, e ∈ effects s -> e ∈ effects s'.
Proof.
  intros Hs Hm e He. destruct (move_writes s s' Hs Hm) as [E _|e' E _ _|sid t i p page now E _ _ _ _ _]; rewrite E; [done|by right|by do 2 right].
Qed.

(** A start, seen from the state after the move. *)
Lemma move_start_back s s' t i st : tables s -> move s s' -> start_of s' t = Some (i, st) ->
  start_of s t = Some (i, st) \/ (exists st0, start_of s t = Some (i, st0) /\ task_goes s s' t (StartTask i st0) (StartTask i st)) \/
  tasks s !! t = None /\ st = SNew /\ ENew t i ∈ effects s'.
Proof.
  intros Hs Hm Ht. unfold start_of in Ht. destruct (tasks s' !! t) as [[j st'| | |]|] eqn:Ht'; try done. injection Ht as -> ->.
  destruct (tasks s !! t) as [x|] eqn:Hx.
  - destruct (move_forward s s' Hm t x Hx) as (x' & Hx' & Hg). rewrite Ht' in Hx'. injection Hx' as <-. destruct Hg as [<-|Hg]; [left; by apply start_of_task|].
    right. left. destruct x as [j st0| | |]; try done. destruct Hg as [<- Hg]. exists st0. split; [by apply start_of_task|done].
  - destruct (move_appears s s' Hm t _ Hx Ht') as [-> H]. auto.
Qed.
Lemma move_start s s' t i st : move s s' -> start_of s t = Some (i, st) -> exists st', start_of s' t = Some (i, st').
Proof.
  intros Hm Ht. unfold start_of in Ht. destruct (tasks s !! t) as [[j st0| | |]|] eqn:Ht'; try done. injection Ht as -> ->.
  destruct (move_forward s s' Hm t _ Ht') as (x' & Hx' & [->|Hg]); [exists st; by apply start_of_task|]. destruct x' as [j st'| | |]; try done.
  destruct Hg as [-> _]. exists st'. by apply start_of_task.
Qed.
Lemma move_calling s s' t q c k : move s s' -> operation_of s t = Some (q, c, OCalling k) ->
  operation_of s' t = Some (q, c, OCalling k) \/ exists b, EUsed t b ∈ effects s'.
Proof.
  intros Hm Ht. unfold operation_of in Ht. destruct (tasks s !! t) as [[|q0 c0 st0| |]|] eqn:Ht'; try done. injection Ht as -> -> ->.
  destruct (move_forward s s' Hm t _ Ht') as (x' & Hx' & [->|Hg]); [left; by apply operation_of_task|]. right. destruct x' as [|q' c' st'| |]; try done.
  by destruct Hg as (_ & _ & Hg).
Qed.
