(* ===== verification/FrontendGuarantees.v ===== *)
(** * What the histories of the frontend manager guarantee

    Which starts, pages and operations the browser and the user can ever see,
    for any interleaving of requests, answers, cancellations, fences and sweeps. *)
From S2P Require Import Prelude Utf8 PyStr Models Paths Database Json Approvals ReadText DevServers Frontend FrontendMoves FrontendInvariant FrontendSteps FrontendHistory.

Open Scope Z_scope.

(** ** Properties of every entry with what came before it *)

Definition throughout (P : list effect -> effect -> Prop) (l : list effect) : Prop :=
  forall newer e older, l = newer ++ e :: older -> P older e.
Lemma throughout_cons P e l : P l e -> throughout P l -> throughout P (e :: l).
Proof. intros He Hl newer e' older E. destruct newer as [|e1 newer]; injection E as -> ->; [done|]. by eapply Hl. Qed.
Lemma throughout_nil P : throughout P [].
Proof. intros newer e older E. by destruct newer. Qed.

(** Nothing is asked of the two entries that begin a session. *)
Definition lax (P : list effect -> effect -> Prop) : Prop :=
  forall l, (forall t p page, P l (EPage t p page)) /\ (forall sid t page now, P l (ESession sid t page now)).
Lemma throughout_move P s s' : lax P -> tables s -> move s s' -> throughout P (effects s) ->
  (forall e, justified s s' e -> P (effects s) e) -> throughout P (effects s').
Proof.
  intros HP Hs Hm Hl He. destruct (move_writes s s' Hs Hm) as [E _|e E Hj _|sid t i p page now E _ _ _ _ _]; rewrite E; [done| |].
  - apply throughout_cons; auto.
  - apply throughout_cons; [apply HP|]. apply throughout_cons; [apply HP|done].
Qed.

(** ** Starts *)

Record authority (s : manager) : Prop := {
  au_new : forall t i st, start_of s t = Some (i, st) -> ENew t i ∈ effects s;
  au_kept : forall t i, ENew t i ∈ effects s -> exists st, start_of s t = Some (i, st);
  au_bound : forall t i, ENew t i ∈ effects s -> (si_lifecycle_generation i <= _lifecycle_generation s)%nat;
  au_fence : throughout (fun older e => match e with EFence => forall t i, ENew t i ∈ older -> (si_lifecycle_generation i < _lifecycle_generation s)%nat | _ => True end)
    (effects s);
  au_stage : forall t i st, start_of s t = Some (i, st) ->
    match st with
    | SAsking p c _ => exists r, EAsk t r ∈ effects s /\ asked i p c r
    | SAcquiring p c _ => EConsent t p c ∈ effects s
    | SOpening p c g _ _ => exists url now a, EOpen t p url now a ∈ effects s /\ _security_generation a = g
    | _ => True
    end;
  au_consent : forall t p c, EConsent t p c ∈ effects s -> exists i, ENew t i ∈ effects s /\ project_id p = project_of i /\
    (mode p = FULL_ACCESS \/ exists r, EAsk t r ∈ effects s /\ asked i p c r);
}.

Lemma access_generation a g d now : access a g d now -> g = _security_generation a.
Proof. unfold access, Approvals.ensure_current, bind, gets. destruct (Nat.eqb_spec g (_security_generation a)); done. Qed.

Lemma move_generation s s' : tables s -> move s s' -> (_lifecycle_generation s <= _lifecycle_generation s')%nat.
Proof.
  intros Hs Hm. destruct (move_writes s s' Hs Hm) as [_ E|e _ Hj [->|E]|? ? ? ? ? ? _ E]; [lia| |lia|lia]. cbn in Hj. lia.
Qed.
(** A new entry of a kind that is not of a new page. *)
Lemma move_entry s s' e : tables s -> move s s' -> e ∈ effects s' -> e ∈ effects s \/ justified s s' e \/
  exists sid t i page now, e = ESession sid t page now \/ e = EPage t (project_of i) page.
Proof.
  intros Hs Hm He. destruct (move_writes s s' Hs Hm) as [E _|e' E Hj _|sid t i p page now E _ -> _ _ _]; rewrite E in He; [by left| |].
  - apply elem_of_cons in He as [->|He]; auto.
  - apply elem_of_cons in He as [->|[->|He]%elem_of_cons]; [right; right; exists sid, t, i, page, now; auto..|by left].
Qed.
Ltac entry He := let E := fresh "E" in
  destruct (move_entry _ _ _ ltac:(eassumption) ltac:(eassumption) He) as [E|[E|(? & ? & ? & ? & ? & [E|E])]]; try discriminate E.

Lemma move_authority s s' : tables s -> authority s -> move s s' -> authority s'.
Proof.
  intros Hs [A1 A2 A3 A4 A5 A6] Hm. pose proof (move_grows s s' Hs Hm) as Hg. split.
  - intros t i st Ht. destruct (move_start_back s s' t i st Hs Hm Ht) as [H|[(st0 & H & _)|(_ & _ & H)]]; eauto.
  - intros t i He. entry He; [|by destruct E as (_ & E & _); eauto]. destruct (A2 t i E) as [st Ht]. by eapply move_start.
  - intros t i He. pose proof (move_generation s s' Hs Hm). entry He; [specialize (A3 t i E); lia|]. destruct E as (_ & _ & E). lia.
  - pose proof (move_generation s s' Hs Hm) as Hle. apply (throughout_move _ s); [done|done|done| |].
    + intros newer e older E. specialize (A4 newer e older E). destruct e; try done. intros t i Hin. specialize (A4 t i Hin). lia.
    + intros e Hj. destruct e; try done. intros t i Hin. specialize (A3 t i Hin). cbn in Hj. lia.
  - intros t i st Ht. destruct (move_start_back s s' t i st Hs Hm Ht) as [H|[(st0 & H & Hgo)|(_ & -> & H)]]; [| |done].
    + specialize (A5 t i st H). destruct st; try done; [|by apply Hg|].
      * destruct A5 as (r & Hr & Ha). eauto.
      * destruct A5 as (url' & now & a & Ho & Ha). exists url', now, a. auto.
    + destruct Hgo as [_ Hgo]. destruct st; try done. destruct Hgo as (url' & now & Ho & _ & _ & Ha & _). exists url', now, (fm_approvals s).
      split; [done|]. symmetry. by eapply access_generation.
  - intros t p c He. entry He.
    + destruct (A6 t p c E) as (i & Hi & Hp & Hc). exists i. split; [auto|]. split; [done|]. destruct Hc as [|(r & Hr & Ha)]; [by left|right; eauto].
    + destruct E as (i & st & Ht & Hp & Hc). exists i. split; [apply Hg; eauto|]. split; [done|]. destruct Hc as [|[g ->]]; [by left|right].
      destruct (A5 _ _ _ Ht) as (r & Hr & Ha). eauto.
Qed.
Lemma authority_initial a : authority (initial a).
Proof.
  split; try (intros t i st H; discriminate H); [| |apply throughout_nil|].
  all: intros *; intros He; by apply not_elem_of_nil in He.
Qed.

(** [EFence] has not been written since the request. *)
Definition unfenced (t : nat) (i : start_info) (l : list effect) : Prop := exists newer older, l = newer ++ ENew t i :: older /\ EFence ∉ newer.

(** What an opened page rests on. *)
Definition authorised (older : list effect) (t : nat) (p : Project) (url : str) (now : Z) (a : approvals) : Prop :=
  exists i c, unfenced t i older /\ project_id p = project_of i /\ url = full_url c (si_request i) /\ EConsent t p c ∈ older /\
    (mode p = FULL_ACCESS \/ exists r, EAsk t r ∈ older /\ asked i p c r) /\
    access a (_security_generation a) (c_deadline_at (si_caller i)) now /\ exists current, stored a (project_of i) current /\ unchanged p current.

Lemma unfenced_now s t i : authority s -> ENew t i ∈ effects s -> si_lifecycle_generation i = _lifecycle_generation s -> unfenced t i (effects s).
Proof.
  intros Ha Hin Hg. apply list_elem_of_split in Hin as (newer & older & E). exists newer, older. split; [done|]. intros Hf.
  apply list_elem_of_split in Hf as (l1 & l2 & ->). rewrite <-app_assoc in E. cbn in E.
  pose proof (au_fence _ Ha _ _ _ E t i ltac:(set_solver)) as H. lia.
Qed.

Lemma open_authorised s s' t p url now a : tables s -> authority s -> justified s s' (EOpen t p url now a) -> authorised (effects s) t p url now a.
Proof.
  intros Hs Ha (i & c & g & v & u & Ht & _ & Hok & -> & ->). destruct Hok as (Hl & _ & Hacc & current & Hst & Hun).
  assert (ENew t i ∈ effects s) as Hn by (eapply au_new; eauto). pose proof (au_stage _ Ha _ _ _ Ht) as Hc. cbn in Hc.
  pose proof (access_generation _ _ _ _ Hacc) as Hg.
  destruct (au_consent _ Ha _ _ _ Hc) as (j & Hj & Hp & Hcons). destruct (au_kept _ Ha _ _ Hj) as [st' Ht']. rewrite Ht in Ht'. injection Ht' as <- _.
  exists i, c. split_and!; try done; [by apply unfenced_now|by rewrite <-Hg|]. exists current. by rewrite <-Hp.
Qed.

(** ** Sessions and the calls made for them *)

(** Where a session comes from; [g]: the generation of the approvals then. *)
Definition origin (l : list effect) (sid : str) (page : nat) (created : Z) (i : start_info) (p : Project) (g : nat) : Prop :=
  exists t url now a, ESession sid t page created ∈ l /\ ENew t i ∈ l /\ EOpen t p url now a ∈ l /\ _security_generation a = g.

Record sessions_lawful (s : manager) : Prop := {
  sl_origin : forall sid o, objects s !! sid = Some o -> exists i p, origin (effects s) sid (fs_browser o) (fs_created_at o) i p (fs_security_generation o) /\
    fs_grant_id o = c_grant_id (si_caller i) /\ fs_link_id o = c_link_id (si_caller i) /\ fs_project_id o = project_of i /\
    c_connection_epoch (si_caller i) <= fs_connection_epoch o /\
    root p = fs_project_root o /\ root_fingerprint p = fs_root_fingerprint o /\ mode p = fs_project_mode o;
  sl_use : forall t sid page q c node now a, EUse t sid page q c node now a ∈ effects s -> sid = oq_session_id q /\
    (exists o, objects s !! sid = Some o /\ fs_browser o = page /\ c_connection_epoch c <= fs_connection_epoch o) /\
    ((exists b, EUsed t b ∈ effects s) \/ exists k, operation_of s t = Some (q, c, OCalling k));
  sl_used : forall t b, EUsed t b ∈ effects s -> exists q c r, operation_of s t = Some (q, c, ODone r);
}.

Lemma origin_grows l l' sid page created i p g : (forall e, e ∈ l -> e ∈ l') -> origin l sid page created i p g -> origin l' sid page created i p g.
Proof. intros H (t & url & now & a & H1 & H2 & H3 & H4). exists t, url, now, a. auto. Qed.
Lemma evolves_same s s' o o' : evolves s s' o o' -> fs_project_id o' = fs_project_id o /\ fs_browser o' = fs_browser o /\ fs_created_at o' = fs_created_at o /\
  fs_grant_id o' = fs_grant_id o /\ fs_link_id o' = fs_link_id o /\ fs_project_root o' = fs_project_root o /\
  fs_root_fingerprint o' = fs_root_fingerprint o /\ fs_project_mode o' = fs_project_mode o /\ fs_security_generation o' = fs_security_generation o.
Proof. intros [H _ _ _ _]. unfold statics in H. by simplify_eq. Qed.

(** An object, seen from the state after the move. *)
Lemma move_object_back s s' sid o' : move s s' -> objects s' !! sid = Some o' ->
  (exists o, objects s !! sid = Some o /\ evolves s s' o o') \/ objects s !! sid = None /\ begun s s' sid o'.
Proof.
  intros Hm Ho'. destruct (objects s !! sid) as [o|] eqn:Ho.
  - left. destruct (move_objects s s' sid o Hm Ho) as (o1 & Ho1 & He). rewrite Ho' in Ho1. injection Ho1 as ->. eauto.
  - right. split; [done|]. by apply (move_new_object s s').
Qed.
Lemma move_done s s' t q c r : move s s' -> operation_of s t = Some (q, c, ODone r) -> operation_of s' t = Some (q, c, ODone r).
Proof.
  intros Hm Ht. unfold operation_of in Ht. destruct (tasks s !! t) as [[|q0 c0 st0| |]|] eqn:Ht'; try done. injection Ht as -> -> ->.
  destruct (move_forward s s' Hm t _ Ht') as (x' & Hx' & [->|Hg]); [by apply operation_of_task|]. destruct x'; try done. by destruct Hg as (_ & _ & []).
Qed.

Lemma move_sessions_lawful s s' : tables s -> authority s -> sessions_lawful s -> move s s' -> sessions_lawful s'.
Proof.
  intros Hs Ha [S1 S2 S3] Hm. pose proof (move_grows s s' Hs Hm) as Hg. split.
  - intros sid o' Ho'. destruct (move_object_back s s' sid o' Hm Ho') as [(o & Ho & He)|(_ & t & i & p & c & g & v & u & page & url & now & Ht & -> & _ & Hp & _ & Eff)].
    + destruct (evolves_same _ _ _ _ He) as (E1 & E2 & E3 & E4 & E5 & E6 & E7 & E8 & E9). pose proof (ev_epoch _ _ _ _ He).
      destruct (S1 sid o Ho) as (i & p & Hor & Hrest). exists i, p. rewrite E1, E2, E3, E4, E5, E6, E7, E8, E9.
      split; [by eapply origin_grows|]. destruct Hrest as (? & ? & ? & ? & ? & ? & ?). split_and!; try done. lia.
    + exists i, p. split; [|done]. pose proof (au_stage _ Ha _ _ _ Ht) as (url' & now' & a & Hop & Hgen). exists t, url', now', a.
      split_and!; [rewrite Eff; by left|apply Hg; eapply au_new; eauto|by apply Hg|done].
  - intros t sid page q c node now a He. entry He.
    + destruct (S2 _ _ _ _ _ _ _ _ E) as (Hsid & (o & Ho & Hpg & Hep) & Hrun). split; [done|]. split.
      * destruct (move_objects s s' sid o Hm Ho) as (o' & Ho' & Hev). destruct (evolves_same _ _ _ _ Hev) as (_ & E2 & _). pose proof (ev_epoch _ _ _ _ Hev).
        exists o'. split_and!; [done|congruence|lia].
      * destruct Hrun as [(b & Hb)|[k Hk]]; [left; eauto|]. destruct (move_calling s s' t q c k Hm Hk) as [|]; eauto.
    + destruct E as (o & o0 & k & _ & Hop & -> & Ho & _ & -> & _ & _ & Heq & _). split; [done|]. split; [|eauto].
      destruct (move_objects s s' _ o Hm Ho) as (o' & Ho' & Hev). destruct (evolves_same _ _ _ _ Hev) as (_ & E2 & _). pose proof (ev_epoch _ _ _ _ Hev).
      exists o'. split_and!; [done|done|]. assert (fs_connection_epoch o = c_connection_epoch c) by (rewrite Heq; done). lia.
  - intros t b He. entry He.
    + destruct (S3 t b E) as (q & c & r & H). exists q, c, r. by eapply move_done.
    + destruct E as (q & c & k & o & r & _ & H & _). eauto.
Qed.

(** What a call of the browser rests on. *)
Definition bound (older : list effect) (sid : str) (page : nat) (q : operation_request) (c : caller) (now : Z) (a : approvals) : Prop :=
  sid = oq_session_id q /\ exists created i p, origin older sid page created i p (_security_generation a) /\
    c_grant_id c = c_grant_id (si_caller i) /\ c_link_id c = c_link_id (si_caller i) /\ oq_project_id q = project_of i /\
    c_connection_epoch (si_caller i) <= c_connection_epoch c /\
    (forall t' page' q' c' node' now' a', EUse t' sid page' q' c' node' now' a' ∈ older -> c_connection_epoch c' <= c_connection_epoch c) /\
    now - created <= SESSION_MAX /\ access a (_security_generation a) (c_deadline_at c) now /\
    exists current, stored a (project_of i) current /\ unchanged p current.

Lemma same_access_unchanged o p current : root p = fs_project_root o -> root_fingerprint p = fs_root_fingerprint o -> mode p = fs_project_mode o ->
  same_access o current = true -> unchanged p current.
Proof. unfold same_access, unchanged. intros -> -> -> H. by reflect_bools. Qed.

Lemma use_bound s s' t sid page q c node now a : tables s -> sessions_lawful s -> justified s s' (EUse t sid page q c node now a) -> bound (effects s) sid page q c now a.
Proof.
  intros Hs [S1 S2 S3] (o & o0 & k & _ & _ & -> & Ho & _ & -> & -> & Hu & Heq & _). destruct Hu as [_ Ht Hb He Hacc (current & Hst & Hsame)].
  destruct (S1 _ _ Ho) as (i & p & Hor & H1 & H2 & H3 & H4 & H5 & H6 & H7). pose proof (access_generation _ _ _ _ Hacc) as Hg.
  rewrite Heq in H1, H2, H3, H5, H6, H7. cbn in H1, H2, H3, H5, H6, H7. unfold _stable_binding_matches in Hb. reflect_bools.
  unfold expired in Ht. apply orb_false_iff in Ht as [Ht _]. apply Z.ltb_ge in Ht.
  assert (fs_connection_epoch o = c_connection_epoch c) as Eep by by rewrite Heq.
  assert (fs_created_at o = fs_created_at o0) as Ecr by by rewrite Heq.
  assert (fs_security_generation o = fs_security_generation o0) as Ege by by rewrite Heq.
  split; [done|]. exists (fs_created_at o), i, p. rewrite <-Hg. split_and!; try congruence.
  - intros t' page' q' c' node' now' a' He'. destruct (S2 _ _ _ _ _ _ _ _ He') as (_ & (o' & Ho' & _ & Hep) & _). simplify_eq. lia.
  - exists current. rewrite <-H3. split; [done|]. by apply (same_access_unchanged o0).
Qed.

(** ** Pages *)

(** A page belongs to a session or to an abandoned start. *)
Definition owns (s : manager) (w : str + nat) (page : nat) : Prop :=
  match w with
  | inl sid => exists o, objects s !! sid = Some o /\ fs_browser o = page
  | inr id => exists x, partials s !! id = Some x /\ pc_page x = Some page
  end.
(** The owner has seen the page close. *)
Definition has_closed (s : manager) (w : str + nat) : Prop :=
  match w with
  | inl sid => exists o, objects s !! sid = Some o /\ browser_closed (fs_fate o) = true
  | inr id => exists x, partials s !! id = Some x /\ browser_closed (pc_fate x) = true
  end.
(** The tables still name the owner. *)
Definition listed (s : manager) (p : str) (w : str + nat) : Prop :=
  match w with inl sid => _project_sessions s !! p = Some sid | inr id => _partial_cleanups s !! p = Some id end.

Record pages_lawful (s : manager) : Prop := {
  pg_known : forall w page, owns s w page -> exists t p, EPage t p page ∈ effects s;
  pg_unique : forall w w' page, owns s w page -> owns s w' page -> w = w';
  pg_closed : forall w page, owns s w page -> has_closed s w -> EClosed page true ∈ effects s;
  pg_open : forall t p page, EPage t p page ∈ effects s -> EClosed page true ∈ effects s \/ exists w, listed s p w /\ owns s w page;
  pg_close : forall page, EClose page ∈ effects s -> (exists sid o, objects s !! sid = Some o /\ fs_browser o = page /\ fs_closed o = true) \/
    exists id, owns s (inr id) page;
}.

Definition named (w : str + nat) (page : nat) (l : list effect) (l' : list effect) : Prop :=
  match w with inl sid => exists t p now, l' = ESession sid t page now :: EPage t p page :: l | inr id => exists p, l' = EPage id p page :: l end.
Lemma move_owns s s' w page : tables s -> move s s' -> owns s w page -> owns s' w page.
Proof.
  intros Hs Hm. destruct w as [sid|id]; cbn.
  - intros (o & Ho & <-). destruct (move_objects s s' sid o Hm Ho) as (o' & Ho' & He). exists o'. split; [done|]. by destruct (evolves_same _ _ _ _ He) as (_ & E & _).
  - intros (x & Hx & <-). destruct (move_partials_kept s s' id x Hs Hm Hx) as (x' & Hx' & He). exists x'. split; [done|]. by rewrite (li_page _ _ _ He).
Qed.
Lemma move_owns_back s s' w page : tables s -> move s s' -> owns s' w page -> owns s w page \/
  known_page page s = false /\ named w page (effects s) (effects s') /\ ~ has_closed s' w.
Proof.
  intros Hs Hm. destruct w as [sid|id]; cbn.
  - intros (o' & Ho' & <-). destruct (move_object_back s s' sid o' Hm Ho') as [(o & Ho & He)|(_ & t & i & p & c & g & v & u & page & url & now & _ & -> & Hk & _ & _ & E)].
    + left. exists o. split; [done|]. by destruct (evolves_same _ _ _ _ He) as (_ & -> & _).
    + right. split; [done|]. split; [by eexists _, _, _|]. intros (o & Ho & Hc). rewrite Ho' in Ho. by injection Ho as <-.
  - intros (x' & Hx' & Hp). destruct (partials s !! id) as [x|] eqn:Hx.
    + left. exists x. split; [done|]. destruct (move_partials_kept s s' id x Hs Hm Hx) as (x1 & Hx1 & He). rewrite Hx' in Hx1. injection Hx1 as <-.
      by rewrite <-(li_page _ _ _ He).
    + right. destruct (move_new_partial s s' id x' Hs Hm Hx Hx') as (i & st & _ & _ & _ & Hf & _ & Hpg). rewrite Hp in Hpg. destruct Hpg as [Hk E].
      split; [done|]. split; [by eexists|]. intros (y & Hy & Hc). congruence.
Qed.
Lemma owned_known s w page : pages_lawful s -> owns s w page -> known_page page s = true.
Proof. intros Hp Hw. apply known_page_spec. by apply (pg_known _ Hp w). Qed.

(** A listed owner stays listed until its page is closed. *)
Lemma move_listed s s' p w page : tables s -> move s s' -> listed s p w -> owns s w page -> listed s' p w \/ has_closed s w.
Proof.
  intros Hs Hm Hl Ho. destruct Hm; shape; try (left; destruct w; exact Hl).
  - left. destruct H as [Ek Eo Ep Es Eps Est Epst Ec Epc El Et Ee]. destruct w; cbn in *; by rewrite ?Eps, ?Epc.
  - left. destruct w as [sid'|id]; [|exact Hl]. destruct (st_running _ (tb_starts _ Hs) t i _ (start_of_task _ _ _ _ H) eq_refl) as (_ & _ & _ & Hn & _).
    cbn in *. rewrite lookup_insert_ne; [done|]. congruence.
  - left. destruct w as [sid'|id]; [by destruct page0|]. destruct (st_running _ (tb_starts _ Hs) t i st (start_of_task _ _ _ _ H) ltac:(by destruct st)) as (_ & _ & _ & _ & Hn).
    specialize (Hn H0). assert (p <> project_of i) by (cbn in Hl; congruence). destruct page0; cbn; by rewrite lookup_insert_ne.
  - destruct w as [sid'|id]; [|by left]. destruct (decide (fs_project_id o = p)) as [<-|Hne]; [|left; cbn; by rewrite lookup_delete_ne].
    right. cbn in Hl. simplify_eq. exists o. split; [done|]. destruct H3 as [Hc| ->]; [exact Hc|].
    destruct (cl_object _ (tb_closings _ Hs) t sid' _ (close_of_task _ _ _ _ H)) as (o' & Ho' & _ & _ & _ & _ & Hb). simplify_eq. by apply Hb.
  - destruct w as [sid'|id']; [by left|]. destruct (decide (pc_project_id x = p)) as [<-|Hne]; [|left; cbn; by rewrite lookup_delete_ne].
    right. cbn in Hl, Ho. simplify_eq. destruct Ho as (y & Hy & Hpg). simplify_eq. eexists. split; [eassumption|]. destruct H1 as [Hc| ->]; [by eapply Hc|].
    destruct (pa_cleanup _ (tb_partials _ Hs) t id' _ (cleanup_of_task _ _ _ _ H)) as (z & Hz & Hb). simplify_eq. by eapply Hb.
Qed.

Lemma move_has_closed s s' w page : tables s -> move s s' -> owns s w page -> has_closed s' w -> has_closed s w \/ EClosed page true ∈ effects s'.
Proof.
  intros Hs Hm. destruct w as [sid|id]; cbn.
  - intros (o & Ho & <-) (o' & Ho' & Hc). destruct (move_objects s s' sid o Hm Ho) as (o1 & Ho1 & He). simplify_eq.
    destruct (ev_page _ _ _ _ He Hc); [left; eauto|by right].
  - intros (x & Hx & Hp) (x' & Hx' & Hc). destruct (move_partials_kept s s' id x Hs Hm Hx) as (x1 & Hx1 & He). simplify_eq.
    destruct (li_closed _ _ _ He Hc) as [|H]; [left; eauto|right; by apply H].
Qed.

Lemma move_pages_lawful s s' : tables s -> pages_lawful s -> move s s' -> pages_lawful s'.
Proof.
  intros Hs Hp Hm. pose proof (move_grows s s' Hs Hm) as Hg. split.
  - intros w page [Hw|(_ & Hn & _)]%(move_owns_back s); [|destruct w; cbn in Hn|done|done].
    + destruct (pg_known _ Hp w page Hw) as (t & p & H). eauto.
    + destruct Hn as (t & p & now & ->). exists t, p. right. by left.
    + destruct Hn as (p & ->). exists n, p. by left.
  - intros w w' page Hw Hw'. apply (move_owns_back s) in Hw, Hw'; try done. destruct Hw as [Hw|(Hk & Hn & _)], Hw' as [Hw'|(Hk' & Hn' & _)].
    + by apply (pg_unique _ Hp w w' page).
    + apply (owned_known s) in Hw; congruence.
    + apply (owned_known s) in Hw'; congruence.
    + destruct w, w'; cbn in Hn, Hn'; destruct_and?; repeat match goal with H : exists _, _ |- _ => destruct H end; congruence.
  - intros w page [Hw|(_ & _ & Hn)]%(move_owns_back s) Hc; [|done|done|done]. destruct (move_has_closed s s' w page Hs Hm Hw Hc) as [Hc'|]; [|done].
    apply Hg. by apply (pg_closed _ Hp w).
  - intros t p page He.
    assert (EPage t p page ∈ effects s -> EClosed page true ∈ effects s' \/ exists w, listed s' p w /\ owns s' w page) as Hold.
    { intros E. destruct (pg_open _ Hp t p page E) as [Hc|(w & Hl & Hw)]; [left; auto|]. destruct (move_listed s s' p w page Hs Hm Hl Hw) as [Hl'|Hc].
      - right. exists w. split; [done|]. by eapply move_owns.
      - left. apply Hg. by apply (pg_closed _ Hp w). }
    destruct (move_writes s s' Hs Hm) as [E _|e E Hj _|sid u i q pg now E _ -> _ Hps Ho]; rewrite E in He; [auto| |].
    + apply elem_of_cons in He as [<-|He]; [|auto]. right. destruct Hj as (Hk & x & (i & st & _ & _ & _ & _ & Hc & Hpg) & Hx & Hx'). rewrite Hx in Hpg.
      destruct Hpg as [_ E']. rewrite E in E'. injection E' as ->. exists (inr t). split; [done|]. by exists x.
    + apply elem_of_cons in He as [He|[He|He]%elem_of_cons]; [done| |auto]. injection He as -> -> ->. right. by exists (inl sid).
  - intros page He. entry He.
    + destruct (pg_close _ Hp page E) as [(sid & o & Ho & Hb & Hc)|[id Hid]]; [left|right; exists id; by eapply move_owns].
      destruct (move_objects s s' sid o Hm Ho) as (o' & Ho' & Hev). exists sid, o'. destruct (evolves_same _ _ _ _ Hev) as (_ & -> & _).
      split_and!; [done|done|by apply (ev_closed _ _ _ _ Hev)].
    + destruct E as [(t & sid & o & Ht & Ho & _ & ->)|(t & id & x & _ & Hx & Hpg)].
      * left. destruct (cl_object _ (tb_closings _ Hs) t sid _ Ht) as (o1 & Ho1 & Hc & _). simplify_eq.
        destruct (move_objects s s' sid o Hm Ho) as (o' & Ho' & Hev). exists sid, o'. destruct (evolves_same _ _ _ _ Hev) as (_ & -> & _).
        split_and!; [done|done|by apply (ev_closed _ _ _ _ Hev)].
      * right. exists id. apply (move_owns s); [done|done|]. by exists x.
Qed.

(** ** Calls of a page, in order *)

Definition done_with (l : list effect) (t : nat) : Prop := exists b, EUsed t b ∈ l.
(** Every call made of the page so far has returned. *)
Definition page_idle (l : list effect) (page : nat) : Prop :=
  forall t sid q c node now a, EUse t sid page q c node now a ∈ l -> done_with l t.
Definition serialised (older : list effect) (e : effect) : Prop :=
  match e with
  | EUse _ _ page _ _ _ _ _ => EClose page ∉ older /\ page_idle older page
  | EClose page => page_idle older page
  | _ => True
  end.

(** A call that has not returned holds the lock of its session. *)
Lemma pending_use s t sid page q c node now a : tables s -> sessions_lawful s -> EUse t sid page q c node now a ∈ effects s ->
  done_with (effects s) t \/ exists o k, objects s !! sid = Some o /\ fs_browser o = page /\ fs_lock o = Some t /\ operation_of s t = Some (q, c, OCalling k).
Proof.
  intros Hs Hl He. destruct (sl_use _ Hl _ _ _ _ _ _ _ _ He) as (-> & (o & Ho & Hp & _) & [Hd|[k Hk]]); [by left|right].
  destruct (tb_calls _ Hs t q c k Hk) as (o' & Ho' & Hlock). simplify_eq. eauto 6.
Qed.
Lemma idle_under_lock s t sid o : tables s -> sessions_lawful s -> pages_lawful s -> objects s !! sid = Some o -> fs_lock o = Some t ->
  (forall q c k, operation_of s t <> Some (q, c, OCalling k)) -> page_idle (effects s) (fs_browser o).
Proof.
  intros Hs Hl Hp Ho Hlock Ht u sid' q c node now a He.
  destruct (pending_use s u sid' _ q c node now a Hs Hl He) as [|(o' & k & Ho' & Hb & Hlock' & Hu)]; [done|].
  assert (inl sid' = inl sid :> str + nat) as Hw by (apply (pg_unique _ Hp _ _ (fs_browser o)); cbn; eauto). simplify_eq. by apply Ht in Hu.
Qed.
Lemma move_serialised s s' e : tables s -> sessions_lawful s -> pages_lawful s -> justified s s' e -> serialised (effects s) e.
Proof.
  intros Hs Hl Hp Hj. destruct e; try done; cbn in Hj |- *.
  - destruct Hj as (o & o0 & k & Hop & _ & -> & Ho & Hlock & -> & _ & Hu & Heq & _). split.
    + intros [(sid' & o' & Ho' & Hb & Hc)|[id Hid]]%(pg_close _ Hp).
      * assert (inl sid' = inl (oq_session_id q) :> str + nat) as Hw by (apply (pg_unique _ Hp _ _ (fs_browser o)); cbn; eauto). simplify_eq.
        pose proof (us_open _ _ _ _ _ Hu) as Hopen. rewrite Heq in Hc. cbn in Hc. congruence.
      * assert (inr id = inl (oq_session_id q) :> str + nat) as Hw by (apply (pg_unique _ Hp _ _ (fs_browser o)); cbn; eauto). done.
    + apply (idle_under_lock s user (oq_session_id q)); try done. intros. rewrite Hop. done.
  - destruct Hj as [(t & sid & o & Ht & Ho & Hlock & ->)|(t & id & x & _ & Hx & Hpg)].
    + apply (idle_under_lock s t sid); try done. intros q c k. unfold close_of in Ht. unfold operation_of. by destruct (tasks s !! t) as [[]|].
    + intros u sid' q c node now a He. destruct (sl_use _ Hl _ _ _ _ _ _ _ _ He) as (-> & (o & Ho & Hb & _) & _).
      assert (inr id = inl (oq_session_id q) :> str + nat) as Hw by (apply (pg_unique _ Hp _ _ page); cbn; eauto). done.
Qed.

(** ** Snapshots *)

Record snapshots_lawful (s : manager) : Prop := {
  sn_known : forall sid o snap, objects s !! sid = Some o -> snapshot_id (fs_view o) = Some snap -> known_snapshot snap s = true;
  sn_spent : forall t sid page q c node now a snap, EUse t sid page q c node now a ∈ effects s -> acts_on q snap -> known_snapshot snap s = true /\
    (EUsed t true ∈ effects s -> forall o, objects s !! sid = Some o -> snapshot_id (fs_view o) <> Some snap);
}.

Lemma known_grows s s' snap : tables s -> move s s' -> known_snapshot snap s = true -> known_snapshot snap s' = true.
Proof. intros Hs Hm [sid H]%known_snapshot_spec. apply known_snapshot_spec. exists sid. by eapply move_grows. Qed.
Lemma move_snapshots_lawful s s' : tables s -> sessions_lawful s -> snapshots_lawful s -> move s s' -> snapshots_lawful s'.
Proof.
  intros Hs Hl [N1 N2] Hm. split.
  - intros sid o' snap Ho' Hsn. destruct (move_object_back s s' sid o' Hm Ho') as [(o & Ho & He)|(_ & t & i & p & c & g & v & u & page & url & now & _ & -> & _)]; [|done].
    destruct (ev_snapshot _ _ _ _ He) as [E|[E|(x & E & _ & Hk)]]; [|congruence|congruence]. apply (known_grows s); [done|done|]. eapply N1; [done|congruence].
  - assert (forall t sid page q c node now a snap o', EUse t sid page q c node now a ∈ effects s -> acts_on q snap ->
      objects s' !! sid = Some o' -> EUsed t true ∈ effects s -> snapshot_id (fs_view o') <> Some snap) as Hkeep.
    { intros t sid page q c node now a snap o' He Ha Ho' Hd. destruct (sl_use _ Hl _ _ _ _ _ _ _ _ He) as (_ & (o & Ho & _) & _).
      destruct (move_objects s s' sid o Hm Ho) as (o1 & Ho1 & Hev). simplify_eq. destruct (N2 _ _ _ _ _ _ _ _ _ He Ha) as [Hk Hsp]. specialize (Hsp Hd o Ho).
      destruct (ev_snapshot _ _ _ _ Hev) as [E|[E|(x & E & Hk' & _)]]; congruence. }
    intros t sid page q c node now a snap He Ha. entry He.
    + split; [apply (known_grows s); [done|done|]; by destruct (N2 _ _ _ _ _ _ _ _ _ E Ha)|]. intros Hd o' Ho'. entry Hd; [by eapply Hkeep|].
      destruct E0 as (q' & c' & k & o & r & Hop & _ & Ho & Hsn). destruct (sl_use _ Hl _ _ _ _ _ _ _ _ E) as (-> & _ & Hrun).
      assert (q' = q) as ->.
      { destruct Hrun as [[b Hb]|[k' Hk']]; [|congruence]. destruct (sl_used _ Hl t b Hb) as (? & ? & ? & H). congruence. }
      specialize (Hsn eq_refl snap Ha). destruct (move_objects s s' _ o Hm Ho) as (o1 & Ho1 & Hev). simplify_eq.
      destruct (N2 _ _ _ _ _ _ _ _ _ E Ha) as [Hk _]. destruct (ev_snapshot _ _ _ _ Hev) as [E1|[E1|(x & E1 & Hk' & _)]]; congruence.
    + destruct E as (o & o0 & k & Hop & Hop' & -> & Ho & _ & _ & _ & _ & _ & Hsn). specialize (Hsn snap Ha). split; [apply (known_grows s); [done|done|]; by eapply N1|].
      intros Hd. entry Hd.
      * destruct (sl_used _ Hl t true E) as (? & ? & ? & H). congruence.
      * destruct E as (q' & c' & k' & o' & r & H & _). congruence.
Qed.

(** No action on the snapshot has taken effect before. *)
Definition fresh_snapshot (older : list effect) (e : effect) : Prop :=
  match e with
  | EUse _ sid _ q _ _ _ _ => forall snap t page' q' c' node' now' a', acts_on q snap -> EUse t sid page' q' c' node' now' a' ∈ older -> acts_on q' snap ->
      EUsed t false ∈ older /\ EUsed t true ∉ older
  | _ => True
  end.
Lemma move_fresh_snapshot s s' e : tables s -> sessions_lawful s -> pages_lawful s -> snapshots_lawful s -> justified s s' e -> fresh_snapshot (effects s) e.
Proof.
  intros Hs Hl Hp Hn Hj. pose proof (move_serialised s s' e Hs Hl Hp Hj) as Hser. destruct e; try done. cbn in Hj, Hser |- *.
  destruct Hj as (o & o0 & k & _ & _ & -> & Ho & _ & -> & _ & _ & _ & Hsn). intros snap t page' q' c' node' now' a' Ha He Ha'.
  assert (EUsed t true ∉ effects s) as Hnot.
  { intros Hd. destruct (sn_spent _ Hn _ _ _ _ _ _ _ _ _ He Ha') as [_ H]. by apply (H Hd o Ho), Hsn. }
  split; [|done]. destruct (sl_use _ Hl _ _ _ _ _ _ _ _ He) as (_ & (o' & Ho' & <- & _) & _). simplify_eq.
  destruct Hser as [_ Hidle]. destruct (Hidle _ _ _ _ _ _ _ He) as [[] Hb]; done.
Qed.

(** ** Every history *)

Definition opening_authorised (older : list effect) (e : effect) : Prop :=
  match e with EOpen t p url now a => authorised older t p url now a | _ => True end.
Definition use_authorised (older : list effect) (e : effect) : Prop :=
  match e with EUse _ sid page q c _ now a => bound older sid page q c now a | _ => True end.

Record lawful (s : manager) : Prop := {
  lw_authority : authority s;
  lw_sessions : sessions_lawful s;
  lw_pages : pages_lawful s;
  lw_snapshots : snapshots_lawful s;
  lw_openings : throughout opening_authorised (effects s);
  lw_uses : throughout use_authorised (effects s);
  lw_serial : throughout serialised (effects s);
  lw_fresh : throughout fresh_snapshot (effects s);
}.
Lemma move_lawful s s' : tables s -> lawful s -> move s s' -> lawful s'.
Proof.
  intros Hs [L1 L2 L3 L4 L5 L6 L7 L8] Hm. split.
  - by apply (move_authority s).
  - by apply (move_sessions_lawful s).
  - by apply (move_pages_lawful s).
  - by apply (move_snapshots_lawful s).
  - apply (throughout_move _ s); try done. intros [] Hj; try done. by eapply open_authorised.
  - apply (throughout_move _ s); try done. intros [] Hj; try done. by eapply use_bound.
  - apply (throughout_move _ s); try done. intros e. by apply move_serialised.
  - apply (throughout_move _ s); try done. intros e. by apply move_fresh_snapshot.
Qed.
Lemma lawful_initial a : lawful (initial a).
Proof.
  split; try apply throughout_nil; [apply authority_initial|..]; split; try (intros *; intros H; by apply not_elem_of_nil in H).
  - intros sid o Ho. discriminate Ho.
  - intros [sid|id] page (o & Ho & _); discriminate Ho.
  - intros [sid|id] w' page (o & Ho & _); discriminate Ho.
  - intros [sid|id] page (o & Ho & _); discriminate Ho.
  - intros sid o snap Ho. discriminate Ho.
Qed.

(** A page the browser shows for a project. *)
Definition open_page (l : list effect) (project_id : str) (page : nat) : Prop :=
  (exists t, EPage t project_id page ∈ l) /\ EClosed page true ∉ l.

Lemma open_listed s p page : lawful s -> open_page (effects s) p page -> exists w, listed s p w /\ owns s w page.
Proof. intros Hl [[t Hp] Hn]. by destruct (pg_open _ (lw_pages _ Hl) t p page Hp). Qed.
Lemma listed_unique s p w w' : tables s -> listed s p w -> listed s p w' -> w = w'.
Proof.
  intros Hs. assert (forall sid id, listed s p (inl sid) -> listed s p (inr id) -> False) as H.
  { intros sid id H1 H2. cbn in H1, H2. destruct (pa_project _ (tb_partials _ Hs) _ _ H2) as (x & _ & _ & Hn). congruence. }
  destruct w as [sid|id], w' as [sid'|id']; intros H1 H2; [cbn in *; congruence|by destruct (H sid id')|by destruct (H sid' id)|cbn in *; congruence].
Qed.
Lemma listed_engaged s p w : listed s p w -> p ∈ engaged s.
Proof. unfold engaged. rewrite !elem_of_union, !elem_of_dom. destruct w as [sid|id]; cbn; intros ->; eauto. Qed.

(** Elements with distinct images in [X] are no more than [X]. *)
Lemma bounded_by_images (R : str -> nat -> Prop) (l : list nat) (X : gset str) : (forall p a b, R p a -> R p b -> a = b) -> NoDup l ->
  (forall a, a ∈ l -> exists p, p ∈ X /\ R p a) -> (length l <= size X)%nat.
Proof.
  intros HR Hl. revert X. induction Hl as [|a l Ha Hl IH]; intros X HX; [cbn; lia|]. destruct (HX a ltac:(left)) as (p & Hp & Hpa).
  assert (length l <= size (X ∖ {[p]}))%nat as Hle.
  { apply IH. intros b Hb. destruct (HX b ltac:(by right)) as (q & Hq & Hqb). exists q. split; [|done]. apply elem_of_difference. split; [done|].
    intros ->%elem_of_singleton. by rewrite (HR p a b) in Ha. }
  rewrite size_difference in Hle by set_solver. rewrite size_singleton in Hle. cbn.
  assert (size X <> 0)%nat; [|lia]. intros E%size_empty_inv. set_solver.
Qed.

Section guarantees.
  Context {urls : Urls} (sha256_hex : bytes -> str) (unicode_decimal : N -> option Z) (account device : str).
  Local Notation reachable := (reachable sha256_hex unicode_decimal account device).

Lemma reachable_lawful s : reachable s -> tables s /\ lawful s.
Proof. apply reachable_invariant; [apply lawful_initial|apply move_lawful]. Qed.

(** C10. In every history a project has at most one open page, and there are at
    most eight open pages in all, those of abandoned starts that still have to
    be closed included. *)
Theorem pages_are_exclusive s : reachable s ->
  (forall p a b, open_page (effects s) p a -> open_page (effects s) p b -> a = b) /\
  forall l, NoDup l -> (forall page, page ∈ l -> exists p, open_page (effects s) p page) -> (length l <= MAX_SESSIONS)%nat.
Proof.
  intros [Hs Hl]%reachable_lawful. assert (forall p a b, open_page (effects s) p a -> open_page (effects s) p b -> a = b) as Huniq.
  { intros p a b Ha Hb. destruct (open_listed s p a Hl Ha) as (w & Hw & Hwa), (open_listed s p b Hl Hb) as (w' & Hw' & Hwb).
    rewrite (listed_unique s p w w') in Hwa by done. destruct w'; cbn in Hwa, Hwb; destruct_and?; repeat match goal with H : exists _, _ |- _ => destruct H end; naive_solver. }
  split; [exact Huniq|]. intros l Hnd Hop. etransitivity; [|apply (tb_bound _ Hs)]. apply (bounded_by_images (open_page (effects s))); [done|done|].
  intros page Hin. destruct (Hop page Hin) as [p Hp]. exists p. split; [|done]. destruct (open_listed s p page Hl Hp) as (w & Hw & _). by eapply listed_engaged.
Qed.

(** C11. Calls of a page never overlap, and its closing waits for them: when the
    browser is called for a page, the page has not been told to close and every
    earlier call of it has returned; when a page is told to close, every call of
    it has returned. *)
Theorem page_calls_are_serialised s newer e older : reachable s -> effects s = newer ++ e :: older -> serialised older e.
Proof. intros [_ Hl]%reachable_lawful. apply (lw_serial _ Hl). Qed.


(** C13. The browser is called for a session only by the grant, link and project
    that started it, on a connection at least as new as any it has used, within
    half an hour of its start, while the access it was started under is current
    and the project is as it was. *)
Theorem session_calls_are_bound s newer older t sid page q c node now a : reachable s ->
  effects s = newer ++ EUse t sid page q c node now a :: older -> bound older sid page q c now a.
Proof. intros [_ Hl]%reachable_lawful E. exact (lw_uses _ Hl _ _ _ E). Qed.

(** C14. A snapshot serves one action: when an action is sent to the browser, every
    earlier action of the session that named the same snapshot has returned with
    an exception that says it was not done. *)
Theorem snapshot_acts_once s newer e older : reachable s -> effects s = newer ++ e :: older -> fresh_snapshot older e.
Proof. intros [_ Hl]%reachable_lawful. apply (lw_fresh _ Hl). Qed.

(** A start that is cancelled before its first step never reaches its [finally]:
    its reservation stays, and every other start of the project is refused. *)
Lemma cancelled_start_stays_reserved s t i : tables s -> tasks s !! t = Some (StartTask i SNew) ->
  let s' := step sha256_hex unicode_decimal account device s (StartCancelled t) in
  tasks s' !! t = Some (StartTask i (SDone (Err CancelledError))) /\ _start_tasks s' !! si_key i = Some (si_digest i, t) /\ reserved (project_of i) s' = true.
Proof.
  intros Hs Ht. destruct (st_running _ (tb_starts _ Hs) t i SNew (start_of_task _ _ _ _ Ht) eq_refl) as (_ & Hp & Hk & _).
  cbn [step]. rewrite Ht. split_and!; [cbn; by rewrite lookup_insert_eq|done|].
  unfold reserved. apply orb_true_iff. left. apply orb_true_iff. right. apply bool_decide_eq_true. by eexists.
Qed.
End guarantees.
