(* ===== verification/FrontendSamples.v ===== *)
(** * A sample history of the frontend manager

    A project whose user is asked, a development server and a page; a snapshot,
    an action that fails, the same action again; the end of the session.  With
    it the guarantees are instantiated. *)
From S2P Require Import Prelude Utf8 PyStr Models Paths Database Json Approvals ReadText DevServers Frontend FrontendMoves FrontendGuarantees.

Open Scope Z_scope.

Definition sample_split : split :=
  {| s_scheme := lit "http"; s_username := None; s_password := None; s_hostname := Some (lit "localhost"); s_port := Ok (Some 5173);
     s_path := [SLASH]; s_query := []; s_fragment := [] |}.
#[export] Instance sample_urls : Urls := {|
  urlsplit := fun _ => Ok sample_split;
  urlunsplit := fun scheme netloc path => scheme ++ lit "://" ++ netloc ++ path;
  is_loopback_ip := fun host => Ok (bool_decide (host = lit "127.0.0.1"));
|}.

Definition sample_project : Project :=
  {| project_id := lit "p1"; title := lit "P"; root := lit "C:/srv"; root_fingerprint := lit "7:9"; mode := NATIVE_APPROVAL; enabled := true |}.
Definition sample_approvals : approvals :=
  {| a_database := Some (Database.on_projects <[lit "p1" := {| pr_project := sample_project; pr_created_at := 0; pr_updated_at := 0 |}]> empty_db);
     _grants := []; _security_generation := 3 |}.
Definition sample_config : FrontendLaunchConfig :=
  {| fc_working_relative := [DOT]; fc_working_directory := lit "C:/srv"; fc_command := lit "npm run dev"; fc_base_url := lit "http://localhost:5173";
     fc_source := AUTO_SOURCE |}.
Definition sample_caller : caller := {| c_grant_id := lit "gr"; c_link_id := lit "ln"; c_connection_epoch := 1; c_deadline_at := 1000000000 |}.
Definition sample_start : start_request :=
  {| sq_project_id := lit "p1"; sq_idempotency_key := lit "k"; sq_route := [SLASH]; sq_purpose := lit "look"; sq_ready_timeout_seconds := 30;
     sq_viewport := (1280, 720); sq_json := JObj [(lit "route", JStr [SLASH])] |}.
Definition sample_operation (o : operation) : operation_request := {| oq_project_id := lit "p1"; oq_session_id := lit "s1"; oq_operation := o |}.
Definition sample_element : raw_element := {| raw_backend := Some 42; raw_parent := None; raw_json := JNull |}.
Definition sample_capture : BrowserSnapshot :=
  {| cap_elements := [sample_element]; cap_document_token := lit "doc"; cap_url := lit "http://localhost:5173/"; cap_truncated := false;
     cap_console := []; cap_network := []; cap_warnings := [] |}.
Definition sample_act : operation_request := sample_operation (Act (lit "a1") (lit "snap1") (lit "e1") (lit "click") JNull).
Definition sample_server : server := {| sv_key := lit "p1"; sv_handle := 0%nat; sv_owned := true |}.

(** Tasks are numbered as they begin: the start, three operations, the closing. *)
Definition sample_events : list event :=
  [StartRequested sample_start sample_caller 10 (Ok tt); StartBegins 0 (lit "r1") 11 (Ok sample_config) (Ok sample_config);
   StartApproved 0 (Ok tt) 12 (Ok sample_config); StartAcquired 0 (Ok sample_server) 13;
   StartOpened 0 (Ok 7%nat) (Some (lit "http://localhost:5173/")) 14 (lit "s1");
   OperationRequested (sample_operation (Snapshot 10)) sample_caller 15 (Ok tt); OperationEnters 1 15 (Ok tt) (lit "doc");
   OperationReturns 1 (GotSnapshot (Ok sample_capture)) 16 (Ok tt) (lit "doc") (lit "snap1") (fun _ => agent_error "path_not_found");
   OperationRequested sample_act sample_caller 17 (Ok tt); OperationEnters 2 17 (Ok tt) (lit "doc");
   OperationReturns 2 (GotAct (agent_error "element_not_found")) 18 (Ok tt) (lit "doc") (lit "snap2") (fun _ => agent_error "path_not_found");
   OperationRequested sample_act sample_caller 19 (Ok tt); OperationEnters 3 19 (Ok tt) (lit "doc");
   OperationReturns 3 (GotAct (Ok tt)) 20 (Ok tt) (lit "doc") (lit "snap3") (fun _ => agent_error "path_not_found");
   StopRequested {| tq_project_id := lit "p1"; tq_session_id := lit "s1" |} sample_caller 21; CloseBegins 4; ClosePageDone 4 (Ok tt);
   CloseServerDone 4 (Ok true)].
Definition sample_run (n : nat) : manager :=
  run sample_sha (fun _ => None) (lit "acc") (lit "dev") (initial sample_approvals) (take n sample_events).
Lemma sample_reachable n : reachable sample_sha (fun _ => None) (lit "acc") (lit "dev") (sample_run n).
Proof. exists sample_approvals, (take n sample_events). split; [vm_compute; reflexivity|reflexivity]. Qed.

Local Notation sample_effects := (effects (sample_run 18)).
Definition sample_opening : effect := EOpen 0 sample_project (lit "http://localhost:5173/") 13 sample_approvals.
Definition sample_use (t : nat) (now : Z) : effect := EUse t (lit "s1") 7 sample_act sample_caller (Some 42) now sample_approvals.

Lemma pages_are_exclusive_witness : open_page (effects (sample_run 14)) (lit "p1") 7 /\ (length [7%nat] <= MAX_SESSIONS)%nat.
Proof.
  assert (open_page (effects (sample_run 14)) (lit "p1") 7) as Ho.
  { assert (existsb (fun e => match e with EClosed _ _ => true | _ => false end) (effects (sample_run 14)) = false) as Hn by (vm_compute; reflexivity).
    split.
    - exists 0%nat. apply list_elem_of_lookup. exists 8%nat. vm_compute. reflexivity.
    - intros Hin%list_elem_of_In. revert Hn. apply not_false_iff_true, existsb_exists. eexists. split; [exact Hin|reflexivity]. }
  split; [exact Ho|]. destruct (pages_are_exclusive _ _ _ _ _ (sample_reachable 14)) as [_ Hb]. apply Hb.
  - apply NoDup_singleton.
  - intros page ->%list_elem_of_singleton. exists (lit "p1"). exact Ho.
Defined.

Lemma page_calls_are_serialised_witness : exists newer older, sample_effects = newer ++ EClose 7 :: older /\ serialised older (EClose 7).
Proof.
  exists (take 1 sample_effects), (drop 2 sample_effects).
  assert (sample_effects = take 1 sample_effects ++ EClose 7 :: drop 2 sample_effects) as E by (vm_compute; reflexivity).
  split; [exact E|exact (page_calls_are_serialised _ _ _ _ _ _ _ _ (sample_reachable 18) E)].
Defined.


Lemma session_calls_are_bound_witness : exists newer older, sample_effects = newer ++ sample_use 3 19 :: older /\
  bound older (lit "s1") 7 sample_act sample_caller 19 sample_approvals.
Proof.
  exists (take 3 sample_effects), (drop 4 sample_effects).
  assert (sample_effects = take 3 sample_effects ++ sample_use 3 19 :: drop 4 sample_effects) as E by (vm_compute; reflexivity).
  split; [exact E|exact (session_calls_are_bound _ _ _ _ _ _ _ _ _ _ _ _ _ _ _ (sample_reachable 18) E)].
Defined.

(** The second action may be sent because the first has not taken effect. *)
Lemma snapshot_acts_once_witness : exists newer older, sample_effects = newer ++ sample_use 3 19 :: older /\ EUsed 2 false ∈ older /\ EUsed 2 true ∉ older.
Proof.
  exists (take 3 sample_effects), (drop 4 sample_effects).
  assert (sample_effects = take 3 sample_effects ++ sample_use 3 19 :: drop 4 sample_effects) as E by (vm_compute; reflexivity).
  split; [exact E|]. apply (snapshot_acts_once _ _ _ _ _ _ _ _ (sample_reachable 18) E (lit "snap1") 2%nat 7%nat sample_act sample_caller (Some 42) 17 sample_approvals);
    [reflexivity| |reflexivity]. apply list_elem_of_lookup. exists 1%nat. vm_compute. reflexivity.
Defined.
