(* ===== verification/DevServerPool.v ===== *)
(** * Running development servers: dev_servers.py

    Servers are shared by key and stopped when nobody uses them.  [acquire] keeps
    the lock [_guard] across its awaits, so the lock is part of the state; every
    call is a task cut at its awaits, and [step] runs one segment.  What probes,
    the broker and processes answer, and when a process exits, are events.  The
    environment and the nonce of a new process are left out. *)
From S2P Require Import Prelude Utf8 PyStr Models Paths Database Json Approvals DevServers.

Open Scope Z_scope.

Definition SERVER_TIMEOUT_SECONDS : Z := 1800.

(** ** State *)

Record DevServerHandle := {
  dh_key : str; dh_project_id : str; dh_config : FrontendLaunchConfig; dh_owned : bool; dh_process : option nat; dh_references : Z;
}.
Record specification := {
  sp_project_root : str; sp_root_fingerprint : str; sp_working_directory : str; sp_script : str;
  sp_timeout_seconds : Z; sp_output_limit_bytes : Z; sp_external_working_directory_authorized : bool;
}.

(** Where [_stop_handle] waits: for the process after [terminate] and after
    [kill], for the readers of its output. *)
Inductive stop_stage := SNew | STerminated | SKilled | SReaders | SEnded (r : res unit).

Record acquire_info := { aq_project : Project; aq_config : FrontendLaunchConfig; aq_timeout : option Z }.
(** Where [acquire] waits. *)
Inductive acquire_stage :=
| ALook                                 (* for the lock *)
| AStop (stop : nat)                    (* for a stop that runs *)
| AEnter                                (* for the lock *)
| AProbeCurrent (h : nat)
| AStopping (h : nat) (st : stop_stage)
| AProbe
| AStarting
| AReadiness (h : nat) (deadline : Z)   (* for the probe *)
| ASleeping (h : nat) (deadline : Z)
| AGivesUp (stop : nat) (e : exn)
| AEnded (r : res nat).

Inductive task :=
| AcquireTask (i : acquire_info) (st : acquire_stage)
| ReleaseTask (h : nat) (st : option nat) (r : option (res bool))
| StopTask (h : nat) (st : stop_stage)
| CloseTask (st : option (list nat)) (r : option (res unit)).

Inductive effect :=
| EStart (p : nat) (key : str) (spec : specification)
| ETerminate (p : nat)
| EKill (p : nat).

(** [exited]: the processes whose [returncode] is set. *)
Record pool := {
  handles : gmap nat DevServerHandle;
  _servers : gmap str nat;
  _stopping : gmap str (nat * nat);
  _guard : option nat;
  exited : gset nat;
  tasks : gmap nat task;
  effects : list effect;
}.

Definition on_handles (f : gmap nat DevServerHandle -> gmap nat DevServerHandle) (s : pool) : pool :=
  {| handles := f (handles s); _servers := _servers s; _stopping := _stopping s; _guard := _guard s; exited := exited s; tasks := tasks s; effects := effects s |}.
Definition on_servers (f : gmap str nat -> gmap str nat) (s : pool) : pool :=
  {| handles := handles s; _servers := f (_servers s); _stopping := _stopping s; _guard := _guard s; exited := exited s; tasks := tasks s; effects := effects s |}.
Definition on_stopping (f : gmap str (nat * nat) -> gmap str (nat * nat)) (s : pool) : pool :=
  {| handles := handles s; _servers := _servers s; _stopping := f (_stopping s); _guard := _guard s; exited := exited s; tasks := tasks s; effects := effects s |}.
Definition set_guard (g : option nat) (s : pool) : pool :=
  {| handles := handles s; _servers := _servers s; _stopping := _stopping s; _guard := g; exited := exited s; tasks := tasks s; effects := effects s |}.
Definition on_exited (f : gset nat -> gset nat) (s : pool) : pool :=
  {| handles := handles s; _servers := _servers s; _stopping := _stopping s; _guard := _guard s; exited := f (exited s); tasks := tasks s; effects := effects s |}.
Definition goto (t : nat) (x : task) (s : pool) : pool :=
  {| handles := handles s; _servers := _servers s; _stopping := _stopping s; _guard := _guard s; exited := exited s; tasks := <[t := x]> (tasks s); effects := effects s |}.
Definition emit (e : effect) (s : pool) : pool :=
  {| handles := handles s; _servers := _servers s; _stopping := _stopping s; _guard := _guard s; exited := exited s; tasks := tasks s; effects := e :: effects s |}.

Definition new_task (s : pool) : nat := base.fresh (dom (tasks s) : gset nat).
Definition new_handle (s : pool) : nat := base.fresh (dom (handles s) : gset nat).

(** The process runs, as far as its [returncode] says. *)
Definition running (h : DevServerHandle) (s : pool) : option nat :=
  match dh_process h with Some p => if bool_decide (p ∈ exited s) then None else Some p | None => None end.

(** ** Stopping a server *)

Definition stop_failed : exn := AgentError "dev_server_stop_failed" true [].

(** [process.terminate()] and [process.kill()] may raise; how a wait ends. *)
Inductive wait := Returned | Failed | Interrupted.

Definition stop_readers (s : pool) : stop_stage * pool := (SReaders, s).
Definition stop_kill (p : nat) (killed : bool) (s : pool) : stop_stage * pool :=
  let s := emit (EKill p) s in if killed then (SKilled, s) else (SEnded (Err stop_failed), s).
Definition stop_begins (h : DevServerHandle) (terminated killed : bool) (s : pool) : stop_stage * pool :=
  match running h s with
  | Some p =>
      if dh_owned h then
        let s := emit (ETerminate p) s in
        if terminated then (STerminated, s) else stop_kill p killed s
      else stop_readers s
  | None => stop_readers s
  end.
(** [_wait_for_exit] has an answer: the exit counts only when the [returncode] is
    set. *)
Definition stop_waited (h : DevServerHandle) (st : stop_stage) (w : wait) (killed : bool) (s : pool) : stop_stage * pool :=
  match w with
  | Interrupted => (SEnded (Err CancelledError), s)
  | _ =>
      let exit := match w with Returned => negb (is_some (running h s)) | _ => false end in
      if exit then stop_readers s
      else match st, dh_process h with
           | STerminated, Some p => stop_kill p killed s
           | _, _ => (SEnded (Err stop_failed), s)
           end
  end.

Definition stop_ended (t : nat) (s : pool) : option (res unit) :=
  match tasks s !! t with Some (StopTask _ (SEnded r)) => Some r | _ => None end.
Definition stop_has_failed (t : nat) (s : pool) : bool := match stop_ended t s with Some (Err _) => true | _ => false end.
Definition stop_has_succeeded (t : nat) (s : pool) : bool := match stop_ended t s with Some (Ok _) => true | _ => false end.

Definition _start_stop_locked (h : nat) (s : pool) : nat * pool :=
  match handles s !! h with
  | Some hd => let t := new_task s in (t, on_stopping <[dh_key hd := (h, t)]> (goto t (StopTask h SNew) s))
  | None => (0%nat, s)
  end.
(** [completed], the callback of a stop that has ended. *)
Definition completed (t h : nat) (s : pool) : pool :=
  match handles s !! h with
  | Some hd => if stop_has_succeeded t s && bool_decide (snd <$> _stopping s !! dh_key hd = Some t) then on_stopping (delete (dh_key hd)) s else s
  | None => s
  end.

(** *** Output *)

(** One chunk of either stream for [_capture]: what is kept, whether it is all. *)
Definition _capture (kept : bytes * bool) (chunk : bytes) : bytes * bool :=
  let '(output, truncated) := kept in
  let remaining := MAX_SERVER_OUTPUT_BYTES - Z.of_nat (length output) in
  if remaining <=? 0 then (output, true)
  else (output ++ take (Z.to_nat remaining) chunk, truncated || (remaining <? Z.of_nat (length chunk))).

(** ** acquire *)

Definition acquire_key (i : acquire_info) : str :=
  project_id (aq_project i) ++ [COLON] ++ fc_working_relative (aq_config i) ++ [COLON] ++ fc_command (aq_config i) ++ [COLON] ++
  fc_base_url (aq_config i).
Definition launch_specification (i : acquire_info) : specification :=
  {| sp_project_root := root (aq_project i); sp_root_fingerprint := root_fingerprint (aq_project i);
     sp_working_directory := fc_working_directory (aq_config i); sp_script := fc_command (aq_config i);
     sp_timeout_seconds := SERVER_TIMEOUT_SECONDS; sp_output_limit_bytes := MAX_SERVER_OUTPUT_BYTES;
     sp_external_working_directory_authorized := false |}.

(** The end, outside the lock and under it. *)
Definition acquire_ends (t : nat) (i : acquire_info) (r : res nat) (s : pool) : pool := goto t (AcquireTask i (AEnded r)) s.
Definition acquire_leaves (t : nat) (i : acquire_info) (r : res nat) (s : pool) : pool := set_guard None (acquire_ends t i r s).

Definition acquire_looks (t : nat) (i : acquire_info) (s : pool) : pool :=
  match _stopping s !! acquire_key i with
  | Some (h, stop) =>
      if stop_has_succeeded stop s then goto t (AcquireTask i AEnter) (on_stopping (delete (acquire_key i)) s)
      else goto t (AcquireTask i (AStop stop)) s
  | None => goto t (AcquireTask i AEnter) s
  end.
(** [asyncio.shield] of a stop: its end, or the own cancellation. *)
Definition acquire_stop_seen (t : nat) (i : acquire_info) (stop : nat) (interrupted : bool) (s : pool) : pool :=
  if interrupted then acquire_ends t i (Err CancelledError) s
  else match stop_ended stop s with
       | Some (Ok _) => goto t (AcquireTask i ALook) s
       | Some (Err e) => acquire_ends t i (Err e) s
       | None => s
       end.

(** The previous server of the key is gone, or is stopped first. *)
Definition acquire_popped (t : nat) (i : acquire_info) (s : pool) : pool :=
  goto t (AcquireTask i AProbe) (on_servers (delete (acquire_key i)) s).
Definition acquire_stop_goes (t : nat) (i : acquire_info) (h : nat) (x : stop_stage * pool) : pool :=
  let '(st, s) := x in
  match st with
  | SEnded (Ok _) => acquire_popped t i s
  | SEnded (Err e) => acquire_leaves t i (Err e) s
  | _ => goto t (AcquireTask i (AStopping h st)) s
  end.
Definition acquire_replaces (t : nat) (i : acquire_info) (h : nat) (terminated killed : bool) (s : pool) : pool :=
  match handles s !! h with
  | Some hd => if dh_owned hd then acquire_stop_goes t i h (stop_begins hd terminated killed s) else acquire_popped t i s
  | None => s
  end.
Definition acquire_enters (t : nat) (i : acquire_info) (terminated killed : bool) (s : pool) : pool :=
  let s := set_guard (Some t) s in
  if bool_decide (is_Some (_stopping s !! acquire_key i)) then acquire_leaves t i (agent_error "project_busy") s
  else match _servers s !! acquire_key i with
       | Some h =>
           match handles s !! h with
           | Some hd => if negb (dh_owned hd) || is_some (running hd s) then goto t (AcquireTask i (AProbeCurrent h)) s
                        else acquire_replaces t i h terminated killed s
           | None => s
           end
       | None => goto t (AcquireTask i AProbe) s
       end.

Definition with_references (n : Z) (h : DevServerHandle) : DevServerHandle :=
  {| dh_key := dh_key h; dh_project_id := dh_project_id h; dh_config := dh_config h; dh_owned := dh_owned h; dh_process := dh_process h; dh_references := n |}.
Definition make_handle (i : acquire_info) (process : option nat) : DevServerHandle :=
  {| dh_key := acquire_key i; dh_project_id := project_id (aq_project i); dh_config := aq_config i; dh_owned := is_some process;
     dh_process := process; dh_references := 1 |}.
Definition add_handle (i : acquire_info) (process : option nat) (s : pool) : nat * pool :=
  let h := new_handle s in (h, on_servers <[acquire_key i := h]> (on_handles <[h := make_handle i process]> s)).

Definition acquire_probed_current (t : nat) (i : acquire_info) (h : nat) (r : res bool) (terminated killed : bool) (s : pool) : pool :=
  match r with
  | Ok true => acquire_leaves t i (Ok h) (on_handles (alter (fun hd => with_references (dh_references hd + 1) hd) h) s)
  | Ok false => acquire_replaces t i h terminated killed s
  | Err e => acquire_leaves t i (Err e) s
  end.
Definition acquire_probed (t : nat) (i : acquire_info) (r : res bool) (s : pool) : pool :=
  match r with
  | Ok true =>
      if bool_decide (fc_source (aq_config i) = AUTO_SOURCE) then acquire_leaves t i (agent_error "frontend_port_in_use") s
      else let '(h, s) := add_handle i None s in acquire_leaves t i (Ok h) s
  | Ok false => goto t (AcquireTask i AStarting) s
  | Err e => acquire_leaves t i (Err e) s
  end.

(** [except BaseException]: the stop of the new server runs on its own. *)
Definition acquire_gives_up (t : nat) (i : acquire_info) (h : nat) (e : exn) (s : pool) : pool :=
  let '(stop, s) := _start_stop_locked h (on_servers (delete (acquire_key i)) s) in
  goto t (AcquireTask i (AGivesUp stop e)) s.
(** The head of the loop of [_wait_until_ready]. *)
Definition readiness_loop (t : nat) (i : acquire_info) (h : nat) (deadline now : Z) (s : pool) : pool :=
  match handles s !! h with
  | Some hd =>
      if now <? deadline then
        if is_some (dh_process hd) && negb (is_some (running hd s)) then acquire_gives_up t i h (AgentError "dev_server_failed" false []) s
        else goto t (AcquireTask i (AReadiness h deadline)) s
      else acquire_gives_up t i h (AgentError "dev_server_timeout" false []) s
  | None => s
  end.
Definition readiness_timeout (default_timeout : Z) (timeout : option Z) : Z :=
  match timeout with Some x => Z.min (Z.max x 1000000) 120000000 | None => default_timeout end.
Definition acquire_started (default_timeout : Z) (t : nat) (i : acquire_info) (r : res nat) (now : Z) (s : pool) : pool :=
  match r with
  | Ok p =>
      let '(h, s) := add_handle i (Some p) (emit (EStart p (acquire_key i) (launch_specification i)) s) in
      readiness_loop t i h (now + readiness_timeout default_timeout (aq_timeout i)) now s
  | Err e => acquire_leaves t i (Err e) s
  end.
Definition acquire_readiness (t : nat) (i : acquire_info) (h : nat) (deadline : Z) (r : res bool) (s : pool) : pool :=
  match r with
  | Ok true => acquire_leaves t i (Ok h) s
  | Ok false => goto t (AcquireTask i (ASleeping h deadline)) s
  | Err e => acquire_gives_up t i h e s
  end.
Definition acquire_woken (t : nat) (i : acquire_info) (h : nat) (deadline : Z) (r : res unit) (now : Z) (s : pool) : pool :=
  match r with Ok _ => readiness_loop t i h deadline now s | Err e => acquire_gives_up t i h e s end.
Definition acquire_gave_up (t : nat) (i : acquire_info) (stop : nat) (e : exn) (interrupted : bool) (s : pool) : pool :=
  if interrupted then acquire_leaves t i (Err CancelledError) s
  else match stop_ended stop s with
       | Some (Ok _) => acquire_leaves t i (Err e) s
       | Some (Err e') => acquire_leaves t i (Err e') s
       | None => s
       end.

(** ** release and close *)

Definition release_ends (t h : nat) (r : res bool) (s : pool) : pool := goto t (ReleaseTask h None (Some r)) s.
Definition release_enters (t h : nat) (s : pool) : pool :=
  match handles s !! h with
  | None => s
  | Some hd =>
      let waits x := let '(stop, s) := x in goto t (ReleaseTask h (Some stop) None) s in
      let unused :=
        match _servers s !! dh_key hd with
        | Some h' =>
            if negb (h' =? h)%nat then release_ends t h (Ok false) s
            else
              let n := Z.max 0 (dh_references hd - 1) in
              let s := on_handles (alter (with_references n) h) s in
              if negb (n =? 0) then release_ends t h (Ok false) s
              else
                let s := on_servers (delete (dh_key hd)) s in
                if negb (dh_owned hd) then release_ends t h (Ok false) s else waits (_start_stop_locked h s)
        | None => release_ends t h (Ok false) s
        end in
      match _stopping s !! dh_key hd with
      | Some (h', stop) => if (h' =? h)%nat then (if stop_has_failed stop s then waits (_start_stop_locked h s) else waits (stop, s)) else unused
      | None => unused
      end
  end.
Definition release_seen (t h stop : nat) (interrupted : bool) (s : pool) : pool :=
  if interrupted then release_ends t h (Err CancelledError) s
  else match stop_ended stop s with
       | Some (Ok _) => release_ends t h (Ok true) s
       | Some (Err e) => release_ends t h (Err e) s
       | None => s
       end.

Fixpoint close_stopping (l : list (str * (nat * nat))) (s : pool) : list nat * pool :=
  match l with
  | [] => ([], s)
  | (_, (h, stop)) :: r =>
      let '(t, s) := if stop_has_failed stop s then _start_stop_locked h s else (stop, s) in
      let '(ts, s) := close_stopping r s in (t :: ts, s)
  end.
Fixpoint close_servers (l : list nat) (s : pool) : list nat * pool :=
  match l with
  | [] => ([], s)
  | h :: r =>
      if match handles s !! h with Some hd => dh_owned hd | None => false end then
        let '(t, s) := _start_stop_locked h s in
        let '(ts, s) := close_servers r s in (t :: ts, s)
      else close_servers r s
  end.
Definition close_enters (t : nat) (s : pool) : pool :=
  let servers := (map_to_list (_servers s)).*2 in
  let s := on_servers (fun _ => ∅) s in
  let '(ts, s) := close_stopping (map_to_list (_stopping s)) s in
  let '(ts', s) := close_servers servers s in
  goto t (CloseTask (Some (ts ++ ts')) None) s.
Definition close_seen (t : nat) (stops : list nat) (s : pool) : pool :=
  if forallb (fun stop => is_some (stop_ended stop s)) stops then
    goto t (CloseTask None (Some (if existsb (fun stop => stop_has_failed stop s) stops then Err stop_failed else Ok tt))) s
  else s.

(** ** The machine *)

Inductive event :=
| Acquire (i : acquire_info)
| Looks (t : nat)
| StopSeen (t : nat) (interrupted : bool)
| Enters (t : nat) (terminated killed : bool)
| GivesWay (t : nat)
| Probed (t : nat) (r : res bool) (terminated killed : bool)
| CurrentWaited (t : nat) (w : wait) (killed : bool)
| CurrentReaders (t : nat) (interrupted : bool)
| Spawned (t : nat) (r : res nat) (now : Z)
| Woken (t : nat) (r : res unit) (now : Z)
| Release (h : nat)
| Releases (t : nat)
| Close
| Closes (t : nat)
| StopBegins (t : nat) (terminated killed : bool)
| StopWaited (t : nat) (w : wait) (killed : bool)
| StopReadersDone (t : nat) (interrupted : bool)
| StopCompleted (t : nat)
| Exits (p : nat).

Definition launched (p : nat) (s : pool) : bool := existsb (fun e => match e with EStart q _ _ => (q =? p)%nat | _ => false end) (effects s).
Definition guard_free (s : pool) : bool := bool_decide (_guard s = None).
Definition readers_end (interrupted : bool) : stop_stage := SEnded (if interrupted then Err CancelledError else Ok tt).
Definition handle_of (h : nat) (s : pool) (k : DevServerHandle -> pool) : pool := match handles s !! h with Some hd => k hd | None => s end.

(** An event that cannot happen now changes nothing; the broker gives every
    process a name of its own. *)
Definition step (default_timeout : Z) (s : pool) (e : event) : pool :=
  match e with
  | Acquire i => goto (new_task s) (AcquireTask i ALook) s
  | Looks t =>
      match tasks s !! t with
      | Some (AcquireTask i ALook) => if guard_free s then acquire_looks t i s else s
      | _ => s
      end
  | StopSeen t interrupted =>
      match tasks s !! t with
      | Some (AcquireTask i (AStop stop)) => acquire_stop_seen t i stop interrupted s
      | Some (AcquireTask i (AGivesUp stop e)) => acquire_gave_up t i stop e interrupted s
      | Some (ReleaseTask h (Some stop) None) => release_seen t h stop interrupted s
      | Some (CloseTask (Some stops) None) => if interrupted then goto t (CloseTask None (Some (Err CancelledError))) s else close_seen t stops s
      | _ => s
      end
  | Enters t terminated killed =>
      match tasks s !! t with
      | Some (AcquireTask i AEnter) => if guard_free s then acquire_enters t i terminated killed s else s
      | _ => s
      end
  | GivesWay t =>
      match tasks s !! t with
      | Some (AcquireTask i ALook) | Some (AcquireTask i AEnter) => acquire_ends t i (Err CancelledError) s
      | Some (ReleaseTask h None None) => release_ends t h (Err CancelledError) s
      | Some (CloseTask None None) => goto t (CloseTask None (Some (Err CancelledError))) s
      | _ => s
      end
  | Probed t r terminated killed =>
      match tasks s !! t with
      | Some (AcquireTask i (AProbeCurrent h)) => acquire_probed_current t i h r terminated killed s
      | Some (AcquireTask i AProbe) => acquire_probed t i r s
      | Some (AcquireTask i (AReadiness h deadline)) => acquire_readiness t i h deadline r s
      | _ => s
      end
  | CurrentWaited t w killed =>
      match tasks s !! t with
      | Some (AcquireTask i (AStopping h st)) =>
          match st with
          | STerminated | SKilled => handle_of h s (fun hd => acquire_stop_goes t i h (stop_waited hd st w killed s))
          | _ => s
          end
      | _ => s
      end
  | CurrentReaders t interrupted =>
      match tasks s !! t with
      | Some (AcquireTask i (AStopping h SReaders)) => acquire_stop_goes t i h (readers_end interrupted, s)
      | _ => s
      end
  | Spawned t r now =>
      match tasks s !! t with
      | Some (AcquireTask i AStarting) =>
          if match r with Ok p => launched p s || bool_decide (p ∈ exited s) | Err _ => false end then s else acquire_started default_timeout t i r now s
      | _ => s
      end
  | Woken t r now =>
      match tasks s !! t with
      | Some (AcquireTask i (ASleeping h deadline)) => acquire_woken t i h deadline r now s
      | _ => s
      end
  | Release h => if bool_decide (is_Some (handles s !! h)) then goto (new_task s) (ReleaseTask h None None) s else s
  | Releases t =>
      match tasks s !! t with
      | Some (ReleaseTask h None None) => if guard_free s then release_enters t h s else s
      | _ => s
      end
  | Close => goto (new_task s) (CloseTask None None) s
  | Closes t =>
      match tasks s !! t with
      | Some (CloseTask None None) => if guard_free s then close_enters t s else s
      | _ => s
      end
  | StopBegins t terminated killed =>
      match tasks s !! t with
      | Some (StopTask h SNew) => handle_of h s (fun hd => let '(st, s) := stop_begins hd terminated killed s in goto t (StopTask h st) s)
      | _ => s
      end
  | StopWaited t w killed =>
      match tasks s !! t with
      | Some (StopTask h ((STerminated | SKilled) as st)) => handle_of h s (fun hd => let '(st, s) := stop_waited hd st w killed s in goto t (StopTask h st) s)
      | _ => s
      end
  | StopReadersDone t interrupted =>
      match tasks s !! t with
      | Some (StopTask h SReaders) => goto t (StopTask h (readers_end interrupted)) s
      | _ => s
      end
  | StopCompleted t =>
      match tasks s !! t with
      | Some (StopTask h (SEnded _)) => completed t h s
      | _ => s
      end
  | Exits p => on_exited (fun x => {[p]} ∪ x) s
  end.

Definition initial : pool :=
  {| handles := ∅; _servers := ∅; _stopping := ∅; _guard := None; exited := ∅; tasks := ∅; effects := [] |}.
Definition run (default_timeout : Z) (s : pool) (l : list event) : pool := foldl (step default_timeout) s l.

(** *** The output kept *)

(** The chunks, in the order they came, up to the limit. *)
Lemma capture_is_prefix (chunks : list bytes) : Forall (fun c : bytes => c <> []) chunks ->
  fold_left _capture chunks ([], false) =
  (take (Z.to_nat MAX_SERVER_OUTPUT_BYTES) (concat chunks), MAX_SERVER_OUTPUT_BYTES <? Z.of_nat (length (concat chunks))).
Proof.
  induction chunks as [|c chunks IH] using rev_ind; intros H; [reflexivity|]. apply Forall_app in H as [H Hc]. apply Forall_cons in Hc as [Hc _].
  rewrite fold_left_app, (IH H), concat_app. cbn [fold_left concat]. rewrite app_nil_r, length_app. set (l := concat chunks).
  assert (0 < Z.of_nat (length c)) by (destruct c; [done|cbn; lia]). unfold _capture. rewrite length_take.
  assert (0 <= MAX_SERVER_OUTPUT_BYTES) by done. clear IH. generalize dependent MAX_SERVER_OUTPUT_BYTES. intros m Hm.
  destruct (Z.leb_spec (m - Z.of_nat (Z.to_nat m `min` length l)) 0) as [Hle|Hgt].
  - rewrite take_app_le by lia. assert (m <? Z.of_nat (length l + length c) = true) as -> by (apply Z.ltb_lt; lia). done.
  - rewrite Nat.min_r by lia. rewrite take_app, (take_ge l) by lia. assert (m <? Z.of_nat (length l) = false) as -> by (apply Z.ltb_ge; lia). cbn [orb].
    assert (Z.to_nat (m - Z.of_nat (length l)) = Z.to_nat m - length l)%nat as -> by lia.
    assert ((m - Z.of_nat (length l) <? Z.of_nat (length c)) = (m <? Z.of_nat (length l + length c))) as ->; [|done].
    destruct (Z.ltb_spec (m - Z.of_nat (length l)) (Z.of_nat (length c))), (Z.ltb_spec m (Z.of_nat (length l + length c))); lia || done.
Qed.
