(* ===== verification/DevServerInvariant.v ===== *)
(** * No development server is lost

    Every event of [DevServerPool] keeps the tables, the lock and the stages of
    its callers in agreement; so a process that runs is always in a table. *)
From S2P Require Import Prelude Utf8 PyStr Models Paths Database Json Approvals DevServers DevServerPool.

Open Scope Z_scope.

(** ** What every history keeps *)

(** The process of the handle has exited. *)
Definition gone (s : pool) (h : nat) : Prop := forall hd p, handles s !! h = Some hd -> dh_process hd = Some p -> p ∈ exited s.

(** [l]: servers on their way from one table to the other. *)
Record base (l : list nat) (s : pool) : Prop := {
  b_server : forall k h, _servers s !! k = Some h -> exists hd, handles s !! h = Some hd /\ dh_key hd = k;
  b_stopping : forall k h t, _stopping s !! k = Some (h, t) -> exists hd st, handles s !! h = Some hd /\ dh_key hd = k /\ tasks s !! t = Some (StopTask h st);
  b_apart : forall k h, _servers s !! k = Some h -> _stopping s !! k = None;
  b_stop : forall t h st, tasks s !! t = Some (StopTask h st) -> is_Some (handles s !! h) /\ match st with SReaders | SEnded (Ok _) => gone s h | _ => True end;
  b_process : forall h hd p, handles s !! h = Some hd -> dh_process hd = Some p -> exists spec, EStart p (dh_key hd) spec ∈ effects s;
  b_owned : forall h hd, handles s !! h = Some hd -> dh_owned hd = is_some (dh_process hd);
  b_live : forall p k spec, EStart p k spec ∈ effects s -> p ∉ exited s -> exists h hd, handles s !! h = Some hd /\ dh_process hd = Some p /\ dh_key hd = k /\
    (_servers s !! k = Some h \/ (exists t, _stopping s !! k = Some (h, t)) \/ h ∈ l);
  b_kill : forall p, ETerminate p ∈ effects s \/ EKill p ∈ effects s -> exists k spec, EStart p k spec ∈ effects s;
  b_pending : forall h, h ∈ l -> exists hd, handles s !! h = Some hd /\ _servers s !! dh_key hd = None /\ _stopping s !! dh_key hd = None;
  b_distinct : forall h h' hd hd', h ∈ l -> h' ∈ l -> handles s !! h = Some hd -> handles s !! h' = Some hd' -> dh_key hd = dh_key hd' -> h = h';
  b_nodup : NoDup l;
}.

Definition guarded (st : acquire_stage) : bool :=
  match st with AProbeCurrent _ | AStopping _ _ | AProbe | AStarting | AReadiness _ _ | ASleeping _ _ | AGivesUp _ _ => true | _ => false end.
(** What a caller knows while it has the lock. *)
Definition stage_ok (s : pool) (i : acquire_info) (st : acquire_stage) : Prop :=
  match st with
  | AProbeCurrent h | AReadiness h _ | ASleeping h _ => _servers s !! acquire_key i = Some h
  | AStopping h st => _servers s !! acquire_key i = Some h /\ match st with SReaders => gone s h | SEnded _ => False | _ => True end
  | AProbe | AStarting => _servers s !! acquire_key i = None /\ _stopping s !! acquire_key i = None
  | _ => True
  end.
Definition holds (s : pool) : Prop := forall t i st, tasks s !! t = Some (AcquireTask i st) -> guarded st = true -> _guard s = Some t /\ stage_ok s i st.
Definition sound (s : pool) : Prop := base [] s /\ holds s.

(** *** Frames *)

Ltac fields := cbn [handles _servers _stopping _guard exited tasks effects on_handles on_servers on_stopping set_guard on_exited goto emit] in *.

Definition emits (es : list effect) (s : pool) : pool :=
  {| handles := handles s; _servers := _servers s; _stopping := _stopping s; _guard := _guard s; exited := exited s; tasks := tasks s; effects := es ++ effects s |}.

Lemma base_goto l s t x : base l s -> (forall h st, tasks s !! t = Some (StopTask h st) -> exists st', x = StopTask h st') ->
  (forall h st, x = StopTask h st -> is_Some (handles s !! h) /\ match st with SReaders | SEnded (Ok _) => gone s h | _ => True end) -> base l (goto t x s).
Proof.
  intros [B1 B2 B3 B4 B5 B6 B7 B8 B9 B10 B11] Ht Hx. split; fields; try done.
  - intros k h u (hd & st & H1 & H2 & H3)%B2. destruct (decide (t = u)) as [->|Hne].
    + destruct (Ht _ _ H3) as [st' ->]. exists hd, st'. by rewrite lookup_insert_eq.
    + exists hd, st. by rewrite lookup_insert_ne.
  - intros u h st. destruct (decide (t = u)) as [->|Hne]; [rewrite lookup_insert_eq; intros [= ->]; by apply Hx|rewrite lookup_insert_ne by done; apply B4].
Qed.
Lemma base_guard l s g : base l s -> base l (set_guard g s).
Proof. by intros []. Qed.
Lemma base_emits l s es h hd : base l s -> handles s !! h = Some hd ->
  (forall e, e ∈ es -> exists p, dh_process hd = Some p /\ (e = ETerminate p \/ e = EKill p)) -> base l (emits es s).
Proof.
  intros [B1 B2 B3 B4 B5 B6 B7 B8 B9 B10 B11] Hh He. split; try done; cbn [emits effects handles _servers _stopping exited].
  - intros h' hd' p H1 H2. destruct (B5 _ _ _ H1 H2) as [spec Hs]. exists spec. set_solver.
  - intros p k spec [Hin|Hin]%elem_of_app; [|by apply (B7 p k spec)]. destruct (He _ Hin) as (q & _ & [E|E]); discriminate E.
  - intros p Hp. assert ((exists q, dh_process hd = Some q /\ p = q) \/ (ETerminate p ∈ effects s \/ EKill p ∈ effects s)) as [(q & Hq & ->)|Hp'].
    { rewrite !elem_of_app in Hp. destruct Hp as [[Hp|Hp]|[Hp|Hp]]; try (right; tauto); left; destruct (He _ Hp) as (q & Hq & [E|E]); try discriminate E; injection E as ->; eauto. }
    + destruct (B5 _ _ _ Hh Hq) as [spec Hs]. exists (dh_key hd), spec. set_solver.
    + destruct (B8 p Hp') as (k & spec & Hs). exists k, spec. set_solver.
Qed.
Lemma base_references l s h f : base l s -> base l (on_handles (alter (fun hd => with_references (f hd) hd) h) s).
Proof.
  intros [B1 B2 B3 B4 B5 B6 B7 B8 B9 B10 B11]. set (m := alter _ _).
  assert (forall h' hd, handles s !! h' = Some hd -> exists hd', m (handles s) !! h' = Some hd' /\ dh_key hd' = dh_key hd /\ dh_process hd' = dh_process hd /\ dh_owned hd' = dh_owned hd) as Hto.
  { intros h' hd Hh. unfold m. destruct (decide (h = h')) as [->|Hne]; [rewrite lookup_alter_eq, Hh|rewrite lookup_alter_ne by done]; eauto. }
  assert (forall h' hd', m (handles s) !! h' = Some hd' -> exists hd, handles s !! h' = Some hd /\ dh_key hd' = dh_key hd /\ dh_process hd' = dh_process hd /\ dh_owned hd' = dh_owned hd) as Hfrom.
  { intros h' hd' Hh. destruct (handles s !! h') as [hd|] eqn:E; [|unfold m in Hh; by rewrite (proj2 (lookup_alter_None _ _ _ _) E) in Hh].
    destruct (Hto h' hd E) as (hd1 & Hh1 & H). rewrite Hh in Hh1. injection Hh1 as <-. eauto. }
  assert (forall h', gone s h' -> gone (on_handles m s) h') as Hgone.
  { intros h' Hg hd p Hh Hp. destruct (Hfrom _ _ Hh) as (hd0 & Hh0 & _ & E & _). apply (Hg hd0); congruence. }
  split; fields; try done.
  - intros k h' (hd & Hh & Hk)%B1. destruct (Hto _ _ Hh) as (hd' & Hh' & E & _). exists hd'. split; congruence.
  - intros k h' t (hd & st & Hh & Hk & Ht)%B2. destruct (Hto _ _ Hh) as (hd' & Hh' & E & _). exists hd', st. split_and!; congruence.
  - intros t h' st Ht. destruct (B4 t h' st Ht) as [[hd Hh] H4]. destruct (Hto _ _ Hh) as (hd' & Hh' & _). split; [by eexists|]. destruct st as [| | | |[]]; auto.
  - intros h' hd' p Hh' Hp. destruct (Hfrom _ _ Hh') as (hd & Hh & E & E' & _). rewrite E. apply (B5 h' hd); congruence.
  - intros h' hd' Hh'. destruct (Hfrom _ _ Hh') as (hd & Hh & _ & E & E'). rewrite E, E'. by apply (B6 h').
  - intros p k spec Hin Hn. destruct (B7 p k spec Hin Hn) as (h' & hd & Hh & Hp & Hk & Hd). destruct (Hto _ _ Hh) as (hd' & Hh' & E & E' & _).
    exists h', hd'. split_and!; congruence || done.
  - intros h' Hin. destruct (B9 h' Hin) as (hd & Hh & H1 & H2). destruct (Hto _ _ Hh) as (hd' & Hh' & E & _). exists hd'. rewrite E. done.
  - intros h1 h2 hd1 hd2 Hi1 Hi2 H1 H2 E. destruct (Hfrom _ _ H1) as (x1 & Hx1 & E1 & _), (Hfrom _ _ H2) as (x2 & Hx2 & E2 & _). apply (B10 h1 h2 x1 x2); congruence.
Qed.
(** A server that is gone is forgotten. *)
Lemma base_forget s k : base [] s -> (forall h, _servers s !! k = Some h -> gone s h) -> base [] (on_servers (delete k) s).
Proof.
  intros [B1 B2 B3 B4 B5 B6 B7 B8 B9 B10 B11] Hg. split; fields; try done.
  - intros k' h [_ Hk]%lookup_delete_Some. by apply B1.
  - intros k' h [_ Hk]%lookup_delete_Some. by eapply B3.
  - intros p k' spec Hin Hn. destruct (B7 p k' spec Hin Hn) as (h & hd & Hh & Hp & Hk & Hd). exists h, hd. split_and!; try done.
    destruct Hd as [Hd|Hd]; [|by right]. left. rewrite lookup_delete_ne; [done|]. intros <-. by apply Hn, (Hg h Hd hd).
  - intros h Hin. by apply not_elem_of_nil in Hin.
Qed.
Lemma base_forget_stopping s k : base [] s -> (forall h t, _stopping s !! k = Some (h, t) -> gone s h) -> base [] (on_stopping (delete k) s).
Proof.
  intros [B1 B2 B3 B4 B5 B6 B7 B8 B9 B10 B11] Hg. split; fields; try done.
  - intros k' h t [_ Hk]%lookup_delete_Some. by apply B2.
  - intros k' h Hk. destruct (decide (k = k')) as [->|]; [by rewrite lookup_delete_eq|rewrite lookup_delete_ne by done; by eapply B3].
  - intros p k' spec Hin Hn. destruct (B7 p k' spec Hin Hn) as (h & hd & Hh & Hp & Hk & Hd). exists h, hd. split_and!; try done.
    destruct Hd as [Hd|[[t Hd]|Hd]]; [by left| |by right; right]. right. left. exists t. rewrite lookup_delete_ne; [done|]. intros <-. by apply Hn, (Hg h t Hd hd).
  - intros h Hin. by apply not_elem_of_nil in Hin.
Qed.
(** A server leaves the table: it is pending. *)
Lemma base_take l s h hd : base l s -> handles s !! h = Some hd -> _servers s !! dh_key hd = Some h -> base (h :: l) (on_servers (delete (dh_key hd)) s).
Proof.
  intros [B1 B2 B3 B4 B5 B6 B7 B8 B9 B10 B11] Hh Hs.
  assert (forall h', h' ∈ l -> forall hd', handles s !! h' = Some hd' -> dh_key hd' <> dh_key hd) as Hother.
  { intros h' Hin hd' Hh' E. destruct (B9 h' Hin) as (hd1 & Hh1 & H1 & _). simplify_eq. rewrite E in H1. congruence. }
  split; fields; try done.
  - intros k' h' [_ Hk]%lookup_delete_Some. by apply B1.
  - intros k' h' [_ Hk]%lookup_delete_Some. by eapply B3.
  - intros p k' spec Hin Hn. destruct (B7 p k' spec Hin Hn) as (h' & hd' & Hh' & Hp & Hk & Hd). exists h', hd'. split_and!; try done.
    destruct Hd as [Hd|[Hd|Hd]]; [|by right; left|right; right; by right]. destruct (decide (dh_key hd = k')) as [<-|Hne].
    + right. right. simplify_eq. left.
    + left. by rewrite lookup_delete_ne.
  - intros h' [->|Hin]%elem_of_cons.
    + exists hd. split_and!; [done|apply lookup_delete_eq|by eapply B3].
    + destruct (B9 h' Hin) as (hd' & Hh' & H1 & H2). exists hd'. split_and!; try done. rewrite lookup_delete_ne; [done|]. intros E. by eapply Hother.
  - intros h1 h2 hd1 hd2 [->|Hi1]%elem_of_cons [->|Hi2]%elem_of_cons H1 H2 E; [done| | |by eapply B10]; exfalso; simplify_eq.
    + by apply (Hother h2 Hi2 hd2).
    + by apply (Hother h1 Hi1 hd1).
  - constructor; [|done]. intros Hin. by apply (Hother h Hin hd).
Qed.
Lemma new_task_fresh s : tasks s !! new_task s = None.
Proof. unfold new_task. apply not_elem_of_dom, is_fresh. Qed.
(** A stop begins, of a pending server or again. *)
Lemma base_start_stop l s h hd : base l s -> handles s !! h = Some hd -> h ∉ l -> (exists t, _stopping s !! dh_key hd = Some (h, t)) -> base l (_start_stop_locked h s).2.
Proof.
  intros Hb Hh Hn [t0 Ht0]. unfold _start_stop_locked. rewrite Hh. cbn [snd].
  assert (base l (goto (new_task s) (StopTask h SNew) s)) as [B1 B2 B3 B4 B5 B6 B7 B8 B9 B10 B11].
  { apply base_goto; [done| |intros ? ? [= <- <-]; eauto]. intros ? ? E. by rewrite new_task_fresh in E. }
  split; fields; try done.
  - intros k h' t. rewrite lookup_insert_Some. intros [[<- [= <- <-]]|[_ H]]; [|by apply B2]. exists hd, SNew. by rewrite lookup_insert_eq.
  - intros k h' Hk. rewrite lookup_insert_ne; [by eapply B3|]. intros <-. apply B3 in Hk. congruence.
  - intros p k spec Hin Hx. destruct (B7 p k spec Hin Hx) as (h' & hd' & Hh' & Hp & Hk & Hd). exists h', hd'. split_and!; try done.
    destruct Hd as [Hd|[[t Hd]|Hd]]; [by left| |by right; right]. right. left. destruct (decide (dh_key hd = k)) as [<-|Hne]; [|exists t; by rewrite lookup_insert_ne].
    rewrite lookup_insert_eq. rewrite Ht0 in Hd. injection Hd as -> _. by eexists.
  - intros h' Hin. destruct (B9 h' Hin) as (hd' & Hh' & H1 & H2). exists hd'. split_and!; try done. rewrite lookup_insert_ne; [done|]. intros E. rewrite <-E in H2. congruence.
Qed.
Lemma base_start_pending l s h : base (h :: l) s -> base l (_start_stop_locked h s).2.
Proof.
  intros Hb. destruct (b_pending _ _ Hb h ltac:(left)) as (hd & Hh & Hs & Hst). unfold _start_stop_locked. rewrite Hh. cbn [snd].
  assert (base (h :: l) (goto (new_task s) (StopTask h SNew) s)) as [B1 B2 B3 B4 B5 B6 B7 B8 B9 B10 B11].
  { apply base_goto; [done| |intros ? ? [= <- <-]; eauto]. intros ? ? E. by rewrite new_task_fresh in E. }
  apply NoDup_cons in B11 as [Hni Hnd]. split; fields; try done.
  - intros k h' t. rewrite lookup_insert_Some. intros [[<- [= <- <-]]|[_ H]]; [|by apply B2]. exists hd, SNew. by rewrite lookup_insert_eq.
  - intros k h' Hk. rewrite lookup_insert_ne; [by eapply B3|]. congruence.
  - intros p k spec Hin Hx. destruct (B7 p k spec Hin Hx) as (h' & hd' & Hh' & Hp & Hk & Hd). exists h', hd'. split_and!; try done.
    destruct Hd as [Hd|[[t Hd]|[->|Hd]%elem_of_cons]]; [by left| | |by right; right]; right; left.
    + exists t. rewrite lookup_insert_ne; [done|]. congruence.
    + simplify_eq. rewrite lookup_insert_eq. by eexists.
  - intros h' Hin. destruct (B9 h' ltac:(by right)) as (hd' & Hh' & H1 & H2). exists hd'. split_and!; try done. rewrite lookup_insert_ne; [done|]. intros E.
    assert (h = h') as <- by (apply (B10 h h' hd hd'); [left|by right|done|done|done]). done.
  - intros h1 h2 hd1 hd2 Hi1 Hi2. apply B10; by right.
Qed.

(** *** Callers under the lock *)

(** Only [t] may have the lock. *)
Definition alone (t : nat) (s : pool) : Prop := forall u i st, tasks s !! u = Some (AcquireTask i st) -> guarded st = true -> u = t.
Definition quiet (s : pool) : Prop := forall u i st, tasks s !! u = Some (AcquireTask i st) -> guarded st = false.

Lemma holds_alone s t : holds s -> _guard s = None \/ _guard s = Some t -> alone t s.
Proof. intros H Hg u i st Hu Hst. destruct (H _ _ _ Hu Hst) as [E _]. destruct Hg; congruence. Qed.
Lemma holds_quiet s : holds s -> _guard s = None -> quiet s.
Proof. intros H Hg u i st Hu. destruct (guarded st) eqn:Hst; [|done]. destruct (H _ _ _ Hu Hst) as [E _]. congruence. Qed.
Lemma quiet_holds s : quiet s -> holds s.
Proof. intros H t i st Ht Hst. rewrite (H _ _ _ Ht) in Hst. done. Qed.
Definition unguarded (x : task) : Prop := match x with AcquireTask _ st => guarded st = false | _ => True end.
Lemma goto_quiet s t x : quiet s -> unguarded x -> quiet (goto t x s).
Proof.
  intros H Hx u i st. fields. destruct (decide (t = u)) as [->|Hne]; [rewrite lookup_insert_eq; by intros [= ->]|rewrite lookup_insert_ne by done; apply H].
Qed.
Lemma alone_goto s t u x : alone t s -> unguarded x \/ u = t -> alone t (goto u x s).
Proof.
  intros H Hx w i st. fields. destruct (decide (u = w)) as [->|Hne]; [rewrite lookup_insert_eq|rewrite lookup_insert_ne by done; apply H].
  intros [= ->] Hst. destruct Hx as [Hx|]; [|done]. cbn in Hx. congruence.
Qed.
Lemma holds_goto s t x : holds s -> unguarded x -> holds (goto t x s).
Proof.
  intros H Hx u i st. fields. destruct (decide (t = u)) as [->|Hne]; [rewrite lookup_insert_eq; intros [= ->] Hst; cbn in Hx; congruence|].
  rewrite lookup_insert_ne by done. apply H.
Qed.

(** The task is a call of [acquire], so it is not a stop. *)
Definition acquiring (t : nat) (s : pool) : Prop := exists i st, tasks s !! t = Some (AcquireTask i st).
Lemma base_acquire l s t i st : base l s -> acquiring t s -> base l (goto t (AcquireTask i st) s).
Proof. intros Hb (j & st' & Ht). apply base_goto; [done| |done]. intros h st0 E. congruence. Qed.

(** [t] has the lock and is at work. *)
Record mine (t : nat) (i : acquire_info) (s : pool) : Prop := {
  mi_base : base [] s; mi_alone : alone t s; mi_task : acquiring t s; mi_guard : _guard s = Some t;
}.
Lemma leaves_sound t i r s : mine t i s -> sound (acquire_leaves t i r s).
Proof.
  intros [Hb Ha Ht Hg]. split; [apply base_guard; by apply base_acquire|]. apply quiet_holds. intros u j st. unfold acquire_leaves, acquire_ends. fields.
  destruct (decide (t = u)) as [->|Hne]; [rewrite lookup_insert_eq; by intros [= <- <-]|rewrite lookup_insert_ne by done].
  intros Hu. destruct (guarded st) eqn:Hst; [|done]. by destruct Hne; rewrite (Ha _ _ _ Hu).
Qed.
Lemma stays_sound t i st s : mine t i s -> stage_ok s i st -> sound (goto t (AcquireTask i st) s).
Proof.
  intros [Hb Ha Ht Hg] Hst. split; [by apply base_acquire|]. intros u j st'. fields.
  destruct (decide (t = u)) as [->|Hne]; [rewrite lookup_insert_eq; intros [= <- <-] _; by split|rewrite lookup_insert_ne by done].
  intros Hu Hgu. by destruct Hne; rewrite (Ha _ _ _ Hu).
Qed.
Lemma mine_now t i st s : sound s -> tasks s !! t = Some (AcquireTask i st) -> guarded st = true -> mine t i s /\ stage_ok s i st.
Proof.
  intros [Hb Hh] Ht Hst. destruct (Hh _ _ _ Ht Hst) as [Hg Hok]. split; [|done]. split; [done| |by eexists _, _|done]. apply holds_alone; auto.
Qed.

Lemma running_none hd s h : handles s !! h = Some hd -> running hd s = None -> gone s h.
Proof. unfold running. intros Hh Hr hd' p Hh' Hp. simplify_eq. rewrite Hp in Hr. by case_bool_decide. Qed.
Lemma unowned_gone s h hd : base [] s -> handles s !! h = Some hd -> dh_owned hd = false -> gone s h.
Proof. intros Hb Hh Ho hd' p Hh' Hp. simplify_eq. rewrite (b_owned _ _ Hb _ _ Hh), Hp in Ho. done. Qed.

Definition kills (hd : DevServerHandle) (es : list effect) : Prop := forall e, e ∈ es -> exists p, dh_process hd = Some p /\ (e = ETerminate p \/ e = EKill p).
(** What a stop has found out when it goes on. *)
Definition stop_goes (s : pool) (h : nat) (st : stop_stage) : Prop := match st with SReaders | SEnded (Ok _) => gone s h | _ => True end.
Lemma running_some hd s p : running hd s = Some p -> dh_process hd = Some p.
Proof. unfold running. destruct (dh_process hd) as [q|]; [|done]. by case_bool_decide. Qed.
Lemma stop_kill_spec hd p killed s : dh_process hd = Some p ->
  exists st es, stop_kill p killed s = (st, emits es s) /\ kills hd es /\ (forall h, stop_goes s h st) /\ st <> SEnded (Ok tt) /\ st <> SReaders.
Proof.
  intros Hp. exists (if killed then SKilled else SEnded (Err stop_failed)), [EKill p]. split; [by destruct killed|]. split; [|by destruct killed].
  intros e ->%list_elem_of_singleton. eauto.
Qed.
Lemma stop_begins_spec hd h terminated killed s : handles s !! h = Some hd ->
  exists st es, stop_begins hd terminated killed s = (st, emits es s) /\ kills hd es /\ (dh_owned hd = true -> stop_goes s h st).
Proof.
  intros Hh. unfold stop_begins. assert (s = emits [] s) as Es by by destruct s.
  destruct (running hd s) as [p|] eqn:Hr.
  - pose proof (running_some _ _ _ Hr) as Hp. destruct (dh_owned hd); [|exists SReaders, []; split; [by rewrite <-Es|]; split; [by intros ? ?%not_elem_of_nil|done]].
    destruct terminated.
    + exists STerminated, [ETerminate p]. split; [done|]. split; [|done]. intros e ->%list_elem_of_singleton. eauto.
    + exists (if killed then SKilled else SEnded (Err stop_failed)), [EKill p; ETerminate p]. split; [by destruct killed|]. split; [|by destruct killed].
      intros e [->| ->%list_elem_of_singleton]%elem_of_cons; eauto.
  - exists SReaders, []. split; [by rewrite <-Es|]. split; [by intros ? ?%not_elem_of_nil|]. intros _. by apply (running_none hd).
Qed.
Lemma stop_waited_spec hd h st w killed s : handles s !! h = Some hd ->
  exists st' es, stop_waited hd st w killed s = (st', emits es s) /\ kills hd es /\ stop_goes s h st'.
Proof.
  intros Hh. unfold stop_waited. assert (s = emits [] s) as Es by by destruct s.
  assert (forall st', stop_goes s h st' -> exists st1 es, (st', s) = (st1, emits es s) /\ kills hd es /\ stop_goes s h st1) as Hstay.
  { intros st' H. exists st', []. split; [by rewrite <-Es|]. split; [by intros ? ?%not_elem_of_nil|done]. }
  assert (forall r : res unit, r <> Ok tt -> stop_goes s h (SEnded r)) as Hend by (intros [[]|]; done).
  destruct w; [destruct (is_some (running hd s)) eqn:Hr; cbn [negb]| |].
  - destruct st; try (apply Hstay; by apply Hend). destruct (dh_process hd) as [p|] eqn:Hp; [|apply Hstay; by apply Hend].
    destruct (stop_kill_spec hd p killed s Hp) as (st' & es & -> & Hk & Hg & _). exists st', es. auto.
  - apply Hstay. apply (running_none hd); [done|]. by destruct (running hd s).
  - destruct st; try (apply Hstay; by apply Hend). destruct (dh_process hd) as [p|] eqn:Hp; [|apply Hstay; by apply Hend].
    destruct (stop_kill_spec hd p killed s Hp) as (st' & es & -> & Hk & Hg & _). exists st', es. auto.
  - apply Hstay. by apply Hend.
Qed.

Lemma mine_emits t i s h hd es : mine t i s -> handles s !! h = Some hd -> kills hd es -> mine t i (emits es s).
Proof. intros [Hb Ha Ht Hg] Hh Hk. split; [by apply (base_emits _ _ _ h hd)|done..]. Qed.

Lemma popped_sound t i s : mine t i s -> _stopping s !! acquire_key i = None -> (forall h, _servers s !! acquire_key i = Some h -> gone s h) -> sound (acquire_popped t i s).
Proof.
  intros [Hb Ha Ht Hg] Hst Hgone. apply stays_sound; [split; [by apply base_forget|done..]|]. split; fields; [apply lookup_delete_eq|done].
Qed.
Lemma stop_goes_sound t i h st s : mine t i s -> _servers s !! acquire_key i = Some h -> stop_goes s h st -> sound (acquire_stop_goes t i h (st, s)).
Proof.
  intros Hm Hs Hg. assert (_stopping s !! acquire_key i = None) as Hst by (eapply b_apart; [apply Hm|done]). destruct st as [| | | |[|]]; cbn.
  1-4: by apply stays_sound; [|split].
  - apply popped_sound; try done. intros h' Hs'. by simplify_eq.
  - by apply leaves_sound.
Qed.
Lemma replaces_sound t i h terminated killed s : mine t i s -> _servers s !! acquire_key i = Some h -> sound (acquire_replaces t i h terminated killed s).
Proof.
  intros Hm Hs. pose proof (b_server _ _ (mi_base _ _ _ Hm) _ _ Hs) as (hd & Hh & Hk). unfold acquire_replaces. rewrite Hh.
  assert (_stopping s !! acquire_key i = None) as Hst by (eapply b_apart; [apply Hm|done]).
  destruct (dh_owned hd) eqn:Ho.
  - destruct (stop_begins_spec hd h terminated killed s Hh) as (st & es & -> & Hki & Hg). apply stop_goes_sound; [by apply (mine_emits t i s h hd)|done|].
    destruct st as [| | | |[|]]; try done; by apply Hg.
  - apply popped_sound; [done|done|]. intros h' Hs'. assert (h' = h) as -> by congruence. apply (unowned_gone s h hd); [apply Hm|done|done].
Qed.

Lemma base_put s i process : base [] s -> _servers s !! acquire_key i = None -> _stopping s !! acquire_key i = None ->
  match process with Some p => forall k spec, EStart p k spec ∉ effects s | None => True end ->
  let s' := match process with Some p => emit (EStart p (acquire_key i) (launch_specification i)) s | None => s end in
  base [] (add_handle i process s').2 /\ _servers (add_handle i process s').2 !! acquire_key i = Some (add_handle i process s').1 /\
  handles (add_handle i process s').2 !! (add_handle i process s').1 = Some (make_handle i process).
Proof.
  intros [B1 B2 B3 B4 B5 B6 B7 B8 B9 B10 B11] Hs Hst Hp s'. assert (handles s' = handles s) as Eh by by destruct process.
  set (h := new_handle s'). assert (handles s !! h = None) as Hh by (rewrite <-Eh; unfold h, new_handle; apply not_elem_of_dom, is_fresh).
  assert (forall e, e ∈ effects s' <-> e ∈ effects s \/ exists p, process = Some p /\ e = EStart p (acquire_key i) (launch_specification i)) as Hef.
  { intros e. unfold s'. destruct process as [p|]; cbn [effects emit].
    - rewrite elem_of_cons. split; [intros [->|]; [right; eauto|by left]|intros [|(q & [= <-] & ->)]; [by right|by left]].
    - split; [by left|]. intros [|(q & ? & _)]; done. }
  assert (_servers s' = _servers s /\ _stopping s' = _stopping s /\ exited s' = exited s /\ tasks s' = tasks s) as (E1 & E2 & E3 & E4) by by destruct process.
  assert (forall h' hd, <[h := make_handle i process]> (handles s') !! h' = Some hd -> h' = h /\ hd = make_handle i process \/ handles s !! h' = Some hd) as Hfrom.
  { intros h' hd. rewrite Eh, lookup_insert_Some. intros [[<- <-]|[_ H]]; [by left|by right]. }
  assert (forall h' hd, handles s !! h' = Some hd -> <[h := make_handle i process]> (handles s') !! h' = Some hd) as Hto.
  { intros h' hd H. rewrite Eh, lookup_insert_ne; [done|]. congruence. }
  split; [|split; [by cbn; rewrite lookup_insert_eq|by cbn; rewrite lookup_insert_eq]]. unfold add_handle. fold h. cbn [snd]. split; fields; rewrite ?E1, ?E2, ?E3, ?E4; try done.
  - intros k h'. rewrite lookup_insert_Some. intros [[<- <-]|[_ (hd & H & Hk)%B1]]; [exists (make_handle i process); by rewrite lookup_insert_eq|eauto].
  - intros k h' t (hd & st & H1 & H2 & H3)%B2. exists hd, st. split_and!; [by apply Hto|done|done].
  - intros k h'. rewrite lookup_insert_Some. intros [[<- <-]|[_ H]]; [done|by eapply B3].
  - intros t h' st Ht. destruct (B4 t h' st Ht) as [[hd0 Hh0] H4]. split; [exists hd0; by apply Hto|].
    assert (gone s h' -> gone (on_servers <[acquire_key i:=h]> (on_handles <[h:=make_handle i process]> s')) h') as Hgo.
    { intros Hg hd p. fields. rewrite E3. intros [[-> _]|H]%Hfrom Hpr; [congruence|by eapply Hg]. }
    destruct st as [| | | |[]]; auto.
  - intros h' hd p [[-> ->]|H]%Hfrom Hpr; [exists (launch_specification i); apply Hef; right; eauto|]. destruct (B5 _ _ _ H Hpr) as [spec Hsp]. exists spec. apply Hef. by left.
  - intros h' hd [[-> ->]|H]%Hfrom; [done|by eapply B6].
  - intros p k spec [Hin|(q & -> & [= -> -> ->])]%Hef Hn.
    + destruct (B7 p k spec Hin Hn) as (h' & hd & H1 & H2 & H3 & Hd). exists h', hd. split_and!; [by apply Hto|done|done|].
      destruct Hd as [Hd|[Hd|Hd]]; [|by right; left|by apply not_elem_of_nil in Hd]. left. rewrite lookup_insert_ne; [done|]. congruence.
    + exists h, (make_handle i (Some q)). rewrite lookup_insert_eq. split_and!; try done. left. by rewrite lookup_insert_eq.
  - intros p Hk. assert (ETerminate p ∈ effects s \/ EKill p ∈ effects s) as Hk'.
    { rewrite !Hef in Hk. destruct Hk as [[|(q & _ & E)]|[|(q & _ & E)]]; try tauto; discriminate E. }
    destruct (B8 p Hk') as (k & spec & H). exists k, spec. apply Hef. by left.
  - intros h' Hin. by apply not_elem_of_nil in Hin.
  - intros h1 h2 hd1 hd2 Hin. by apply not_elem_of_nil in Hin.
Qed.

Lemma enters_sound t i terminated killed s : sound s -> tasks s !! t = Some (AcquireTask i AEnter) -> guard_free s = true ->
  sound (acquire_enters t i terminated killed s).
Proof.
  intros [Hb Hh] Ht Hg. apply bool_decide_eq_true in Hg. unfold acquire_enters. set (s1 := set_guard (Some t) s).
  assert (mine t i s1) as Hm.
  { split; [by apply base_guard| |by eexists _, _|done]. intros u j st Hu Hst. by rewrite (holds_quiet s Hh Hg _ _ _ Hu) in Hst. }
  case_bool_decide as Hst; [by apply leaves_sound|]. apply eq_None_not_Some in Hst.
  destruct (_servers s1 !! acquire_key i) as [h|] eqn:Hs; [|by apply stays_sound; [|split]].
  destruct (b_server _ _ (mi_base _ _ _ Hm) _ _ Hs) as (hd & Hhd & _). rewrite Hhd. destruct (_ || _); [by apply stays_sound|]. by apply replaces_sound.
Qed.
Lemma probed_current_sound t i h r terminated killed s : sound s -> tasks s !! t = Some (AcquireTask i (AProbeCurrent h)) ->
  sound (acquire_probed_current t i h r terminated killed s).
Proof.
  intros Hs Ht. destruct (mine_now t i _ s Hs Ht eq_refl) as [Hm Hst]. destruct r as [[]|e]; cbn [acquire_probed_current].
  - apply leaves_sound. destruct Hm as [Hb Ha Htk Hg]. split; [|done..]. by apply (base_references [] s h (fun hd => dh_references hd + 1)).
  - by apply replaces_sound.
  - by apply leaves_sound.
Qed.
Lemma put_sound t i process s : mine t i s -> _servers s !! acquire_key i = None -> _stopping s !! acquire_key i = None ->
  match process with Some p => forall k spec, EStart p k spec ∉ effects s | None => True end ->
  let s' := match process with Some p => emit (EStart p (acquire_key i) (launch_specification i)) s | None => s end in
  mine t i (add_handle i process s').2 /\ _servers (add_handle i process s').2 !! acquire_key i = Some (add_handle i process s').1 /\
  handles (add_handle i process s').2 !! (add_handle i process s').1 = Some (make_handle i process).
Proof.
  intros [Hb Ha Ht Hg] H1 H2 H3 s'. destruct (base_put s i process Hb H1 H2 H3) as (Hb' & H4 & H5). split; [|done].
  split; [done| | |]; unfold s'; by destruct process.
Qed.
Lemma probed_sound t i r s : sound s -> tasks s !! t = Some (AcquireTask i AProbe) -> sound (acquire_probed t i r s).
Proof.
  intros Hs Ht. destruct (mine_now t i _ s Hs Ht eq_refl) as [Hm [H1 H2]]. destruct r as [[]|e]; cbn [acquire_probed].
  - case_bool_decide; [by apply leaves_sound|]. destruct (put_sound t i None s Hm H1 H2 I) as (Hm' & _). cbn -[add_handle] in Hm'.
    destruct (add_handle i None s) as [h s1]. by apply leaves_sound.
  - by apply stays_sound.
  - by apply leaves_sound.
Qed.

Lemma start_stop_guard h s : _guard (_start_stop_locked h s).2 = _guard s.
Proof. unfold _start_stop_locked. by destruct (handles s !! h). Qed.
Lemma start_stop_tasks h s u i st : tasks (_start_stop_locked h s).2 !! u = Some (AcquireTask i st) -> tasks s !! u = Some (AcquireTask i st).
Proof.
  unfold _start_stop_locked. destruct (handles s !! h) as [hd|]; [|done]. cbn. destruct (decide (new_task s = u)) as [<-|Hne]; [by rewrite lookup_insert_eq|by rewrite lookup_insert_ne].
Qed.
Lemma start_stop_kept h s u x : tasks s !! u = Some x -> tasks (_start_stop_locked h s).2 !! u = Some x.
Proof.
  intros Hu. unfold _start_stop_locked. destruct (handles s !! h) as [hd|]; [|done]. cbn. rewrite lookup_insert_ne; [done|]. intros E. by rewrite <-E, new_task_fresh in Hu.
Qed.
Lemma gives_up_sound t i h e s : mine t i s -> _servers s !! acquire_key i = Some h -> sound (acquire_gives_up t i h e s).
Proof.
  intros [Hb Ha [j [st Ht]] Hg] Hs. unfold acquire_gives_up. destruct (b_server _ _ Hb _ _ Hs) as (hd & Hh & Hk).
  assert (base [] (_start_stop_locked h (on_servers (delete (acquire_key i)) s)).2) as Hb'.
  { apply base_start_pending. rewrite <-Hk. apply base_take; [done|done|congruence]. }
  pose proof (start_stop_guard h (on_servers (delete (acquire_key i)) s)) as Hg'. pose proof (start_stop_tasks h (on_servers (delete (acquire_key i)) s)) as Ht'.
  pose proof (start_stop_kept h (on_servers (delete (acquire_key i)) s) t _ Ht) as Hk'.
  destruct (_start_stop_locked h _) as [stop s1]. cbn in Hb', Hg', Ht', Hk'. apply stays_sound; [|done].
  split; [done| |by eexists _, _|congruence]. intros u j' st' Hu. apply Ha with (1 := Ht' _ _ _ Hu).
Qed.
Lemma readiness_loop_sound t i h deadline now s : mine t i s -> _servers s !! acquire_key i = Some h -> sound (readiness_loop t i h deadline now s).
Proof.
  intros Hm Hs. unfold readiness_loop. destruct (b_server _ _ (mi_base _ _ _ Hm) _ _ Hs) as (hd & Hh & _). rewrite Hh.
  destruct (now <? deadline); [|by apply gives_up_sound]. destruct (_ && _); [by apply gives_up_sound|]. by apply stays_sound.
Qed.
Lemma launched_false p s : launched p s = false -> forall k spec, EStart p k spec ∉ effects s.
Proof.
  intros H k spec Hin. apply not_true_iff_false in H. apply H. apply existsb_exists. exists (EStart p k spec). split; [by apply list_elem_of_In|apply Nat.eqb_refl].
Qed.
Lemma started_sound default_timeout t i r now s : sound s -> tasks s !! t = Some (AcquireTask i AStarting) ->
  match r with Ok p => launched p s = false | Err _ => True end -> sound (acquire_started default_timeout t i r now s).
Proof.
  intros Hs Ht Hp. destruct (mine_now t i _ s Hs Ht eq_refl) as [Hm [H1 H2]]. destruct r as [p|e]; cbn [acquire_started]; [|by apply leaves_sound].
  destruct (put_sound t i (Some p) s Hm H1 H2 (launched_false p s Hp)) as (Hm' & Hsv & _). cbn -[add_handle] in Hm', Hsv. cbn zeta.
  destruct (add_handle i (Some p) _) as [h s1]. by apply readiness_loop_sound.
Qed.
Lemma quiet_start_stop h s : quiet s -> quiet (_start_stop_locked h s).2.
Proof. intros H u i st Hu. by eapply H, start_stop_tasks. Qed.

(** *** release and close *)

Lemma base_plain l s t x : base l s -> (forall h st, tasks s !! t <> Some (StopTask h st)) -> (forall h st, x <> StopTask h st) -> base l (goto t x s).
Proof. intros Hb Ht Hx. apply base_goto; [done| |]; intros h st E; [by apply Ht in E|by apply Hx in E]. Qed.
Lemma release_waits_sound t h stop s : base [] s -> quiet s -> (forall h st, tasks s !! t <> Some (StopTask h st)) -> sound (goto t (ReleaseTask h (Some stop) None) s).
Proof. intros Hb Hq Ht. split; [by apply base_plain|]. apply quiet_holds. by apply goto_quiet. Qed.
Lemma release_ends_sound t h r s : base [] s -> holds s -> (forall h st, tasks s !! t <> Some (StopTask h st)) -> sound (release_ends t h r s).
Proof. intros Hb Hq Ht. split; [by apply base_plain|]. by apply holds_goto. Qed.
Lemma release_ends_quiet t h r s : base [] s -> quiet s -> (forall h st, tasks s !! t <> Some (StopTask h st)) -> sound (release_ends t h r s).
Proof. intros. apply release_ends_sound; [done|by apply quiet_holds|done]. Qed.
Lemma not_stop_kept h s u x : tasks s !! u = Some x -> (forall h st, x <> StopTask h st) -> forall h' st, tasks (_start_stop_locked h s).2 !! u <> Some (StopTask h' st).
Proof. intros Hu Hx h' st E. rewrite (start_stop_kept h s u x Hu) in E. injection E as ->. by eapply Hx. Qed.

Lemma release_sound t h s : sound s -> tasks s !! t = Some (ReleaseTask h None None) -> guard_free s = true -> sound (release_enters t h s).
Proof.
  intros [Hb Hh] Ht Hg. apply bool_decide_eq_true in Hg. pose proof (holds_quiet s Hh Hg) as Hq. unfold release_enters.
  destruct (handles s !! h) as [hd|] eqn:Hhd; [|by split].
  assert (forall (h : nat) st, tasks s !! t <> Some (StopTask h st)) as Hns by congruence.
  set (unused := match _servers s !! dh_key hd with Some _ => _ | None => _ end).
  assert (sound unused) as Hunused.
  { unfold unused. destruct (_servers s !! dh_key hd) as [h'|] eqn:Hs; [|by apply release_ends_quiet]. destruct (Nat.eqb_spec h' h) as [->|]; [|by apply release_ends_quiet].
    cbn [negb]. set (s1 := on_handles _ s).
    assert (base [] s1) as Hb1 by exact (base_references [] s h (fun _ => Z.max 0 (dh_references hd - 1)) Hb).
    assert (handles s1 !! h = Some (with_references (Z.max 0 (dh_references hd - 1)) hd)) as Hh1 by (unfold s1; fields; by rewrite lookup_alter_eq, Hhd).
    destruct (Z.max 0 (dh_references hd - 1) =? 0); cbn [negb]; [|by apply release_ends_quiet].
    destruct (dh_owned hd) eqn:Ho; cbn [negb].
    - set (s2 := on_servers _ s1). assert (base [] (_start_stop_locked h s2).2) as Hb2 by (apply base_start_pending; by apply (base_take [] s1 h (with_references (Z.max 0 (dh_references hd - 1)) hd))).
      pose proof (quiet_start_stop h s2 Hq) as Hq2. pose proof (not_stop_kept h s2 t _ Ht ltac:(done)) as Hns2. destruct (_start_stop_locked h s2) as [stop s3]. by apply release_waits_sound.
    - apply release_ends_quiet; [|done|done]. apply base_forget; [done|]. intros h' Hs'. change (_servers s !! dh_key hd = Some h') in Hs'. assert (h' = h) as -> by congruence.
      by apply (unowned_gone s1 h (with_references (Z.max 0 (dh_references hd - 1)) hd)). }
  destruct (_stopping s !! dh_key hd) as [[h' stop]|] eqn:Hst; [|done]. destruct (Nat.eqb_spec h' h) as [->|]; [|done].
  destruct (stop_has_failed stop s); [|by apply release_waits_sound].
  assert (base [] (_start_stop_locked h s).2) as Hb2 by (apply (base_start_stop [] s h hd); [done|done|apply not_elem_of_nil|eauto]).
  pose proof (quiet_start_stop h s Hq) as Hq2. pose proof (not_stop_kept h s t _ Ht ltac:(done)) as Hns2. destruct (_start_stop_locked h s) as [stop' s3]. by apply release_waits_sound.
Qed.

Lemma base_clear s : base [] s -> base (map_to_list (_servers s)).*2 (on_servers (fun _ => ∅) s).
Proof.
  intros [B1 B2 B3 B4 B5 B6 B7 B8 B9 B10 B11]. assert (forall h, h ∈ (map_to_list (_servers s)).*2 <-> exists k, _servers s !! k = Some h) as Hin.
  { intros h. rewrite list_elem_of_fmap. split.
    - intros ([k h'] & -> & Hk%elem_of_map_to_list). by exists k.
    - intros [k Hk]. exists (k, h). split; [done|by apply elem_of_map_to_list]. }
  split; fields; try done.
  - intros p k spec He Hn. destruct (B7 p k spec He Hn) as (h & hd & Hh & Hp & Hk & Hd). exists h, hd. split_and!; try done.
    right. destruct Hd as [Hd|[Hd|Hd]]; [right; apply Hin; eauto|by left|by apply not_elem_of_nil in Hd].
  - intros h [k Hk]%Hin. destruct (B1 _ _ Hk) as (hd & Hh & <-). exists hd. split_and!; [done|done|by eapply B3].
  - intros h h' hd hd' [k Hk]%Hin [k' Hk']%Hin Hh Hh' E. destruct (B1 _ _ Hk) as (x & Hx & <-), (B1 _ _ Hk') as (x' & Hx' & <-). simplify_eq. congruence.
  - apply NoDup_fmap_2_strong; [|apply NoDup_map_to_list]. intros [k h] [k' h'] Hk%elem_of_map_to_list Hk'%elem_of_map_to_list E. cbn in E. subst h'.
    destruct (B1 _ _ Hk) as (x & Hx & <-), (B1 _ _ Hk') as (x' & Hx' & <-). by simplify_eq.
Qed.
Lemma base_drop l s h hd : base (h :: l) s -> handles s !! h = Some hd -> dh_owned hd = false -> base l s.
Proof.
  intros [B1 B2 B3 B4 B5 B6 B7 B8 B9 B10 B11] Hh Ho. apply NoDup_cons in B11 as [Hni Hnd]. split; try done.
  - intros p k spec He Hn. destruct (B7 p k spec He Hn) as (h' & hd' & Hh' & Hp & Hk & Hd). exists h', hd'. split_and!; try done.
    destruct Hd as [Hd|[Hd|[->|Hd]%elem_of_cons]]; [by left|by right; left| |by right; right]. simplify_eq. rewrite (B6 _ _ Hh), Hp in Ho. done.
  - intros h' Hin. apply B9. by right.
  - intros h1 h2 hd1 hd2 Hi1 Hi2. apply B10; by right.
Qed.

(** Stops begin; everything else stays. *)
Record begins (s s' : pool) : Prop := {
  be_quiet : quiet s -> quiet s';
  be_kept : forall u x, tasks s !! u = Some x -> tasks s' !! u = Some x;
  be_handles : handles s' = handles s;
}.
Lemma begins_refl s : begins s s.
Proof. by split. Qed.
Lemma begins_trans s s' s'' : begins s s' -> begins s' s'' -> begins s s''.
Proof. intros [A1 A2 A3] [B1 B2 B3]. split; auto. congruence. Qed.
Lemma begins_stop h s : begins s (_start_stop_locked h s).2.
Proof. split; [apply quiet_start_stop|apply start_stop_kept|]. unfold _start_stop_locked. by destruct (handles s !! h). Qed.

Lemma close_stopping_base hs l s : base hs s -> (forall k h t, (k, (h, t)) ∈ l -> exists t', _stopping s !! k = Some (h, t')) ->
  base hs (close_stopping l s).2 /\ begins s (close_stopping l s).2.
Proof.
  revert s. induction l as [|[k [h stop]] l IH]; intros s Hb Hl; [split; [done|apply begins_refl]|]. cbn [close_stopping].
  destruct (Hl k h stop ltac:(left)) as [t' Ht']. destruct (b_stopping _ _ Hb _ _ _ Ht') as (hd & st & Hh & Hk & _). subst k.
  assert (forall k1 h1 t1, (k1, (h1, t1)) ∈ l -> exists t', _stopping s !! k1 = Some (h1, t')) as Hl' by (intros k1 h1 t1 Hin; apply (Hl k1 h1 t1); by right).
  destruct (stop_has_failed stop s).
  - assert (base hs (_start_stop_locked h s).2) as Hb1.
    { apply (base_start_stop hs s h hd); [done|done| |eauto]. intros Hin. destruct (b_pending _ _ Hb h Hin) as (hd' & Hh' & _ & Hn). by simplify_eq. }
    assert (forall k1 h1 t1, (k1, (h1, t1)) ∈ l -> exists t', _stopping (_start_stop_locked h s).2 !! k1 = Some (h1, t')) as Hl1.
    { intros k1 h1 t1 Hin. destruct (Hl' k1 h1 t1 Hin) as [t2 Ht2]. unfold _start_stop_locked. rewrite Hh. cbn. destruct (decide (dh_key hd = k1)) as [<-|Hne].
      - rewrite lookup_insert_eq. rewrite Ht' in Ht2. injection Ht2 as -> _. by eexists.
      - rewrite lookup_insert_ne by done. by eexists. }
    pose proof (begins_stop h s) as Hbe. destruct (_start_stop_locked h s) as [t s1]. destruct (IH s1 Hb1 Hl1) as [H1 H2].
    destruct (close_stopping l s1) as [ts s2]. split; [exact H1|]. by apply (begins_trans s s1).
  - destruct (IH s Hb Hl') as [H1 H2]. by destruct (close_stopping l s) as [ts s2].
Qed.
Lemma close_servers_base hs s : base hs s -> base [] (close_servers hs s).2 /\ begins s (close_servers hs s).2.
Proof.
  revert s. induction hs as [|h hs IH]; intros s Hb; [split; [done|apply begins_refl]|]. cbn [close_servers].
  destruct (b_pending _ _ Hb h ltac:(left)) as (hd & Hh & _). rewrite Hh. destruct (dh_owned hd) eqn:Ho.
  - pose proof (base_start_pending _ _ _ Hb) as Hb1. pose proof (begins_stop h s) as Hbe. destruct (_start_stop_locked h s) as [t s1]. destruct (IH s1 Hb1) as [H1 H2].
    destruct (close_servers hs s1) as [ts s2]. split; [exact H1|]. by apply (begins_trans s s1).
  - apply IH. by apply (base_drop _ _ h hd).
Qed.
Lemma close_sound t s : sound s -> tasks s !! t = Some (CloseTask None None) -> guard_free s = true -> sound (close_enters t s).
Proof.
  intros [Hb Hh] Ht Hg. apply bool_decide_eq_true in Hg. pose proof (holds_quiet s Hh Hg) as Hq. unfold close_enters.
  pose proof (base_clear s Hb) as Hb0. set (hs := (map_to_list (_servers s)).*2) in *. set (s0 := on_servers _ s) in *.
  destruct (close_stopping_base hs (map_to_list (_stopping s0)) s0 Hb0) as [Hb1 Hbe1]; [intros k h u Hin%elem_of_map_to_list; by exists u|].
  destruct (close_stopping _ s0) as [ts s1]. cbn in Hb1, Hbe1. destruct (close_servers_base hs s1 Hb1) as [Hb2 Hbe2]. destruct (close_servers hs s1) as [ts' s2]. cbn in Hb2, Hbe2.
  pose proof (be_kept _ _ (begins_trans _ _ _ Hbe1 Hbe2) t _ Ht) as Hk. split.
  - apply base_plain; [done|congruence|done].
  - apply quiet_holds, goto_quiet; [|done]. by apply (be_quiet _ _ (begins_trans _ _ _ Hbe1 Hbe2)).
Qed.

(** *** Every event *)

Lemma stop_task_sound t h st s hd es : sound s -> handles s !! h = Some hd -> kills hd es -> stop_goes s h st -> (exists st0, tasks s !! t = Some (StopTask h st0)) ->
  sound (goto t (StopTask h st) (emits es s)).
Proof.
  intros [Hb Hh] Hhd Hk Hg [st0 Ht]. split; [|by apply holds_goto].
  apply base_goto; [by apply (base_emits [] s es h hd)| |].
  - intros h' st' E. cbn in E. rewrite Ht in E. injection E as <- <-. by eexists.
  - intros h' st' [= <- <-]. split; [by eexists|]. by destruct st as [| | | |[]].
Qed.
Lemma acquire_ends_sound t i st r s : sound s -> tasks s !! t = Some (AcquireTask i st) -> sound (acquire_ends t i r s).
Proof. intros [Hb Hh] Ht. split; [apply base_acquire; [done|by eexists _, _]|by apply holds_goto]. Qed.
Lemma spawn_sound x s : sound s -> unguarded x -> (forall h st, x <> StopTask h st) -> sound (goto (new_task s) x s).
Proof. intros [Hb Hh] Hx Hns. split; [|by apply holds_goto]. apply base_plain; [done| |done]. intros h st E. by rewrite new_task_fresh in E. Qed.
Lemma plain_sound t x s : sound s -> unguarded x -> (forall h st, tasks s !! t <> Some (StopTask h st)) -> (forall h st, x <> StopTask h st) -> sound (goto t x s).
Proof. intros [Hb Hh] Hx Ht Hns. split; [by apply base_plain|by apply holds_goto]. Qed.

Lemma succeeded_task s t : stop_has_succeeded t s = true -> exists h, tasks s !! t = Some (StopTask h (SEnded (Ok tt))).
Proof.
  unfold stop_has_succeeded, stop_ended. destruct (tasks s !! t) as [[| |h st|]|]; try done. destruct st as [| | | |[[]|]]; try done. by exists h.
Qed.
(** A stop that has succeeded may leave the table. *)
Lemma forget_sound s k h t : base [] s -> _stopping s !! k = Some (h, t) -> stop_has_succeeded t s = true -> base [] (on_stopping (delete k) s).
Proof.
  intros Hb Hk Hs. apply base_forget_stopping; [done|]. intros h' t' Hk'. rewrite Hk in Hk'. injection Hk' as <- <-. destruct (succeeded_task s t Hs) as [h'' Ht].
  destruct (b_stopping _ _ Hb _ _ _ Hk) as (hd & st & _ & _ & Ht'). rewrite Ht in Ht'. injection Ht' as -> _. by destruct (b_stop _ _ Hb _ _ _ Ht).
Qed.
Lemma holds_forget_stopping s k : holds s -> holds (on_stopping (delete k) s).
Proof.
  intros H t i st Ht Hst. destruct (H t i st Ht Hst) as [Hg Hok]. split; [done|]. destruct st; try done; cbn [stage_ok] in *; fields; destruct Hok as [H1 H2]; (split; [done|]).
  all: first [exact H2|destruct (decide (k = acquire_key i)) as [->|]; [by rewrite lookup_delete_eq|by rewrite lookup_delete_ne]].
Qed.
Lemma looks_sound t i s : sound s -> tasks s !! t = Some (AcquireTask i ALook) -> sound (acquire_looks t i s).
Proof.
  intros [Hb Hh] Ht. unfold acquire_looks. assert (forall (h : nat) st, tasks s !! t <> Some (StopTask h st)) as Hns by congruence.
  destruct (_stopping s !! acquire_key i) as [[h stop]|] eqn:Hst; [destruct (stop_has_succeeded stop s) eqn:Hs|].
  - apply plain_sound; [|done|done|done]. split; [by eapply forget_sound|by apply holds_forget_stopping].
  - by apply plain_sound.
  - by apply plain_sound.
Qed.
Lemma completed_sound t h s : sound s -> sound (completed t h s).
Proof.
  intros [Hb Hh]. unfold completed. destruct (handles s !! h) as [hd|] eqn:Hhd; [|by split]. destruct (stop_has_succeeded t s) eqn:Hs; [|by split]. cbn [andb].
  case_bool_decide as Hst; [|by split]. destruct (_stopping s !! dh_key hd) as [[h' t']|] eqn:E; [|done]. cbn in Hst. injection Hst as ->.
  split; [by eapply forget_sound|by apply holds_forget_stopping].
Qed.
Lemma exits_sound p s : sound s -> sound (on_exited (fun x => {[p]} ∪ x) s).
Proof.
  intros [[B1 B2 B3 B4 B5 B6 B7 B8 B9 B10 B11] Hh]. assert (forall h, gone s h -> gone (on_exited (fun x => {[p]} ∪ x) s) h) as Hg.
  { intros h H hd q Hhd Hq. fields. apply elem_of_union_r. by eapply H. }
  split.
  - split; fields; try done.
    + intros t h st Ht. destruct (B4 t h st Ht) as [H1 H2]. split; [done|]. destruct st as [| | | |[]]; auto.
    + intros q k spec He Hn. apply (B7 q k spec He). set_solver.
  - intros t i st Ht Hst. destruct (Hh t i st Ht Hst) as [H1 H2]. split; [done|]. destruct st as [| | | | |h st| | | | |]; try done. destruct H2 as [H2 H3]. split; [done|]. destruct st; auto.
Qed.

Ltac at_task Ht := match goal with |- context [tasks ?s !! ?t] => destruct (tasks s !! t) as [[i st|h st rr|h st|st rr]|] eqn:Ht; try done end.

Lemma event_sound default_timeout s e : sound s -> sound (step default_timeout s e).
Proof.
  intros Hs. pose proof Hs as [Hb Hh]. destruct e; cbn [step].
  - by apply spawn_sound.
  - at_task Ht. destruct st; try done. destruct (guard_free s); [|done]. by apply looks_sound.
  - at_task Ht.
    + destruct st; try done.
      * unfold acquire_stop_seen. destruct interrupted; [by eapply acquire_ends_sound|]. destruct (stop_ended stop s) as [[|]|]; [|by eapply acquire_ends_sound|done].
        apply plain_sound; [done|done|congruence|done].
      * destruct (mine_now t i _ s Hs Ht eq_refl) as [Hm _]. unfold acquire_gave_up. destruct interrupted; [by apply leaves_sound|].
        destruct (stop_ended stop s) as [[|]|]; [by apply leaves_sound..|done].
    + destruct st as [stop|], rr; try done. unfold release_seen. assert (forall (h : nat) st, tasks s !! t <> Some (StopTask h st)) by congruence.
      destruct interrupted; [by apply release_ends_sound|]. destruct (stop_ended stop s) as [[|]|]; [by apply release_ends_sound..|done].
    + destruct st as [stops|], rr; try done. destruct interrupted; [apply plain_sound; [done|done|congruence|done]|]. unfold close_seen. destruct (forallb _ _); [|done].
      apply plain_sound; [done|done|congruence|done].
  - at_task Ht. destruct st; try done. destruct (guard_free s) eqn:Hg; [|done]. by apply enters_sound.
  - at_task Ht.
    + destruct st; try done; by eapply acquire_ends_sound.
    + destruct st, rr; try done. apply release_ends_sound; [done|done|congruence].
    + destruct st, rr; try done. apply plain_sound; [done|done|congruence|done].
  - at_task Ht. destruct st; try done; [by apply probed_current_sound|by apply probed_sound|].
    destruct (mine_now t i _ s Hs Ht eq_refl) as [Hm Hst]. destruct r as [[]|e]; cbn; [by apply leaves_sound|by apply stays_sound|by apply gives_up_sound].
  - at_task Ht. destruct st as [| | | |h st| | | | | |]; try done. destruct (mine_now t i _ s Hs Ht eq_refl) as [Hm [Hst _]].
    destruct (b_server _ _ Hb _ _ Hst) as (hd & Hhd & _). unfold handle_of. rewrite Hhd.
    destruct st; try done; destruct (stop_waited_spec hd h STerminated w killed s Hhd) as (st' & es & E & Hk & Hg).
    + rewrite E. apply stop_goes_sound; [by apply (mine_emits t i s h hd)|done|by destruct st' as [| | | |[]]].
    + clear E. destruct (stop_waited_spec hd h SKilled w killed s Hhd) as (st2 & es2 & E & Hk2 & Hg2). rewrite E.
      apply stop_goes_sound; [by apply (mine_emits t i s h hd)|done|by destruct st2 as [| | | |[]]].
  - at_task Ht. destruct st as [| | | |h st| | | | | |]; try done. destruct st; try done. destruct (mine_now t i _ s Hs Ht eq_refl) as [Hm [Hst Hg]].
    apply stop_goes_sound; [done|done|]. unfold readers_end. by destruct interrupted.
  - at_task Ht. destruct st; try done. destruct r as [p|e].
    + destruct (launched p s || _) eqn:Hp; [done|]. apply orb_false_iff in Hp as [Hp _]. by apply started_sound.
    + by apply started_sound.
  - at_task Ht. destruct st; try done. destruct (mine_now t i _ s Hs Ht eq_refl) as [Hm Hst]. destruct r; cbn; [by apply readiness_loop_sound|by apply gives_up_sound].
  - case_bool_decide; [|done]. by apply spawn_sound.
  - at_task Ht. destruct st, rr; try done. destruct (guard_free s) eqn:Hg; [|done]. by apply release_sound.
  - by apply spawn_sound.
  - at_task Ht. destruct st, rr; try done. destruct (guard_free s) eqn:Hg; [|done]. by apply close_sound.
  - at_task Ht. destruct st; try done. destruct (b_stop _ _ Hb _ _ _ Ht) as [[hd Hhd] _]. unfold handle_of. rewrite Hhd.
    destruct (stop_begins_spec hd h terminated killed s Hhd) as (st' & es & E & Hk & Hg). rewrite E. apply (stop_task_sound t h st' s hd es); [done|done|done| |by eexists].
    destruct (dh_owned hd) eqn:Ho; [by apply Hg|]. pose proof (unowned_gone s h hd Hb Hhd Ho). by destruct st' as [| | | |[]].
  - at_task Ht. destruct st; try done; destruct (b_stop _ _ Hb _ _ _ Ht) as [[hd Hhd] _]; unfold handle_of; rewrite Hhd.
    + destruct (stop_waited_spec hd h STerminated w killed s Hhd) as (st' & es & E & Hk & Hg). rewrite E. apply (stop_task_sound t h st' s hd es); [done|done|done|done|by eexists].
    + destruct (stop_waited_spec hd h SKilled w killed s Hhd) as (st' & es & E & Hk & Hg). rewrite E. apply (stop_task_sound t h st' s hd es); [done|done|done|done|by eexists].
  - at_task Ht. destruct st; try done. destruct (b_stop _ _ Hb _ _ _ Ht) as [[hd Hhd] Hg].
    assert (s = emits [] s) as Es by by destruct s. rewrite Es. apply (stop_task_sound t h _ s hd []); [done|done|by intros ? ?%not_elem_of_nil| |by eexists].
    unfold readers_end. by destruct interrupted.
  - at_task Ht. destruct st; try done. by apply completed_sound.
  - by apply exits_sound.
Qed.

Lemma initial_sound : sound initial.
Proof. split; [split|]; try done; try (intros *; intros H; by apply not_elem_of_nil in H); [|by constructor]. intros p [H|H]; by apply not_elem_of_nil in H. Qed.

(** A process Codito has started and that has not exited. *)
Definition process_runs (s : pool) (p : nat) (key : str) : Prop := (exists spec, EStart p key spec ∈ effects s) /\ p ∉ exited s.
Definition process_tracked (s : pool) (p : nat) (key : str) : Prop :=
  exists h hd, handles s !! h = Some hd /\ dh_process hd = Some p /\ (_servers s !! key = Some h \/ exists t, _stopping s !! key = Some (h, t)).

(** C21. In every history of the development servers no process is lost or
    doubled: a process that was started and has not exited belongs to a server
    of the table or to one that is being stopped, a key has at most one such
    process, and no process is told to end that was not started here. *)
Theorem processes_are_tracked default_timeout l : let s := run default_timeout initial l in
  (forall p key, process_runs s p key -> process_tracked s p key) /\
  (forall p q key, process_runs s p key -> process_runs s q key -> p = q) /\
  (forall p, ETerminate p ∈ effects s \/ EKill p ∈ effects s -> exists key spec, EStart p key spec ∈ effects s).
Proof.
  assert (forall l s, sound s -> sound (run default_timeout s l)) as Hrun.
  { induction l0 as [|e l0 IH]; intros s Hs; [done|]. cbn. by apply IH, event_sound. }
  intros s. destruct (Hrun l initial initial_sound) as [Hb _]. fold s in Hb.
  assert (forall p key, process_runs s p key -> process_tracked s p key) as Htr.
  { intros p key [[spec Hp] Hn]. destruct (b_live _ _ Hb p key spec Hp Hn) as (h & hd & Hh & Hpr & _ & Hd). exists h, hd. split_and!; try done.
    destruct Hd as [|[|Hd]]; [by left|by right|by apply not_elem_of_nil in Hd]. }
  split_and!; [exact Htr| |apply (b_kill _ _ Hb)].
  intros p q key Hp Hq. apply Htr in Hp as (h & hd & Hh & Hpr & Hd), Hq as (h' & hd' & Hh' & Hpr' & Hd').
  assert (h = h') as <-; [|congruence].
  destruct Hd as [Hd|[t Hd]], Hd' as [Hd'|[t' Hd']]; [congruence| | |congruence].
  - rewrite (b_apart _ _ Hb _ _ Hd) in Hd'. done.
  - rewrite (b_apart _ _ Hb _ _ Hd') in Hd. done.
Qed.

(** *** A sample history *)

Definition sample_acquire : acquire_info :=
  {| aq_project := {| project_id := lit "p1"; title := lit "P"; root := lit "C:/srv"; root_fingerprint := lit "7:9"; mode := NATIVE_APPROVAL; enabled := true |};
     aq_config := {| fc_working_relative := [DOT]; fc_working_directory := lit "C:/srv"; fc_command := lit "npm run dev";
                     fc_base_url := lit "http://localhost:5173"; fc_source := AUTO_SOURCE |};
     aq_timeout := Some 30000000 |}.
(** A start that does not become ready, and whose process cannot be stopped. *)
Definition sample_events : list event :=
  [Acquire sample_acquire; Looks 0; Enters 0 true true; Probed 0 (Ok false) true true; Spawned 0 (Ok 5%nat) 10;
   Probed 0 (Ok false) true true; Woken 0 (Ok tt) 40000000; StopBegins 1 true true; StopWaited 1 Failed true; StopWaited 1 Failed true; StopSeen 0 false].
Local Notation sample_pool := (run 45000000 initial sample_events).

Lemma processes_are_tracked_witness : process_runs sample_pool 5 (acquire_key sample_acquire) /\ process_tracked sample_pool 5 (acquire_key sample_acquire).
Proof.
  assert (process_runs sample_pool 5 (acquire_key sample_acquire)) as H.
  { split; [|vm_compute; intros H; discriminate H]. exists (launch_specification sample_acquire). apply list_elem_of_lookup. exists 2%nat. vm_compute. reflexivity. }
  split; [exact H|]. destruct (processes_are_tracked 45000000 sample_events) as [Ht _]. exact (Ht _ _ H).
Defined.
